(* ===== verification/_CoqProject ===== *)
-Q . S2P
Prelude.v
Errors.v
ConstantTime.v
Bits.v
Base32.v
Hash.v
Secret.v
Digits.v
Strings.v
Context.v
Hotp.v
Float64.v
Skew.v
Totp.v
Lifecycle.v
ReplayStore.v
Verifier.v
Locking.v
Login.v
Provisioning.v
Base64.v
Url.v
Migration.v
Key.v
Config.v
Batch.v
Metrics.v
Json.v
Wasm.v
WasmFlow.v
