(* ===== verification/Prelude.v ===== *)
(** * genotp-go: a verification development

    A model of the Go package [genotp] (one-time passwords: HOTP of RFC 4226
    and TOTP of RFC 6238, bound to a context, with replay protection, rate
    limiting, provisioning and migration URIs, and a WebAssembly front end), and
    the theorems that make it correct.  Sources are under [src/]; names are the
    source's, a trailing underscore avoiding Rocq keywords ([Digits_],
    [Record_]); methods of the two builders are in modules.

    ** How the program is modelled

    Integers are [Z]; every conversion and overflowing operation writes its
    wrap-around out ([u8], [u32], [u64], [i64]; Go's [int] has 64 bits).
    Strings and the contents of byte slices are [list byte].  A function that
    can fail or panic returns an [outcome]: [Ret], [Err] with the error value,
    or [Panic].  A method is a state-passing computation [GoM S A] whose state
    survives errors and panics; [zoom] runs a method of a part on the whole.
    The memory that slices alias is explicit: a [world] ([Secret]) has a heap of
    buffers, the wall clock and the state of the code behind the provider
    interfaces, so zeroing a secret is seen through every alias.  Go maps are
    stdpp's [gmap]; where iteration order could matter, orders are quantified
    over ([Context.BuildInOrder]).

    ** The parts

    - [Prelude]: bytes, machine integers, [outcome] and the monad, shared lemmas.
    - [Errors] ([error.go], [algorithm.go]): error values, [errors.Is], algorithms.
    - [ConstantTime] ([constant_time.go], and the copy in [wasm/main.go]).
    - [Bits], [Base32] ([base32.go]): the decoder's 64-bit shift register
      against bit strings.
    - [Hash]: [crypto/hmac] over an abstract family of hash functions
      ([HashSuite]); SHA-1, SHA-256 and SHA-512 as a concrete family [Sha].
    - [Secret] ([secret_runtime.go], [provider.go]): the heap, static secrets
      and the two provider interfaces with their contracts as classes.
    - [Digits] ([dynamicTruncate], [formatOTP] of [hotp.go]): from a MAC to
      digits, and the reference function [otp_code].
    - [Strings]: the standard library's string and UTF-8 functions.
    - [Context] ([context.go]): the builder and its serialisation.
    - [Hotp] ([hotp.go]), [Totp] ([totp.go]): the objects with their
      [sync.Pool] of keyed MACs and their [cleared] flag, all constructors and
      operations.  Verification is proved against the class [CodeSource]; the
      invariants [static_inv], [provider_inv] and [totp_inv] discharge it.
    - [Lifecycle]: sequences of operations on one object (for TOTP with its
      detector and a clock that may jump), against an automaton; type safety.
    - [Float64], [Skew] ([skew.go]): the ring of matched offsets, the moving
      average in binary64, the report; [Totp.VerifyTracking] calls it.
      [Float64] proves division of integers below 2^53 correctly rounded.
    - [ReplayStore] ([replay_store.go]): the interface, its contract as the
      class [ReplayStoreLaws], and the in-memory store that discharges it.
    - [Verifier] ([verifier.go]): [verifyInner] over any store; concurrent calls
      as a step relation whose steps are the critical sections.
    - [Locking] (the [sync.Mutex] fields of [verifier.go] and
      [replay_store.go]): the same methods as goroutines run them, one
      instruction at a time with both mutexes explicit; deadlock freedom, data
      race freedom, and the proof that they refine the relation of [Verifier].
    - [Login]: [Totp] and [Verifier] together, as [docs/usage.md] uses them.
    - [Provisioning] ([provisioning.go]): the URI builder and a reference parser.
    - [Base64], [Url], [Migration] ([migration.go]): the standard-library codecs,
      and the protobuf encoder and decoder of accounts and payloads.
    - [Key] ([key.go]), [Config] ([config.go], [builder.go], [helpers.go]),
      [Batch] ([batch.go]), [Metrics] ([metrics.go]).
    - [Json], [Wasm], [WasmFlow] ([wasm/main.go]): [encoding/json] as the entry
      points use it, the entry points over the module's two buffers, and a
      host's calls.

    ** What the theorems show

    - Functional: the vectors of both RFCs under every pool policy; what each
      [Verify], [VerifyWithResync], [VerifyTracking], [verifyInner],
      [DecodeBase32], [Report], batch method and entry point answers, on every
      branch, errors included.
    - Refinement and equivalence: objects against the automaton; TOTP against
      HOTP; instructions under locks against atomic critical sections; providers against static secrets; the in-memory store against an
      unbounded map; the ring against the list of recent records; the
      truncation against RFC 4226; one goroutine alone against the sequential
      model.
    - Safety: in every interleaving a (code, context) is accepted once within
      its time to live, as long as the store does not have to evict it; no data
      race on the attempt counter or the store; lock-out cannot be bypassed; contexts are isolated; the
      answer is all that depends on the submitted code; WebAssembly calls
      return on all inputs.
    - Types: over any runtime whose providers return, no sequence of operations
      panics (with a detector of non-zero capacity) and codes have exactly the
      configured number of digits.
    - Invariants and bounds: store size, map and list in step; submissions that
      pass the limit check before one is accepted; no index out of range.
    - Liveness and termination: concurrent calls of the verifier never deadlock
      and all complete, in at most 17 steps each; the parser of migration URIs
      ends on every input.
    - Round trips: base32, base64, contexts, both kinds of URI, varints, JSON,
      a WebAssembly session from request text to response text.
    - Defects the proofs met are theorems too: [DecodeBase32_high_bytes],
      [Build_collides], [VerifyTracking_half_drift], [CheckAndRecord_ttl_overflow],
      [TOTP_verify_top], [HOTP_shared_secret_hazard].

    ** Fuel and bounds

    Recursion is structural on the data or on the number of iterations left of
    a [for] loop.  The rest has fuel that is proved enough: 20 digits for
    [FormatUint] and 10 bytes for a varint, both of a 64-bit number; the length
    of the input for the loops over runes, JSON text and protobuf fields, each
    round of which consumes a byte ([Json.strChars_fuel], [Json.members_fuel],
    [ParseOtpAuthMigrationURI_total]); Go's own nesting limit of 10000 for JSON
    values.

    ** Parameters

    The hash functions ([HashSuite]); which idle buffer a pool hands out
    ([PoolPolicy]); the providers; the random source ([RandSource], which may
    fail); [unicode.ToLower] beyond ASCII ([UnicodeTables]); the validity checks
    of [url.Parse] on authority, path and fragment ([UrlChecks]); the texts of
    JSON decoding errors ([JsonErrors]); the addresses of WebAssembly buffers
    ([Placement]); custom replay stores ([ReplayStore]).  Contracts are classes
    of documented behaviour, each with a concrete instance in the witnesses.

    ** Not modelled

    The tests, fuzz targets and examples.  The clock does not advance during
    one call.  Concurrency is modelled where the code is meant for it: the
    verifier, the in-memory store and the atomic counters of [Metrics] (the
    mutex of [skew.go] and its atomics are taken as one step per call); the
    objects of [hotp.go] and [totp.go] are used by one caller at a time, their
    pools standing for the buffers other callers returned.  Timing is not
    modelled: the constant-time comparisons are proved to compute equality, and
    [Verify] to leave no trace of the code but its answer.  Memory exhaustion
    and Go's garbage collector are outside the model. *)
From Stdlib Require Export ZArith Lia Strings.Byte.
From stdpp Require Export base numbers list gmap strings option sorting.

#[global] Open Scope Z_scope.

(** ** Bytes

    A Go [byte] is a [Byte.byte]; a Go [string] and the contents of a [[]byte]
    are both a [list Byte.byte].  Arithmetic on bytes goes through [b2z]/[z2b]
    and wraps modulo 2^8 like Go's conversions do. *)
Abbreviation byte := Byte.byte.
Abbreviation bytes := (list Byte.byte).

#[global] Instance byte_eq_dec : EqDecision byte := Byte.byte_eq_dec.

Definition b2z (b : byte) : Z := Z.of_N (Byte.to_N b).

(** Go's [byte(x)]: truncation to the low eight bits. *)
Definition z2b (z : Z) : byte :=
  match Byte.of_N (Z.to_N (z mod 256)) with
  | Some b => b
  | None => Byte.x00
  end.

(** String literals of the source, as the bytes they denote. *)
Definition lit (s : string) : bytes := String.list_byte_of_string s.

Definition all_bytes : list byte := z2b <$> seqZ 0 256.

(** ** Machine integers

    Every Go integer is a [Z] kept in range by the conversions below, which
    write the wrap-around out: [uint8]/[uint32]/[uint64] and two's-complement
    [int64] (also Go's [int], the targets being 64-bit). *)
Definition u8 (z : Z) : Z := z mod 2 ^ 8.
Definition u32 (z : Z) : Z := z mod 2 ^ 32.
Definition u64 (z : Z) : Z := z mod 2 ^ 64.
Definition i32 (z : Z) : Z := (z + 2 ^ 31) mod 2 ^ 32 - 2 ^ 31.
Definition i64 (z : Z) : Z := (z + 2 ^ 63) mod 2 ^ 64 - 2 ^ 63.

(** ** Outcomes

    What a Go call can do: return, return an error, or panic. *)
Inductive outcome (E A : Type) : Type :=
| Ret (a : A)
| Err (e : E)
| Panic.
Arguments Ret {E A} a.
Arguments Err {E A} e.
Arguments Panic {E A}.

#[global] Instance outcome_ret E : MRet (outcome E) := fun A a => Ret a.
#[global] Instance outcome_bind E : MBind (outcome E) := fun A B f o =>
  match o with Ret a => f a | Err e => Err e | Panic => Panic end.
#[global] Instance outcome_fmap E : FMap (outcome E) := fun A B f o =>
  match o with Ret a => Ret (f a) | Err e => Err e | Panic => Panic end.
#[global] Instance outcome_eq_dec E A `{EqDecision E, EqDecision A} : EqDecision (outcome E A).
Proof. solve_decision. Defined.

(** ** State passing

    Code that mutates its receiver or the heap is a function from the state
    before to the outcome and the state after; the state survives an error. *)
Definition M (S E A : Type) : Type := S -> outcome E A * S.

#[global] Instance M_ret S E : MRet (M S E) := fun A a s => (Ret a, s).
#[global] Instance M_bind S E : MBind (M S E) := fun A B f m s =>
  match m s with
  | (Ret a, s') => f a s'
  | (Err e, s') => (Err e, s')
  | (Panic, s') => (Panic, s')
  end.

Definition fail {S E A} (e : E) : M S E A := fun s => (Err e, s).
Definition panic {S E A} : M S E A := fun s => (Panic, s).
Definition get {S E} : M S E S := fun s => (Ret s, s).
Definition put {S E} (s : S) : M S E unit := fun _ => (Ret tt, s).
Definition gets {S E A} (f : S -> A) : M S E A := fun s => (Ret (f s), s).
Definition modify {S E} (f : S -> S) : M S E unit := fun s => (Ret tt, f s).
Definition lift {S E A} (o : outcome E A) : M S E A := fun s => (o, s).

(** Run a computation on a part of the state. *)
Definition zoom {S T E A} (proj : S -> T) (upd : T -> S -> S) (m : M T E A) : M S E A :=
  fun s => let '(o, t) := m (proj s) in (o, upd t s).

Definition is_ret {E A} (o : outcome E A) : bool :=
  match o with Ret _ => true | _ => false end.
Definition is_panic {E A} (o : outcome E A) : bool :=
  match o with Panic => true | _ => false end.

(** ** Automation *)
Create HintDb genotp.
Create Rewrite HintDb go_int.

(** Linear arithmetic over [/] and [mod] by constants. *)
Ltac zdiv := Z.div_mod_to_equations; lia.
(** Split every [if]/[match] of the goal, closing what is immediate. *)
Ltac splits := repeat (case_match; simplify_eq/=; try done).

(** ** Running monadic code *)
Lemma run_bind {S E A B} (m : M S E A) (f : A -> M S E B) s a s' :
  m s = (Ret a, s') -> (m ≫= f) s = f a s'.
Proof. unfold mbind, M_bind. by intros ->. Qed.

Lemma run_bind_err {S E A B} (m : M S E A) (f : A -> M S E B) s e s' :
  m s = (Err e, s') -> (m ≫= f) s = (Err e, s').
Proof. unfold mbind, M_bind. by intros ->. Qed.

Lemma run_gets {S E A B} (g : S -> A) (f : A -> M S E B) s :
  (gets g ≫= f) s = f (g s) s.
Proof. done. Qed.

(** ** Lemmas on bytes *)
Lemma b2z_range b : 0 <= b2z b < 256.
Proof. unfold b2z. pose proof (Byte.to_N_bounded b). lia. Qed.

Lemma z2b_b2z b : z2b (b2z b) = b.
Proof.
  unfold z2b. rewrite Z.mod_small by apply b2z_range.
  unfold b2z. rewrite N2Z.id, Byte.of_to_N. done.
Qed.

Lemma b2z_z2b z : b2z (z2b z) = z mod 256.
Proof.
  unfold z2b, b2z. pose proof (Z.mod_pos_bound z 256 eq_refl).
  destruct (Byte.of_N _) as [b|] eqn:E.
  - apply Byte.to_of_N in E. rewrite E. lia.
  - apply Byte.of_N_None_iff in E. lia.
Qed.

Lemma b2z_z2b_small z : 0 <= z < 256 -> b2z (z2b z) = z.
Proof. intros H. rewrite b2z_z2b. by apply Z.mod_small. Qed.

#[global] Instance b2z_inj : Inj (=) (=) b2z.
Proof. intros x y E. by rewrite <-(z2b_b2z x), <-(z2b_b2z y), E. Qed.

#[global] Program Instance byte_countable : Countable byte :=
  inj_countable' b2z z2b z2b_b2z.

Lemma elem_of_all_bytes b : b ∈ all_bytes.
Proof.
  unfold all_bytes. apply list_elem_of_fmap. exists (b2z b).
  split; [by rewrite z2b_b2z|]. apply elem_of_seqZ. pose proof (b2z_range b). lia.
Qed.

(** A boolean fact about all bytes is checked by running through them. *)
Lemma byte_all (P : byte -> bool) : forallb P all_bytes = true -> forall b, P b = true.
Proof.
  intros H b. rewrite forallb_forall in H. apply H, list_elem_of_In, elem_of_all_bytes.
Qed.

(** The integers from [a] to [b]. *)
Definition zrange (a b : Z) : list Z := seqZ a (b - a + 1).

Lemma zrange_In a b z : In z (zrange a b) <-> a <= z <= b.
Proof. unfold zrange. rewrite <-list_elem_of_In, elem_of_seqZ. lia. Qed.

(** ** Lemmas on machine integers *)
Lemma u64_range z : 0 <= u64 z < 2 ^ 64.
Proof. by apply Z.mod_pos_bound. Qed.
Lemma u32_range z : 0 <= u32 z < 2 ^ 32.
Proof. by apply Z.mod_pos_bound. Qed.
Lemma i64_range z : - 2 ^ 63 <= i64 z < 2 ^ 63.
Proof. unfold i64. pose proof (Z.mod_pos_bound (z + 2 ^ 63) (2 ^ 64) eq_refl). lia. Qed.
Lemma u64_small z : 0 <= z < 2 ^ 64 -> u64 z = z.
Proof. apply Z.mod_small. Qed.
Lemma u32_small z : 0 <= z < 2 ^ 32 -> u32 z = z.
Proof. apply Z.mod_small. Qed.
Lemma i64_small z : - 2 ^ 63 <= z < 2 ^ 63 -> i64 z = z.
Proof. intros H. unfold i64. rewrite Z.mod_small; lia. Qed.
#[export] Hint Rewrite u64_small u32_small i64_small using lia : go_int.
#[export] Hint Resolve b2z_range u64_range u32_range i64_range : genotp.

(** ** Lemmas on bits *)
Lemma bits_ext_upto n x y :
  0 <= x < 2 ^ n -> 0 <= y < 2 ^ n -> 0 <= n ->
  (forall i, 0 <= i < n -> Z.testbit x i = Z.testbit y i) -> x = y.
Proof.
  intros Hx Hy Hn H. apply Z.bits_inj'. intros i Hi.
  destruct (decide (i < n)); [by apply H|].
  rewrite <-(Z.mod_small x (2 ^ n)), <-(Z.mod_small y (2 ^ n)) by done.
  by rewrite !Z.mod_pow2_bits_high by lia.
Qed.

Lemma lt_pow2_bits x n :
  0 <= n -> 0 <= x -> (x < 2 ^ n <-> forall i, n <= i -> Z.testbit x i = false).
Proof.
  intros Hn Hx. split.
  - intros Hlt i Hi. rewrite <-(Z.mod_small x (2 ^ n)) by done.
    by apply Z.mod_pow2_bits_high.
  - intros H. enough (x = x mod 2 ^ n) as -> by (apply Z.mod_pos_bound; lia).
    apply Z.bits_inj'. intros i Hi. destruct (decide (i < n)).
    + by rewrite Z.mod_pow2_bits_low.
    + rewrite Z.mod_pow2_bits_high by lia. apply H. lia.
Qed.

Lemma lor_bound x y n :
  0 <= n -> 0 <= x < 2 ^ n -> 0 <= y < 2 ^ n -> 0 <= Z.lor x y < 2 ^ n.
Proof.
  intros Hn [Hx Hx'] [Hy Hy']. assert (0 <= Z.lor x y) by (apply Z.lor_nonneg; lia).
  split; [done|]. rewrite lt_pow2_bits in * by done.
  intros i Hi. by rewrite Z.lor_spec, Hx', Hy'.
Qed.

Lemma lxor_bound x y n :
  0 <= n -> 0 <= x < 2 ^ n -> 0 <= y < 2 ^ n -> 0 <= Z.lxor x y < 2 ^ n.
Proof.
  intros Hn [Hx Hx'] [Hy Hy']. assert (0 <= Z.lxor x y) by (apply Z.lxor_nonneg; lia).
  split; [done|]. rewrite lt_pow2_bits in * by done.
  intros i Hi. by rewrite Z.lxor_spec, Hx', Hy'.
Qed.

(** The top bit of an [n+1]-bit number, read by a shift. *)
Lemma shiftr_top x n :
  0 <= n -> 0 <= x < 2 ^ (n + 1) -> Z.shiftr x n = Z.b2z (Z.testbit x n).
Proof.
  intros Hn Hx. apply Z.bits_inj'. intros i Hi. rewrite Z.shiftr_spec by done.
  destruct (decide (i = 0)) as [->|].
  - by rewrite Z.add_0_l, Z.b2z_bit0.
  - rewrite (proj1 (lt_pow2_bits x (n + 1) ltac:(lia) ltac:(lia)) ltac:(lia)) by lia.
    destruct (Z.testbit x n); [|by rewrite Z.bits_0].
    symmetry. apply (proj1 (lt_pow2_bits 1 1 ltac:(lia) ltac:(lia)) ltac:(lia)). lia.
Qed.

Lemma lor_disjoint_add a b n :
  0 <= n -> 0 <= b < 2 ^ n -> Z.lor (Z.shiftl a n) b = a * 2 ^ n + b.
Proof.
  intros Hn Hb. rewrite <-Z.add_lor_land, Z.shiftl_mul_pow2 by done.
  enough (Z.land (a * 2 ^ n) b = 0) as -> by lia.
  apply Z.bits_inj'. intros i Hi. rewrite Z.land_spec, Z.bits_0.
  destruct (decide (i < n)).
  - rewrite Z.mul_pow2_bits_low by lia. done.
  - rewrite <-(Z.mod_small b (2 ^ n)) by done.
    rewrite Z.mod_pow2_bits_high by lia. by rewrite andb_false_r.
Qed.

Lemma land_ones' x n : 0 <= n -> Z.land x (2 ^ n - 1) = x mod 2 ^ n.
Proof. intros H. rewrite <-Z.land_ones by done. f_equal. rewrite Z.ones_equiv. lia. Qed.

(** ** Lemmas on lists *)
Lemma filter_all_id {A} (P : A -> Prop) `{!forall x, Decision (P x)} l :
  Forall P l -> filter P l = l.
Proof. induction 1; [done|]. rewrite filter_cons, decide_True by done. by f_equal. Qed.

(** Reading a list at an offset. *)
Lemma drop_head_lookup {A} (l : list A) (i : nat) x r : drop i l = x :: r -> l !! i = Some x.
Proof. intros H. rewrite <-(Nat.add_0_r i), <-lookup_drop, H. done. Qed.

Lemma drop_tail {A} (l : list A) (i : nat) x r : drop i l = x :: r -> drop (S i) l = r.
Proof. intros H. replace (S i) with (i + 1)%nat by lia. by rewrite <-drop_drop, H. Qed.

Lemma drop_app_at {A} (l : list A) (i : nat) a r : drop i l = a ++ r -> drop (i + length a) l = r.
Proof. intros H. by rewrite <-drop_drop, H, drop_app_length. Qed.

(** The sum of a list, and its change under an update in place. *)
Definition zsum (l : list Z) : Z := foldr Z.add 0 l.

Lemma zsum_app l1 l2 : zsum (l1 ++ l2) = zsum l1 + zsum l2.
Proof. unfold zsum. induction l1 as [|x l1 IH]; simpl in *; lia. Qed.

Lemma split_at {A} (l : list A) (i : nat) x :
  l !! i = Some x -> l = take i l ++ [x] ++ drop (S i) l.
Proof. intros H. symmetry. by apply take_drop_middle. Qed.

Lemma insert_at {A} (l : list A) (i : nat) x y :
  l !! i = Some x -> <[i := y]> l = take i l ++ [y] ++ drop (S i) l.
Proof. intros H%lookup_lt_Some. by apply insert_take_drop. Qed.

Lemma zsum_insert (l : list Z) i old x :
  l !! i = Some old -> zsum (<[i := x]> l) = zsum l - old + x.
Proof.
  intros H. rewrite (insert_at _ _ _ x H). rewrite (split_at _ _ _ H) at 3.
  rewrite !zsum_app. simpl. lia.
Qed.
