(* ===== verification/Errors.v ===== *)
(** * Errors and algorithms: [error.go] and [algorithm.go]

    The sentinel errors of the package, [errors.Join]/[errors.Is] as the
    package uses them, and the [Algorithm] enumeration with the constants the
    rest of the development needs ([hashFuncFor], [expectedHMACSize]). *)
From S2P Require Import Prelude.

(** ** [error.go] *)
Inductive error : Type :=
| ErrInvalidSecret
| ErrInvalidCode
| ErrInvalidDigits
| ErrInvalidAlgorithm
| ErrInvalidCounter
| ErrInvalidTime
| ErrVerificationFailed
| ErrRateLimited
| ErrReplayAttack
| ErrDstTooSmall
| ErrSecretProvider
| ErrHMACProvider
| ErrInvalidURI
| ErrInvalidMigration
| GenOtpError (Message : bytes)     (** a [*GenOtpError] *)
| ErrForeign (text : bytes)         (** an error made by code outside the package *)
| ErrJoin (e1 e2 : error).          (** [errors.Join(e1, e2)] *)

#[global] Instance error_eq_dec : EqDecision error.
Proof. solve_decision. Defined.

Definition NewGenOtpError (msg : bytes) : error := GenOtpError msg.

(** [Error()]: the text of an error. *)
Fixpoint error_text (e : error) : bytes :=
  match e with
  | ErrInvalidSecret => lit "invalid secret key"
  | ErrInvalidCode => lit "invalid OTP code"
  | ErrInvalidDigits => lit "invalid number of digits"
  | ErrInvalidAlgorithm => lit "invalid algorithm"
  | ErrInvalidCounter => lit "invalid counter value"
  | ErrInvalidTime => lit "invalid time value"
  | ErrVerificationFailed => lit "OTP verification failed"
  | ErrRateLimited => lit "rate limited"
  | ErrReplayAttack => lit "replay attack detected"
  | ErrDstTooSmall => lit "destination buffer too small"
  | ErrSecretProvider => lit "secret provider failure"
  | ErrHMACProvider => lit "HMAC provider failure"
  | ErrInvalidURI => lit "invalid otpauth URI"
  | ErrInvalidMigration => lit "invalid otpauth-migration payload"
  | GenOtpError msg => msg
  | ErrForeign t => t
  | ErrJoin e1 e2 => error_text e1 ++ [Byte.x0a] ++ error_text e2
  end.

(** [errors.Is(err, target)] for targets that are not themselves joined. *)
Fixpoint errors_Is (err target : error) : bool :=
  bool_decide (err = target) ||
  match err with
  | ErrJoin e1 e2 => errors_Is e1 target || errors_Is e2 target
  | _ => false
  end.

(** Results of package functions, and of methods over a state. *)
Abbreviation result := (outcome error).
Abbreviation GoM S := (M S error).

(** ** [algorithm.go]

    [type Algorithm int]: any integer inhabits the type, three are named. *)
Definition Algorithm : Type := Z.
Definition SHA1 : Algorithm := 0.
Definition SHA256 : Algorithm := 1.
Definition SHA512 : Algorithm := 2.

#[global] Instance Algorithm_eq_dec : EqDecision Algorithm := Z.eq_dec.

Definition Algorithm_String (a : Algorithm) : bytes :=
  if bool_decide (a = SHA256) then lit "SHA256"
  else if bool_decide (a = SHA512) then lit "SHA512"
  else lit "SHA1".

(** The three constructors of [hash.Hash] the package uses: [sha1.New],
    [sha256.New] and [sha512.New]. *)
Inductive hashFn : Type := sha1_New | sha256_New | sha512_New.

#[global] Instance hashFn_eq_dec : EqDecision hashFn.
Proof. solve_decision. Defined.

(** [hashFuncFor] ([hotp.go]): [None] is the source's [nil, false]. *)
Definition hashFuncFor (algorithm : Algorithm) : option hashFn :=
  if bool_decide (algorithm = SHA1) then Some sha1_New
  else if bool_decide (algorithm = SHA256) then Some sha256_New
  else if bool_decide (algorithm = SHA512) then Some sha512_New
  else None.

(** [expectedHMACSize] ([secret_runtime.go]). *)
Definition expectedHMACSize (algorithm : Algorithm) : Z :=
  if bool_decide (algorithm = SHA1) then 20
  else if bool_decide (algorithm = SHA256) then 32
  else if bool_decide (algorithm = SHA512) then 64
  else 0.

(** The output size of each hash, as its documentation gives it. *)
Definition hash_size (fn : hashFn) : Z :=
  match fn with sha1_New => 20 | sha256_New => 32 | sha512_New => 64 end.

Lemma hashFuncFor_size a fn :
  hashFuncFor a = Some fn -> expectedHMACSize a = hash_size fn.
Proof. unfold hashFuncFor, expectedHMACSize. repeat case_bool_decide; intros [= <-]; done. Qed.

Lemma hash_size_bounds fn : 20 <= hash_size fn <= 64.
Proof. destruct fn; simpl; lia. Qed.

Lemma hashFuncFor_None a :
  hashFuncFor a = None <-> a <> SHA1 /\ a <> SHA256 /\ a <> SHA512.
Proof. unfold hashFuncFor. repeat case_bool_decide; split; intros; by destruct_and?. Qed.

#[export] Hint Resolve hashFuncFor_size hash_size_bounds : genotp.
