(* ===== verification/ConstantTime.v ===== *)
(** * Constant-time comparison: [constant_time.go] and the copy in [wasm/main.go]

    The branch-free comparisons, with their machine arithmetic, and the proof
    that they decide equality of byte strings. *)
From S2P Require Import Prelude.

(** [byte] at index [i], or 0 past the end: the [av], [bv] of the loop. *)
Definition byte_at (a : bytes) (i : Z) : byte :=
  if i <? Z.of_nat (length a) then nth (Z.to_nat i) a Byte.x00 else Byte.x00.

(** The loop [for i := 0; i < maxLen; i++ { diff |= uint(av ^ bv) }], with [n]
    iterations left. *)
Fixpoint diffLoop (n : nat) (i : Z) (a b : bytes) (diff : Z) : Z :=
  match n with
  | O => diff
  | S n' =>
      diffLoop n' (i + 1) a b
        (Z.lor diff (Z.lxor (b2z (byte_at a i)) (b2z (byte_at b i))))
  end.

(** [diff] at the end of the loop. *)
Definition ctDiff (a b : bytes) : Z :=
  let lenA := Z.of_nat (length a) in
  let lenB := Z.of_nat (length b) in
  let maxLen := Z.max lenA lenB in
  diffLoop (Z.to_nat maxLen) 0 a b (u64 (Z.lxor lenA lenB)).

(** [(diff | -diff) >> (bits.UintSize - 1)] on [uint]. *)
Definition nonzeroBit (diff : Z) : Z :=
  Z.shiftr (Z.lor diff (u64 (- diff))) 63.

Definition constantTimeEqByteResult (a b : bytes) : byte :=
  z2b (u64 (1 - nonzeroBit (ctDiff a b))).

Definition constTimeEqBytes (a b : bytes) : bool :=
  nonzeroBit (ctDiff a b) =? 0.

Definition constantTimeEq (a b : bytes) : bool := constTimeEqBytes a b.

Module Wasm.
(** [constTimeEqBytes] of [wasm/main.go]: early length test, then
    [for i := range a { v |= a[i] ^ b[i] }] on bytes of equal length. *)
Fixpoint xorLoop (a b : bytes) (v : Z) : Z :=
  match a, b with
  | x :: a', y :: b' => xorLoop a' b' (Z.lor v (Z.lxor (b2z x) (b2z y)))
  | _, _ => v
  end.

Definition constTimeEqBytes (a b : bytes) : bool :=
  if negb (Nat.eqb (length a) (length b)) then false else xorLoop a b 0 =? 0.
End Wasm.

(** ** Lemmas *)
(** The sign-bit trick is a test for non-zero. *)
Lemma nonzeroBit_spec d :
  0 <= d < 2 ^ 64 -> nonzeroBit d = if d =? 0 then 0 else 1.
Proof.
  intros Hd. unfold nonzeroBit. assert (He := u64_range (- d)).
  rewrite (shiftr_top _ 63) by (lia || by apply lor_bound).
  rewrite Z.lor_spec. destruct (Z.eqb_spec d 0) as [->|Hne]; [done|].
  assert (Htop : forall x, 2 ^ 63 <= x < 2 ^ 64 -> Z.testbit x 63 = true).
  { intros x Hx. rewrite Z.testbit_true by lia.
    replace (x / 2 ^ 63) with 1; [done|]. zdiv. }
  destruct (decide (2 ^ 63 <= d)); [by rewrite Htop by lia|].
  rewrite (Htop (u64 (- d))); [by rewrite orb_true_r|].
  unfold u64 in *. zdiv.
Qed.

Lemma byte_at_lxor_range a b i :
  0 <= Z.lxor (b2z (byte_at a i)) (b2z (byte_at b i)) < 2 ^ 64.
Proof.
  pose proof (lxor_bound (b2z (byte_at a i)) (b2z (byte_at b i)) 8 ltac:(lia)
    (b2z_range _) (b2z_range _)). lia.
Qed.

Lemma diffLoop_range n i a b d : 0 <= d < 2 ^ 64 -> 0 <= diffLoop n i a b d < 2 ^ 64.
Proof.
  revert i d. induction n as [|n IH]; intros i d Hd; [done|].
  apply IH, lor_bound; [lia|done|apply byte_at_lxor_range].
Qed.

Lemma diffLoop_0 n i a b d :
  diffLoop n i a b d = 0 <->
  d = 0 /\ forall j, i <= j < i + Z.of_nat n -> byte_at a j = byte_at b j.
Proof.
  revert i d. induction n as [|n IH]; intros i d; simpl.
  - split; [intros ->; split; [done|lia]|by intros [-> _]].
  - rewrite IH, Z.lor_eq_0_iff, Z.lxor_eq_0_iff. split.
    + intros [[-> Hi] H]. split; [done|]. intros j Hj.
      destruct (decide (j = i)) as [->|]; [by apply b2z_inj|]. apply H. lia.
    + intros [-> H]. split; [split; [done|]|].
      * by rewrite H by lia.
      * intros j Hj. apply H. lia.
Qed.

Lemma byte_at_lookup a i :
  (i < length a)%nat -> a !! i = Some (byte_at a (Z.of_nat i)).
Proof.
  intros Hi. unfold byte_at. rewrite (proj2 (Z.ltb_lt _ _)), Nat2Z.id by lia.
  destruct (lookup_lt_is_Some_2 a i Hi) as [x Hx].
  by rewrite Hx, nth_lookup, Hx.
Qed.

Lemma byte_at_ext a b :
  length a = length b ->
  (forall j, 0 <= j < Z.of_nat (length a) -> byte_at a j = byte_at b j) -> a = b.
Proof.
  intros Hlen H. apply list_eq_same_length with (length b); [done|done|].
  intros i x y Hi Hx Hy. rewrite byte_at_lookup in Hx, Hy by lia.
  simplify_eq. apply H. lia.
Qed.

Lemma ctDiff_0 a b :
  Z.of_nat (length a) < 2 ^ 63 -> Z.of_nat (length b) < 2 ^ 63 ->
  ctDiff a b = 0 <-> a = b.
Proof.
  intros Ha Hb. unfold ctDiff.
  pose proof (lxor_bound (Z.of_nat (length a)) (Z.of_nat (length b)) 63
    ltac:(lia) ltac:(lia) ltac:(lia)).
  rewrite u64_small, diffLoop_0, Z.lxor_eq_0_iff by lia. split.
  - intros [Hlen H']. apply byte_at_ext; [lia|]. intros j Hj. apply H'. lia.
  - intros ->. done.
Qed.

Lemma ctDiff_range a b : 0 <= ctDiff a b < 2 ^ 64.
Proof. apply diffLoop_range, u64_range. Qed.

Lemma constTimeEqBytes_decides a b :
  Z.of_nat (length a) < 2 ^ 63 -> Z.of_nat (length b) < 2 ^ 63 ->
  constTimeEqBytes a b = bool_decide (a = b).
Proof.
  intros Ha Hb. unfold constTimeEqBytes.
  rewrite nonzeroBit_spec by apply ctDiff_range.
  rewrite <-(bool_decide_ext _ _ (ctDiff_0 a b Ha Hb)).
  by destruct (Z.eqb_spec (ctDiff a b) 0); case_bool_decide.
Qed.

Lemma constantTimeEqByteResult_decides a b :
  Z.of_nat (length a) < 2 ^ 63 -> Z.of_nat (length b) < 2 ^ 63 ->
  constantTimeEqByteResult a b = if decide (a = b) then Byte.x01 else Byte.x00.
Proof.
  intros Ha Hb. unfold constantTimeEqByteResult.
  rewrite nonzeroBit_spec by apply ctDiff_range.
  destruct (Z.eqb_spec (ctDiff a b) 0) as [E|E]; rewrite ctDiff_0 in E by done;
    by case_decide.
Qed.

Lemma xorLoop_0 a b v :
  length a = length b -> (Wasm.xorLoop a b v = 0 <-> v = 0 /\ a = b).
Proof.
  revert b v. induction a as [|x a IH]; intros [|y b] v Hlen; simplify_eq/=; [naive_solver|].
  rewrite IH, Z.lor_eq_0_iff, Z.lxor_eq_0_iff by done. split.
  - intros [[-> H%b2z_inj] ->]. by subst.
  - intros [-> [= -> ->]]. done.
Qed.

Lemma wasm_constTimeEqBytes_decides (a b : bytes) : Wasm.constTimeEqBytes a b = bool_decide (a = b).
Proof.
  unfold Wasm.constTimeEqBytes. destruct (Nat.eqb_spec (length a) (length b)) as [Hlen|Hlen]; cbn [negb].
  - apply Bool.eq_iff_eq_true. rewrite bool_decide_eq_true, Z.eqb_eq, xorLoop_0 by done. naive_solver.
  - rewrite bool_decide_false; [done|]. by intros ->.
Qed.

(** ** Properties *)

(** C29: the three constant-time comparisons decide equality, on strings of
    different lengths too: [constTimeEqBytes] and [constantTimeEq] return
    whether the arguments are equal, [constantTimeEqByteResult] returns 1 for
    equal and 0 for different arguments. *)
Theorem constTimeEqBytes_correct (a b : bytes)
    (Ha : Z.of_nat (length a) < 2 ^ 63) (Hb : Z.of_nat (length b) < 2 ^ 63) :
  constTimeEqBytes a b = bool_decide (a = b) /\
  constantTimeEq a b = bool_decide (a = b) /\
  (constantTimeEqByteResult a b = Byte.x01 <-> a = b) /\
  (constantTimeEqByteResult a b = Byte.x00 <-> a <> b).
Proof.
  unfold constantTimeEq. rewrite constTimeEqBytes_decides, constantTimeEqByteResult_decides by done.
  case_decide; naive_solver.
Qed.

Lemma constTimeEqBytes_correct_witness :
  constTimeEqBytes (lit "755224") (lit "755224X") = bool_decide (lit "755224" = lit "755224X").
Proof.
  refine (proj1 (constTimeEqBytes_correct (lit "755224") (lit "755224X") _ _)); by vm_compute.
Defined.

(** The comparison of the WebAssembly entry point, which returns early
    on different lengths, agrees with the library's on all arguments. *)
Theorem wasm_constTimeEqBytes_equiv (a b : bytes)
    (Ha : Z.of_nat (length a) < 2 ^ 63) (Hb : Z.of_nat (length b) < 2 ^ 63) :
  Wasm.constTimeEqBytes a b = constTimeEqBytes a b.
Proof.
  rewrite constTimeEqBytes_decides by done. apply wasm_constTimeEqBytes_decides.
Qed.

Lemma wasm_constTimeEqBytes_equiv_witness :
  Wasm.constTimeEqBytes (lit "ab") (lit "ac") = constTimeEqBytes (lit "ab") (lit "ac").
Proof. refine (wasm_constTimeEqBytes_equiv (lit "ab") (lit "ac") _ _); by vm_compute. Defined.
