(* ===== verification/Bits.v ===== *)
(** * Bit strings

    Big-endian bit strings as [list bool]: the reference semantics shared by
    the base32 codec and the fixed-width integer encodings. *)
From S2P Require Import Prelude.

(** The number a bit string denotes, most significant bit first. *)
Definition bits_val (l : list bool) : Z :=
  fold_left (fun acc (b : bool) => 2 * acc + Z.b2z b) l 0.

(** The low [n] bits of [z], most significant bit first. *)
Fixpoint z_bits (n : nat) (z : Z) : list bool :=
  match n with
  | O => []
  | S n' => Z.testbit z (Z.of_nat n') :: z_bits n' z
  end.

Definition bits_of_bytes (l : bytes) : list bool := b ← l; z_bits 8 (b2z b).
Definition bits_of_quints (l : list Z) : list bool := q ← l; z_bits 5 q.

(** Whole bytes of a bit string; fewer than eight trailing bits are dropped. *)
Fixpoint bytes_of_bits (l : list bool) : bytes :=
  match l with
  | b7 :: b6 :: b5 :: b4 :: b3 :: b2 :: b1 :: b0 :: l' =>
      z2b (bits_val [b7; b6; b5; b4; b3; b2; b1; b0]) :: bytes_of_bits l'
  | _ => []
  end.

(** Five-bit groups of a bit string, the last one padded with zero bits. *)
Fixpoint quints_of_bits (l : list bool) : list Z :=
  match l with
  | [] => []
  | b4 :: b3 :: b2 :: b1 :: b0 :: l' => bits_val [b4; b3; b2; b1; b0] :: quints_of_bits l'
  | _ => [bits_val (take 5 (l ++ [false; false; false; false]))]
  end.

Lemma bits_val_acc l a :
  fold_left (fun acc (b : bool) => 2 * acc + Z.b2z b) l a
  = a * 2 ^ Z.of_nat (length l) + bits_val l.
Proof.
  unfold bits_val. revert a. induction l as [|b l IH]; intros a; simpl length.
  - simpl. lia.
  - cbn [fold_left]. rewrite IH, (IH (2 * 0 + _)), Nat2Z.inj_succ, Z.pow_succ_r by lia. lia.
Qed.

Lemma bits_val_app l1 l2 :
  bits_val (l1 ++ l2) = bits_val l1 * 2 ^ Z.of_nat (length l2) + bits_val l2.
Proof. unfold bits_val at 1. rewrite fold_left_app. apply bits_val_acc. Qed.

Lemma bits_val_cons b l :
  bits_val (b :: l) = Z.b2z b * 2 ^ Z.of_nat (length l) + bits_val l.
Proof. change (b :: l) with ([b] ++ l). rewrite bits_val_app. done. Qed.

Lemma bits_val_range l : 0 <= bits_val l < 2 ^ Z.of_nat (length l).
Proof.
  induction l as [|b l IH]; [done|]. rewrite bits_val_cons. simpl length.
  rewrite Nat2Z.inj_succ, Z.pow_succ_r by lia. destruct b; simpl Z.b2z; lia.
Qed.

Lemma z_bits_length n z : length (z_bits n z) = n.
Proof. induction n; simpl; congruence. Qed.

Lemma bits_val_z_bits n z : bits_val (z_bits n z) = z mod 2 ^ Z.of_nat n.
Proof.
  induction n as [|n IH]; [by rewrite Z.mod_1_r|].
  simpl z_bits. rewrite bits_val_cons, z_bits_length, IH, Nat2Z.inj_succ.
  rewrite Z.testbit_spec' by lia. rewrite Z.pow_succ_r, (Z.mul_comm 2), Z.rem_mul_r by lia.
  lia.
Qed.

(** Only the low bits matter. *)
Lemma z_bits_low m n x v :
  (m <= n)%nat -> z_bits m (x * 2 ^ Z.of_nat n + v) = z_bits m v.
Proof.
  induction m as [|m IH]; intros Hm; simpl; [done|]. rewrite IH by lia. f_equal.
  rewrite <-(Z.mod_pow2_bits_low _ (Z.of_nat n)) by lia.
  rewrite Z.add_comm, Z.mod_add by lia. by rewrite Z.mod_pow2_bits_low by lia.
Qed.

Lemma z_bits_bits_val l n : n = length l -> z_bits n (bits_val l) = l.
Proof.
  intros ->. induction l as [|b l IH]; [done|]. pose proof (bits_val_range l).
  cbn [length z_bits]. rewrite bits_val_cons, (z_bits_low _ (length l)) by done.
  rewrite IH. f_equal.
  rewrite Z.testbit_odd, Z.shiftr_div_pow2 by lia.
  rewrite Z.div_add_l by (apply Z.pow_nonzero; lia). rewrite Z.div_small, Z.add_0_r by done. by destruct b.
Qed.

Lemma bits_of_bytes_cons b l : bits_of_bytes (b :: l) = z_bits 8 (b2z b) ++ bits_of_bytes l.
Proof. done. Qed.

Lemma bits_of_quints_cons q l : bits_of_quints (q :: l) = z_bits 5 q ++ bits_of_quints l.
Proof. done. Qed.

Lemma bits_of_bytes_length l : length (bits_of_bytes l) = (8 * length l)%nat.
Proof.
  induction l as [|b l IH]; [done|].
  rewrite bits_of_bytes_cons, length_app, z_bits_length, IH. simpl length. lia.
Qed.

Lemma bits_of_quints_length l : length (bits_of_quints l) = (5 * length l)%nat.
Proof.
  induction l as [|b l IH]; [done|].
  rewrite bits_of_quints_cons, length_app, z_bits_length, IH. simpl length. lia.
Qed.

(** [bytes_of_bits] one byte at a time. *)
Lemma bytes_of_bits_cons p l :
  length p = 8%nat -> bytes_of_bits (p ++ l) = z2b (bits_val p) :: bytes_of_bits l.
Proof. intros Hp. do 8 (destruct p as [|? p]; [done|]). by destruct p. Qed.

Lemma bytes_of_bits_short l : (length l < 8)%nat -> bytes_of_bits l = [].
Proof. intros Hl. do 8 (destruct l as [|? l]; [done|]). simpl in Hl. lia. Qed.

Lemma bytes_of_bits_of_bytes l r :
  (length r < 8)%nat -> bytes_of_bits (bits_of_bytes l ++ r) = l.
Proof.
  intros Hr. induction l as [|b l IH]; [by apply bytes_of_bits_short|].
  rewrite bits_of_bytes_cons, <-app_assoc, bytes_of_bits_cons by done. rewrite IH, bits_val_z_bits.
  f_equal. change (2 ^ Z.of_nat 8) with 256.
  rewrite Z.mod_small by apply b2z_range. apply z2b_b2z.
Qed.

Lemma bytes_of_bits_length l : length (bytes_of_bits l) = (length l `div` 8)%nat.
Proof.
  remember (length l) as n eqn:Hn. revert l Hn. induction n as [n IH] using lt_wf_ind.
  intros l ->. destruct (decide (length l < 8)%nat) as [Hlt|Hge].
  - rewrite bytes_of_bits_short, Nat.div_small by done. done.
  - rewrite <-(take_drop 8 l) at 1. rewrite bytes_of_bits_cons by (rewrite length_take; lia).
    simpl length. rewrite (IH (length (drop 8 l))) by (rewrite ?length_drop; lia || done).
    rewrite length_drop. replace (length l) with (1 * 8 + (length l - 8))%nat at 2 by lia.
    rewrite Nat.div_add_l by lia. done.
Qed.

Lemma quints_range l : Forall (fun q => 0 <= q < 32) (quints_of_bits l).
Proof.
  remember (length l) as n eqn:Hn. revert l Hn. induction n as [n IH] using lt_wf_ind.
  intros l ->. do 5 (destruct l as [|? l];
    [repeat constructor; repeat match goal with b : bool |- _ => destruct b end; by vm_compute|]).
  cbn [quints_of_bits]. constructor.
  - match goal with |- 0 <= bits_val ?x < _ => apply (bits_val_range x) end.
  - eapply IH; [|done]. simpl. lia.
Qed.

(** Regrouping by fives and back only adds padding. *)
Lemma bits_of_quints_of_bits l :
  exists k, (k < 5)%nat /\ bits_of_quints (quints_of_bits l) = l ++ replicate k false.
Proof.
  remember (length l) as n eqn:Hn. revert l Hn. induction n as [n IH] using lt_wf_ind.
  intros l ->.
  destruct l as [|b4 l]; [exists 0%nat; split; [lia|done]|].
  destruct l as [|b3 l]; [exists 4%nat; split; [lia|]; by destruct b4|].
  destruct l as [|b2 l]; [exists 3%nat; split; [lia|]; by destruct b4, b3|].
  destruct l as [|b1 l]; [exists 2%nat; split; [lia|]; by destruct b4, b3, b2|].
  destruct l as [|b0 l]; [exists 1%nat; split; [lia|]; by destruct b4, b3, b2, b1|].
  destruct (IH (length l) ltac:(simpl; lia) l eq_refl) as (k & Hk & E).
  exists k. split; [done|]. cbn [quints_of_bits].
  rewrite bits_of_quints_cons, E, z_bits_bits_val by done. done.
Qed.
