(* ===== verification/Base32.v ===== *)
(** * Base32: [base32.go]

    [DecodeBase32] with its lookup table, its 64-bit shift register and its
    in-place destination, [EncodeBase32] (unpadded RFC 4648 encoding), and
    their relation to bit strings ([Bits]). *)
From S2P Require Import Prelude Errors Bits.

(** ** Definitions *)

(** The alphabet of [base32.StdEncoding]. *)
Definition b32Alphabet : bytes := lit "ABCDEFGHIJKLMNOPQRSTUVWXYZ234567".

(** The character of a five-bit value. *)
Definition b32Char (q : Z) : byte := nth (Z.to_nat q) b32Alphabet Byte.x00.

(** [base32.StdEncoding.WithPadding(base32.NoPadding).EncodeToString]. *)
Definition EncodeBase32 (data : bytes) : bytes :=
  b32Char <$> quints_of_bits (bits_of_bytes data).

(** [b32Inverse]: the 128 entries the literal lists; Go zero-fills the rest of
    the [[256]int8] array. *)
Definition b32InverseLiteral : list Z :=
  [-1; -1; -1; -1; -1; -1; -1; -1; -1; -1; -1; -1; -1; -1; -1; -1;
   -1; -1; -1; -1; -1; -1; -1; -1; -1; -1; -1; -1; -1; -1; -1; -1;
   -1; -1; -1; -1; -1; -1; -1; -1; -1; -1; -1; -1; -1; -1; -1; -1;
   -1; -1; 26; 27; 28; 29; 30; 31; -1; -1; -1; -1; -1; -1; -1; -1;
   -1; 0; 1; 2; 3; 4; 5; 6; 7; 8; 9; 10; 11; 12; 13; 14;
   15; 16; 17; 18; 19; 20; 21; 22; 23; 24; 25; -1; -1; -1; -1; -1;
   -1; 0; 1; 2; 3; 4; 5; 6; 7; 8; 9; 10; 11; 12; 13; 14;
   15; 16; 17; 18; 19; 20; 21; 22; 23; 24; 25; -1; -1; -1; -1; -1].

Definition b32Inverse : list Z :=
  b32InverseLiteral ++ replicate (256 - length b32InverseLiteral) 0.

(** [b32Inverse[c]]. *)
Definition b32Val (c : byte) : Z := nth (Z.to_nat (b2z c)) b32Inverse 0.

(** The characters the first loop skips. *)
Definition b32Separators : bytes :=
  [" "; "-"; "="; Byte.x09; Byte.x0a; Byte.x0d; Byte.x0b; Byte.x0c]%byte.

Definition b32Keep (c : byte) : bool := bool_decide (c ∉ b32Separators).

(** The first loop: the characters appended to [buf]. *)
Fixpoint stripLoop (src buf : bytes) : bytes :=
  match src with
  | [] => buf
  | c :: src' => stripLoop src' (if b32Keep c then buf ++ [c] else buf)
  end.

(** The second loop over the stripped characters, with the destination written
    in place: the result and the destination afterwards. *)
Fixpoint decodeLoop (buf : bytes) (dst : bytes) (dstIdx buffer bitsLeft : Z)
    : result Z * bytes :=
  match buf with
  | [] => (Ret dstIdx, dst)
  | c :: buf' =>
      let val := b32Val c in
      if val <? 0 then (Err ErrInvalidSecret, dst)
      else
        let buffer := Z.lor (u64 (Z.shiftl buffer 5)) val in
        let bitsLeft := bitsLeft + 5 in
        if 8 <=? bitsLeft then
          let bitsLeft := bitsLeft - 8 in
          if Z.of_nat (length dst) <=? dstIdx then (Err ErrDstTooSmall, dst)
          else
            let v := Z.land (Z.shiftr buffer bitsLeft) 255 in
            decodeLoop buf' (<[Z.to_nat dstIdx := z2b v]> dst) (dstIdx + 1) buffer bitsLeft
        else decodeLoop buf' dst dstIdx buffer bitsLeft
  end.

Definition DecodeBase32 (dst src : bytes) : result Z * bytes :=
  let buf := stripLoop src [] in
  if Nat.eqb (length buf) 0 then (Ret 0, dst)
  else decodeLoop buf dst 0 0 0.

(** ** Reference semantics of decoding *)

(** What a list of base32 characters denotes: whole bytes of the bit string. *)
Definition b32Bytes (cs : bytes) : bytes :=
  bytes_of_bits (bits_of_quints (b32Val <$> cs)).

(** Every character has a non-negative table entry. *)
Definition b32Valid (cs : bytes) : Prop := Forall (fun c => 0 <= b32Val c) cs.

#[global] Instance b32Valid_dec cs : Decision (b32Valid cs).
Proof. unfold b32Valid. apply _. Defined.

(** The value of a symbol: letters of either case from 0, the digits 2 to 7
    from 26; and the code takes every byte outside ASCII for a letter A. *)
Definition symbolValue (c : byte) : option Z :=
  let z := b2z c in
  if (65 <=? z) && (z <=? 90) then Some (z - 65)
  else if (97 <=? z) && (z <=? 122) then Some (z - 97)
  else if (50 <=? z) && (z <=? 55) then Some (z - 24)
  else if 128 <=? z then Some 0
  else None.

(** The values of the symbols before the first invalid one. *)
Fixpoint symbolValues (cs : bytes) : list Z :=
  match cs with
  | [] => []
  | c :: cs' => match symbolValue c with Some v => v :: symbolValues cs' | None => [] end
  end.

(** ** Lemmas *)
Lemma b32Valid_cons c cs : b32Valid (c :: cs) <-> 0 <= b32Val c /\ b32Valid cs.
Proof. apply (Forall_cons (fun c => 0 <= b32Val c)). Qed.

Lemma b32Val_range c : -1 <= b32Val c < 32.
Proof.
  enough ((-1 <=? b32Val c) && (b32Val c <? 32) = true) by lia.
  revert c. apply byte_all. by vm_compute.
Qed.

Lemma b32Val_symbol c : b32Val c = default (-1) (symbolValue c).
Proof. apply Z.eqb_eq. revert c. apply byte_all. by vm_compute. Qed.

Lemma symbolValue_range c v : symbolValue c = Some v -> 0 <= v.
Proof.
  unfold symbolValue. intros E. repeat case_match; simplify_eq; try lia.
  all: repeat match goal with H : andb _ _ = true |- _ => apply andb_true_iff in H as [?%Z.leb_le ?%Z.leb_le] end; lia.
Qed.

Lemma b32Char_range_check :
  forallb (fun q => (b32Val (b32Char q) =? q) && b32Keep (b32Char q)) (seqZ 0 32) = true.
Proof. by vm_compute. Qed.

Lemma b32Char_ok q : 0 <= q < 32 -> b32Val (b32Char q) = q /\ b32Keep (b32Char q) = true.
Proof.
  intros Hq. pose proof b32Char_range_check as H. rewrite forallb_forall in H.
  specialize (H q). rewrite <-list_elem_of_In, elem_of_seqZ in H.
  specialize (H ltac:(lia)). apply andb_prop in H as [H1 H2]. split; [lia|done].
Qed.

Lemma stripLoop_filter src buf :
  stripLoop src buf = buf ++ filter (fun c => b32Keep c) src.
Proof.
  revert buf. induction src as [|c src IH]; intros buf; simpl; [by rewrite app_nil_r|].
  rewrite IH, filter_cons. destruct (b32Keep c); simpl.
  - by rewrite <-app_assoc.
  - done.
Qed.

(** One step of the shift register: the pending bits [l] gain five more. *)
Lemma register_step l buffer v :
  (length l < 8)%nat -> 0 <= v < 32 ->
  buffer mod 2 ^ Z.of_nat (length l) = bits_val l ->
  Z.lor (u64 (Z.shiftl buffer 5)) v mod 2 ^ Z.of_nat (length (l ++ z_bits 5 v))
  = bits_val (l ++ z_bits 5 v).
Proof.
  intros Hl Hv Hb. unfold u64. rewrite Z.shiftl_mul_pow2 by lia.
  assert (E : (buffer * 2 ^ 5) mod 2 ^ 64 = Z.shiftl (buffer mod 2 ^ 59) 5).
  { rewrite Z.shiftl_mul_pow2 by lia.
    change (2 ^ 64) with (2 ^ 59 * 2 ^ 5). by rewrite Z.mul_mod_distr_r by lia. }
  rewrite E, lor_disjoint_add by lia.
  rewrite bits_val_app, bits_val_z_bits, length_app, z_bits_length.
  change (Z.of_nat 5) with 5. rewrite (Z.mod_small v) by lia.
  rewrite Nat2Z.inj_add, Z.pow_add_r, <-Hb by lia. change (2 ^ Z.of_nat 5) with 32.
  change (2 ^ 5) with 32.
  assert (Hd : (buffer mod 2 ^ 59) mod 2 ^ Z.of_nat (length l)
               = buffer mod 2 ^ Z.of_nat (length l)).
  { apply Z.mod_mod_divide. exists (2 ^ (59 - Z.of_nat (length l))).
    rewrite <-Z.pow_add_r by lia. f_equal. lia. }
  rewrite <-Hd. set (w := 2 ^ Z.of_nat (length l)). assert (0 < w) by (apply Z.pow_pos_nonneg; lia).
  set (a := buffer mod 2 ^ 59). pose proof (Z.mod_pos_bound a w ltac:(lia)).
  symmetry. apply Z.mod_unique with (a / w); [nia|].
  pose proof (Z.div_mod a w ltac:(lia)). nia.
Qed.

(** Reading the top byte of a register that holds [p ++ l]. *)
Lemma register_byte p l buffer :
  length p = 8%nat ->
  buffer mod 2 ^ Z.of_nat (length (p ++ l)) = bits_val (p ++ l) ->
  Z.land (Z.shiftr buffer (Z.of_nat (length l))) 255 = bits_val p /\
  buffer mod 2 ^ Z.of_nat (length l) = bits_val l.
Proof.
  intros Hp Hb. rewrite length_app, Hp, Nat2Z.inj_add, Z.add_comm, Z.pow_add_r in Hb by lia.
  rewrite Z.rem_mul_r, bits_val_app in Hb by lia.
  pose proof (bits_val_range p). pose proof (bits_val_range l).
  pose proof (Z.mod_pos_bound buffer (2 ^ Z.of_nat (length l)) ltac:(lia)).
  rewrite Hp in *. change (2 ^ Z.of_nat 8) with 256 in *.
  change 255 with (2 ^ 8 - 1). rewrite land_ones', Z.shiftr_div_pow2 by lia.
  change (2 ^ 8) with 256.
  set (q := buffer / 2 ^ Z.of_nat (length l)) in *.
  set (w := 2 ^ Z.of_nat (length l)) in *.
  assert (q mod 256 = bits_val p) as Hq.
  { apply (Z.div_mod_unique w (q mod 256) (bits_val p) (buffer mod w) (bits_val l)); lia. }
  split; [done|]. rewrite Hq in Hb. lia.
Qed.
(** The register invariant: its low [length l] bits are the pending bits [l]. *)
Definition pending (l : list bool) (buffer : Z) : Prop :=
  (length l < 8)%nat /\ buffer mod 2 ^ Z.of_nat (length l) = bits_val l.

(** One iteration of [decodeLoop], in terms of the pending bits. *)
Lemma decodeLoop_step c cs dst (idx : nat) buffer l :
  pending l buffer -> 0 <= b32Val c ->
  let l' := l ++ z_bits 5 (b32Val c) in
  exists buffer',
    if (8 <=? length l')%nat then
      pending (drop 8 l') buffer' /\
      decodeLoop (c :: cs) dst (Z.of_nat idx) buffer (Z.of_nat (length l)) =
      if (length dst <=? idx)%nat then (Err ErrDstTooSmall, dst)
      else decodeLoop cs (<[idx := z2b (bits_val (take 8 l'))]> dst)
             (Z.of_nat (S idx)) buffer' (Z.of_nat (length (drop 8 l')))
    else
      pending l' buffer' /\
      decodeLoop (c :: cs) dst (Z.of_nat idx) buffer (Z.of_nat (length l)) =
      decodeLoop cs dst (Z.of_nat idx) buffer' (Z.of_nat (length l')).
Proof.
  intros [Hl Hb] Hc l'. pose proof (b32Val_range c).
  pose proof (register_step l buffer (b32Val c) Hl ltac:(lia) Hb) as Hb'.
  assert (Hlen : length l' = (length l + 5)%nat)
    by (unfold l'; by rewrite length_app, z_bits_length).
  exists (Z.lor (u64 (Z.shiftl buffer 5)) (b32Val c)).
  cbn [decodeLoop]. rewrite (proj2 (Z.ltb_ge _ _)) by lia.
  destruct (Nat.leb_spec 8 (length l')).
  - rewrite (proj2 (Z.leb_le _ _)) by lia.
    fold l' in Hb'. rewrite <-(take_drop 8 l') in Hb'.
    apply register_byte in Hb' as [Hv Hrest]; [|rewrite length_take; lia].
    split; [split; [rewrite length_drop; lia|done]|].
    replace (Z.of_nat (length l) + 5 - 8) with (Z.of_nat (length (drop 8 l')))
      by (rewrite length_drop; lia).
    destruct (Nat.leb_spec (length dst) idx).
    + by rewrite (proj2 (Z.leb_le _ _)) by lia.
    + rewrite (proj2 (Z.leb_gt _ _)), Hv, Nat2Z.id by lia. f_equal. lia.
  - rewrite (proj2 (Z.leb_gt _ _)) by lia. split; [done|]. f_equal. lia.
Qed.

(** Output of the loop from pending bits [l]. *)
Definition decodeOut (l : list bool) (cs : bytes) : bytes :=
  bytes_of_bits (l ++ bits_of_quints (b32Val <$> cs)).

Lemma decodeOut_length l cs :
  length (decodeOut l cs) = ((length l + 5 * length cs) `div` 8)%nat.
Proof.
  unfold decodeOut. by rewrite bytes_of_bits_length, length_app, bits_of_quints_length, length_fmap.
Qed.

Lemma decodeOut_step l c cs :
  let l' := l ++ z_bits 5 (b32Val c) in
  decodeOut l (c :: cs) =
  if (8 <=? length l')%nat then z2b (bits_val (take 8 l')) :: decodeOut (drop 8 l') cs
  else decodeOut l' cs.
Proof.
  intros l'. unfold decodeOut. rewrite fmap_cons, bits_of_quints_cons, app_assoc.
  fold l'. destruct (Nat.leb_spec 8 (length l')); [|done].
  rewrite <-(take_drop 8 l') at 1. rewrite <-app_assoc.
  by rewrite bytes_of_bits_cons by (rewrite length_take; lia).
Qed.

Lemma decodeLoop_ok cs : forall l buffer dst (idx : nat),
  pending l buffer -> b32Valid cs -> (idx + length (decodeOut l cs) <= length dst)%nat ->
  decodeLoop cs dst (Z.of_nat idx) buffer (Z.of_nat (length l)) =
  (Ret (Z.of_nat (idx + length (decodeOut l cs))),
   take idx dst ++ decodeOut l cs ++ drop (idx + length (decodeOut l cs)) dst).
Proof.
  induction cs as [|c cs IH]; intros l buffer dst idx Hp Hv Hroom.
  - unfold decodeOut in *. rewrite app_nil_r, bytes_of_bits_short in * by apply Hp.
    simpl. by rewrite Nat.add_0_r, take_drop.
  - apply b32Valid_cons in Hv as [Hc Hv].
    destruct (decodeLoop_step c cs dst idx buffer l Hp Hc) as [buffer' Hstep].
    rewrite decodeOut_step in *. destruct (8 <=? _)%nat; destruct Hstep as [Hp' ->].
    + simpl length in *. destruct (Nat.leb_spec (length dst) idx); [lia|].
      rewrite IH by (done || rewrite length_insert; lia).
      rewrite Nat.add_succ_comm. f_equal.
      rewrite (take_S_r _ idx (z2b (bits_val (take 8 (l ++ z_bits 5 (b32Val c))))))
        by (by apply list_lookup_insert_eq).
      rewrite take_insert_ge, drop_insert_lt by lia. by rewrite <-app_assoc.
    + by apply IH.
Qed.

(** The whole loop, from any pending bits: what the valid prefix spells is
    written as far as there is room. *)
Lemma decodeLoop_run cs : forall l buffer dst (idx : nat),
  pending l buffer -> (idx <= length dst)%nat ->
  let out := bytes_of_bits (l ++ bits_of_quints (symbolValues cs)) in
  decodeLoop cs dst (Z.of_nat idx) buffer (Z.of_nat (length l)) =
  if (length dst <? idx + length out)%nat
  then (Err ErrDstTooSmall, take idx dst ++ take (length dst - idx) out)
  else (if (length (symbolValues cs) =? length cs)%nat then Ret (Z.of_nat (idx + length out))
        else Err ErrInvalidSecret,
        take idx dst ++ out ++ drop (idx + length out) dst).
Proof.
  induction cs as [|c cs IH]; intros l buffer dst idx Hp Hidx out.
  { unfold out. rewrite app_nil_r, bytes_of_bits_short by apply Hp. simpl.
    rewrite (proj2 (Nat.ltb_ge _ _)), Nat.add_0_r, take_drop by lia. done. }
  pose proof (b32Val_symbol c) as Hv. cbn [symbolValues] in out. destruct (symbolValue c) as [v|] eqn:Ec.
  - assert (Hc : 0 <= b32Val c) by (rewrite Hv; by eapply symbolValue_range).
    destruct (decodeLoop_step c cs dst idx buffer l Hp Hc) as [buffer' Hstep].
    assert (Eout : out = bytes_of_bits ((l ++ z_bits 5 (b32Val c)) ++ bits_of_quints (symbolValues cs)))
      by (unfold out; by rewrite bits_of_quints_cons, app_assoc, Hv).
    cbn [symbolValues length]. rewrite Ec. cbn [length Nat.eqb]. clearbody out.
    destruct (Nat.leb_spec 8 (length (l ++ z_bits 5 (b32Val c)))) as [H8|H8]; destruct Hstep as [Hp' ->].
    + rewrite <-(take_drop 8 (l ++ z_bits 5 (b32Val c))), <-app_assoc,
        bytes_of_bits_cons in Eout by (rewrite length_take; lia).
      set (b := z2b _) in *. set (out' := bytes_of_bits _) in Eout. subst out. cbn [length].
      destruct (Nat.leb_spec (length dst) idx).
      * rewrite (proj2 (Nat.ltb_lt _ _)) by lia. replace (length dst - idx)%nat with 0%nat by lia.
        by rewrite take_0, app_nil_r, take_ge by lia.
      * rewrite IH by (done || rewrite length_insert; lia). fold out'. rewrite length_insert.
        replace (S idx + length out')%nat with (idx + S (length out'))%nat by lia.
        rewrite (take_S_r _ idx b), take_insert_ge by (lia || by apply list_lookup_insert_eq).
        destruct (Nat.ltb_spec (length dst) (idx + S (length out'))).
        -- replace (length dst - idx)%nat with (S (length dst - S idx)) by lia. by rewrite <-app_assoc.
        -- rewrite drop_insert_lt by lia. by rewrite <-app_assoc.
    + rewrite IH by done. by rewrite <-Eout.
  - cbn [decodeLoop symbolValues length]. rewrite Ec, Hv. cbn [Z.ltb Z.compare].
    unfold out. rewrite app_nil_r, bytes_of_bits_short by apply Hp. simpl.
    rewrite (proj2 (Nat.ltb_ge _ _)), Nat.add_0_r, take_drop by lia. done.
Qed.

Lemma decodeLoop_invalid cs : forall l buffer dst (idx : nat),
  pending l buffer -> ~ b32Valid cs -> (idx + length (decodeOut l cs) <= length dst)%nat ->
  fst (decodeLoop cs dst (Z.of_nat idx) buffer (Z.of_nat (length l))) = Err ErrInvalidSecret.
Proof.
  induction cs as [|c cs IH]; intros l buffer dst idx Hp Hv Hroom; [by destruct Hv; constructor|].
  destruct (decide (0 <= b32Val c)) as [Hc|Hc].
  - assert (~ b32Valid cs) by (intros Hcs; apply Hv; by constructor).
    destruct (decodeLoop_step c cs dst idx buffer l Hp Hc) as [buffer' Hstep].
    rewrite decodeOut_step in *. destruct (8 <=? _)%nat; destruct Hstep as [Hp' ->].
    + simpl length in *. destruct (Nat.leb_spec (length dst) idx); [lia|].
      apply IH; [done|done|rewrite length_insert; lia].
    + by apply IH.
  - cbn [decodeLoop]. by rewrite (proj2 (Z.ltb_lt _ _)) by lia.
Qed.

Lemma pending_nil : pending [] 0.
Proof. split; [simpl; lia|done]. Qed.

(** The characters that reach the second loop. *)
Definition b32Stripped (src : bytes) : bytes := filter (fun c => b32Keep c) src.

Lemma DecodeBase32_loop dst src :
  DecodeBase32 dst src = decodeLoop (b32Stripped src) dst (Z.of_nat 0) 0 (Z.of_nat (length (@nil bool))).
Proof.
  unfold DecodeBase32. rewrite stripLoop_filter, app_nil_l. fold (b32Stripped src).
  by destruct (b32Stripped src).
Qed.

Lemma EncodeBase32_chars data :
  Forall (fun c => 0 <= b32Val c /\ b32Keep c = true) (EncodeBase32 data).
Proof.
  unfold EncodeBase32. apply Forall_fmap.
  eapply Forall_impl; [apply quints_range|]. intros q Hq; simpl in *.
  destruct (b32Char_ok q Hq) as [-> ->]. by split; [lia|].
Qed.

Lemma EncodeBase32_valid data : b32Valid (EncodeBase32 data).
Proof. eapply Forall_impl; [apply EncodeBase32_chars|]. by intros c []. Qed.

Lemma b32Stripped_EncodeBase32 data : b32Stripped (EncodeBase32 data) = EncodeBase32 data.
Proof.
  apply filter_all_id. eapply Forall_impl; [apply EncodeBase32_chars|].
  intros c [_ H]. by rewrite H.
Qed.

Lemma decodeOut_EncodeBase32 data : decodeOut [] (EncodeBase32 data) = data.
Proof.
  unfold decodeOut, EncodeBase32. rewrite <-list_fmap_compose, app_nil_l.
  rewrite (Forall_fmap_ext_1 _ id).
  - rewrite list_fmap_id.
    destruct (bits_of_quints_of_bits (bits_of_bytes data)) as (k & Hk & ->).
    apply bytes_of_bits_of_bytes. rewrite length_replicate. lia.
  - eapply Forall_impl; [apply quints_range|]. intros q Hq; simpl in *. by apply b32Char_ok.
Qed.

(** Upper-casing an ASCII letter. *)
Definition asciiUpper (c : byte) : byte :=
  let z := b2z c in if (97 <=? z) && (z <=? 122) then z2b (z - 32) else c.

Lemma asciiUpper_ok c :
  b32Val (asciiUpper c) = b32Val c /\ b32Keep (asciiUpper c) = b32Keep c.
Proof.
  enough ((b32Val (asciiUpper c) =? b32Val c) &&
          Bool.eqb (b32Keep (asciiUpper c)) (b32Keep c) = true) as H.
  { apply andb_prop in H as [H1 H2%eqb_prop]. by split; [lia|]. }
  revert c. apply byte_all. by vm_compute.
Qed.

Lemma decodeLoop_values cs cs' dst idx buffer n :
  b32Val <$> cs = b32Val <$> cs' ->
  decodeLoop cs dst idx buffer n = decodeLoop cs' dst idx buffer n.
Proof.
  revert cs' dst idx buffer n. induction cs as [|c cs IH]; intros [|c' cs'] *; simpl;
    [done|done|done|]. intros [= -> E]. repeat case_match; auto.
Qed.

Lemma b32Stripped_idemp src : b32Stripped (b32Stripped src) = b32Stripped src.
Proof.
  apply filter_all_id. apply Forall_forall. intros c Hc.
  by apply list_elem_of_filter in Hc as [Hc _].
Qed.

Lemma high_bytes_zero c : 128 <= b2z c -> b32Val c = 0 /\ b32Keep c = true.
Proof.
  intros Hc.
  enough ((b2z c <? 128) || (b32Val c =? 0) && b32Keep c = true) as H.
  { apply orb_prop in H as [H|[H1 H2]%andb_prop]; [lia|]. by split; [lia|]. }
  clear Hc. revert c. apply byte_all. by vm_compute.
Qed.

(** Replace every byte outside ASCII by the letter of value 0. *)
Definition highToA (c : byte) : byte := if 128 <=? b2z c then "A"%byte else c.

Lemma highToA_ok c : b32Val (highToA c) = b32Val c /\ b32Keep (highToA c) = b32Keep c.
Proof.
  unfold highToA. destruct (Z.leb_spec 128 (b2z c)) as [Hc|Hc]; [|done].
  by destruct (high_bytes_zero c Hc) as [-> ->].
Qed.

(** Maps that preserve values and separators do not change what is decoded. *)
Lemma b32Stripped_fmap (f : byte -> byte) src :
  (forall c, b32Val (f c) = b32Val c /\ b32Keep (f c) = b32Keep c) ->
  b32Val <$> b32Stripped (f <$> src) = b32Val <$> b32Stripped src.
Proof.
  intros Hf. unfold b32Stripped. induction src as [|c src IH]; [done|].
  rewrite fmap_cons, !filter_cons. destruct (Hf c) as [Hv ->].
  case_decide; rewrite ?fmap_cons, IH, ?Hv; done.
Qed.

Lemma decode_encode data dst :
  (length data <= length dst)%nat ->
  DecodeBase32 dst (EncodeBase32 data) = (Ret (Z.of_nat (length data)), data ++ drop (length data) dst).
Proof.
  intros Hdst.   rewrite DecodeBase32_loop, b32Stripped_EncodeBase32.
  rewrite decodeLoop_ok; rewrite ?decodeOut_EncodeBase32;
    auto using pending_nil, EncodeBase32_valid.
Qed.

(** ** Properties *)

(** C23: decoding what [EncodeBase32] produced gives the data back, whatever
    it is: with a destination at least as long as the data, [DecodeBase32]
    returns its length, writes exactly it and leaves the rest alone. *)
Theorem DecodeBase32_EncodeBase32 (data dst : bytes) (Hdst : (length data <= length dst)%nat) :
  DecodeBase32 dst (EncodeBase32 data) =
  (Ret (Z.of_nat (length data)), data ++ drop (length data) dst).
Proof. by apply decode_encode. Qed.

Lemma DecodeBase32_EncodeBase32_witness :
  DecodeBase32 (replicate 11 Byte.x00) (EncodeBase32 (lit "Hello!\xde"))
  = (Ret (Z.of_nat (length (lit "Hello!\xde"))),
     lit "Hello!\xde" ++ drop (length (lit "Hello!\xde")) (replicate 11 Byte.x00)).
Proof. apply (DecodeBase32_EncodeBase32 (lit "Hello!\xde")). vm_compute. lia. Defined.

(** C24: the whole behaviour of [DecodeBase32], result and destination, on any
    source and destination.  Separators are dropped; the symbols up to the
    first invalid one spell the bytes of their 5-bit values, a partial last
    byte dropped.  If these do not fit, the destination is filled with as many
    as fit and the error is [ErrDstTooSmall], even when an invalid symbol
    follows; otherwise they are written, the rest of the destination is left
    alone, and the result is their number if every symbol was valid and
    [ErrInvalidSecret] if not.  Bytes from 0x80 up are valid: they are read as
    the letter A. *)
Theorem DecodeBase32_spec (dst src : bytes) :
  let cs := filter (fun c => c ∉ [" "; "-"; "="; Byte.x09; Byte.x0a; Byte.x0b; Byte.x0c; Byte.x0d]%byte) src in
  let out := bytes_of_bits (bits_of_quints (symbolValues cs)) in
  length out = ((5 * length (symbolValues cs)) `div` 8)%nat /\
  DecodeBase32 dst src =
    if (length dst <? length out)%nat then (Err ErrDstTooSmall, take (length dst) out)
    else (if (length (symbolValues cs) =? length cs)%nat then Ret (Z.of_nat (length out))
          else Err ErrInvalidSecret,
          out ++ drop (length out) dst).
Proof.
  intros cs out. split; [unfold out; by rewrite bytes_of_bits_length, bits_of_quints_length|].
  rewrite DecodeBase32_loop.
  assert (b32Stripped src = cs) as ->.
  { apply list_filter_iff. intros c. unfold b32Keep, b32Separators. rewrite bool_decide_spec.
    rewrite !not_elem_of_cons. tauto. }
  rewrite (decodeLoop_run cs [] 0 dst 0 pending_nil ltac:(lia)). cbn [app Nat.add]. fold out.
  by rewrite Nat.sub_0_r.
Qed.

(** [DecodeBase32] ignores letter case and separators. *)
Theorem DecodeBase32_normalises (dst src : bytes) :
  DecodeBase32 dst (asciiUpper <$> src) = DecodeBase32 dst src /\
  DecodeBase32 dst (b32Stripped src) = DecodeBase32 dst src.
Proof.
  rewrite !DecodeBase32_loop. split.
  - apply decodeLoop_values, b32Stripped_fmap, asciiUpper_ok.
  - by rewrite b32Stripped_idemp.
Qed.

(** Every byte from 0x80 up decodes as the letter A would: the literal
    of [b32Inverse] gives only its first 128 entries, Go fills the other 128
    with 0, and 0 is the value of A; so such bytes are never rejected. *)
Theorem DecodeBase32_high_bytes (dst src : bytes) :
  DecodeBase32 dst src = DecodeBase32 dst (highToA <$> src).
Proof.
  rewrite !DecodeBase32_loop. apply decodeLoop_values.
  by rewrite b32Stripped_fmap by apply highToA_ok.
Qed.
