(* ===== verification/Hash.v ===== *)
(** * Hashing: the standard-library code under the OTP core

    [crypto/hmac] over [hash.Hash], as the package uses it: [hmac.New],
    [Reset], [Write], [Sum].  HMAC is RFC 2104 over an abstract hash family
    ([HashSuite]: a digest function per constructor, of the documented size),
    and [Sha] is a concrete, executable family (FIPS 180-4), so that every
    theorem over [HashSuite] can be evaluated on the RFC test vectors. *)
From S2P Require Import Prelude Errors.

(** ** The interface *)
Class HashSuite : Type := {
  hash_sum : hashFn -> bytes -> bytes;
  hash_sum_length : forall fn m, Z.of_nat (length (hash_sum fn m)) = hash_size fn
}.

(** [hash.Hash.BlockSize()]. *)
Definition block_size (fn : hashFn) : nat :=
  match fn with sha1_New | sha256_New => 64 | sha512_New => 128 end.

Definition xor_bytes (l : bytes) (z : Z) : bytes := (fun b => z2b (Z.lxor (b2z b) z)) <$> l.

(** The [hash.Hash] that [hmac.New] returns: it keeps its own copy of the key
    material and the message written so far. *)
Record macState : Type := { mac_fn : hashFn; mac_key : bytes; mac_data : bytes }.

Definition hmac_New (fn : hashFn) (key : bytes) : macState :=
  {| mac_fn := fn; mac_key := key; mac_data := [] |}.
Definition mac_Reset (m : macState) : macState :=
  {| mac_fn := mac_fn m; mac_key := mac_key m; mac_data := [] |}.
Definition mac_Write (m : macState) (p : bytes) : macState :=
  {| mac_fn := mac_fn m; mac_key := mac_key m; mac_data := mac_data m ++ p |}.

Section hmac.
Context `{HashSuite}.

(** The key, hashed if longer than a block, zero-padded to a block. *)
Definition hmac_block_key (fn : hashFn) (key : bytes) : bytes :=
  let key := if Nat.ltb (block_size fn) (length key) then hash_sum fn key else key in
  key ++ replicate (block_size fn - length key) Byte.x00.

Definition hmac_sum (fn : hashFn) (key msg : bytes) : bytes :=
  let k := hmac_block_key fn key in
  hash_sum fn (xor_bytes k 0x5c ++ hash_sum fn (xor_bytes k 0x36 ++ msg)).

Lemma hmac_sum_length fn key msg : Z.of_nat (length (hmac_sum fn key msg)) = hash_size fn.
Proof. apply hash_sum_length. Qed.

(** [Sum(b)] appends the MAC to [b] and leaves the state alone. *)
Definition mac_Sum (m : macState) (b : bytes) : bytes :=
  b ++ hmac_sum (mac_fn m) (mac_key m) (mac_data m).
End hmac.

(** ** A concrete family: SHA-1, SHA-256, SHA-512 *)
Module Sha.
(** Big-endian words. *)
Definition be32 (z : Z) : bytes :=
  [z2b (Z.shiftr z 24); z2b (Z.shiftr z 16); z2b (Z.shiftr z 8); z2b z].
Definition be64 (z : Z) : bytes := be32 (Z.shiftr z 32) ++ be32 z.

Definition of_be (l : bytes) : Z := fold_left (fun acc b => acc * 256 + b2z b) l 0.

Fixpoint chunks {A} (fuel n : nat) (l : list A) : list (list A) :=
  match fuel, l with
  | O, _ | _, [] => []
  | S f, _ => take n l :: chunks f n (drop n l)
  end.

(** Padding: 0x80, zeros, and the bit length in [lb] bytes, to whole blocks. *)
Definition pad (block lb : nat) (m : bytes) : bytes :=
  let n := length m in
  let k := Nat.modulo (block - Nat.modulo (n + 1 + lb) block) block in
  m ++ [Byte.x80] ++ replicate (k + (lb - 8)) Byte.x00 ++ be64 (8 * Z.of_nat n).

Definition rotl32 (n x : Z) : Z := Z.lor (u32 (Z.shiftl x n)) (Z.shiftr x (32 - n)).
Definition rotr (w n x : Z) : Z :=
  Z.lor (Z.shiftr x n) (Z.land (Z.shiftl x (w - n)) (Z.ones w)).
Definition wd (i : nat) (l : list Z) : Z := nth i l 0.

(** *** SHA-1 *)
Definition sha1_f (t : nat) (b c d : Z) : Z :=
  if Nat.ltb t 20 then Z.lxor d (Z.land b (Z.lxor c d))
  else if Nat.ltb t 40 then Z.lxor b (Z.lxor c d)
  else if Nat.ltb t 60 then Z.lor (Z.land b c) (Z.land d (Z.lor b c))
  else Z.lxor b (Z.lxor c d).
Definition sha1_k (t : nat) : Z :=
  if Nat.ltb t 20 then 0x5a827999 else if Nat.ltb t 40 then 0x6ed9eba1
  else if Nat.ltb t 60 then 0x8f1bbcdc else 0xca62c1d6.

Definition st5 : Type := Z * Z * Z * Z * Z.

Fixpoint sha1_rounds (n t : nat) (w : list Z) (s : st5) : st5 :=
  match n with
  | O => s
  | S n' =>
      let '(a, b, c, d, e) := s in
      let x := u32 (rotl32 5 a + sha1_f t b c d + e + sha1_k t + wd 0 w) in
      let nw := rotl32 1 (Z.lxor (Z.lxor (wd 13 w) (wd 8 w)) (Z.lxor (wd 2 w) (wd 0 w))) in
      sha1_rounds n' (S t) (drop 1 w ++ [nw]) (x, a, rotl32 30 b, c, d)
  end.

Definition sha1_block (s : st5) (blk : bytes) : st5 :=
  let '(a, b, c, d, e) := s in
  let '(a', b', c', d', e') := sha1_rounds 80 0 (of_be <$> chunks 16 4 blk) s in
  (u32 (a + a'), u32 (b + b'), u32 (c + c'), u32 (d + d'), u32 (e + e')).

Definition sha1 (m : bytes) : bytes :=
  let p := pad 64 8 m in
  let '(a, b, c, d, e) := fold_left sha1_block (chunks (length p) 64 p)
    (0x67452301, 0xefcdab89, 0x98badcfe, 0x10325476, 0xc3d2e1f0) in
  be32 a ++ be32 b ++ be32 c ++ be32 d ++ be32 e.

(** *** SHA-2, for a word width and its rotation amounts *)
Definition st8 : Type := Z * Z * Z * Z * Z * Z * Z * Z.

Record sha2_params : Type := {
  wsize : Z; S0 : Z * Z * Z; S1 : Z * Z * Z; s0 : Z * Z * Z; s1 : Z * Z * Z; ks : list Z
}.

Definition big_sigma (w : Z) (r : Z * Z * Z) (x : Z) : Z :=
  let '(r1, r2, r3) := r in Z.lxor (rotr w r1 x) (Z.lxor (rotr w r2 x) (rotr w r3 x)).
Definition small_sigma (w : Z) (r : Z * Z * Z) (x : Z) : Z :=
  let '(r1, r2, r3) := r in Z.lxor (rotr w r1 x) (Z.lxor (rotr w r2 x) (Z.shiftr x r3)).

Fixpoint sha2_rounds (p : sha2_params) (kl : list Z) (w : list Z) (s : st8) : st8 :=
  match kl with
  | [] => s
  | k :: kl' =>
      let trunc x := Z.land x (Z.ones (wsize p)) in
      let '(a, b, c, d, e, f, g, h) := s in
      let t1 := h + big_sigma (wsize p) (S1 p) e + Z.lxor g (Z.land e (Z.lxor f g))
                + k + wd 0 w in
      let t2 := big_sigma (wsize p) (S0 p) a + Z.lor (Z.land a b) (Z.land c (Z.lor a b)) in
      let nw := trunc (small_sigma (wsize p) (s1 p) (wd 14 w) + wd 9 w
                       + small_sigma (wsize p) (s0 p) (wd 1 w) + wd 0 w) in
      sha2_rounds p kl' (drop 1 w ++ [nw]) (trunc (t1 + t2), a, b, c, trunc (d + t1), e, f, g)
  end.

Definition sha2_block (p : sha2_params) (s : st8) (blk : bytes) : st8 :=
  let trunc x := Z.land x (Z.ones (wsize p)) in
  let '(a, b, c, d, e, f, g, h) := s in
  let '(a', b', c', d', e', f', g', h') :=
    sha2_rounds p (ks p) (of_be <$> chunks 16 (Z.to_nat (wsize p / 8)) blk) s in
  (trunc (a + a'), trunc (b + b'), trunc (c + c'), trunc (d + d'),
   trunc (e + e'), trunc (f + f'), trunc (g + g'), trunc (h + h')).

(** The constants: 64 bits of the fractional parts of the cube roots of the
    first 80 primes, and of the square roots of the first 8; SHA-256 uses their
    upper halves. *)
Definition primes : list Z :=
  filter (fun n => forallb (fun d => negb (n mod d =? 0)) (seqZ 2 (n - 2)) = true) (seqZ 2 408).

(** The integer cube root of [n], bit by bit from bit [k]. *)
Fixpoint cbrt (k : nat) (r n : Z) : Z :=
  let r' := r + 2 ^ Z.of_nat k in
  let r := if r' ^ 3 <=? n then r' else r in
  match k with O => r | S k' => cbrt k' r n end.

Definition cube_fractions : list Z :=
  Eval vm_compute in (fun p => cbrt 67 0 (p * 2 ^ 192) mod 2 ^ 64) <$> primes.
Definition square_fractions : list Z :=
  Eval vm_compute in (fun p => Z.sqrt (p * 2 ^ 128) mod 2 ^ 64) <$> take 8 primes.

Definition upper (z : Z) : Z := Z.shiftr z 32.
Definition cube_fractions32 : list Z := Eval vm_compute in upper <$> take 64 cube_fractions.

Definition sha256_params : sha2_params := {|
  wsize := 32; S0 := (2, 13, 22); S1 := (6, 11, 25); s0 := (7, 18, 3); s1 := (17, 19, 10);
  ks := cube_fractions32
|}.

Definition sha512_params : sha2_params := {|
  wsize := 64; S0 := (28, 34, 39); S1 := (14, 18, 41); s0 := (1, 8, 7); s1 := (19, 61, 6);
  ks := cube_fractions
|}.

Definition state_of (l : list Z) : st8 :=
  (wd 0 l, wd 1 l, wd 2 l, wd 3 l, wd 4 l, wd 5 l, wd 6 l, wd 7 l).

Definition sha256_init : st8 := Eval vm_compute in state_of (upper <$> square_fractions).
Definition sha512_init : st8 := Eval vm_compute in state_of square_fractions.

Definition sha256 (m : bytes) : bytes :=
  let p := pad 64 8 m in
  let '(a, b, c, d, e, f, g, h) :=
    fold_left (sha2_block sha256_params) (chunks (length p) 64 p) sha256_init in
  be32 a ++ be32 b ++ be32 c ++ be32 d ++ be32 e ++ be32 f ++ be32 g ++ be32 h.

Definition sha512 (m : bytes) : bytes :=
  let p := pad 128 16 m in
  let '(a, b, c, d, e, f, g, h) :=
    fold_left (sha2_block sha512_params) (chunks (length p) 128 p) sha512_init in
  be64 a ++ be64 b ++ be64 c ++ be64 d ++ be64 e ++ be64 f ++ be64 g ++ be64 h.

Definition sum (fn : hashFn) : bytes -> bytes :=
  match fn with sha1_New => sha1 | sha256_New => sha256 | sha512_New => sha512 end.

Lemma sum_length fn m : Z.of_nat (length (sum fn m)) = hash_size fn.
Proof.
  destruct fn; simpl.
  - unfold sha1. by destruct (fold_left _ _ _) as [[[[? ?] ?] ?] ?].
  - unfold sha256. by destruct (fold_left _ _ _) as [[[[[[[? ?] ?] ?] ?] ?] ?] ?].
  - unfold sha512. by destruct (fold_left _ _ _) as [[[[[[[? ?] ?] ?] ?] ?] ?] ?].
Qed.

Definition suite : HashSuite := {| hash_sum := sum; hash_sum_length := sum_length |}.

(** FIPS 180-4 and RFC 2202 test values. *)
Example sha1_abc : of_be (sha1 (lit "abc")) = 0xa9993e364706816aba3e25717850c26c9cd0d89d.
Proof. vm_compute. reflexivity. Qed.
Example sha256_abc : of_be (sha256 (lit "abc")) =
  0xba7816bf8f01cfea414140de5dae2223b00361a396177a9cb410ff61f20015ad.
Proof. vm_compute. reflexivity. Qed.
Example sha512_abc : of_be (take 16 (sha512 (lit "abc"))) = 0xddaf35a193617abacc417349ae204131.
Proof. vm_compute. reflexivity. Qed.
Example hmac_sha1_jefe :
  of_be (@hmac_sum suite sha1_New (lit "Jefe") (lit "what do ya want for nothing?"))
  = 0xeffcdf6ae5eb2fa2d27416d5f184df9c259a7c79.
Proof. vm_compute. reflexivity. Qed.
End Sha.
