(* ===== verification/Secret.v ===== *)
(** * Secrets and providers: [secret_runtime.go] and [provider.go]

    The store of byte buffers that slices alias, the external [SecretProvider]
    and [HMACProvider] interfaces with the contracts the package relies on, and
    [secretRuntime], which turns a stored secret or a provider into MACs. *)
From S2P Require Import Prelude Errors Hash.

(** ** The world

    [w_heap] holds the backing buffers; a slice is [None] (nil) or the address
    of a whole buffer.  [w_now] is the wall clock in nanoseconds since the Unix
    epoch.  [w_ext] is the state of the code behind the provider interfaces. *)
Record world (X : Type) : Type := { w_heap : gmap positive bytes; w_now : Z; w_ext : X }.
Arguments w_heap {X} _.
Arguments w_now {X} _.
Arguments w_ext {X} _.

Abbreviation slice := (option positive).

Section world.
Context {X : Type}.
Implicit Types w : world X.

Definition set_heap (f : gmap positive bytes -> gmap positive bytes) w : world X :=
  {| w_heap := f (w_heap w); w_now := w_now w; w_ext := w_ext w |}.

(** The contents of a slice; nil and dangling slices are empty. *)
Definition slice_get w (s : slice) : bytes := default [] (s ≫= fun l => w_heap w !! l).

(** [for i := range s { s[i] = 0 }]: every alias of the buffer sees it. *)
Definition slice_zero (s : slice) w : world X :=
  match s with
  | None => w
  | Some l => set_heap (alter (fun b => replicate (length b) Byte.x00) l) w
  end.

(** [make([]byte, ...)] initialised with [b]. *)
Definition alloc (b : bytes) : GoM (world X) slice := fun w =>
  let l := fresh (dom (w_heap w)) in
  (Ret (Some l), set_heap <[l := b]> w).

Lemma slice_get_zero_same w l b :
  w_heap w !! l = Some b -> slice_get (slice_zero (Some l) w) (Some l) = replicate (length b) Byte.x00.
Proof.
  intros Hl. unfold slice_get, slice_zero, set_heap. simpl. by rewrite lookup_alter_eq, Hl.
Qed.

Lemma lookup_zero_ne w l l' :
  l <> l' -> w_heap (slice_zero (Some l) w) !! l' = w_heap w !! l'.
Proof. intros Hne. unfold slice_zero, set_heap. simpl. by rewrite lookup_alter_ne. Qed.
End world.

(** ** [provider.go]: the two interfaces, one method each *)
Definition SecretProvider (X : Type) : Type := GoM (world X) slice.
Definition HMACProvider (X : Type) : Type := Algorithm -> bytes -> GoM (world X) bytes.

(** The adapters [SecretProviderFunc] and [HMACProviderFunc] call the function. *)
Definition SecretProviderFunc_Secret {X} (f : GoM (world X) slice) : SecretProvider X := f.
Definition HMACProviderFunc_HMAC {X} (f : Algorithm -> bytes -> GoM (world X) bytes) : HMACProvider X := f.

(** ** [secret_runtime.go] *)
Record secretRuntime (X : Type) : Type := {
  secret : slice;
  provider : option (SecretProvider X);
  hmacProvider : option (HMACProvider X)
}.
Arguments secret {X} _.
Arguments provider {X} _.
Arguments hmacProvider {X} _.

Section runtime.
Context {X : Type} `{HashSuite}.
Abbreviation W := (world X).
Implicit Types (r : secretRuntime X) (w : W).

Definition newStaticSecretRuntime (s : slice) : secretRuntime X :=
  {| secret := s; provider := None; hmacProvider := None |}.
Definition newProviderSecretRuntime (p : SecretProvider X) : secretRuntime X :=
  {| secret := None; provider := Some p; hmacProvider := None |}.
Definition newHMACProviderRuntime (p : HMACProvider X) : secretRuntime X :=
  {| secret := None; provider := None; hmacProvider := Some p |}.

Definition hasStaticSecret w r : bool := negb (Nat.eqb (length (slice_get w (secret r))) 0).

Definition hasExternalProvider r : bool :=
  bool_decide (is_Some (provider r)) || bool_decide (is_Some (hmacProvider r)).

(** Zeroes the buffer in place and drops the reference. *)
Definition clearStaticSecret : GoM (W * secretRuntime X) unit := fun '(w, r) =>
  (Ret tt,
   (slice_zero (secret r) w,
    {| secret := None; provider := provider r; hmacProvider := hmacProvider r |})).

(** [withMAC]: [fn] is the callback, here returning what it computes. *)
Definition withMAC {A} (r : secretRuntime X) (fn : hashFn) (k : macState -> A) : GoM W A :=
  static ← gets (fun w => hasStaticSecret w r);
  if (static : bool) then
    key ← gets (fun w => slice_get w (secret r));
    mret (k (hmac_New fn key))
  else
    match provider r with
    | None => fail ErrInvalidSecret
    | Some p =>
        fun w =>
          match p w with
          | (Err e, w') => (Err (ErrJoin ErrSecretProvider e), w')
          | (Panic, w') => (Panic, w')
          | (Ret s, w') =>
              let key := slice_get w' s in
              if Nat.eqb (length key) 0 then (Err ErrInvalidSecret, w')
              else (Ret (k (hmac_New fn key)), slice_zero s w')
          end
    end.

Definition computeHMAC (r : secretRuntime X) (algorithm : Algorithm) (fn : hashFn)
    (message : bytes) : GoM W bytes :=
  match hmacProvider r with
  | Some p =>
      fun w =>
        match p algorithm message w with
        | (Err e, w') => (Err (ErrJoin ErrHMACProvider e), w')
        | (Panic, w') => (Panic, w')
        | (Ret sum, w') =>
            if negb (Z.of_nat (length sum) =? expectedHMACSize algorithm)
            then (Err ErrHMACProvider, w')
            else (Ret sum, w')
        end
  | None => withMAC r fn (fun mac => mac_Sum (mac_Write mac message) [])
  end.

(** ** Contracts of the external code *)

(** A secret provider resolves [key] in a buffer of the caller's own: zeroing
    that buffer keeps the provider's invariant. *)
Class SecretProviderLaws (p : SecretProvider X) (key : bytes) (Inv : W -> Prop) : Prop := {
  secret_resolves : forall w, Inv w -> exists l w',
    p w = (Ret (Some l), w') /\ w_heap w' !! l = Some key /\ Inv (slice_zero (Some l) w')
}.

(** An HMAC provider computes HMAC under a key it keeps. *)
Class HMACProviderLaws (p : HMACProvider X) (key : bytes) (Inv : W -> Prop) : Prop := {
  hmac_computes : forall w algorithm fn message, Inv w -> hashFuncFor algorithm = Some fn ->
    exists w', p algorithm message w = (Ret (hmac_sum fn key message), w') /\ Inv w'
}.

(** What the OTP layer needs of a runtime: in every world of [Inv] it yields
    the HMAC of the message under [key]. *)
Class RuntimeMAC (r : secretRuntime X) (key : bytes) (Inv : W -> Prop) : Prop := {
  runtime_mac : forall w algorithm fn message, Inv w -> hashFuncFor algorithm = Some fn ->
    exists w', computeHMAC r algorithm fn message w = (Ret (hmac_sum fn key message), w') /\ Inv w'
}.

Lemma hasStaticSecret_Some w r l key :
  secret r = Some l -> w_heap w !! l = Some key -> key <> [] -> hasStaticSecret w r = true.
Proof.
  intros Hr Hl Hk. unfold hasStaticSecret, slice_get. rewrite Hr. simpl. rewrite Hl.
  by destruct key.
Qed.

#[export] Instance static_runtime l key :
  RuntimeMAC (newStaticSecretRuntime (Some l)) key
    (fun w => w_heap w !! l = Some key /\ key <> []).
Proof.
  constructor. intros w algorithm fn message [Hl Hk] Hfn. exists w. split; [|done].
  unfold computeHMAC, withMAC, mbind, M_bind, gets. simpl.
  rewrite (hasStaticSecret_Some w _ l key) by done.
  unfold slice_get. simpl. by rewrite Hl.
Qed.

#[export] Instance provider_runtime p key Inv `{!SecretProviderLaws p key Inv} :
  key <> [] -> RuntimeMAC (newProviderSecretRuntime p) key Inv.
Proof.
  intros Hk. constructor. intros w algorithm fn message HI Hfn.
  destruct (secret_resolves w HI) as (l & w' & Hp & Hl & HI').
  exists (slice_zero (Some l) w'). split; [|done].
  unfold computeHMAC, withMAC, mbind, M_bind, gets. simpl. rewrite Hp.
  unfold slice_get. simpl. rewrite Hl. simpl. by destruct key.
Qed.

#[export] Instance hmac_provider_runtime p key Inv `{!HMACProviderLaws p key Inv} :
  RuntimeMAC (newHMACProviderRuntime p) key Inv.
Proof.
  constructor. intros w algorithm fn message HI Hfn.
  destruct (hmac_computes w algorithm fn message HI Hfn) as (w' & Hp & HI').
  exists w'. split; [|done]. unfold computeHMAC. simpl. rewrite Hp.
  rewrite hmac_sum_length, (hashFuncFor_size _ _ Hfn), Z.eqb_refl. done.
Qed.

(** Whatever it is asked, the runtime only ever returns MACs of the expected
    size. *)
Lemma computeHMAC_length r algorithm fn message w sum w' :
  hashFuncFor algorithm = Some fn ->
  computeHMAC r algorithm fn message w = (Ret sum, w') ->
  Z.of_nat (length sum) = hash_size fn.
Proof.
  intros Hfn. unfold computeHMAC, withMAC, mbind, M_bind, gets, fail, mret, M_ret. simpl.
  destruct (hmacProvider r) as [p|].
  - destruct (p algorithm message w) as [[s|e|] w1]; intros E; simplify_eq.
    destruct (Z.eqb_spec (Z.of_nat (length s)) (expectedHMACSize algorithm)) as [Hs|];
      simplify_eq/=. by rewrite Hs, <-(hashFuncFor_size algorithm).
  - destruct (hasStaticSecret w r); [intros E; simplify_eq/=; apply hmac_sum_length|].
    destruct (provider r) as [p|]; [|done].
    destruct (p w) as [[s|e|] w1]; try done.
    destruct (length _ =? 0)%nat; intros E; simplify_eq/=. apply hmac_sum_length.
Qed.
End runtime.

(** ** Two secret providers *)

(** Hands out a new copy of its secret on every call. *)
Definition copying_provider (key : bytes) : SecretProvider unit := alloc key.

(** Hands out the buffer it keeps. *)
Definition aliasing_provider (l : positive) : SecretProvider unit := mret (Some l).

#[export] Instance copying_provider_laws key :
  SecretProviderLaws (copying_provider key) key (fun _ => True).
Proof.
  constructor. intros w _. eexists _, _. split; [done|]. split; [|done].
  simpl. apply lookup_insert_eq.
Qed.
