(* ===== verification/Digits.v ===== *)
(** * From a MAC to a code: the arithmetic core of [hotp.go]

    The MAC input ([binary.BigEndian.PutUint64] of the counter and the tagged
    context), [dynamicTruncate] and [formatOTP] with their machine arithmetic
    and index checks, and the RFC 4226 reference function they implement. *)
From S2P Require Import Prelude Errors Hash.

(** ** The code *)

(** [binary.BigEndian.PutUint64]. *)
Definition PutUint64 (v : Z) : bytes :=
  (fun k => z2b (Z.shiftr v k)) <$> [56; 48; 40; 32; 24; 16; 8; 0].

(** [contextBindTagBytes]: the tag and its NUL. *)
Definition contextBindTag : bytes := lit "genotp-ctx-v1" ++ [Byte.x00].

(** The bytes written to the MAC for a counter and a context. *)
Definition macMessage (counter : Z) (context : bytes) : bytes :=
  let message := PutUint64 counter in
  if Nat.ltb 0 (length context) then message ++ contextBindTag ++ context else message.

Definition dynamicTruncate (hmacBytes : bytes) (modValue : Z) : result Z :=
  match list.last hmacBytes with
  | None => Panic
  | Some b =>
      let offset := Z.to_nat (Z.land (b2z b) 0x0f) in
      match hmacBytes !! offset, hmacBytes !! (offset + 1)%nat,
            hmacBytes !! (offset + 2)%nat, hmacBytes !! (offset + 3)%nat with
      | Some b0, Some b1, Some b2, Some b3 =>
          let binary :=
            Z.lor (Z.lor (Z.lor (Z.shiftl (Z.land (b2z b0) 0x7f) 24)
                                (Z.shiftl (b2z b1) 16))
                         (Z.shiftl (b2z b2) 8))
                  (b2z b3) in
          if modValue =? 0 then Panic else Ret (binary mod modValue)
      | _, _, _, _ => Panic
      end
  end.

(** [for i := d-1; i >= 0; i-- { dst[i] = byte('0' + code%10); code /= 10 }],
    with [n = i + 1]. *)
Fixpoint formatLoop (n : nat) (dst : bytes) (code : Z) : result bytes :=
  match n with
  | O => Ret dst
  | S i =>
      if Nat.ltb i (length dst)
      then formatLoop i (<[i := z2b (u32 (48 + code mod 10))]> dst) (code / 10)
      else Panic
  end.

Definition formatOTP (dst : bytes) (code digits : Z) : result bytes :=
  let d := Z.to_nat digits in
  dst ← formatLoop d dst code;
  if Nat.leb d (length dst) then Ret (take d dst) else Panic.

(** ** The reference: RFC 4226, section 5.3 *)

(** The big-endian number of a byte string. *)
Definition of_be (l : bytes) : Z := fold_left (fun acc b => acc * 256 + b2z b) l 0.

(** [DT(String)]: the 31 low bits of the four bytes at the offset the last
    nibble gives. *)
Definition DT (h : bytes) : Z :=
  let offset := Z.to_nat (default 0 (b2z <$> list.last h) mod 16) in
  of_be (take 4 (drop offset h)) mod 2 ^ 31.

(** The [d]-digit decimal of [n], most significant first. *)
Fixpoint dec_digits (d : nat) (n : Z) : bytes :=
  match d with
  | O => []
  | S d' => dec_digits d' (n / 10) ++ [z2b (48 + n mod 10)]
  end.

(** The number a decimal string denotes. *)
Definition dec_value (s : bytes) : Z := fold_left (fun acc b => acc * 10 + (b2z b - 48)) s 0.

(** The code for a counter and a context under a key. *)
Definition otp_code `{HashSuite} (fn : hashFn) (key : bytes) (digits : Z)
    (counter : Z) (context : bytes) : bytes :=
  dec_digits (Z.to_nat digits)
    (DT (hmac_sum fn key (macMessage counter context)) mod 10 ^ digits).

(** ** Lemmas *)
Lemma PutUint64_length v : length (PutUint64 v) = 8%nat.
Proof. done. Qed.

Lemma of_be_snoc l b : of_be (l ++ [b]) = of_be l * 256 + b2z b.
Proof. unfold of_be. by rewrite fold_left_app. Qed.

Lemma of_be_PutUint64 v : 0 <= v < 2 ^ 64 -> of_be (PutUint64 v) = v.
Proof.
  intros Hv. unfold of_be, PutUint64. cbn [fmap list_fmap fold_left].
  rewrite !b2z_z2b, !Z.shiftr_div_pow2 by lia.
  change (2 ^ 0) with 1. rewrite Z.div_1_r.
  assert (forall n m, 0 < n -> m = n * 256 -> v / m = v / n / 256) as Hd
    by (intros n m Hn ->; by rewrite Z.div_div by lia).
  rewrite (Hd (2 ^ 48) (2 ^ 56)), (Hd (2 ^ 40) (2 ^ 48)), (Hd (2 ^ 32) (2 ^ 40)),
    (Hd (2 ^ 24) (2 ^ 32)), (Hd (2 ^ 16) (2 ^ 24)), (Hd (2 ^ 8) (2 ^ 16)) by lia.
  change (2 ^ 8) with 256. zdiv.
Qed.

Lemma PutUint64_inj c c' :
  0 <= c < 2 ^ 64 -> 0 <= c' < 2 ^ 64 -> PutUint64 c = PutUint64 c' -> c = c'.
Proof. intros Hc Hc' E. by rewrite <-(of_be_PutUint64 c), <-(of_be_PutUint64 c'), E. Qed.

Lemma macMessage_split counter context :
  take 8 (macMessage counter context) = PutUint64 counter /\
  drop 8 (macMessage counter context) =
    if Nat.ltb 0 (length context) then contextBindTag ++ context else [].
Proof.
  unfold macMessage. destruct (Nat.ltb 0 (length context)).
  - rewrite take_app_length', drop_app_length' by done. done.
  - done.
Qed.

(** Assembling four bytes with shifts is the big-endian number modulo 2^31. *)
Lemma truncate_bytes (b0 b1 b2 b3 : byte) :
  Z.lor (Z.lor (Z.lor (Z.shiftl (Z.land (b2z b0) 0x7f) 24) (Z.shiftl (b2z b1) 16))
               (Z.shiftl (b2z b2) 8)) (b2z b3)
  = of_be [b0; b1; b2; b3] mod 2 ^ 31.
Proof.
  pose proof (b2z_range b0). pose proof (b2z_range b1).
  pose proof (b2z_range b2). pose proof (b2z_range b3).
  change 0x7f with (2 ^ 7 - 1). rewrite land_ones' by lia.
  set (x := b2z b0 mod 2 ^ 7). assert (0 <= x < 128) by (by apply Z.mod_pos_bound).
  replace (Z.shiftl x 24) with (Z.shiftl (Z.shiftl x 8) 16) by (by rewrite Z.shiftl_shiftl).
  rewrite <-Z.shiftl_lor, (lor_disjoint_add x (b2z b1) 8) by lia.
  replace (Z.shiftl (x * 2 ^ 8 + b2z b1) 16)
    with (Z.shiftl (Z.shiftl (x * 2 ^ 8 + b2z b1) 8) 8) by (by rewrite Z.shiftl_shiftl).
  rewrite <-Z.shiftl_lor, !lor_disjoint_add by lia.
  unfold of_be, x. simpl fold_left. zdiv.
Qed.

Lemma take4_drop (h : bytes) (o : nat) b0 b1 b2 b3 :
  h !! o = Some b0 -> h !! (o + 1)%nat = Some b1 -> h !! (o + 2)%nat = Some b2 ->
  h !! (o + 3)%nat = Some b3 -> take 4 (drop o h) = [b0; b1; b2; b3].
Proof.
  replace (o + 1)%nat with (S o) by lia. replace (o + 2)%nat with (S (S o)) by lia.
  replace (o + 3)%nat with (S (S (S o))) by lia. intros H0 H1 H2 H3.
  by rewrite (drop_S h b0 o), (drop_S h b1 (S o)), (drop_S h b2 (S (S o))),
    (drop_S h b3 (S (S (S o)))).
Qed.

(** Truncation of a MAC of at least 20 bytes never indexes out of range. *)
Lemma dynamicTruncate_ok h m :
  (20 <= length h)%nat -> 0 < m -> dynamicTruncate h m = Ret (DT h mod m).
Proof.
  intros Hh Hm. unfold dynamicTruncate, DT.
  destruct (list.last h) as [b|] eqn:Hlast; [|apply last_None in Hlast; subst; simpl in Hh; lia].
  simpl default. change 0x0f with (2 ^ 4 - 1). rewrite land_ones' by lia.
  change (2 ^ 4) with 16. pose proof (Z.mod_pos_bound (b2z b) 16 ltac:(lia)).
  set (o := Z.to_nat (b2z b mod 16)).
  destruct (lookup_lt_is_Some_2 h o ltac:(lia)) as [b0 H0].
  destruct (lookup_lt_is_Some_2 h (o + 1) ltac:(lia)) as [b1 H1].
  destruct (lookup_lt_is_Some_2 h (o + 2) ltac:(lia)) as [b2 H2].
  destruct (lookup_lt_is_Some_2 h (o + 3) ltac:(lia)) as [b3 H3].
  rewrite H0, H1, H2, H3, (take4_drop h o b0 b1 b2 b3) by done.
  rewrite (proj2 (Z.eqb_neq m 0)) by lia. by rewrite truncate_bytes.
Qed.

Lemma dec_digits_length d n : length (dec_digits d n) = d.
Proof. revert n. induction d; intros n; simpl; [done|]. rewrite length_app, IHd. simpl. lia. Qed.

Lemma dec_digits_decimal d n : Forall (fun c => 48 <= b2z c <= 57) (dec_digits d n).
Proof.
  revert n. induction d as [|d IH]; intros n; [constructor|].
  simpl. apply Forall_app. split; [done|]. constructor; [|done].
  pose proof (Z.mod_pos_bound n 10 ltac:(lia)). rewrite b2z_z2b_small by lia. lia.
Qed.

Lemma formatLoop_ok n : forall dst code,
  (n <= length dst)%nat ->
  formatLoop n dst code = Ret (dec_digits n code ++ drop n dst).
Proof.
  induction n as [|i IH]; intros dst code Hn; [done|]. cbn [formatLoop dec_digits].
  rewrite (proj2 (Nat.ltb_lt _ _)) by lia. rewrite IH by (rewrite length_insert; lia).
  pose proof (Z.mod_pos_bound code 10 ltac:(lia)).
  rewrite u32_small by lia. f_equal. rewrite <-app_assoc. f_equal.
  rewrite (drop_S _ (z2b (48 + code mod 10)) i) by (apply list_lookup_insert_eq; lia).
  simpl. f_equal. by rewrite drop_insert_lt by lia.
Qed.

Lemma formatOTP_ok dst code digits :
  0 <= digits <= Z.of_nat (length dst) ->
  formatOTP dst code digits = Ret (dec_digits (Z.to_nat digits) code).
Proof.
  intros Hd. unfold formatOTP. rewrite formatLoop_ok by lia.
  unfold mbind, outcome_bind. rewrite length_app, dec_digits_length, length_drop.
  rewrite (proj2 (Nat.leb_le _ _)) by lia.
  by rewrite take_app_length' by (by rewrite dec_digits_length).
Qed.

Lemma dec_value_digits d n : 0 <= n -> dec_value (dec_digits d n) = n mod 10 ^ Z.of_nat d.
Proof.
  revert n. induction d as [|d IH]; intros n Hn; [by rewrite Z.mod_1_r|].
  simpl dec_digits. unfold dec_value. rewrite fold_left_app. fold (dec_value (dec_digits d (n / 10))).
  rewrite IH by (apply Z.div_pos; lia). simpl.
  pose proof (Z.mod_pos_bound n 10 ltac:(lia)).
  rewrite b2z_z2b_small by lia. rewrite Nat2Z.inj_succ, Z.pow_succ_r by lia.
  rewrite Z.rem_mul_r by lia. lia.
Qed.

Lemma otp_code_length `{HashSuite} fn key digits counter context :
  0 <= digits -> Z.of_nat (length (otp_code fn key digits counter context)) = digits.
Proof. intros Hd. unfold otp_code. rewrite dec_digits_length. lia. Qed.

#[export] Hint Rewrite @otp_code_length using lia : go_int.

(** ** Properties *)

(** C25: dynamic truncation and formatting follow RFC 4226, section 5.3: on
    any MAC of at least 20 bytes the code is the 31-bit value at the offset
    given by the last nibble, modulo a power of ten, without an out-of-range
    access; it is printed with exactly [digits] decimal digits, leading zeros
    included, that read back as the code. *)
Theorem dynamicTruncate_rfc (h : bytes) (digits : Z)
    (Hlen : (20 <= length h)%nat) (Hd : 6 <= digits <= 8) :
  exists code, dynamicTruncate h (10 ^ digits) = Ret code /\
    code = DT h mod 10 ^ digits /\ 0 <= code < 10 ^ digits /\
    exists s, formatOTP (replicate 8 Byte.x00) code digits = Ret s /\
      Z.of_nat (length s) = digits /\ dec_value s = code /\
      Forall (fun c => 48 <= b2z c <= 57) s.
Proof.
  exists (DT h mod 10 ^ digits). assert (0 < 10 ^ digits) by (apply Z.pow_pos_nonneg; lia).
  pose proof (Z.mod_pos_bound (DT h) (10 ^ digits) ltac:(done)).
  rewrite dynamicTruncate_ok, formatOTP_ok by (done || rewrite length_replicate; lia).
  split; [done|]. split; [done|]. split; [done|]. eexists; split; [done|].
  rewrite dec_digits_length. split; [lia|]. split.
  - rewrite dec_value_digits, Z2Nat.id by lia. by apply Z.mod_small.
  - apply dec_digits_decimal.
Qed.

Lemma dynamicTruncate_rfc_witness :
  exists code, dynamicTruncate (Sha.sha1 (lit "abc")) (10 ^ 6) = Ret code /\ 0 <= code < 10 ^ 6.
Proof.
  destruct (dynamicTruncate_rfc (Sha.sha1 (lit "abc")) 6) as (c & H1 & _ & H2 & _);
    [vm_compute; lia|lia|]. exists c. by split.
Defined.

(** C30: the message that is authenticated determines counter and context: a
    bound code is never computed from the message of another counter or
    context, or of none. *)
Theorem macMessage_injective (counter counter' : Z) (context context' : bytes)
    (Hc : 0 <= counter < 2 ^ 64) (Hc' : 0 <= counter' < 2 ^ 64)
    (E : macMessage counter context = macMessage counter' context') :
  counter = counter' /\ context = context'.
Proof.
  destruct (macMessage_split counter context) as [Ht Hd].
  destruct (macMessage_split counter' context') as [Ht' Hd'].
  rewrite E, Ht' in Ht. rewrite E, Hd' in Hd. split; [by apply PutUint64_inj|].
  destruct context as [|x c], context' as [|x' c']; try done. by simplify_eq/=.
Qed.

Lemma macMessage_injective_witness :
  macMessage 1 (lit "ctx") = macMessage 1 (lit "ctx") /\ 1 = 1 /\ lit "ctx" = lit "ctx".
Proof.
  split; [reflexivity|].
  apply (macMessage_injective 1 1 (lit "ctx") (lit "ctx")); [lia|lia|reflexivity].
Defined.
