(* ===== verification/Strings.v ===== *)
(** * Go's [strings], [unicode/utf8] and [unicode] as the package uses them

    UTF-8 decoding and encoding of runes, ranging over a string, and the
    string functions called by [context.go], [provisioning.go] and
    [migration.go].  [unicode.ToLower] beyond ASCII is table data: it is a
    parameter ([UnicodeTables]) with the documented ASCII behaviour as law. *)
From S2P Require Import Prelude.

(** ** Runes *)
Definition RuneError : Z := 0xfffd.

Definition in_range (lo hi x : Z) : bool := (lo <=? x) && (x <=? hi).

(** A continuation byte in the given range, as its six payload bits. *)
Definition cont (lo hi : Z) (b : byte) : option Z :=
  if in_range lo hi (b2z b) then Some (Z.land (b2z b) 0x3f) else None.

(** [utf8.DecodeRuneInString] on a non-empty string: rune and width, or
    [(RuneError, 1)] for an invalid encoding. *)
Definition decodeRune (s : bytes) : Z * nat :=
  match s with
  | [] => (RuneError, 0%nat)
  | b0 :: s1 =>
      let c := b2z b0 in
      let two := b1 ← head s1; x1 ← cont 0x80 0xbf b1;
        Some (Z.lor (Z.shiftl (Z.land c 0x1f) 6) x1, 2%nat) in
      let three lo hi := b1 ← head s1; x1 ← cont lo hi b1;
        b2 ← s1 !! 1%nat; x2 ← cont 0x80 0xbf b2;
        Some (Z.lor (Z.shiftl (Z.land c 0x0f) 12) (Z.lor (Z.shiftl x1 6) x2), 3%nat) in
      let four lo hi := b1 ← head s1; x1 ← cont lo hi b1;
        b2 ← s1 !! 1%nat; x2 ← cont 0x80 0xbf b2;
        b3 ← s1 !! 2%nat; x3 ← cont 0x80 0xbf b3;
        Some (Z.lor (Z.shiftl (Z.land c 0x07) 18)
                (Z.lor (Z.shiftl x1 12) (Z.lor (Z.shiftl x2 6) x3)), 4%nat) in
      if c <? 0x80 then (c, 1%nat)
      else default (RuneError, 1%nat)
        (if in_range 0xc2 0xdf c then two
         else if c =? 0xe0 then three 0xa0 0xbf
         else if c =? 0xed then three 0x80 0x9f
         else if in_range 0xe1 0xef c then three 0x80 0xbf
         else if c =? 0xf0 then four 0x90 0xbf
         else if in_range 0xf1 0xf3 c then four 0x80 0xbf
         else if c =? 0xf4 then four 0x80 0x8f
         else None)
  end.

(** [utf8.AppendRune]: surrogates and out-of-range runes become [RuneError]. *)
Definition encodeRune (r : Z) : bytes :=
  let valid := in_range 0 0xd7ff r || in_range 0xe000 0x10ffff r in
  let r := if valid then r else RuneError in
  if r <? 0x80 then [z2b r]
  else if r <? 0x800 then [z2b (Z.lor 0xc0 (Z.shiftr r 6)); z2b (Z.lor 0x80 (Z.land r 0x3f))]
  else if r <? 0x10000 then
    [z2b (Z.lor 0xe0 (Z.shiftr r 12)); z2b (Z.lor 0x80 (Z.land (Z.shiftr r 6) 0x3f));
     z2b (Z.lor 0x80 (Z.land r 0x3f))]
  else
    [z2b (Z.lor 0xf0 (Z.shiftr r 18)); z2b (Z.lor 0x80 (Z.land (Z.shiftr r 12) 0x3f));
     z2b (Z.lor 0x80 (Z.land (Z.shiftr r 6) 0x3f)); z2b (Z.lor 0x80 (Z.land r 0x3f))].

(** The runes of [for _, c := range s]; each step consumes at least one byte, so
    the length of the string is enough fuel. *)
Fixpoint runesLoop (fuel : nat) (s : bytes) : list Z :=
  match fuel, s with
  | O, _ | _, [] => []
  | S f, _ => let '(r, w) := decodeRune s in r :: runesLoop f (drop w s)
  end.
Definition runes (s : bytes) : list Z := runesLoop (length s) s.

(** [utf8.DecodeLastRuneInString]: the last rune start within four bytes. *)
Definition RuneStart (b : byte) : bool := negb (Z.land (b2z b) 0xc0 =? 0x80).

Fixpoint lastRuneFrom (n k : nat) (s : bytes) : Z * nat :=
  match n with
  | O => (RuneError, 1%nat)
  | S n' =>
      let suffix := drop (length s - k) s in
      if Nat.ltb (length s) k then (RuneError, 1%nat)
      else match suffix with
      | b :: _ =>
          if RuneStart b then
            let '(r, w) := decodeRune suffix in
            if Nat.eqb w k then (r, k) else (RuneError, 1%nat)
          else lastRuneFrom n' (S k) s
      | [] => (RuneError, 1%nat)
      end
  end.
Definition decodeLastRune (s : bytes) : Z * nat := lastRuneFrom 4 1 s.

(** [unicode.IsSpace]: the White_Space property. *)
Definition unicode_IsSpace (r : Z) : bool :=
  in_range 0x09 0x0d r || (r =? 0x20) || (r =? 0x85) || (r =? 0xa0) || (r =? 0x1680)
  || in_range 0x2000 0x200a r || (r =? 0x2028) || (r =? 0x2029) || (r =? 0x202f)
  || (r =? 0x205f) || (r =? 0x3000).

Class UnicodeTables : Type := {
  unicode_ToLower : Z -> Z;
  ToLower_ascii : forall r, 0 <= r < 128 ->
    unicode_ToLower r = if in_range 65 90 r then r + 32 else r
}.

(** ** [strings] *)
Fixpoint HasPrefix (s prefix : bytes) {struct prefix} : bool :=
  match prefix, s with
  | [], _ => true
  | p :: prefix', c :: s' => bool_decide (p = c) && HasPrefix s' prefix'
  | _ :: _, [] => false
  end.

Definition HasSuffix (s suffix : bytes) : bool :=
  Nat.leb (length suffix) (length s) &&
  bool_decide (drop (length s - length suffix) s = suffix).

Definition TrimSuffix (s suffix : bytes) : bytes :=
  if HasSuffix s suffix then take (length s - length suffix) s else s.

(** [strings.Index]: [None] is -1. *)
Fixpoint Index (s sep : bytes) : option nat :=
  if HasPrefix s sep then Some O
  else match s with
  | [] => None
  | _ :: s' => S <$> Index s' sep
  end.

Definition IndexByte (s : bytes) (c : byte) : option nat := Index s [c].

(** [strings.TrimLeftFunc]/[TrimRightFunc] with [unicode.IsSpace]. *)
Fixpoint trimLeft (fuel : nat) (s : bytes) : bytes :=
  match fuel, s with
  | O, _ | _, [] => s
  | S f, _ => let '(r, w) := decodeRune s in
      if unicode_IsSpace r then trimLeft f (drop w s) else s
  end.
Fixpoint trimRight (fuel : nat) (s : bytes) : bytes :=
  match fuel, s with
  | O, _ | _, [] => s
  | S f, _ => let '(r, w) := decodeLastRune s in
      if unicode_IsSpace r then trimRight f (take (length s - w) s) else s
  end.
Definition TrimSpace (s : bytes) : bytes :=
  let s := trimLeft (length s) s in trimRight (length s) s.

Definition isASCII (s : bytes) : bool := forallb (fun c => b2z c <? 0x80) s.

Definition asciiLower (c : byte) : byte :=
  if in_range 65 90 (b2z c) then z2b (b2z c + 32) else c.

(** [strings.ToLower]: byte-wise on ASCII, [strings.Map(unicode.ToLower, s)]
    otherwise (which replaces invalid bytes by the encoding of [RuneError]). *)
Definition ToLower `{UnicodeTables} (s : bytes) : bytes :=
  if isASCII s then asciiLower <$> s
  else r ← runes s; encodeRune (unicode_ToLower r).

(** A concrete table: ASCII only. *)
Definition ascii_tables : UnicodeTables.
Proof.
  refine {| unicode_ToLower := fun r => if in_range 65 90 r then r + 32 else r |}. done.
Defined.

(** ** Lemmas *)
Lemma decodeRune_width c s : (1 <= snd (decodeRune (c :: s)) <= S (length s))%nat.
Proof.
  unfold decodeRune. destruct (_ <? 0x80); [simpl; lia|].
  destruct s as [|c1 [|c2 [|c3 s]]]; simpl; unfold mbind, option_bind;
    repeat (case_match; simplify_eq/=; try lia).
Qed.

Lemma decodeRune_ascii c s : b2z c < 0x80 -> decodeRune (c :: s) = (b2z c, 1%nat).
Proof. intros Hc. unfold decodeRune. by rewrite (proj2 (Z.ltb_lt _ _)) by lia. Qed.

Lemma runes_ascii s : isASCII s = true -> runes s = b2z <$> s.
Proof.
  unfold runes. induction s as [|c s IH]; [done|]. simpl isASCII.
  intros [Hc Hs]%andb_prop. cbn [length runesLoop]. rewrite decodeRune_ascii by lia.
  simpl. rewrite drop_0, IH by done. done.
Qed.

Lemma encodeRune_ascii r : 0 <= r < 0x80 -> encodeRune r = [z2b r].
Proof.
  intros Hr. unfold encodeRune, in_range.
  rewrite (proj2 (Z.leb_le 0 r)), (proj2 (Z.leb_le r 0xd7ff)) by lia. simpl.
  by rewrite (proj2 (Z.ltb_lt _ _)) by lia.
Qed.

Lemma HasPrefix_app s prefix : HasPrefix (prefix ++ s) prefix = true.
Proof. induction prefix as [|c p IH]; simpl; [done|]. by rewrite bool_decide_true, IH. Qed.

Lemma HasPrefix_iff s prefix : HasPrefix s prefix = true <-> exists s', s = prefix ++ s'.
Proof.
  split; [|intros [s' ->]; apply HasPrefix_app]. revert s.
  induction prefix as [|p prefix IH]; intros s; [by exists s|].
  destruct s as [|c s]; [done|]. simpl. intros [Hp%bool_decide_eq_true Hs]%andb_prop.
  destruct (IH s Hs) as [s' ->]. subst. by exists s'.
Qed.

Lemma IndexByte_cons x s c :
  IndexByte (x :: s) c = if bool_decide (c = x) then Some O else S <$> IndexByte s c.
Proof. unfold IndexByte. simpl. by case_bool_decide. Qed.

Lemma IndexByte_None s c : IndexByte s c = None <-> c ∉ s.
Proof.
  induction s as [|x s IH].
  - split; [intros _; apply not_elem_of_nil|done].
  - rewrite IndexByte_cons, not_elem_of_cons. case_bool_decide as Hx; [by split; [|intros []]|].
    rewrite fmap_None, IH. by split; [split|intros []].
Qed.

Lemma IndexByte_app s1 s2 c : c ∉ s1 -> IndexByte (s1 ++ c :: s2) c = Some (length s1).
Proof.
  induction s1 as [|x s1 IH]; intros Hc; simpl app; rewrite IndexByte_cons.
  - by rewrite bool_decide_true.
  - apply not_elem_of_cons in Hc as [Hx Hc].
    by rewrite bool_decide_false, IH by done.
Qed.

(** A separator whose first byte is not in [a] is found right after [a]. *)
Lemma Index_first (a : bytes) c sep r :
  c ∉ a -> Index (a ++ (c :: sep) ++ r) (c :: sep) = Some (length a).
Proof.
  induction a as [|x a IH]; intros Hc.
  - rewrite app_nil_l. simpl app. simpl Index. rewrite bool_decide_true by done.
    by rewrite HasPrefix_app.
  - apply not_elem_of_cons in Hc as [Hx Hc].
    change (Index ((x :: a) ++ ?r) ?p) with
      (if HasPrefix (x :: a ++ r) p then Some O else S <$> Index (a ++ r) p).
    rewrite IH by done. simpl. by rewrite bool_decide_false.
Qed.

Definition graphic (c : byte) : Prop := 33 <= b2z c <= 126.

Lemma graphic_not_space c : graphic c -> unicode_IsSpace (b2z c) = false.
Proof.
  intros Hc. enough (unicode_IsSpace (b2z c) && in_range 33 126 (b2z c) = false) as H.
  { apply andb_false_iff in H as [H|H]; [done|].
    unfold in_range in H. apply andb_false_iff in H. unfold graphic in Hc. lia. }
  clear Hc. apply negb_true_iff. revert c. apply byte_all. by vm_compute.
Qed.

(** A string of graphic ASCII characters has nothing to trim. *)
Lemma TrimSpace_graphic s : Forall graphic s -> TrimSpace s = s.
Proof.
  intros Hs. unfold TrimSpace.
  assert (trimLeft (length s) s = s) as ->.
  { destruct Hs as [|c s Hc Hs]; [done|]. cbn [length trimLeft].
    rewrite decodeRune_ascii by (unfold graphic in Hc; lia). by rewrite graphic_not_space. }
  destruct s as [|c s'] using rev_ind; [done|].
  rewrite Forall_app, Forall_singleton in Hs. destruct Hs as [_ Hc].
  rewrite length_app, Nat.add_comm. cbn [length Nat.add trimRight].
  destruct (s' ++ [c]) as [|y t] eqn:E; [by destruct s'|]. rewrite <-E.
  unfold decodeLastRune. cbn [lastRuneFrom]. rewrite length_app. simpl length.
  rewrite (proj2 (Nat.ltb_ge _ _)) by lia.
  replace (length s' + 1 - 1)%nat with (length s') by lia.
  rewrite drop_app_length.
  assert (RuneStart c = true) as ->.
  { enough (RuneStart c || (126 <? b2z c) = true) as H by
      (apply orb_prop in H as [H|H]; [done|unfold graphic in Hc; lia]).
    clear. revert c. apply byte_all. by vm_compute. }
  rewrite decodeRune_ascii by (unfold graphic in Hc; lia). simpl.
  by rewrite graphic_not_space.
Qed.

Lemma isASCII_graphic s : Forall graphic s -> isASCII s = true.
Proof.
  induction 1 as [|c s Hc _ IH]; [done|]. simpl. rewrite IH, andb_true_r.
  unfold graphic in Hc. lia.
Qed.

Lemma asciiLower_elem (c : byte) (s : bytes) :
  in_range 65 90 (b2z c) = false -> in_range 97 122 (b2z c) = false ->
  c ∉ s -> c ∉ asciiLower <$> s.
Proof.
  intros Hu Hl Hc (x & -> & Hx)%list_elem_of_fmap. unfold asciiLower in *.
  destruct (in_range 65 90 (b2z x)) eqn:E; [|done].
  unfold in_range in *. rewrite b2z_z2b_small in Hl by lia. lia.
Qed.
