(* ===== verification/Context.v ===== *)
(** * Context binding: [context.go]

    The [OtpContext] byte string that codes are bound to, the builder that
    assembles it from named fields, and the normalisation of origins, labels
    and distance classes. *)
From S2P Require Import Prelude Strings.

Definition maxContextFieldLen : Z := 256.

Definition DistanceClassSameArea : bytes := lit "same_area".
Definition DistanceClassNearby : bytes := lit "nearby".
Definition DistanceClassFar : bytes := lit "far".
Definition allowedDistanceClasses : list bytes :=
  [DistanceClassSameArea; DistanceClassNearby; DistanceClassFar].

Record OtpContext : Type := { ctx_bytes : bytes }.

Definition NewOtpContext : OtpContext := {| ctx_bytes := [] |}.
Definition OtpContextFromBytes (b : bytes) : OtpContext := {| ctx_bytes := b |}.
Definition OtpContext_Bytes (c : OtpContext) : bytes := ctx_bytes c.
Definition OtpContext_IsEmpty (c : OtpContext) : bool := Nat.eqb (length (ctx_bytes c)) 0.

(** [if context != nil { ctxBytes = context.Bytes() }]. *)
Definition contextBytes (c : option OtpContext) : bytes := default [] (OtpContext_Bytes <$> c).

(** ** Normalisation *)
Section normalize.
Context `{UnicodeTables}.

Definition cutAt (s sep : bytes) : bytes :=
  match Index s sep with Some idx => take idx s | None => s end.

Definition normalizeOrigin (origin : bytes) : bytes :=
  let origin := TrimSpace origin in
  let origin := ToLower origin in
  let origin := cutAt origin (lit "#") in
  let origin := cutAt origin (lit "?") in
  let origin :=
    match Index origin (lit "://") with
    | Some idx =>
        let scheme := take idx origin in
        let rest := drop (idx + 3) origin in
        let rest := cutAt rest (lit "/") in
        scheme ++ lit "://" ++ rest
    | None => origin
    end in
  TrimSuffix origin (lit "/").

Definition normalizeContextLabel (value : bytes) : bytes := ToLower (TrimSpace value).

Definition normalizeDistanceClass (value : bytes) : bytes :=
  let value := normalizeContextLabel value in
  if negb (bool_decide (value ∈ allowedDistanceClasses)) then [] else value.
End normalize.

(** ** The builder *)
Record OtpContextBuilder : Type := { fields : gmap bytes bytes }.

Definition NewOtpContextBuilder : OtpContextBuilder := {| fields := ∅ |}.

Definition setField (key value : bytes) (b : OtpContextBuilder) : OtpContextBuilder :=
  if Z.of_nat (length value) <=? maxContextFieldLen
  then {| fields := <[key := value]> (fields b) |} else b.

Section builder.
Context `{UnicodeTables}.

Definition Builder_IP (ip : bytes) := setField (lit "ip") ip.
Definition Builder_Device (deviceID : bytes) := setField (lit "device") deviceID.
Definition Builder_Session (session : bytes) := setField (lit "session") session.
Definition Builder_Origin (origin : bytes) := setField (lit "origin") (normalizeOrigin origin).
Definition Builder_Region (region : bytes) :=
  setField (lit "region") (normalizeContextLabel region).
Definition Builder_GeoBucket (bucket : bytes) :=
  setField (lit "geo_bucket") (normalizeContextLabel bucket).
Definition Builder_DistanceClass (class : bytes) (b : OtpContextBuilder) : OtpContextBuilder :=
  let normalized := normalizeDistanceClass class in
  if bool_decide (normalized = []) then b
  else setField (lit "distance_class") normalized b.
Definition Builder_Custom (key value : bytes) (b : OtpContextBuilder) : OtpContextBuilder :=
  if Z.of_nat (length key) <=? maxContextFieldLen
  then setField (lit "x-" ++ key) value b else b.
End builder.

(** [sort.Strings]: byte-wise lexicographic order. *)
Fixpoint bytes_leb (a b : bytes) : bool :=
  match a, b with
  | [], _ => true
  | _ :: _, [] => false
  | x :: a', y :: b' =>
      if b2z x <? b2z y then true
      else if b2z y <? b2z x then false
      else bytes_leb a' b'
  end.
Definition bytes_le (a b : bytes) : Prop := bytes_leb a b = true.
#[global] Instance bytes_le_dec : RelDecision bytes_le.
Proof. intros a b. unfold bytes_le. apply _. Defined.

(** The loop of [Build] over the sorted keys. *)
Fixpoint buildLoop (keys : list bytes) (m : gmap bytes bytes) (buf : bytes) : bytes :=
  match keys with
  | [] => buf
  | k :: keys' => buildLoop keys' m (buf ++ k ++ ["="%byte] ++ default [] (m !! k) ++ [Byte.x00])
  end.

(** [Build], for the order [keys] in which [range b.fields] yields the keys. *)
Definition BuildInOrder (keys : list bytes) (b : OtpContextBuilder) : OtpContext :=
  {| ctx_bytes := buildLoop (merge_sort bytes_le keys) (fields b) [] |}.

Definition Build (b : OtpContextBuilder) : OtpContext :=
  BuildInOrder (map_to_list (fields b)).*1 b.

(** ** Lemmas *)
#[global] Instance bytes_le_total : Total bytes_le.
Proof.
  intros a. unfold bytes_le. induction a as [|x a IH]; intros [|y b]; simpl; auto.
  destruct (Z.ltb_spec (b2z x) (b2z y)), (Z.ltb_spec (b2z y) (b2z x)); auto.
Qed.

#[global] Instance bytes_le_trans : Transitive bytes_le.
Proof.
  intros a. unfold bytes_le. induction a as [|x a IH]; intros [|y b] [|z c]; simpl; try done.
  destruct (Z.ltb_spec (b2z x) (b2z y)), (Z.ltb_spec (b2z y) (b2z x)),
    (Z.ltb_spec (b2z y) (b2z z)), (Z.ltb_spec (b2z z) (b2z y)),
    (Z.ltb_spec (b2z x) (b2z z)), (Z.ltb_spec (b2z z) (b2z x)); try done; try lia.
  apply IH.
Qed.

#[global] Instance bytes_le_antisymm : AntiSymm (=) bytes_le.
Proof.
  intros a. unfold bytes_le. induction a as [|x a IH]; intros [|y b]; simpl; try done.
  destruct (Z.ltb_spec (b2z x) (b2z y)), (Z.ltb_spec (b2z y) (b2z x)); try done; try lia.
  intros H1 H2. rewrite (IH b H1 H2). f_equal. apply b2z_inj. lia.
Qed.

(** One entry, and a list of entries, as [Build] writes them. *)
Definition entry (kv : bytes * bytes) : bytes := kv.1 ++ ["="%byte] ++ kv.2 ++ [Byte.x00].
Definition entries (kvs : list (bytes * bytes)) : bytes := kv ← kvs; entry kv.

Lemma entries_cons k v kvs :
  entries ((k, v) :: kvs) = k ++ ["="%byte] ++ v ++ [Byte.x00] ++ entries kvs.
Proof. unfold entries, entry. simpl. by rewrite <-app_assoc, <-app_comm_cons, <-app_assoc. Qed.

Lemma buildLoop_entries keys m buf :
  buildLoop keys m buf = buf ++ entries ((fun k => (k, default [] (m !! k))) <$> keys).
Proof.
  revert buf. induction keys as [|k keys IH]; intros buf; simpl; [by rewrite app_nil_r|].
  rewrite IH. unfold entries, entry. simpl. by rewrite <-!app_assoc.
Qed.

(** The entries of a builder, in key order. *)
Definition sorted_entries (b : OtpContextBuilder) : list (bytes * bytes) :=
  (fun k => (k, default [] (fields b !! k))) <$> merge_sort bytes_le (map_to_list (fields b)).*1.

Lemma Build_entries b : ctx_bytes (Build b) = entries (sorted_entries b).
Proof. unfold Build, BuildInOrder. simpl. by rewrite buildLoop_entries. Qed.

Lemma sorted_entries_lookup b k v : (k, v) ∈ sorted_entries b <-> fields b !! k = Some v.
Proof.
  unfold sorted_entries. rewrite list_elem_of_fmap. setoid_rewrite merge_sort_Permutation.
  split.
  - intros (k' & [= -> ->] & ((k'' & v') & -> & Hin)%list_elem_of_fmap).
    apply elem_of_map_to_list in Hin. simpl. by rewrite Hin.
  - intros Hk. exists k. rewrite Hk. split; [done|]. apply list_elem_of_fmap.
    exists (k, v). by rewrite elem_of_map_to_list.
Qed.

(** *** Parsing entries back *)
Definition clean_key (k : bytes) : Prop := (Byte.x00 ∉ k) /\ ("="%byte ∉ k).
Definition clean_value (v : bytes) : Prop := Byte.x00 ∉ v.
Definition clean (b : OtpContextBuilder) : Prop :=
  map_Forall (fun k v => clean_key k /\ clean_value v) (fields b).

#[global] Instance clean_dec b : Decision (clean b).
Proof. unfold clean, clean_key, clean_value. apply _. Defined.

(** A separator cuts a string at its first occurrence only. *)
Lemma cut_unique (c : byte) (a a' r r' : bytes) :
  c ∉ a -> c ∉ a' -> a ++ [c] ++ r = a' ++ [c] ++ r' -> a = a' /\ r = r'.
Proof.
  revert a'. induction a as [|x a IH]; intros [|x' a'] Ha Ha' E; simpl in E.
  - by injection E.
  - injection E as -> _. destruct Ha'. by left.
  - injection E as -> _. destruct Ha. by left.
  - injection E as -> E.
    apply not_elem_of_cons in Ha as [_ Ha]. apply not_elem_of_cons in Ha' as [_ Ha'].
    by destruct (IH a' Ha Ha' E) as [-> ->].
Qed.

Lemma entries_inj kvs kvs' :
  Forall (fun kv => clean_key kv.1 /\ clean_value kv.2) kvs ->
  Forall (fun kv => clean_key kv.1 /\ clean_value kv.2) kvs' ->
  entries kvs = entries kvs' -> kvs = kvs'.
Proof.
  intros H. revert kvs'. induction H as [|[k v] kvs [[Hk0 Hk] Hv] _ IH]; intros kvs' H' E.
  - destruct H' as [|[k' v'] kvs']; [done|]. by destruct k'.
  - destruct H' as [|[k' v'] kvs' [[Hk0' Hk'] Hv'] H']; [by destruct k|].
    rewrite !entries_cons in E. simpl fst in *. simpl snd in *.
    apply (cut_unique "="%byte) in E as [-> E]; [|done|done].
    apply (cut_unique Byte.x00) in E as [-> E]; [|done|done].
    by rewrite (IH kvs').
Qed.

Lemma clean_sorted_entries b :
  clean b -> Forall (fun kv => clean_key kv.1 /\ clean_value kv.2) (sorted_entries b).
Proof.
  intros Hb. apply Forall_forall. intros [k v] Hkv%sorted_entries_lookup.
  by apply (Hb k v).
Qed.

(** *** The builder's operations, as data *)
Inductive ctxOp : Type :=
| OpIP (v : bytes) | OpDevice (v : bytes) | OpSession (v : bytes) | OpOrigin (v : bytes)
| OpRegion (v : bytes) | OpGeoBucket (v : bytes) | OpDistanceClass (v : bytes)
| OpCustom (k v : bytes).

Definition applyOp `{UnicodeTables} (o : ctxOp) : OtpContextBuilder -> OtpContextBuilder :=
  match o with
  | OpIP v => Builder_IP v
  | OpDevice v => Builder_Device v
  | OpSession v => Builder_Session v
  | OpOrigin v => Builder_Origin v
  | OpRegion v => Builder_Region v
  | OpGeoBucket v => Builder_GeoBucket v
  | OpDistanceClass v => Builder_DistanceClass v
  | OpCustom k v => Builder_Custom k v
  end.

(** A chain of builder calls, in call order. *)
Definition buildOps `{UnicodeTables} (ops : list ctxOp) : OtpContextBuilder :=
  fold_left (fun b o => applyOp o b) ops NewOtpContextBuilder.

(** The field an operation writes, and the value it writes, if it writes. *)
Definition opWrites `{UnicodeTables} (o : ctxOp) : option (bytes * bytes) :=
  let checked k v := if Z.of_nat (length v) <=? 256 then Some (k, v) else None in
  match o with
  | OpIP v => checked (lit "ip") v
  | OpDevice v => checked (lit "device") v
  | OpSession v => checked (lit "session") v
  | OpOrigin v => checked (lit "origin") (normalizeOrigin v)
  | OpRegion v => checked (lit "region") (normalizeContextLabel v)
  | OpGeoBucket v => checked (lit "geo_bucket") (normalizeContextLabel v)
  | OpDistanceClass v =>
      if bool_decide (normalizeContextLabel v ∈ allowedDistanceClasses)
      then checked (lit "distance_class") (normalizeContextLabel v) else None
  | OpCustom k v =>
      if Z.of_nat (length k) <=? 256 then checked (lit "x-" ++ k) v else None
  end.

Lemma allowed_nonempty v : v ∈ allowedDistanceClasses -> v <> [].
Proof.
  unfold allowedDistanceClasses. rewrite !elem_of_cons.
  intros [->|[->|[->|H]]]; [done..|]. by apply elem_of_nil in H.
Qed.

Lemma applyOp_writes `{UnicodeTables} o b :
  fields (applyOp o b) =
  match opWrites o with Some (k, v) => <[k := v]> (fields b) | None => fields b end.
Proof.
  assert (Hset : forall k v, fields (setField k v b) =
    match (if Z.of_nat (length v) <=? 256 then Some (k, v) else None) with
    | Some (k, v) => <[k := v]> (fields b) | None => fields b end).
  { intros k v. unfold setField, maxContextFieldLen. by destruct (_ <=? _). }
  destruct o; simpl; try apply Hset.
  - unfold Builder_DistanceClass, normalizeDistanceClass.
    destruct (bool_decide (normalizeContextLabel v ∈ _)) eqn:E; simpl; [|done].
    apply bool_decide_eq_true, allowed_nonempty in E.
    rewrite bool_decide_false by done. apply Hset.
  - unfold Builder_Custom, maxContextFieldLen. destruct (_ <=? _); [apply Hset|done].
Qed.

(** *** Origins *)
Lemma cutAt_app a r c : c ∉ a -> cutAt (a ++ r) [c] = a ++ cutAt r [c].
Proof.
  intros Hc. unfold cutAt. fold (IndexByte r c) (IndexByte (a ++ r) c).
  induction a as [|x a IH]; [done|]. apply not_elem_of_cons in Hc as [Hx Hc].
  simpl app. rewrite IndexByte_cons, bool_decide_false by done. specialize (IH Hc).
  destruct (IndexByte (a ++ r) c), (IndexByte r c); simpl in *; congruence.
Qed.

Lemma cutAt_head c r : cutAt (c :: r) [c] = [].
Proof. unfold cutAt. fold (IndexByte (c :: r) c). by rewrite IndexByte_cons, bool_decide_true. Qed.

Lemma cutAt_absent a c : c ∉ a -> cutAt a [c] = a.
Proof.
  intros Hc. rewrite <-(app_nil_r a) at 1. rewrite cutAt_app by done. apply app_nil_r.
Qed.

(** What is left of a path, query or fragment after the two cuts. *)
Lemma cutAt_tail p :
  head p = None \/ head p = Some "/"%byte \/ head p = Some "?"%byte \/ head p = Some "#"%byte ->
  cutAt (cutAt p (lit "#")) (lit "?") = [] \/
  head (cutAt (cutAt p (lit "#")) (lit "?")) = Some "/"%byte.
Proof.
  assert (Hs : forall r c, c <> "/"%byte -> exists r', cutAt ("/"%byte :: r) [c] = "/"%byte :: r').
  { intros r c Hc. change ("/"%byte :: r) with (["/"%byte] ++ r).
    rewrite cutAt_app by (intros ->%list_elem_of_singleton; done). by eexists. }
  change (lit "#") with ["#"%byte]. change (lit "?") with ["?"%byte].
  destruct p as [|x p]; simpl head; [by left|].
  intros [?|[[= ->]|[[= ->]|[= ->]]]]; [done|right|left|left].
  - destruct (Hs p "#"%byte) as [r ->]; [done|]. by destruct (Hs r "?"%byte) as [r' ->].
  - change ("?"%byte :: p) with (["?"%byte] ++ p).
    rewrite cutAt_app by (intros ?%list_elem_of_singleton; done). apply cutAt_head.
  - by rewrite cutAt_head.
Qed.

(** The separators of a URL survive lower-casing in place. *)
Definition url_part (s : bytes) : Prop :=
  Forall graphic s /\ ("/"%byte ∉ s) /\ ("?"%byte ∉ s) /\ ("#"%byte ∉ s).

#[global] Instance graphic_dec c : Decision (graphic c).
Proof. unfold graphic. apply _. Defined.
#[global] Instance url_part_dec s : Decision (url_part s).
Proof. unfold url_part. apply _. Defined.

Lemma TrimSuffix_absent s x c : x <> c -> TrimSuffix (s ++ [x]) [c] = s ++ [x].
Proof.
  intros Hx. unfold TrimSuffix, HasSuffix. rewrite length_app. simpl length.
  rewrite Nat.add_sub, drop_app_length, bool_decide_false by congruence.
  by rewrite andb_false_r.
Qed.

Lemma url_part_lower s : url_part s ->
  ("/"%byte ∉ asciiLower <$> s) /\ ("?"%byte ∉ asciiLower <$> s) /\ ("#"%byte ∉ asciiLower <$> s).
Proof. intros (_ & H1 & H2 & H3). by repeat split; apply asciiLower_elem. Qed.

Lemma lower_head p :
  head p = None \/ head p = Some "/"%byte \/ head p = Some "?"%byte \/ head p = Some "#"%byte ->
  head (asciiLower <$> p) = head p.
Proof. destruct p as [|c p]; [done|]. simpl. by intros [?|[[= ->]|[[= ->]|[= ->]]]]. Qed.

(** Lower-casing and trimming leave a graphic ASCII string's structure alone. *)
Lemma normalize_graphic `{UnicodeTables} s :
  Forall graphic s -> ToLower (TrimSpace s) = asciiLower <$> s.
Proof. intros Hs. rewrite TrimSpace_graphic by done. unfold ToLower. by rewrite isASCII_graphic. Qed.

(** Cutting the scheme and host out of a lower-cased URL. *)
Lemma cut_origin scheme host path :
  (":"%byte ∉ scheme) -> ("/"%byte ∉ scheme) -> ("?"%byte ∉ scheme) -> ("#"%byte ∉ scheme) ->
  ("/"%byte ∉ host) -> ("?"%byte ∉ host) -> ("#"%byte ∉ host) -> host <> [] ->
  (head path = None \/ head path = Some "/"%byte \/ head path = Some "?"%byte
    \/ head path = Some "#"%byte) ->
  let o := cutAt (cutAt (scheme ++ lit "://" ++ host ++ path) (lit "#")) (lit "?") in
  match Index o (lit "://") with
  | Some idx => TrimSuffix (take idx o ++ lit "://" ++ cutAt (drop (idx + 3) o) (lit "/")) (lit "/")
  | None => TrimSuffix o (lit "/")
  end = scheme ++ lit "://" ++ host.
Proof.
  intros Hs1 Hs2 Hs3 Hs4 Hh1 Hh2 Hh3 Hne Hp. pose proof (cutAt_tail path Hp) as Htail.
  change (lit "#") with ["#"%byte] in *. change (lit "?") with ["?"%byte] in *.
  change (lit "/") with ["/"%byte]. set (sep := lit "://").
  assert (forall x, x <> ":"%byte -> x <> "/"%byte -> x ∉ sep) as Hsep.
  { intros x H1 H2 H3. change sep with [":"; "/"; "/"]%byte in H3.
    rewrite !elem_of_cons in H3. destruct H3 as [?|[?|[?|H3]]]; [done..|].
    by apply elem_of_nil in H3. }
  rewrite !cutAt_app by (done || by apply Hsep). set (tl := cutAt (cutAt path _) _) in *.
  cbn zeta. change sep with (":"%byte :: lit "//"). rewrite Index_first by done.
  rewrite take_app_length, drop_app_add.
  change (drop 3 ((":"%byte :: lit "//") ++ host ++ tl)) with (host ++ tl).
  assert (cutAt (host ++ tl) ["/"%byte] = host) as ->.
  { rewrite cutAt_app by done. destruct Htail as [->|Htail]; [apply app_nil_r|].
    destruct tl as [|x tl]; simplify_eq/=. by rewrite cutAt_head, app_nil_r. }
  destruct host as [|x host] using rev_ind; [done|].
  rewrite (app_assoc (_ :: _)), app_assoc.
  rewrite TrimSuffix_absent; [by rewrite <-!app_assoc|].
  intros ->. apply Hh1, elem_of_app. right. by apply list_elem_of_singleton.
Qed.

(** ** Properties *)

(** C22: binding is faithful on clean fields: when keys hold no equals sign
    and no NUL and values no NUL, two builders with the same serialised context
    have the same fields. *)
Theorem Build_injective (b1 b2 : OtpContextBuilder) (H1 : clean b1) (H2 : clean b2) :
  ctx_bytes (Build b1) = ctx_bytes (Build b2) -> fields b1 = fields b2.
Proof.
  rewrite !Build_entries. intros E. apply entries_inj in E; [|by apply clean_sorted_entries..].
  apply map_eq. intros k. apply option_eq. intros v.
  by rewrite <-!sorted_entries_lookup, E.
Qed.

Lemma Build_injective_witness :
  let b := {| fields := {[ lit "ip" := lit "10.0.0.1"; lit "session" := lit "s1" ]} |} in
  ctx_bytes (Build b) = lit "ip=10.0.0.1" ++ [Byte.x00] ++ lit "session=s1" ++ [Byte.x00] /\
  fields b = fields b.
Proof.
  split; [by vm_compute|].
  apply (Build_injective {| fields := {[ lit "ip" := lit "10.0.0.1"; lit "session" := lit "s1" ]} |}
    {| fields := {[ lit "ip" := lit "10.0.0.1"; lit "session" := lit "s1" ]} |});
    [apply (bool_decide_unpack _); by vm_compute..|done].
Defined.

(** Serialisation is not injective in general: a value with a NUL byte
    passes for two fields, and an equals sign moves from a custom key to its
    value, so builders with different fields give the same context. *)
Theorem Build_collides `{UnicodeTables} :
  let ip_only := buildOps [OpIP (lit "1.2.3.4" ++ [Byte.x00] ++ lit "session=s1")] in
  let ip_session := buildOps [OpIP (lit "1.2.3.4"); OpSession (lit "s1")] in
  let custom1 := buildOps [OpCustom (lit "a=b") (lit "c")] in
  let custom2 := buildOps [OpCustom (lit "a") (lit "b=c")] in
  fields ip_only <> fields ip_session /\ Build ip_only = Build ip_session /\
  fields custom1 <> fields custom2 /\ Build custom1 = Build custom2.
Proof.
  cbn zeta. split; [|split; [|split]].
  - intros E. apply (f_equal (lookup (lit "session"))) in E. by vm_compute in E.
  - vm_compute. reflexivity.
  - intros E. apply (f_equal (lookup (lit "x-a"))) in E. by vm_compute in E.
  - vm_compute. reflexivity.
Qed.

(** The context does not depend on the order in which Go iterates over
    the map of fields. *)
Theorem Build_order_independent (b : OtpContextBuilder) (keys : list bytes)
    (Hkeys : keys ≡ₚ (map_to_list (fields b)).*1) :
  BuildInOrder keys b = Build b.
Proof.
  unfold Build, BuildInOrder. do 2 f_equal.
  eapply (StronglySorted_unique bytes_le); [apply StronglySorted_merge_sort; apply _..|].
  by rewrite !merge_sort_Permutation.
Qed.

Lemma Build_order_independent_witness :
  let b := {| fields := {[ lit "b" := lit "2"; lit "a" := lit "1" ]} |} in
  BuildInOrder [lit "b"; lit "a"] b = Build b /\ BuildInOrder [lit "a"; lit "b"] b = Build b.
Proof.
  split; apply Build_order_independent; apply (bool_decide_unpack _); by vm_compute.
Defined.

(** After any sequence of builder calls, a field holds the value of the
    last call that wrote it; oversized values and keys and unknown distance
    classes write nothing. *)
Theorem buildOps_last_write `{UnicodeTables} (ops : list ctxOp) (k : bytes) :
  fields (buildOps ops) !! k =
  list.last (omap (fun o => match opWrites o with
    | Some (k', v) => if decide (k' = k) then Some v else None | None => None end) ops).
Proof.
  unfold buildOps. induction ops as [|o ops IH] using rev_ind; [done|].
  rewrite fold_left_app, omap_app. simpl fold_left. rewrite applyOp_writes.
  simpl. destruct (opWrites o) as [[k' v]|]; [|by rewrite app_nil_r].
  case_decide as Hk; [subst; rewrite lookup_insert_eq; by rewrite last_snoc|].
  by rewrite lookup_insert_ne, app_nil_r.
Qed.

(** An origin given as a URL is reduced to scheme and host, in lower
    case: path, query and fragment are cut off. *)
Theorem normalizeOrigin_url `{UnicodeTables} (scheme host path : bytes)
    (Hs : url_part scheme) (Hcolon : ":"%byte ∉ scheme) (Hh : url_part host) (Hne : host <> [])
    (Hp : Forall graphic path)
    (Hhead : head path = None \/ head path = Some "/"%byte \/ head path = Some "?"%byte
             \/ head path = Some "#"%byte) :
  normalizeOrigin (scheme ++ lit "://" ++ host ++ path) =
  (asciiLower <$> scheme) ++ lit "://" ++ (asciiLower <$> host).
Proof.
  unfold normalizeOrigin. rewrite normalize_graphic.
  2:{ destruct Hs as [? _], Hh as [? _]. rewrite !Forall_app. repeat split; try done.
      repeat constructor; unfold graphic; by vm_compute. }
  rewrite !fmap_app. change (asciiLower <$> lit "://") with (lit "://").
  destruct (url_part_lower scheme Hs) as (?&?&?), (url_part_lower host Hh) as (?&?&?).
  pose proof (cut_origin (asciiLower <$> scheme) (asciiLower <$> host) (asciiLower <$> path)) as E.
  cbn zeta in E. rewrite lower_head in E by done.
  rewrite <-E; try done; [by case_match|by apply asciiLower_elem|].
  by intros ->%fmap_nil_inv.
Qed.

Lemma normalizeOrigin_url_witness :
  @normalizeOrigin ascii_tables (lit "HTTPS" ++ lit "://" ++ lit "Example.com:8443" ++ lit "/a?b#c")
  = (asciiLower <$> lit "HTTPS") ++ lit "://" ++ (asciiLower <$> lit "Example.com:8443").
Proof.
  apply (@normalizeOrigin_url ascii_tables (lit "HTTPS") (lit "Example.com:8443") (lit "/a?b#c"));
    apply (bool_decide_unpack _); vm_compute; exact I.
Defined.
