(* ===== verification/Hotp.v ===== *)
(** * HOTP: [hotp.go]

    The [HOTP] object with its secret runtime, its pool of keyed MACs and its
    [cleared] flag; the constructors, [Generate], [Verify], [VerifyWithResync],
    [GenBound], [VerifyBound] and [ClearSecret].  The verification routines are
    proved against the interface [CodeSource] ("this object produces the code
    [code c ctx]"), which the three kinds of secret discharge. *)
From S2P Require Import Prelude Errors ConstantTime Hash Secret Digits Context.

Definition maxLookAhead : Z := 10000.
Definition maxHMACSize : nat := 64.

(** ** The object *)
Record macBuf : Type := { mb_mac : macState; mb_counter : bytes; mb_sum : bytes }.

Record HOTP (X : Type) : Type := {
  runtime : secretRuntime X;
  algorithm : Algorithm;
  digits : Z;
  modValue : Z;
  macPool : list macBuf;      (** the idle buffers of the [sync.Pool] *)
  macPoolNew : bool;          (** whether [macPool.New] is set *)
  hashFunc : hashFn;
  cleared : bool
}.
Arguments runtime {X} _.
Arguments algorithm {X} _.
Arguments digits {X} _.
Arguments modValue {X} _.
Arguments macPool {X} _.
Arguments macPoolNew {X} _.
Arguments hashFunc {X} _.
Arguments cleared {X} _.

(** [sync.Pool.Get] may return any idle buffer or none: the index it picks, out
    of range for none. *)
Class PoolPolicy : Type := pool_pick : list macBuf -> nat.

(** ** The interface the verification routines need *)

(** [gen] yields [code counter context] in every state of [Inv], which it
    preserves. *)
Class CodeSource {S : Type} (gen : Z -> bytes -> GoM S bytes)
    (code : Z -> bytes -> bytes) (Inv : S -> Prop) : Prop := {
  gen_code : forall s counter context, Inv s ->
    exists s', gen counter context s = (Ret (code counter context), s') /\ Inv s';
  code_short : forall counter context, Z.of_nat (length (code counter context)) < 2 ^ 63
}.

Section hotp.
Context {X : Type} `{HashSuite} `{PoolPolicy}.
Abbreviation W := (world X).
Abbreviation St := (world X * HOTP X)%type.

Definition set_pool (p : list macBuf) (h : HOTP X) : HOTP X :=
  {| runtime := runtime h; algorithm := algorithm h; digits := digits h;
     modValue := modValue h; macPool := p; macPoolNew := macPoolNew h;
     hashFunc := hashFunc h; cleared := cleared h |}.
Definition set_cleared (h : HOTP X) : HOTP X :=
  {| runtime := runtime h; algorithm := algorithm h; digits := digits h;
     modValue := modValue h; macPool := macPool h; macPoolNew := macPoolNew h;
     hashFunc := hashFunc h; cleared := true |}.
Definition set_runtime (r : secretRuntime X) (h : HOTP X) : HOTP X :=
  {| runtime := r; algorithm := algorithm h; digits := digits h;
     modValue := modValue h; macPool := macPool h; macPoolNew := macPoolNew h;
     hashFunc := hashFunc h; cleared := cleared h |}.

(** ** Constructors *)

(** [uint32(math.Pow10(int(digits)))]; exact for the admitted digits. *)
Definition modValueOf (d : Z) : Z := u32 (10 ^ d).

Definition newHOTPWithRuntime (r : secretRuntime X) (alg : Algorithm) (d : Z)
    : GoM W (HOTP X) :=
  if (d <? 6) || (8 <? d) then fail ErrInvalidDigits else
  static ← gets (fun w => hasStaticSecret w r);
  if negb static && negb (hasExternalProvider r) then fail ErrInvalidSecret else
  match hashFuncFor alg with
  | None => fail ErrInvalidAlgorithm
  | Some fn =>
      mret {| runtime := r; algorithm := alg; digits := d; modValue := modValueOf d;
              macPool := []; macPoolNew := static; hashFunc := fn; cleared := false |}
  end.

Definition NewHOTP (s : slice) (alg : Algorithm) (d : Z) : GoM W (HOTP X) :=
  newHOTPWithRuntime (newStaticSecretRuntime s) alg d.

Definition NewHOTPFromSecretProvider (p : option (SecretProvider X)) (alg : Algorithm) (d : Z)
    : GoM W (HOTP X) :=
  match p with
  | None => fail ErrInvalidSecret
  | Some p => newHOTPWithRuntime (newProviderSecretRuntime p) alg d
  end.

Definition NewHOTPFromHMACProvider (p : option (HMACProvider X)) (alg : Algorithm) (d : Z)
    : GoM W (HOTP X) :=
  match p with
  | None => fail ErrInvalidSecret
  | Some p => newHOTPWithRuntime (newHMACProviderRuntime p) alg d
  end.

(** ** Code generation *)

(** [h.macPool.Get()]: an idle buffer, else [New], which keys a MAC with the
    secret as it is now; nil (a failed type assertion) without [New]. *)
Definition poolGet : GoM St macBuf := fun '(w, h) =>
  let i := pool_pick (macPool h) in
  match macPool h !! i with
  | Some mb => (Ret mb, (w, set_pool (delete i (macPool h)) h))
  | None =>
      if macPoolNew h then
        (Ret {| mb_mac := hmac_New (hashFunc h) (slice_get w (secret (runtime h)));
                mb_counter := replicate 8 Byte.x00;
                mb_sum := replicate maxHMACSize Byte.x00 |}, (w, h))
      else (Panic, (w, h))
  end.

Definition poolPut (mb : macBuf) : GoM St unit := fun '(w, h) =>
  (Ret tt, (w, set_pool (macPool h ++ [mb]) h)).

Definition computeTruncatedStatic (counter : Z) (context : bytes) : GoM St Z :=
  mb ← poolGet;
  let c := PutUint64 counter in
  let mac := mac_Write (mac_Reset (mb_mac mb)) c in
  let mac := if Nat.ltb 0 (length context)
             then mac_Write (mac_Write mac contextBindTag) context else mac in
  let hmacBytes := mac_Sum mac (take 0 (mb_sum mb)) in
  m ← gets (fun '(_, h) => modValue h);
  truncated ← lift (dynamicTruncate hmacBytes m);
  _ ← poolPut {| mb_mac := mac; mb_counter := c;
                 mb_sum := hmacBytes ++ drop (length hmacBytes) (mb_sum mb) |};
  mret truncated.

Definition computeTruncated (counter : Z) (context : bytes) : GoM St Z :=
  static ← gets (fun '(w, h) => hasStaticSecret w (runtime h));
  if (static : bool) then computeTruncatedStatic counter context else
  let message := PutUint64 counter in
  let message := if Nat.ltb 0 (length context)
                 then (message ++ contextBindTag) ++ context else message in
  h ← gets snd;
  hmacBytes ← zoom fst (fun w s => (w, s.2))
                (computeHMAC (runtime h) (algorithm h) (hashFunc h) message);
  lift (dynamicTruncate hmacBytes (modValue h)).

Definition genDigits (dst : bytes) (counter : Z) (context : bytes) : GoM St bytes :=
  code ← computeTruncated counter context;
  d ← gets (fun '(_, h) => digits h);
  lift (formatOTP dst code d).

(** A fresh [var buf [8]byte]. *)
Definition buf8 : bytes := replicate 8 Byte.x00.

(** The guard every method starts with. *)
Definition isCleared : GoM St bool := gets (fun '(_, h) => cleared h).

Definition Generate (counter : Z) : GoM St bytes :=
  c ← isCleared;
  if (c : bool) then fail ErrInvalidSecret else
  genDigits buf8 counter [].

Definition GenBound (counter : Z) (context : option OtpContext) : GoM St bytes :=
  c ← isCleared;
  if (c : bool) then fail ErrInvalidSecret else
  genDigits buf8 counter (contextBytes context).

(** ** Verification *)
Definition Verify (code : bytes) (counter : Z) : GoM St bool :=
  c ← isCleared;
  if (c : bool) then fail ErrInvalidSecret else
  expected ← genDigits buf8 counter [];
  mret (constTimeEqBytes code expected).

Definition VerifyBound (code : bytes) (counter : Z) (context : option OtpContext) : GoM St bool :=
  c ← isCleared;
  if (c : bool) then fail ErrInvalidSecret else
  expected ← genDigits buf8 counter (contextBytes context);
  mret (constTimeEqBytes code expected).

(** [for i := uint64(0); i <= lookAhead; i++], [n] iterations left. *)
Fixpoint resyncLoop (n : nat) (i : Z) (code : bytes) (counter : Z) : GoM St (Z * bool) :=
  match n with
  | O => mret (0, false)
  | S n' =>
      let testCounter := u64 (counter + i) in
      if testCounter <? counter then mret (0, false) else
      expected ← genDigits buf8 testCounter [];
      if constTimeEqBytes code expected then mret (testCounter, true)
      else resyncLoop n' (i + 1) code counter
  end.

Definition VerifyWithResync (code : bytes) (counter lookAhead : Z) : GoM St (Z * bool) :=
  c ← isCleared;
  if (c : bool) then fail ErrInvalidSecret else
  if maxLookAhead <? lookAhead then fail ErrInvalidCounter else
  resyncLoop (Z.to_nat (lookAhead + 1)) 0 code counter.

(** [ClearSecret]: the flag, then the buffer. *)
Definition ClearSecret : GoM St unit := fun '(w, h) =>
  let h := set_cleared h in
  let '(o, (w', r')) := clearStaticSecret (w, runtime h) in
  (o, (w', set_runtime r' h)).
End hotp.

(** ** Instances of the interface *)
Section sources.
Context {X : Type} `{HashSuite} `{PoolPolicy}.
Abbreviation W := (world X).
Abbreviation St := (world X * HOTP X)%type.

(** A live object: parameters as the constructors leave them. *)
Record live (fn : hashFn) (d : Z) (h : HOTP X) : Prop := {
  live_cleared : cleared h = false;
  live_digits : digits h = d;
  live_range : 6 <= d <= 8;
  live_mod : modValue h = modValueOf d;
  live_fn : hashFunc h = fn;
  live_alg : hashFuncFor (algorithm h) = Some fn
}.

Definition keyed (fn : hashFn) (key : bytes) (m : macState) : Prop :=
  mac_fn m = fn /\ mac_key m = key.

(** Static secret: the buffer [l] holds [key], and every pooled MAC is keyed
    with it. *)
Definition static_inv (fn : hashFn) (d : Z) (l : positive) (key : bytes) (s : St) : Prop :=
  live fn d s.2 /\ runtime s.2 = newStaticSecretRuntime (Some l) /\
  w_heap s.1 !! l = Some key /\ key <> [] /\
  macPoolNew s.2 = true /\ Forall (fun mb => keyed fn key (mb_mac mb)) (macPool s.2).

(** Provider-backed: no static secret, a runtime that computes MACs. *)
Definition provider_inv (fn : hashFn) (d : Z) (r : secretRuntime X)
    (Inv : W -> Prop) (s : St) : Prop :=
  live fn d s.2 /\ runtime s.2 = r /\ secret r = None /\ Inv s.1.

Lemma modValueOf_ok d : 6 <= d <= 8 -> modValueOf d = 10 ^ d /\ 0 < 10 ^ d.
Proof.
  intros Hd. assert (d = 6 \/ d = 7 \/ d = 8) as [-> | [-> | -> ]] by lia; done.
Qed.

Lemma truncate_format fn d key counter context :
  6 <= d <= 8 ->
  dynamicTruncate (hmac_sum fn key (macMessage counter context)) (modValueOf d)
    = Ret (DT (hmac_sum fn key (macMessage counter context)) mod 10 ^ d) /\
  formatOTP buf8 (DT (hmac_sum fn key (macMessage counter context)) mod 10 ^ d) d
    = Ret (otp_code fn key d counter context).
Proof.
  intros Hd. destruct (modValueOf_ok d Hd) as [-> Hpos].
  pose proof (hmac_sum_length fn key (macMessage counter context)).
  pose proof (hash_size_bounds fn). split.
  - by apply dynamicTruncate_ok; lia.
  - by apply formatOTP_ok; unfold buf8; rewrite length_replicate; lia.
Qed.

(** Writing counter, tag and context to a reset MAC is hashing the message. *)
Lemma mac_writes fn key m counter context :
  keyed fn key m ->
  let mac := mac_Write (mac_Reset m) (PutUint64 counter) in
  let mac := if Nat.ltb 0 (length context)
             then mac_Write (mac_Write mac contextBindTag) context else mac in
  keyed fn key mac /\
  mac_Sum mac [] = hmac_sum fn key (macMessage counter context).
Proof.
  intros [Hfn Hkey]. unfold macMessage, mac_Sum, keyed. cbn zeta.
  destruct (Nat.ltb 0 (length context)); simpl; rewrite Hfn, Hkey; by rewrite ?app_assoc.
Qed.

(** Whatever the pool hands out is keyed with the secret. *)
Lemma poolGet_ok fn d l key s :
  static_inv fn d l key s ->
  exists mb s', poolGet s = (Ret mb, s') /\ keyed fn key (mb_mac mb) /\ static_inv fn d l key s'.
Proof.
  destruct s as [w h]. intros (Hlive & Hr & Hl & Hk & Hnew & Hpool). simpl in *.
  unfold poolGet. destruct (macPool h !! pool_pick (macPool h)) as [mb|] eqn:Hget.
  - eexists _, _. split; [done|]. split; [exact (Forall_lookup_1 _ _ _ _ Hpool Hget)|].
    split; [by destruct Hlive|]. repeat split; try done. simpl. by apply Forall_delete.
  - rewrite Hnew. eexists _, _. split; [done|]. split; [|by repeat split; try apply Hlive].
    split; [apply Hlive|]. simpl. unfold slice_get. rewrite Hr. simpl. by rewrite Hl.
Qed.

Lemma poolPut_ok fn d l key mb s :
  static_inv fn d l key s -> keyed fn key (mb_mac mb) ->
  exists s', poolPut mb s = (Ret tt, s') /\ static_inv fn d l key s'.
Proof.
  destruct s as [w h]. intros (Hlive & Hr & Hl & Hk & Hnew & Hpool) Hmb. simpl in *.
  eexists. split; [done|]. split; [by destruct Hlive|]. repeat split; try done.
  simpl. apply Forall_app_2; [done|]. by apply Forall_singleton.
Qed.

Lemma static_computeTruncated fn d l key s counter context :
  static_inv fn d l key s ->
  exists s', computeTruncated counter context s
    = (Ret (DT (hmac_sum fn key (macMessage counter context)) mod 10 ^ d), s') /\
    static_inv fn d l key s'.
Proof.
  intros Hs. pose proof Hs as (Hlive & Hr & Hl & Hk & _). unfold computeTruncated.
  rewrite run_gets. destruct s as [w h]. simpl in Hlive, Hr, Hl.
  rewrite (hasStaticSecret_Some w _ l key) by (done || by rewrite Hr).
  unfold computeTruncatedStatic.
  destruct (poolGet_ok fn d l key (w, h) Hs) as (mb & s1 & E & Hmb & Hs1).
  rewrite (run_bind _ _ _ _ _ E), run_gets. destruct s1 as [w1 h1].
  destruct (mac_writes fn key (mb_mac mb) counter context Hmb) as [Hmac Hsum].
  destruct (truncate_format fn d key counter context) as [Ht _]; [apply Hlive|].
  rewrite take_0, Hsum, (live_mod fn d h1) by apply Hs1.
  erewrite run_bind by (unfold lift; by rewrite Ht).
  match goal with |- context [poolPut ?mb'] =>
    destruct (poolPut_ok fn d l key mb' (w1, h1) Hs1 Hmac) as (s2 & E2 & Hs2) end.
  exists s2. by rewrite (run_bind _ _ _ _ _ E2).
Qed.

Lemma provider_computeTruncated fn d r key Inv s counter context :
  RuntimeMAC r key Inv -> provider_inv fn d r Inv s ->
  exists s', computeTruncated counter context s
    = (Ret (DT (hmac_sum fn key (macMessage counter context)) mod 10 ^ d), s') /\
    provider_inv fn d r Inv s'.
Proof.
  intros Hr Hs. destruct s as [w h]. pose proof Hs as (Hlive & Hrt & Hsec & HI).
  simpl in *. unfold computeTruncated. rewrite run_gets.
  assert (hasStaticSecret w (runtime h) = false) as ->.
  { unfold hasStaticSecret, slice_get. by rewrite Hrt, Hsec. }
  assert ((if Nat.ltb 0 (length context)
    then (PutUint64 counter ++ contextBindTag) ++ context else PutUint64 counter)
    = macMessage counter context) as -> by (unfold macMessage; case_match; by rewrite ?app_assoc).
  rewrite run_gets. simpl snd. rewrite Hrt.
  destruct (runtime_mac w (algorithm h) (hashFunc h) (macMessage counter context) HI) as (w' & E & HI').
  { rewrite (live_fn fn d h), (live_alg fn d h); done. }
  destruct (truncate_format fn d key counter context) as [Ht _]; [apply Hlive|].
  exists (w', h). split.
  - erewrite run_bind by (unfold zoom; simpl fst; by rewrite E).
    unfold lift. by rewrite (live_mod fn d h), (live_fn fn d h), Ht.
  - by repeat split; try apply Hlive.
Qed.

(** From truncation to digits, for any invariant that fixes the digit count. *)
Lemma genDigits_ok fn d key (Inv : St -> Prop) s counter context :
  (forall s, Inv s -> digits s.2 = d /\ 6 <= d <= 8) ->
  (exists s', computeTruncated counter context s
    = (Ret (DT (hmac_sum fn key (macMessage counter context)) mod 10 ^ d), s') /\ Inv s') ->
  exists s', genDigits buf8 counter context s = (Ret (otp_code fn key d counter context), s') /\ Inv s'.
Proof.
  intros Hd (s' & E & Hs'). exists s'. split; [|done]. unfold genDigits.
  rewrite (run_bind _ _ _ _ _ E), run_gets. destruct (Hd s' Hs') as [Hd' Hr].
  destruct s' as [w h]. simpl in Hd'. rewrite Hd'. unfold lift.
  by destruct (truncate_format fn d key counter context) as [_ ->].
Qed.

Lemma otp_code_short fn key d counter context :
  6 <= d <= 8 -> Z.of_nat (length (otp_code fn key d counter context)) < 2 ^ 63.
Proof. intros Hd. rewrite otp_code_length; lia. Qed.

#[export] Instance static_source fn d l key :
  6 <= d <= 8 -> CodeSource (genDigits buf8) (otp_code fn key d) (static_inv fn d l key).
Proof.
  intros Hd. constructor; [|intros; by apply otp_code_short].
  intros s counter context Hs. apply genDigits_ok; [|by apply static_computeTruncated].
  intros s' (Hl & _). by split; [apply Hl|].
Qed.

#[export] Instance provider_source fn d r key Inv :
  6 <= d <= 8 -> RuntimeMAC r key Inv ->
  CodeSource (genDigits buf8) (otp_code fn key d) (provider_inv fn d r Inv).
Proof.
  intros Hd Hr. constructor; [|intros; by apply otp_code_short].
  intros s counter context Hs. apply genDigits_ok; [|by apply provider_computeTruncated].
  intros s' (Hl & _). by split; [apply Hl|].
Qed.

Lemma static_inv_live fn d l key s : static_inv fn d l key s -> cleared s.2 = false.
Proof. intros (Hl & _). apply Hl. Qed.
Lemma provider_inv_live fn d r Inv s : provider_inv fn d r Inv s -> cleared s.2 = false.
Proof. intros (Hl & _). apply Hl. Qed.

(** *** Constructors establish the invariants *)
Lemma digits_guard d : (d <? 6) || (8 <? d) = false <-> 6 <= d <= 8.
Proof. lia. Qed.

Lemma NewHOTP_ok w l key alg fn d :
  w_heap w !! l = Some key -> key <> [] -> hashFuncFor alg = Some fn -> 6 <= d <= 8 ->
  exists h, NewHOTP (Some l) alg d w = (Ret h, w) /\ static_inv fn d l key (w, h).
Proof.
  intros Hl Hk Hfn Hd. unfold NewHOTP, newHOTPWithRuntime.
  rewrite (proj2 (digits_guard d) Hd), run_gets, (hasStaticSecret_Some w _ l key) by done.
  simpl. rewrite Hfn. eexists. split; [done|]. by repeat split; simpl; try apply Forall_nil_2; lia || done.
Qed.

Lemma newHOTP_provider_ok w r alg fn d Inv :
  secret r = None -> hasExternalProvider r = true -> hashFuncFor alg = Some fn ->
  6 <= d <= 8 -> Inv w ->
  exists h, newHOTPWithRuntime r alg d w = (Ret h, w) /\ provider_inv fn d r Inv (w, h).
Proof.
  intros Hs He Hfn Hd HI. unfold newHOTPWithRuntime.
  rewrite (proj2 (digits_guard d) Hd), run_gets, He, andb_false_r, Hfn.
  eexists. split; [done|]. by repeat split; simpl; try apply Forall_nil_2; lia || done.
Qed.
End sources.

(** ** Verification, against the interface *)
Section verify.
Context {X : Type} `{HashSuite} `{PoolPolicy}.
Abbreviation St := (world X * HOTP X)%type.
Context (code : Z -> bytes -> bytes) (Inv : St -> Prop).
Context `{!CodeSource (genDigits buf8) code Inv}.
Context (Hlive : forall s, Inv s -> cleared s.2 = false).

Lemma isCleared_false {A} (f : bool -> GoM St A) s : Inv s -> (isCleared ≫= f) s = f false s.
Proof. intros Hs%Hlive. unfold isCleared. rewrite run_gets. destruct s. by rewrite <-Hs. Qed.

Lemma genDigits_run {A} (f : bytes -> GoM St A) counter context s :
  Inv s -> exists s', (genDigits buf8 counter context ≫= f) s = f (code counter context) s' /\ Inv s'.
Proof.
  intros Hs. destruct (gen_code s counter context Hs) as (s' & E & Hs').
  exists s'. by rewrite (run_bind _ _ _ _ _ E).
Qed.

Lemma compare_code user counter context :
  Z.of_nat (length user) < 2 ^ 63 ->
  constTimeEqBytes user (code counter context) = bool_decide (user = code counter context).
Proof.
  intros Hu. apply constTimeEqBytes_decides; [done|].
  apply (@code_short _ _ _ _ _).
Qed.

Lemma GenBound_run s counter context :
  Inv s -> exists s', GenBound counter context s = (Ret (code counter (contextBytes context)), s') /\ Inv s'.
Proof. intros Hs. unfold GenBound. rewrite isCleared_false by done. by apply gen_code. Qed.

Lemma VerifyBound_run s user counter context :
  Inv s -> Z.of_nat (length user) < 2 ^ 63 ->
  exists s', VerifyBound user counter context s
    = (Ret (bool_decide (user = code counter (contextBytes context))), s') /\ Inv s'.
Proof.
  intros Hs Hu. unfold VerifyBound. rewrite isCleared_false by done.
  edestruct (genDigits_run (fun expected => mret (constTimeEqBytes user expected)))
    as (s' & -> & Hs'); [done|].
  exists s'. by rewrite compare_code.
Qed.

(** The result of the look-ahead loop: the first matching counter. *)
Definition resyncResult (user : bytes) (counter lo n : Z) (res : Z * bool) : Prop :=
  if res.2 then
    exists i, lo <= i < lo + n /\ counter + i < 2 ^ 64 /\ res.1 = counter + i /\
      user = code (counter + i) [] /\
      forall j, lo <= j < i -> user <> code (counter + j) []
  else res.1 = 0 /\
    forall j, lo <= j < lo + n -> counter + j < 2 ^ 64 -> user <> code (counter + j) [].

Lemma u64_wraps counter i :
  0 <= counter < 2 ^ 64 -> 0 <= i <= maxLookAhead ->
  if decide (counter + i < 2 ^ 64) then u64 (counter + i) = counter + i
  else u64 (counter + i) < counter.
Proof.
  unfold maxLookAhead. intros Hc Hi. case_decide; [by apply u64_small; lia|]. unfold u64. zdiv.
Qed.

Lemma resyncLoop_ok user counter n : forall i s,
  Inv s -> Z.of_nat (length user) < 2 ^ 63 -> 0 <= counter < 2 ^ 64 ->
  0 <= i -> i + Z.of_nat n <= maxLookAhead + 1 ->
  exists res s', resyncLoop n i user counter s = (Ret res, s') /\ Inv s' /\
    resyncResult user counter i (Z.of_nat n) res.
Proof.
  induction n as [|n IH]; intros i s Hs Hu Hc Hi Hn.
  - eexists _, _. split; [done|]. split; [done|]. split; [done|]. intros j. lia.
  - cbn [resyncLoop]. pose proof (u64_wraps counter i Hc ltac:(lia)) as Hw. case_decide as Hlt.
    + rewrite Hw, (proj2 (Z.ltb_ge _ _)) by lia.
      edestruct (genDigits_run (fun expected => if constTimeEqBytes user expected
        then mret (counter + i, true) else resyncLoop n (i + 1) user counter))
        as (s' & -> & Hs'); [done|].
      rewrite compare_code by done. case_bool_decide as Heq.
      * eexists _, _. split; [done|]. split; [done|]. exists i. repeat split; try lia; try done.
      * destruct (IH (i + 1) s' Hs' Hu Hc ltac:(lia) ltac:(lia)) as (res & s2 & E & Hs2 & Hres).
        exists res, s2. split; [done|]. split; [done|]. unfold resyncResult in *.
        destruct res.2.
        -- destruct Hres as (k & Hk & ? & ? & ? & Hfirst). exists k.
           repeat split; try lia; try done. intros j Hj.
           destruct (decide (j = i)) as [->|]; [done|]. apply Hfirst. lia.
        -- destruct Hres as [Hz Hnone]. split; [done|]. intros j Hj Hjlt.
           destruct (decide (j = i)) as [->|]; [done|]. apply Hnone; lia.
    + rewrite (proj2 (Z.ltb_lt _ _)) by lia.
      eexists _, _. split; [done|]. split; [done|]. split; [done|]. intros j. lia.
Qed.
End verify.

(** ** Concrete inputs *)

(** RFC 4226, appendix D: the key, a world that stores it, a pool policy. *)
Definition rfc4226_key : bytes := lit "12345678901234567890".
Definition secret_loc : positive := 1%positive.
Definition rfc_world : world unit :=
  {| w_heap := {[ secret_loc := rfc4226_key ]}; w_now := 0; w_ext := tt |}.

(** Always take the first idle buffer. *)
Definition first_idle : PoolPolicy := fun _ => O.
(** Never reuse a buffer. *)
Definition never_idle : PoolPolicy := fun p => length p.

Definition rfc_hotp : HOTP unit :=
  {| runtime := newStaticSecretRuntime (Some secret_loc); algorithm := SHA1; digits := 6;
     modValue := modValueOf 6; macPool := []; macPoolNew := true; hashFunc := sha1_New;
     cleared := false |}.

Lemma rfc_static_inv :
  static_inv sha1_New 6 secret_loc rfc4226_key (rfc_world, rfc_hotp).
Proof. by repeat split; simpl; try apply Forall_nil_2; lia || done. Qed.

(** Generate a list of codes from one object, threading its state. *)
Fixpoint generateAll {X} `{HashSuite} `{PoolPolicy} (counters : list Z)
    : GoM (world X * HOTP X) (list bytes) :=
  match counters with
  | [] => mret []
  | c :: cs => x ← Generate c; xs ← generateAll cs; mret (x :: xs)
  end.

Lemma generateAll_ok {X} `{HashSuite} `{PoolPolicy} code (Inv : world X * HOTP X -> Prop)
    `{!CodeSource (genDigits buf8) code Inv} (Hlive : forall s, Inv s -> cleared s.2 = false) cs s :
  Inv s -> exists s', generateAll cs s = (Ret ((fun c => code c []) <$> cs), s') /\ Inv s'.
Proof.
  revert s. induction cs as [|c cs IH]; intros s Hs; [by eexists|].
  destruct (GenBound_run code Inv Hlive s c None Hs) as (s1 & E1 & Hs1).
  destruct (IH s1 Hs1) as (s2 & E2 & Hs2). exists s2. split; [|done]. cbn [generateAll].
  rewrite (run_bind _ _ _ _ _ E1). by rewrite (run_bind _ _ _ _ _ E2).
Qed.

(** ** Properties *)

(** C6: under every policy of the MAC pool, one HOTP object on the key of
    RFC 4226, appendix D, generates the ten codes listed there. *)
Theorem HOTP_rfc4226_vectors (policy : PoolPolicy) :
  exists h, NewHOTP (Some secret_loc) SHA1 6 rfc_world = (Ret h, rfc_world) /\
    fst (@generateAll _ Sha.suite policy (seqZ 0 10) (rfc_world, h)) =
    Ret (lit <$> ["755224"; "287082"; "359152"; "969429"; "338314";
                  "254676"; "287922"; "162583"; "399871"; "520489"]%string).
Proof.
  destruct (NewHOTP_ok rfc_world secret_loc rfc4226_key SHA1 sha1_New 6) as (h & E & Hs);
    [done|done|done|lia|].
  exists h. split; [done|].
  pose proof (@static_source unit Sha.suite policy sha1_New 6 secret_loc rfc4226_key ltac:(lia)).
  destruct (@generateAll_ok unit Sha.suite policy _ _ _ (static_inv_live sha1_New 6 _ _)
    (seqZ 0 10) (rfc_world, h) Hs) as (s' & -> & _).
  vm_compute. reflexivity.
Qed.

(** [NewHOTP] on a stored secret validates digits, secret and algorithm
    in this order, each with its own error and no effect; on success the
    object satisfies the invariant the other theorems assume. *)
Theorem NewHOTP_spec {X} (w : world X) (l : positive) (key : bytes) (alg : Algorithm) (d : Z)
    (Hl : w_heap w !! l = Some key) :
  match NewHOTP (Some l) alg d w with
  | (Ret h, w') => w' = w /\ exists fn, hashFuncFor alg = Some fn /\ 6 <= d <= 8 /\ key <> [] /\
      static_inv fn d l key (w, h)
  | (Err ErrInvalidDigits, w') => w' = w /\ ~ 6 <= d <= 8
  | (Err ErrInvalidSecret, w') => w' = w /\ 6 <= d <= 8 /\ key = []
  | (Err ErrInvalidAlgorithm, w') => w' = w /\ 6 <= d <= 8 /\ key <> [] /\
      alg <> SHA1 /\ alg <> SHA256 /\ alg <> SHA512
  | _ => False
  end.
Proof.
  destruct ((d <? 6) || (8 <? d)) eqn:Hd.
  { unfold NewHOTP, newHOTPWithRuntime. rewrite Hd. split; [done|]. by rewrite <-digits_guard, Hd. }
  pose proof (proj1 (digits_guard d) Hd).
  destruct (decide (key = [])) as [->|Hk].
  { unfold NewHOTP, newHOTPWithRuntime, hasStaticSecret, slice_get. rewrite Hd, run_gets.
    simpl. by rewrite Hl. }
  destruct (hashFuncFor alg) as [fn|] eqn:Hfn.
  - destruct (NewHOTP_ok w l key alg fn d) as (h & -> & Hs); try done.
    split; [done|]. by exists fn.
  - unfold NewHOTP, newHOTPWithRuntime. rewrite Hd, run_gets, (hasStaticSecret_Some w _ l key) by done.
    simpl. rewrite Hfn. by apply hashFuncFor_None in Hfn.
Qed.

Lemma NewHOTP_spec_witness :
  match NewHOTP (Some secret_loc) 7 6 rfc_world with
  | (Err ErrInvalidAlgorithm, w') => w' = rfc_world
  | _ => False
  end.
Proof.
  pose proof (NewHOTP_spec rfc_world secret_loc rfc4226_key 7 6 eq_refl) as H.
  revert H. vm_compute. by intros [? _].
Defined.

(** A live HOTP with a static secret generates the code of counter and
    context under its key, whichever pooled MAC it is given, and stays in its
    invariant; an empty or missing context gives the plain code. *)
Theorem HOTP_generate_spec {X} `{HashSuite} `{PoolPolicy} (fn : hashFn) (d : Z) (l : positive)
    (key : bytes) (s : world X * HOTP X) (counter : Z) (context : option OtpContext)
    (Hs : static_inv fn d l key s) :
  (exists s', Generate counter s = (Ret (otp_code fn key d counter []), s') /\
     static_inv fn d l key s') /\
  (exists s', GenBound counter context s = (Ret (otp_code fn key d counter (contextBytes context)), s') /\
     static_inv fn d l key s') /\
  (contextBytes context = [] -> GenBound counter context s = Generate counter s).
Proof.
  assert (Hd : 6 <= d <= 8) by (by destruct Hs as [[] _]).
  pose proof (static_source (X := X) fn d l key Hd). split; [|split].
  - by apply (GenBound_run _ _ (static_inv_live fn d l key) s counter None).
  - by apply (GenBound_run _ _ (static_inv_live fn d l key)).
  - intros E. unfold GenBound, Generate. by rewrite E.
Qed.

Lemma HOTP_generate_spec_witness :
  exists s', @Generate _ Sha.suite never_idle 1 (rfc_world, rfc_hotp)
    = (Ret (@otp_code Sha.suite sha1_New rfc4226_key 6 1 []), s') /\
    static_inv sha1_New 6 secret_loc rfc4226_key s'.
Proof.
  exact (proj1 (@HOTP_generate_spec _ Sha.suite never_idle sha1_New 6 secret_loc rfc4226_key
    (rfc_world, rfc_hotp) 1 None rfc_static_inv)).
Defined.

(** [Verify] and [VerifyBound] accept exactly the code of the counter
    (and context), in particular nothing of another length. *)
Theorem HOTP_verify_spec {X} `{HashSuite} `{PoolPolicy} (fn : hashFn) (d : Z) (l : positive)
    (key : bytes) (s : world X * HOTP X) (user : bytes) (counter : Z) (context : option OtpContext)
    (Hs : static_inv fn d l key s) (Hu : Z.of_nat (length user) < 2 ^ 63) :
  (exists s', Verify user counter s = (Ret (bool_decide (user = otp_code fn key d counter [])), s') /\
     static_inv fn d l key s') /\
  (exists s', VerifyBound user counter context s
     = (Ret (bool_decide (user = otp_code fn key d counter (contextBytes context))), s') /\
     static_inv fn d l key s') /\
  (Z.of_nat (length user) <> d -> fst (Verify user counter s) = Ret false).
Proof.
  assert (Hd : 6 <= d <= 8) by (by destruct Hs as [[] _]).
  pose proof (static_source (X := X) fn d l key Hd) as Hsrc.
  pose proof (VerifyBound_run _ _ (static_inv_live fn d l key) s user counter) as Hv.
  split; [by apply (Hv None)|]. split; [by apply Hv|].
  intros Hlen. destruct (Hv None Hs Hu) as (s' & E & _).
  change (Verify user counter s) with (VerifyBound user counter None s). rewrite E. simpl.
  f_equal. apply bool_decide_eq_false. intros ->. by rewrite otp_code_length in Hlen by lia.
Qed.

Lemma HOTP_verify_spec_witness :
  fst (@Verify _ Sha.suite first_idle (lit "755224X") 0 (rfc_world, rfc_hotp)) = Ret false.
Proof.
  apply (@HOTP_verify_spec _ Sha.suite first_idle sha1_New 6 secret_loc rfc4226_key
    (rfc_world, rfc_hotp) (lit "755224X") 0 None rfc_static_inv);
    vm_compute; done.
Defined.

(** C9: [VerifyWithResync] rejects look-aheads over 10000 with
    [ErrInvalidCounter]; otherwise it ends and reports the first counter, from
    the given one up to the look-ahead and below the 64-bit limit, whose code
    is the submitted one, or that there is none. *)
Theorem HOTP_resync_spec {X} `{HashSuite} `{PoolPolicy} (fn : hashFn) (d : Z) (l : positive)
    (key : bytes) (s : world X * HOTP X) (user : bytes) (counter lookAhead : Z)
    (Hs : static_inv fn d l key s) (Hu : Z.of_nat (length user) < 2 ^ 63)
    (Hc : 0 <= counter < 2 ^ 64) (Hla : 0 <= lookAhead) :
  (maxLookAhead < lookAhead -> VerifyWithResync user counter lookAhead s = (Err ErrInvalidCounter, s)) /\
  (lookAhead <= maxLookAhead -> exists c ok s',
     VerifyWithResync user counter lookAhead s = (Ret (c, ok), s') /\ static_inv fn d l key s' /\
     if (ok : bool) then
       counter <= c <= counter + lookAhead /\ c < 2 ^ 64 /\ user = otp_code fn key d c [] /\
       forall c', counter <= c' < c -> user <> otp_code fn key d c' []
     else c = 0 /\ forall c', counter <= c' <= counter + lookAhead -> c' < 2 ^ 64 ->
       user <> otp_code fn key d c' []).
Proof.
  assert (Hd : 6 <= d <= 8) by (by destruct Hs as [[] _]).
  pose proof (static_source (X := X) fn d l key Hd) as Hsrc.
  split; intros Hb; unfold VerifyWithResync;
    rewrite (isCleared_false _ (static_inv_live fn d l key)) by done.
  - by rewrite (proj2 (Z.ltb_lt _ _)) by lia.
  - rewrite (proj2 (Z.ltb_ge _ _)) by lia.
    destruct (resyncLoop_ok (otp_code fn key d) _ user counter (Z.to_nat (lookAhead + 1)) 0 s)
      as ([c ok] & s' & E & Hs' & Hres); [done|done|done|lia|lia|].
    exists c, ok, s'. split; [done|]. split; [done|]. unfold resyncResult in Hres. simpl in Hres.
    destruct ok.
    + destruct Hres as (i & Hi & Hlt & -> & Hm & Hfirst). repeat split; try lia; try done.
      intros c' Hc'. replace c' with (counter + (c' - counter)) by lia. apply Hfirst. lia.
    + destruct Hres as [-> Hnone]. split; [done|]. intros c' Hc' Hlt.
      replace c' with (counter + (c' - counter)) by lia. apply Hnone; lia.
Qed.

Lemma HOTP_resync_spec_witness :
  @VerifyWithResync _ Sha.suite first_idle (lit "520489") 3 10001 (rfc_world, rfc_hotp)
  = (Err ErrInvalidCounter, (rfc_world, rfc_hotp)).
Proof.
  apply (@HOTP_resync_spec _ Sha.suite first_idle sha1_New 6 secret_loc rfc4226_key
    (rfc_world, rfc_hotp) (lit "520489") 3 10001 rfc_static_inv);
    unfold maxLookAhead; vm_compute; done.
Defined.

(** C26: secret-provider and HMAC-provider objects generate, plain or bound,
    the same codes as a static secret would, for every provider that keeps its
    contract. *)
Theorem HOTP_provider_equiv {X} `{HashSuite} `{PoolPolicy} (p : SecretProvider X)
    (q : HMACProvider X) (key : bytes) (Ip Iq : world X -> Prop) (alg : Algorithm) (fn : hashFn)
    (d : Z) (w : world X) (counter : Z) (context : option OtpContext)
    (Hp : SecretProviderLaws p key Ip) (Hq : HMACProviderLaws q key Iq) (Hk : key <> [])
    (Hfn : hashFuncFor alg = Some fn) (Hd : 6 <= d <= 8) (HIp : Ip w) (HIq : Iq w) :
  (exists h s', NewHOTPFromSecretProvider (Some p) alg d w = (Ret h, w) /\
     GenBound counter context (w, h) = (Ret (otp_code fn key d counter (contextBytes context)), s') /\
     provider_inv fn d (newProviderSecretRuntime p) Ip s') /\
  (exists h s', NewHOTPFromHMACProvider (Some q) alg d w = (Ret h, w) /\
     GenBound counter context (w, h) = (Ret (otp_code fn key d counter (contextBytes context)), s') /\
     provider_inv fn d (newHMACProviderRuntime q) Iq s').
Proof.
  pose proof (provider_runtime p key Ip Hk). pose proof (hmac_provider_runtime q key Iq).
  split.
  - destruct (newHOTP_provider_ok w (newProviderSecretRuntime p) alg fn d Ip) as (h & E & Hs); try done.
    pose proof (provider_source (X := X) fn d (newProviderSecretRuntime p) key Ip Hd _).
    edestruct (GenBound_run _ _ (provider_inv_live fn d _ Ip) (w, h) counter context) as (s' & E' & Hs');
      [done|]. by exists h, s'.
  - destruct (newHOTP_provider_ok w (newHMACProviderRuntime q) alg fn d Iq) as (h & E & Hs); try done.
    pose proof (provider_source (X := X) fn d (newHMACProviderRuntime q) key Iq Hd _).
    edestruct (GenBound_run _ _ (provider_inv_live fn d _ Iq) (w, h) counter context) as (s' & E' & Hs');
      [done|]. by exists h, s'.
Qed.

(** An HMAC provider that computes HMAC-SHA-1/256/512 itself. *)
Definition signing_provider `{HashSuite} (key : bytes) : HMACProvider unit := fun alg m w =>
  match hashFuncFor alg with
  | Some fn => (Ret (hmac_sum fn key m), w)
  | None => (Err (ErrForeign (lit "unsupported algorithm")), w)
  end.

Lemma signing_provider_laws `{HashSuite} key : HMACProviderLaws (signing_provider key) key (fun _ => True).
Proof. constructor. intros w alg fn m _ Hfn. exists w. unfold signing_provider. by rewrite Hfn. Qed.

Lemma HOTP_provider_equiv_witness :
  (exists h s', NewHOTPFromSecretProvider (Some (copying_provider rfc4226_key)) SHA1 6 rfc_world
     = (Ret h, rfc_world) /\
     @GenBound _ Sha.suite first_idle 1 None (rfc_world, h)
     = (Ret (@otp_code Sha.suite sha1_New rfc4226_key 6 1 []), s') /\
     provider_inv sha1_New 6 (newProviderSecretRuntime (copying_provider rfc4226_key)) (fun _ => True) s').
Proof.
  refine (proj1 (@HOTP_provider_equiv unit Sha.suite first_idle (copying_provider rfc4226_key)
    (@signing_provider Sha.suite rfc4226_key) rfc4226_key (fun _ => True) (fun _ => True) SHA1 sha1_New 6
    rfc_world 1 None (copying_provider_laws _) (@signing_provider_laws Sha.suite _) _ eq_refl _ I I));
    first [lia | discriminate | done].
Defined.

(** [ClearSecret] overwrites the secret's buffer with zeros of the same
    length, touches no other buffer, drops the reference, and from then on
    every operation fails with [ErrInvalidSecret] and changes nothing; the MACs
    in the pool, keyed with the secret, are left as they are. *)
Theorem HOTP_ClearSecret_spec {X} `{HashSuite} `{PoolPolicy} (w : world X) (h : HOTP X)
    (l : positive) (key : bytes)
    (Hr : secret (runtime h) = Some l) (Hl : w_heap w !! l = Some key) :
  exists w' h', ClearSecret (w, h) = (Ret tt, (w', h')) /\
    w_heap w' !! l = Some (replicate (length key) Byte.x00) /\
    (forall l', l' <> l -> w_heap w' !! l' = w_heap w !! l') /\
    secret (runtime h') = None /\ macPool h' = macPool h /\
    forall counter lookAhead user context,
      Generate counter (w', h') = (Err ErrInvalidSecret, (w', h')) /\
      GenBound counter context (w', h') = (Err ErrInvalidSecret, (w', h')) /\
      Verify user counter (w', h') = (Err ErrInvalidSecret, (w', h')) /\
      VerifyBound user counter context (w', h') = (Err ErrInvalidSecret, (w', h')) /\
      VerifyWithResync user counter lookAhead (w', h') = (Err ErrInvalidSecret, (w', h')).
Proof.
  eexists _, _. split; [done|]. simpl secret. simpl macPool. change (runtime (set_cleared h)) with (runtime h).
  rewrite Hr. split; [|split; [|done]].
  - unfold slice_zero, set_heap. simpl. by rewrite lookup_alter_eq, Hl.
  - intros l' Hne. by apply lookup_zero_ne.
Qed.

Lemma HOTP_ClearSecret_spec_witness :
  exists w' h', @ClearSecret unit (rfc_world, rfc_hotp) = (Ret tt, (w', h')) /\
    w_heap w' !! secret_loc = Some (replicate 20 Byte.x00).
Proof.
  destruct (@HOTP_ClearSecret_spec unit Sha.suite first_idle rfc_world rfc_hotp secret_loc
    rfc4226_key eq_refl eq_refl) as (w' & h' & E & Hz & _).
  exists w', h'. split; [exact E|exact Hz].
Defined.

(** The constructors keep the caller's slice: of two objects built on
    one buffer, clearing one makes the other, still live, generate the codes of
    a key of zeros. *)
Theorem HOTP_shared_secret_hazard :
  let other := @ClearSecret unit (rfc_world, rfc_hotp) in
  let w' := fst (snd other) in
  static_inv sha1_New 6 secret_loc rfc4226_key (rfc_world, rfc_hotp) /\
  w_heap w' !! secret_loc = Some (replicate 20 Byte.x00) /\
  fst (@Generate unit Sha.suite first_idle 0 (w', rfc_hotp)) <>
    Ret (@otp_code Sha.suite sha1_New rfc4226_key 6 0 []) /\
  fst (@Generate unit Sha.suite first_idle 0 (w', rfc_hotp)) =
    Ret (@otp_code Sha.suite sha1_New (replicate 20 Byte.x00) 6 0 []).
Proof.
  cbn zeta. split; [apply rfc_static_inv|]. split; [done|].
  split; [|by vm_compute]. by vm_compute.
Qed.
