(* ===== verification/Float64.v ===== *)
(** * Go's [float64]

    IEEE 754 binary64 through the executable specification of the standard
    library ([SpecFloat]), with the conversions and the [math] functions that
    [skew.go] uses.  Products and sums are rounded separately, as on targets
    without fused multiply-add. *)
From S2P Require Import Prelude.
From Stdlib Require Export Floats.SpecFloat.

Abbreviation float64 := spec_float.

Definition f_prec : Z := 53.
Definition f_emax : Z := 1024.

Definition f_add : float64 -> float64 -> float64 := SFadd f_prec f_emax.
Definition f_mul : float64 -> float64 -> float64 := SFmul f_prec f_emax.
Definition f_div : float64 -> float64 -> float64 := SFdiv f_prec f_emax.
Definition f_abs : float64 -> float64 := SFabs.
Definition f_geb (x y : float64) : bool := SFleb y x.
Definition f_eqb (x y : float64) : bool := SFeqb x y.

(** [float64(z)] of an integer. *)
Definition f_of_Z (z : Z) : float64 := binary_normalize f_prec f_emax z 0 false.

(** The constant [n/d], correctly rounded. *)
Definition f_const (n d : Z) : float64 := f_div (f_of_Z n) (f_of_Z d).

(** The magnitude [m * 2^e], rounded to an integer with halves up. *)
Definition round_half_up (m : positive) (e : Z) : Z :=
  if 0 <=? e then Z.shiftl (Zpos m) e
  else Z.shiftr (Zpos m + Z.shiftl 1 (- e - 1)) (- e).

(** [int64(math.Round(x))]: halves away from zero; NaN, infinities and values out
    of range convert to the minimal integer, as on amd64. *)
Definition f_round_int64 (x : float64) : Z :=
  match x with
  | S754_zero _ => 0
  | S754_finite s m e =>
      let r := if s then - round_half_up m e else round_half_up m e in
      if (- 2 ^ 63 <=? r) && (r <? 2 ^ 63) then r else - 2 ^ 63
  | _ => - 2 ^ 63
  end.

Lemma f_round_int64_range x : - 2 ^ 63 <= f_round_int64 x < 2 ^ 63.
Proof.
  unfold f_round_int64. destruct x as [b|b| |b m e]; try lia. cbv zeta.
  destruct (andb _ _) eqn:E; [|lia]. apply andb_true_iff in E as [?%Z.leb_le ?%Z.ltb_lt]. done.
Qed.

(** Sanity: the constants are the doubles Go compiles in. *)
Example f_fifth : f_const 1 5 = S754_finite false 7205759403792794 (-55).
Proof. vm_compute. reflexivity. Qed.
Example f_half : f_const 1 2 = S754_finite false 4503599627370496 (-53).
Proof. vm_compute. reflexivity. Qed.
Example f_four_fifths : f_const 4 5 = S754_finite false 7205759403792794 (-53).
Proof. vm_compute. reflexivity. Qed.
Example f_round_examples :
  (f_round_int64 <$> [f_const 1 2; f_const (-1) 2; f_const 5 2; f_const 7 3; f_of_Z (-4)])
  = [1; -1; 3; 2; -4].
Proof. vm_compute. reflexivity. Qed.

(** ** Division is correctly rounded

    The facts on [SpecFloat] that thresholds on quotients of integers need:
    integers below [2^53] are exact, and a quotient is within half a unit in
    the last place. *)

Lemma digits_bounds (m : positive) : 2 ^ (Zpos (digits2_pos m) - 1) <= Zpos m < 2 ^ Zpos (digits2_pos m).
Proof.
  induction m as [m IH|m IH|]; simpl digits2_pos; [| |by vm_compute].
  all: rewrite Pos2Z.inj_succ; replace (Z.succ (Zpos (digits2_pos m)) - 1) with (Zpos (digits2_pos m) - 1 + 1) by lia;
    unfold Z.succ; rewrite !Z.pow_add_r by lia; lia.
Qed.

Lemma digits_unique (m : positive) k : 0 < k -> 2 ^ (k - 1) <= Zpos m < 2 ^ k -> Zpos (digits2_pos m) = k.
Proof.
  intros Hk Hm. pose proof (digits_bounds m) as Hd.
  destruct (Z.lt_trichotomy (Zpos (digits2_pos m)) k) as [Hlt|[|Hlt]]; [exfalso|done|exfalso].
  - pose proof (Z.pow_le_mono_r 2 (Zpos (digits2_pos m)) (k - 1) ltac:(lia) ltac:(lia)). lia.
  - pose proof (Z.pow_le_mono_r 2 k (Zpos (digits2_pos m) - 1) ltac:(lia) ltac:(lia)). lia.
Qed.

(** A mantissa of 53 bits stays; one of 54 bits loses one. *)
Lemma shr_fexp_53 q e l :
  2 ^ 52 <= q < 2 ^ 53 -> -1074 <= e -> shr_fexp f_prec f_emax q e l = (shr_record_of_loc q l, e).
Proof.
  intros Hq He. destruct q as [|p|p]; try lia. unfold shr_fexp, Zdigits2.
  rewrite (digits_unique p 53) by lia.
  assert (fexp f_prec f_emax (53 + e) - e = 0) as -> by (unfold fexp, emin, f_prec, f_emax; lia). done.
Qed.

Lemma shr_fexp_54 q e l :
  2 ^ 53 <= q < 2 ^ 54 -> -1074 <= e ->
  shr_fexp f_prec f_emax q e l = (shr_1 (shr_record_of_loc q l), e + 1).
Proof.
  intros Hq He. destruct q as [|p|p]; try lia. unfold shr_fexp, Zdigits2.
  rewrite (digits_unique p 54) by lia.
  assert (fexp f_prec f_emax (54 + e) - e = 1) as -> by (unfold fexp, emin, f_prec, f_emax; lia). done.
Qed.

(** What a location says of a remainder. *)
Definition located (l : location) (den r : Z) : Prop :=
  match l with
  | loc_Exact => r = 0
  | loc_Inexact Lt => 0 < 2 * r < den
  | loc_Inexact Eq => 2 * r = den
  | loc_Inexact Gt => den < 2 * r
  end.

Lemma new_location_spec den r : 0 < den -> 0 <= r < den -> located (new_location den r) den r.
Proof.
  intros Hd Hr. unfold new_location. destruct (Z.even den) eqn:Ev.
  - unfold new_location_even. destruct (Z.eqb_spec r 0); [done|]. unfold located.
    destruct (Z.compare_spec (2 * r) den); lia.
  - unfold new_location_odd. destruct (Z.eqb_spec r 0); [done|]. unfold located.
    assert (Hodd : den mod 2 = 1).
    { rewrite Zmod_odd. rewrite <-Z.negb_even, Ev. done. }
    destruct (Z.compare_spec (2 * r + 1) den); zdiv.
Qed.

(** The first rounding: half a unit, halves to even. *)
Lemma round_53 q l den r :
  0 < den -> 0 <= r < den -> located l den r ->
  let m := round_nearest_even q l in
  q <= m <= q + 1 /\ Z.abs (2 * (m * den) - 2 * (q * den + r)) <= den.
Proof.
  intros Hd Hr Hl. unfold round_nearest_even, located in *. cbv zeta.
  destruct l as [|[]]; [|destruct (Z.even q)| |]; split; lia.
Qed.

Lemma round_54 q l den r :
  0 <= q -> 0 < den -> 0 <= r < den -> located l den r ->
  let mrs := shr_1 (shr_record_of_loc q l) in
  let m := round_nearest_even (shr_m mrs) (loc_of_shr_record mrs) in
  q / 2 <= m <= q / 2 + 1 /\ Z.abs (2 * (m * 2 * den) - 2 * (q * den + r)) <= 2 * den.
Proof.
  intros Hq Hd Hr Hl.
  assert (Hm : forall b s, shr_1 {| shr_m := q; shr_r := b; shr_s := s |} =
    {| shr_m := q / 2; shr_r := Z.odd q; shr_s := b || s |}).
  { intros b s. pose proof (Zdiv2_odd_eqn q) as E. rewrite Z.div2_div in E.
    destruct q as [|[p|p|]|p]; simpl in *; f_equal; done || lia. }
  pose proof (Zdiv2_odd_eqn q) as E. rewrite Z.div2_div in E. set (h := q / 2) in *. cbv zeta.
  unfold located in Hl. destruct l as [|[]]; cbn [shr_record_of_loc]; rewrite Hm; destruct (Z.odd q);
    cbn [orb shr_m loc_of_shr_record round_nearest_even]; try (destruct (Z.even h)); split; nia.
Qed.

(** Rounding [num/den], given by its integer part with location and an
    exponent: a mantissa of 53 bits within half a unit of the value. *)
Lemma round_aux_spec sx num den e :
  0 < den -> 2 ^ 52 * den <= num < 2 ^ 54 * den -> -1000 <= e <= 900 ->
  exists M j, binary_round_aux f_prec f_emax sx (num / den) e (new_location den (num mod den))
      = S754_finite sx M (e + j) /\ 0 <= j <= 2 /\ 2 ^ 52 <= Zpos M < 2 ^ 53 /\
    Z.abs (2 * (Zpos M * 2 ^ j * den) - 2 * num) <= den * 2 ^ j.
Proof.
  intros Hd Hn He. pose proof (Z.mod_pos_bound num den Hd) as Hr.
  pose proof (new_location_spec den (num mod den) Hd Hr) as Hl.
  pose proof (Z.div_mod num den ltac:(lia)) as E.
  assert (Hq : 2 ^ 52 <= num / den < 2 ^ 54).
  { split; [apply Z.div_le_lower_bound; lia|apply Z.div_lt_upper_bound; lia]. }
  set (q := num / den) in *. set (r := num mod den) in *. set (l := new_location den r) in *.
  clearbody q r l. rewrite E. clear E Hn.
  assert (Hfin : forall M0 k, 2 ^ 52 <= M0 <= 2 ^ 53 -> 0 <= k <= 1 ->
    Z.abs (2 * (M0 * 2 ^ k * den) - 2 * (q * den + r)) <= den * 2 ^ k ->
    exists M j,
      (let '(mrs'', e'') := shr_fexp f_prec f_emax M0 (e + k) loc_Exact in
       match shr_m mrs'' with
       | Z0 => S754_zero sx
       | Zpos m => if e'' <=? f_emax - f_prec then S754_finite sx m e'' else S754_infinity sx
       | _ => S754_nan
       end) = S754_finite sx M (e + j) /\ 0 <= j <= 2 /\ 2 ^ 52 <= Zpos M < 2 ^ 53 /\
      Z.abs (2 * (Zpos M * 2 ^ j * den) - 2 * (q * den + r)) <= den * 2 ^ j).
  { intros M0 k HM Hk Herr. destruct (decide (M0 = 2 ^ 53)) as [->|Hne].
    - rewrite shr_fexp_54 by lia. exists (2 ^ 52)%positive, (k + 1). simpl.
      rewrite (proj2 (Z.leb_le _ _)) by (unfold f_emax, f_prec; lia).
      split; [f_equal; lia|]. split; [lia|]. split; [lia|].
      rewrite Z.pow_add_r by lia. lia.
    - rewrite shr_fexp_53 by lia. destruct M0 as [|M0|M0]; try lia. exists M0, k. simpl.
      rewrite (proj2 (Z.leb_le _ _)) by (unfold f_emax, f_prec; lia).
      split; [done|]. split; [lia|]. split; [lia|done]. }
  unfold binary_round_aux. replace (den * q + r) with (q * den + r) by lia.
  destruct (decide (q < 2 ^ 53)).
  - rewrite (shr_fexp_53 q) by lia.
    assert (El : loc_of_shr_record (shr_record_of_loc q l) = l) by by destruct l as [|[]].
    assert (Eq : shr_m (shr_record_of_loc q l) = q) by by destruct l as [|[]].
    rewrite El, Eq. destruct (round_53 q l den r Hd Hr Hl) as [Hm Herr].
    pose proof (Hfin (round_nearest_even q l) 0) as Hf. rewrite Z.add_0_r, Z.pow_0_r, !Z.mul_1_r in Hf.
    apply Hf; [lia|lia|done].
  - rewrite (shr_fexp_54 q) by lia.
    destruct (round_54 q l den r ltac:(lia) Hd Hr Hl) as [Hm Herr].
    apply Hfin; [|lia|].
    + assert (2 ^ 52 <= q / 2 < 2 ^ 53) by zdiv. lia.
    + rewrite Z.pow_1_r. lia.
Qed.

(** Integers below [2^53] are exact. *)
Lemma f_of_pos_exact sx p :
  Zpos p < 2 ^ 53 ->
  exists m a, binary_round f_prec f_emax sx p 0 = S754_finite sx m (- a) /\ 0 <= a <= 52 /\
    Zpos m = Zpos p * 2 ^ a /\ 2 ^ 52 <= Zpos m < 2 ^ 53.
Proof.
  intros Hp. pose proof (digits_bounds p) as Hd. set (d := Zpos (digits2_pos p)) in *.
  assert (Hd1 : 1 <= d <= 53).
  { split; [lia|]. destruct (decide (d <= 53)); [done|].
    pose proof (Z.pow_le_mono_r 2 53 (d - 1) ltac:(lia) ltac:(lia)). lia. }
  assert (Hal : exists m, shl_align p 0 (fexp f_prec f_emax (d + 0)) = (m, - (53 - d)) /\
    Zpos m = Zpos p * 2 ^ (53 - d)).
  { assert (fexp f_prec f_emax (d + 0) = d - 53) as -> by (unfold fexp, emin, f_prec, f_emax; lia).
    unfold shl_align. destruct (decide (d = 53)) as [->|Hne].
    - exists p. split; [done|]. simpl. lia.
    - destruct (d - 53 - 0) as [|k|k] eqn:Ek; try lia. exists (shift_pos k p).
      split; [unfold shift_pos; f_equal; lia|]. assert (53 - d = Zpos k) as -> by lia.
      rewrite shift_pos_correct. change (Z.pow_pos 2 k) with (2 ^ Zpos k). lia. }
  destruct Hal as (m & Hal & Hm). exists m, (53 - d).
  assert (Hm2 : 2 ^ 52 <= Zpos m < 2 ^ 53).
  { rewrite Hm. pose proof (Z.pow_pos_nonneg 2 (53 - d) ltac:(lia) ltac:(lia)).
    change (2 ^ 52) with (2 ^ (53 - 1)).
    replace (53 - 1) with ((d - 1) + (53 - d)) by lia. rewrite Z.pow_add_r by lia.
    assert (2 ^ 53 = 2 ^ d * 2 ^ (53 - d)) as -> by (rewrite <-Z.pow_add_r by lia; f_equal; lia). nia. }
  split; [|split; [lia|done]]. unfold binary_round. fold d. rewrite Hal.
  unfold binary_round_aux. rewrite shr_fexp_53 by lia. simpl shr_record_of_loc. cbn [shr_m loc_of_shr_record round_nearest_even].
  rewrite shr_fexp_53 by lia. simpl. rewrite (proj2 (Z.leb_le _ _)) by (unfold f_emax, f_prec; lia). done.
Qed.

(** The sign of an operand only reaches the sign of the result. *)
Lemma round_aux_abs sx m e l :
  SFabs (binary_round_aux f_prec f_emax sx m e l) = binary_round_aux f_prec f_emax false m e l.
Proof.
  unfold binary_round_aux. destruct (shr_fexp _ _ m e l) as [mrs e']. destruct (shr_fexp _ _ _ e' _) as [mrs' e''].
  destruct (shr_m mrs') as [|p|p]; [done| |done]. by destruct (e'' <=? _).
Qed.

Lemma f_of_Z_pos z : 0 < z < 2 ^ 53 ->
  exists m a, f_of_Z z = S754_finite false m (- a) /\ 0 <= a <= 52 /\
    Zpos m = z * 2 ^ a /\ 2 ^ 52 <= Zpos m < 2 ^ 53.
Proof. intros Hz. destruct z as [|p|p]; try lia. apply (f_of_pos_exact false p). lia. Qed.

Lemma f_abs_of_Z z : f_abs (f_of_Z z) = f_of_Z (Z.abs z).
Proof.
  destruct z as [|p|p]; [done|..]; unfold f_abs, f_of_Z, binary_normalize, Z.abs, binary_round;
    destruct (shl_align _ _ _) as [mz ez]; apply round_aux_abs.
Qed.

Lemma f_abs_div x y : f_abs (f_div x y) = f_div (f_abs x) (f_abs y).
Proof.
  destruct x as [sx|sx| |sx mx ex], y as [sy|sy| |sy my ey]; try done.
  unfold f_abs, f_div, SFdiv. cbn [SFabs]. destruct (SFdiv_core_binary _ _ _ _ _ _) as [[m e] l].
  apply round_aux_abs.
Qed.

(** The quotient of two integers below [2^53], to half a unit. *)
Lemma f_div_spec k n :
  0 < k < 2 ^ 53 -> 0 < n < 2 ^ 53 ->
  exists M F G, f_div (f_of_Z k) (f_of_Z n) = S754_finite false M (F - G) /\
    0 <= F /\ 53 <= G <= 105 /\ 2 ^ 52 <= Zpos M < 2 ^ 53 /\
    Z.abs (2 * (Zpos M * 2 ^ F * n) - 2 * (k * 2 ^ G)) <= n * 2 ^ F.
Proof.
  intros Hk Hn. destruct (f_of_Z_pos k Hk) as (m1 & a & -> & Ha & E1 & Hm1).
  destruct (f_of_Z_pos n Hn) as (m2 & b & -> & Hb & E2 & Hm2).
  unfold f_div, SFdiv, SFdiv_core_binary, Zdigits2. rewrite !(digits_unique _ 53) by lia.
  assert (Z.min (fexp f_prec f_emax (53 + - a - (53 + - b))) (- a - - b) = b - a - 53) as ->
    by (unfold fexp, emin, f_prec, f_emax; lia).
  replace (- a - - b - (b - a - 53)) with 53 by lia. cbv beta iota. rewrite Z.shiftl_mul_pow2 by lia.
  assert (Hdiv : Z.div_eucl (Zpos m1 * 2 ^ 53) (Zpos m2) =
    (Zpos m1 * 2 ^ 53 / Zpos m2, (Zpos m1 * 2 ^ 53) mod Zpos m2)).
  { unfold Z.div, Z.modulo. by destruct (Z.div_eucl _ _). }
  rewrite Hdiv.
  destruct (round_aux_spec (xorb false false) (Zpos m1 * 2 ^ 53) (Zpos m2) (b - a - 53)) as (M & j & -> & Hj & HM & Herr);
    [lia|lia|lia|].
  exists M, (j + b), (a + 53). split; [f_equal; lia|]. split; [lia|]. split; [lia|]. split; [done|].
  rewrite E1, E2 in Herr. rewrite !Z.pow_add_r by lia.
  replace (2 * (Zpos M * (2 ^ j * 2 ^ b) * n) - 2 * (k * (2 ^ a * 2 ^ 53)))
    with (2 * (Zpos M * 2 ^ j * (n * 2 ^ b)) - 2 * (k * 2 ^ a * 2 ^ 53)) by ring. lia.
Qed.

(** Cancelling a power: what is left of [f * A <= 2 * (k * g)] when [f * T] is
    an [x]-fold of [c * g], and conversely. *)
Lemma cancel_le f g T A k x c :
  0 < g -> 0 < T -> 0 < A -> 0 < x -> 0 < c -> f * A <= 2 * (k * g) -> f * T = x * (c * g) -> c * A <= 2 * (k * T).
Proof.
  intros Hg HT HA Hx Hc Hle E. apply (Z.mul_le_mono_pos_l _ _ g Hg).
  assert (H1 : f * A * T <= 2 * (k * g) * T) by (apply Z.mul_le_mono_nonneg_r; lia).
  replace (f * A * T) with (x * (c * g * A)) in H1
    by (replace (f * A * T) with (f * T * A) by ring; rewrite E; ring).
  assert (H2 : 1 * (c * g * A) <= x * (c * g * A)).
  { apply Z.mul_le_mono_nonneg_r; [|lia]. apply Z.mul_nonneg_nonneg; [apply Z.mul_nonneg_nonneg; lia|lia]. }
  lia.
Qed.

Lemma cancel_ge f g T B k x c :
  0 < f -> 0 < T -> 0 <= k -> 0 < x -> 0 < c -> 2 * (k * g) <= f * B -> g = x * (c * (f * T)) -> 2 * (c * (k * T)) <= B.
Proof.
  intros Hf HT Hk Hx Hc Hle E. apply (Z.mul_le_mono_pos_l _ _ f Hf).
  replace (2 * (k * g)) with (x * (2 * (c * (k * T)) * f)) in Hle by (rewrite E; ring).
  assert (H2 : 1 * (2 * (c * (k * T)) * f) <= x * (2 * (c * (k * T)) * f)).
  { apply Z.mul_le_mono_nonneg_r; [|lia]. repeat apply Z.mul_nonneg_nonneg; lia. }
  lia.
Qed.

(** The quotient against the power [2^-t]: what its exponent says of [k/n]. *)
Lemma f_div_bounds t k n :
  0 <= t -> 0 < k < 2 ^ 53 -> 0 < n < 2 ^ 53 ->
  exists M E, f_div (f_of_Z k) (f_of_Z n) = S754_finite false M E /\ 2 ^ 52 <= Zpos M < 2 ^ 53 /\
    (- t < E -> 2 * (n * (2 * Zpos M - 1)) <= 2 * (k * 2 ^ t)) /\
    (E = - t -> n * (2 * Zpos M - 1) <= 2 * (k * 2 ^ t) <= n * (2 * Zpos M + 1)) /\
    (E < - t -> 2 * (2 * (k * 2 ^ t)) <= n * (2 * Zpos M + 1)).
Proof.
  intros Ht Hk Hn. destruct (f_div_spec k n Hk Hn) as (M & F & G & E & HF & HG & HM & Herr).
  exists M, (F - G). split; [done|]. split; [done|].
  pose proof (Z.pow_pos_nonneg 2 F ltac:(lia) HF) as Hf. pose proof (Z.pow_pos_nonneg 2 G ltac:(lia) ltac:(lia)) as Hg.
  pose proof (Z.pow_pos_nonneg 2 t ltac:(lia) Ht) as Hpt.
  assert (Hlo : 2 ^ F * (n * (2 * Zpos M - 1)) <= 2 * (k * 2 ^ G)) by lia.
  assert (Hhi : 2 * (k * 2 ^ G) <= 2 ^ F * (n * (2 * Zpos M + 1))) by lia.
  assert (HA : 0 < n * (2 * Zpos M - 1)) by (apply Z.mul_pos_pos; lia). clear Herr.
  split; [|split].
  - intros HE. apply (cancel_le _ _ _ _ _ (2 ^ (F + t - G - 1)) 2 Hg Hpt HA) in Hlo; [lia| |lia|].
    + apply Z.pow_pos_nonneg; lia.
    + rewrite <-Z.pow_succ_r, <-!Z.pow_add_r by lia. f_equal. lia.
  - intros HE. assert (Hx : 2 ^ F * 2 ^ t = 2 ^ G) by (rewrite <-Z.pow_add_r by lia; f_equal; lia).
    apply (cancel_le _ _ _ _ _ 1 1 Hg Hpt HA) in Hlo; [|lia..].
    apply (cancel_ge _ _ (2 ^ t) _ _ 1 1 Hf Hpt) in Hhi; [|lia..]. lia.
  - intros HE. apply (cancel_ge _ _ (2 ^ t) _ _ (2 ^ (G - F - t - 1)) 2 Hf Hpt) in Hhi; [lia|lia| |lia|].
    + apply Z.pow_pos_nonneg; lia.
    + rewrite <-Z.pow_add_r, <-Z.pow_succ_r, <-Z.pow_add_r by lia. f_equal. lia.
Qed.

(** Comparing positive finite numbers. *)
Lemma f_geb_finite m e m' e' :
  f_geb (S754_finite false m e) (S754_finite false m' e') =
  match e ?= e' with Lt => false | Gt => true | Eq => Zpos m' <=? Zpos m end.
Proof.
  unfold f_geb, SFleb. cbn [SFcompare]. rewrite (Z.compare_antisym e e').
  by destruct (e ?= e').
Qed.

(** [k/n >= 0.2] in floating point is [k/n >= 1/5]. *)
Lemma f_div_ge_fifth k n :
  0 <= k < 2 ^ 53 -> 0 < n < 2 ^ 53 ->
  f_geb (f_div (f_of_Z k) (f_of_Z n)) (f_const 1 5) = (n <=? 5 * k).
Proof.
  intros Hk Hn. rewrite f_fifth. destruct (decide (k = 0)) as [->|Hk0].
  { destruct (f_of_Z_pos n Hn) as (m & a & -> & _). simpl. symmetry. apply Z.leb_gt. lia. }
  destruct (f_div_bounds 55 k n ltac:(lia) ltac:(lia) Hn) as (M & E & -> & HM & Hgt & Heq & Hlt).
  rewrite f_geb_finite. destruct (Z.compare_spec E (-55)) as [HE|HE|HE].
  - specialize (Heq HE). destruct (Z.leb_spec 7205759403792794 (Zpos M)) as [HC|HC]; symmetry.
    + apply Z.leb_le. assert (n * 14411518807585587 <= n * (2 * Zpos M - 1)) by (apply Z.mul_le_mono_nonneg_l; lia). lia.
    + apply Z.leb_gt. assert (n * (2 * Zpos M + 1) <= n * 14411518807585587) by (apply Z.mul_le_mono_nonneg_l; lia). lia.
  - specialize (Hlt HE). symmetry. apply Z.leb_gt.
    assert (n * (2 * Zpos M + 1) <= n * (2 ^ 54 - 1)) by (apply Z.mul_le_mono_nonneg_l; lia). lia.
  - specialize (Hgt HE). symmetry. apply Z.leb_le.
    assert (n * (2 ^ 53 - 1) <= n * (2 * Zpos M - 1)) by (apply Z.mul_le_mono_nonneg_l; lia). lia.
Qed.

(** [s/n >= 0.5] in floating point is [s/n >= 1/2]. *)
Lemma f_div_ge_half k n :
  0 <= k < 2 ^ 53 -> 0 < n < 2 ^ 53 ->
  f_geb (f_div (f_of_Z k) (f_of_Z n)) (f_const 1 2) = (n <=? 2 * k).
Proof.
  intros Hk Hn. rewrite f_half. destruct (decide (k = 0)) as [->|Hk0].
  { destruct (f_of_Z_pos n Hn) as (m & a & -> & _). simpl. symmetry. apply Z.leb_gt. lia. }
  destruct (f_div_bounds 53 k n ltac:(lia) ltac:(lia) Hn) as (M & E & -> & HM & Hgt & Heq & Hlt).
  rewrite f_geb_finite. destruct (Z.compare_spec E (-53)) as [HE|HE|HE].
  - specialize (Heq HE). rewrite (proj2 (Z.leb_le _ _)) by lia. symmetry. apply Z.leb_le.
    assert (n * (2 ^ 53 - 1) <= n * (2 * Zpos M - 1)) by (apply Z.mul_le_mono_nonneg_l; lia). lia.
  - specialize (Hlt HE). symmetry. apply Z.leb_gt.
    assert (n * (2 * Zpos M + 1) <= n * (2 ^ 54 - 1)) by (apply Z.mul_le_mono_nonneg_l; lia). lia.
  - specialize (Hgt HE). symmetry. apply Z.leb_le.
    assert (n * (2 ^ 53 - 1) <= n * (2 * Zpos M - 1)) by (apply Z.mul_le_mono_nonneg_l; lia). lia.
Qed.

(** Integers below [2^53] in magnitude are equal as floats when they are equal. *)
Lemma f_eqb_of_Z x y :
  0 <= x < 2 ^ 53 -> 0 <= y < 2 ^ 53 -> f_eqb (f_of_Z x) (f_of_Z y) = (x =? y).
Proof.
  intros Hx Hy. destruct (decide (x = 0)) as [->|Hx0], (decide (y = 0)) as [->|Hy0]; [done|..].
  - destruct (f_of_Z_pos y) as (m & a & -> & _); [lia|]. symmetry. apply Z.eqb_neq. lia.
  - destruct (f_of_Z_pos x) as (m & a & -> & _); [lia|]. symmetry. apply Z.eqb_neq. lia.
  - destruct (f_of_Z_pos x) as (m1 & a & Ex & Ha & E1 & Hm1); [lia|].
    destruct (f_of_Z_pos y) as (m2 & b & Ey & Hb & E2 & Hm2); [lia|].
    destruct (Z.eqb_spec x y) as [->|Hne].
    + rewrite Ey. unfold f_eqb, SFeqb. simpl. rewrite Z.compare_refl. by rewrite Pos.compare_cont_refl.
    + rewrite Ex, Ey. unfold f_eqb, SFeqb. cbn [SFcompare].
      destruct (Z.compare_spec (- a) (- b)) as [Hab| |]; [|done..].
      assert (a = b) as -> by lia. destruct (Pos.compare_cont Eq m1 m2) eqn:Ec; try done.
      exfalso. apply Hne. apply Pos.compare_eq in Ec. subst m2.
      pose proof (Z.pow_pos_nonneg 2 b ltac:(lia) ltac:(lia)). nia.
Qed.
