(* ===== verification/Skew.v ===== *)
(** * Clock-skew detection: [skew.go]

    The ring buffer of matched offsets with its running sum and count, the
    [ClockSkewDetector] around it, [Record] with its exponential moving
    average in floating point, and [Report].  The ring is proved to refine the
    list of the most recent records. *)
From S2P Require Import Prelude Errors Float64.

(** ** Types *)
Definition SkewRecommend : Type := Z.
Definition InsufficientData : SkewRecommend := 0.
Definition NoActionNeeded : SkewRecommend := 1.
Definition ConsistentDrift : SkewRecommend := 2.
Definition WidenWindowOrCheckNtp : SkewRecommend := 3.

Definition SkewRecommend_String (r : SkewRecommend) : bytes :=
  if r =? InsufficientData then lit "InsufficientData"
  else if r =? NoActionNeeded then lit "NoActionNeeded"
  else if r =? ConsistentDrift then lit "ConsistentDrift"
  else if r =? WidenWindowOrCheckNtp then lit "WidenWindowOrCheckNtp"
  else lit "Unknown".

Record SkewReport : Type := {
  SampleCount : Z;
  MeanOffset : float64;
  NonZeroCount : Z;
  EdgeHitRatio : float64;
  Recommend : SkewRecommend
}.

Record skewState : Type := {
  buffer : list Z;
  capacity : Z;
  writeIdx : Z;
  slength : Z;         (** the field [length] *)
  ssum : Z;            (** the field [sum] *)
  nonZeroCount : Z
}.

Definition emaScale : Z := 1000.
Definition maxInt64Uint64 : Z := 2 ^ 63 - 1.

Record ClockSkewDetector : Type := {
  state : skewState;
  autoAdjust : Z;
  offset : Z;
  smoothedScaled : Z;
  lastWindowUsed : Z
}.

Definition emptyState (cap : Z) : skewState :=
  {| buffer := []; capacity := cap; writeIdx := 0; slength := 0; ssum := 0; nonZeroCount := 0 |}.

(** [NewClockSkewDetector]: [make] panics on a negative capacity. *)
Definition NewClockSkewDetector (cap : Z) : result ClockSkewDetector :=
  if cap <? 0 then Panic
  else Ret {| state := emptyState cap; autoAdjust := 0; offset := 0; smoothedScaled := 0;
              lastWindowUsed := 0 |}.

(** ** [Record] *)

Definition set_state (s : skewState) (d : ClockSkewDetector) : ClockSkewDetector :=
  {| state := s; autoAdjust := autoAdjust d; offset := offset d;
     smoothedScaled := smoothedScaled d; lastWindowUsed := lastWindowUsed d |}.

Definition isNonZero (z : Z) : Z := if z =? 0 then 0 else 1.

(** The ring-buffer part of [Record]; reading past the end of the buffer panics. *)
Definition ringPush (matchedOffset : Z) (s : skewState) : result skewState :=
  if slength s <? capacity s then
    let len := slength s + 1 in
    Ret {| buffer := buffer s ++ [matchedOffset]; capacity := capacity s;
           writeIdx := len mod capacity s; slength := len;
           ssum := i64 (ssum s + matchedOffset);
           nonZeroCount := nonZeroCount s + isNonZero matchedOffset |}
  else
    match buffer s !! Z.to_nat (writeIdx s) with
    | None => Panic
    | Some old =>
        Ret {| buffer := <[Z.to_nat (writeIdx s) := matchedOffset]> (buffer s);
               capacity := capacity s;
               writeIdx := (writeIdx s + 1) mod capacity s;
               slength := slength s;
               ssum := i64 (i64 (ssum s - old) + matchedOffset);
               nonZeroCount := nonZeroCount s - isNonZero old + isNonZero matchedOffset |}
    end.

(** The moving average: new [smoothedScaled] and [offset]. *)
Definition emaStep (sum len prevScaled : Z) : Z * Z :=
  let mean := f_div (f_of_Z sum) (f_of_Z len) in
  let prev := f_div (f_of_Z prevScaled) (f_of_Z emaScale) in
  let smoothed := f_add (f_mul (f_const 1 5) mean) (f_mul (f_const 4 5) prev) in
  (f_round_int64 (f_mul smoothed (f_of_Z emaScale)),
   if f_geb (f_abs smoothed) (f_const 1 2) then f_round_int64 smoothed else 0).

Definition Record_ (matchedOffset windowUsed : Z) : GoM ClockSkewDetector unit := fun d =>
  match ringPush matchedOffset (state d) with
  | Ret s =>
      let lw := if maxInt64Uint64 <? windowUsed then 2 ^ 63 - 1 else windowUsed in
      let '(sm, off) :=
        if (autoAdjust d =? 1) && (16 <=? slength s)
        then emaStep (ssum s) (slength s) (smoothedScaled d)
        else (smoothedScaled d, offset d) in
      (Ret tt, {| state := s; autoAdjust := autoAdjust d; offset := off; smoothedScaled := sm;
                  lastWindowUsed := lw |})
  | Err e => (Err e, d)
  | Panic => (Panic, d)
  end.

(** ** The other operations *)
Definition CurrentOffset (d : ClockSkewDetector) : Z := offset d.

Definition EnableAutoAdjust (d : ClockSkewDetector) : ClockSkewDetector :=
  {| state := state d; autoAdjust := 1; offset := offset d; smoothedScaled := smoothedScaled d;
     lastWindowUsed := lastWindowUsed d |}.

Definition DisableAutoAdjust (d : ClockSkewDetector) : ClockSkewDetector :=
  {| state := state d; autoAdjust := 0; offset := 0; smoothedScaled := 0;
     lastWindowUsed := lastWindowUsed d |}.

Definition IsAutoAdjust (d : ClockSkewDetector) : bool := autoAdjust d =? 1.

Definition Reset (d : ClockSkewDetector) : ClockSkewDetector :=
  {| state := emptyState (capacity (state d)); autoAdjust := autoAdjust d; offset := 0;
     smoothedScaled := 0; lastWindowUsed := lastWindowUsed d |}.

(** [math.Abs(float64(v)) == float64(windowUsed)]. *)
Definition isEdge (windowUsed v : Z) : bool := f_eqb (f_abs (f_of_Z v)) (f_of_Z windowUsed).

Fixpoint edgeLoop (windowUsed : Z) (buf : list Z) (edgeHits : Z) : Z :=
  match buf with
  | [] => edgeHits
  | v :: buf' => edgeLoop windowUsed buf' (if isEdge windowUsed v then edgeHits + 1 else edgeHits)
  end.

Definition recommendFor (edgeHitRatio meanOffset : float64) : SkewRecommend :=
  if f_geb edgeHitRatio (f_const 1 5) then WidenWindowOrCheckNtp
  else if f_geb (f_abs meanOffset) (f_const 1 2) then ConsistentDrift
  else NoActionNeeded.

Definition Report (d : ClockSkewDetector) : SkewReport :=
  let s := state d in
  if slength s <? 8 then
    {| SampleCount := slength s; MeanOffset := f_of_Z 0; NonZeroCount := nonZeroCount s;
       EdgeHitRatio := f_of_Z 0; Recommend := InsufficientData |}
  else
    let meanOffset := f_div (f_of_Z (ssum s)) (f_of_Z (slength s)) in
    let edgeHits := if 0 <? lastWindowUsed d then edgeLoop (lastWindowUsed d) (buffer s) 0 else 0 in
    let edgeHitRatio := f_div (f_of_Z edgeHits) (f_of_Z (slength s)) in
    {| SampleCount := slength s; MeanOffset := meanOffset; NonZeroCount := nonZeroCount s;
       EdgeHitRatio := edgeHitRatio; Recommend := recommendFor edgeHitRatio meanOffset |}.

(** ** Abstract specification: the most recent records *)

(** The last [n] elements. *)
Definition lastn (n : nat) (l : list Z) : list Z := drop (length l - n) l.

Definition nonzeros (l : list Z) : Z := Z.of_nat (length (filter (fun z => z <> 0) l)).

(** The ring, oldest record first. *)
Definition contents (s : skewState) : list Z :=
  if slength s <? capacity s then buffer s
  else drop (Z.to_nat (writeIdx s)) (buffer s) ++ take (Z.to_nat (writeIdx s)) (buffer s).

Record ring_wf (s : skewState) : Prop := {
  wf_cap : 0 < capacity s;
  wf_len : slength s = Z.of_nat (length (buffer s));
  wf_le : slength s <= capacity s;
  wf_idx : 0 <= writeIdx s < capacity s;
  wf_next : slength s < capacity s -> writeIdx s = slength s;
  wf_sum : ssum s = i64 (zsum (buffer s));
  wf_nz : nonZeroCount s = nonzeros (buffer s)
}.

(** ** Lemmas *)
Lemma i64_add_l a b : i64 (i64 a + b) = i64 (a + b).
Proof.
  unfold i64. f_equal.
  replace ((a + 2 ^ 63) mod 2 ^ 64 - 2 ^ 63 + b + 2 ^ 63) with ((a + 2 ^ 63) mod 2 ^ 64 + b) by lia.
  rewrite Z.add_mod_idemp_l by lia. f_equal. lia.
Qed.

Lemma nonzeros_app l1 l2 : nonzeros (l1 ++ l2) = nonzeros l1 + nonzeros l2.
Proof. unfold nonzeros. rewrite filter_app, length_app. lia. Qed.

Lemma nonzeros_single x : nonzeros [x] = isNonZero x.
Proof.
  unfold nonzeros, isNonZero. rewrite filter_cons. destruct (Z.eqb_spec x 0) as [->|Hx].
  - by rewrite decide_False by (intros []; done).
  - by rewrite decide_True.
Qed.

Lemma nonzeros_insert (l : list Z) i old x :
  l !! i = Some old -> nonzeros (<[i := x]> l) = nonzeros l - isNonZero old + isNonZero x.
Proof.
  intros H. rewrite (insert_at _ _ _ x H). rewrite (split_at _ _ _ H) at 3.
  rewrite !nonzeros_app, !nonzeros_single. lia.
Qed.

Lemma lastn_all n l : (length l <= n)%nat -> lastn n l = l.
Proof. intros H. unfold lastn. by replace (length l - n)%nat with 0%nat by lia. Qed.

Lemma lastn_snoc n l x y : length l = n -> lastn (S n) (y :: l ++ [x]) = l ++ [x].
Proof.
  intros H. unfold lastn. cbn [length]. rewrite length_app. simpl length.
  by replace (S (length l + 1) - S n)%nat with 1%nat by lia.
Qed.

Lemma lastn_length n l : length (lastn n l) = (n `min` length l)%nat.
Proof. unfold lastn. rewrite length_drop. lia. Qed.

(** Keeping the last [n] of the last [n] and some more. *)
Lemma lastn_lastn n l m : lastn n (lastn n l ++ m) = lastn n (l ++ m).
Proof.
  unfold lastn. rewrite <-drop_app_le by lia. rewrite drop_drop, !length_app, length_drop, length_app.
  f_equal. lia.
Qed.

Lemma empty_wf cap : 0 < cap -> ring_wf (emptyState cap).
Proof. intros H. by constructor; simpl; try lia. Qed.

Lemma ringPush_room s x :
  ring_wf s -> slength s < capacity s ->
  exists s', ringPush x s = Ret s' /\ ring_wf s' /\ capacity s' = capacity s /\
    contents s' = lastn (Z.to_nat (capacity s)) (contents s ++ [x]).
Proof.
  intros [] Hlt. unfold ringPush. rewrite (proj2 (Z.ltb_lt _ _)) by done.
  eexists. split; [done|]. split; [|split; [done|]].
  - pose proof (Z.mod_pos_bound (slength s + 1) (capacity s) wf_cap0).
    constructor; simpl; try done; try lia.
    + rewrite length_app. simpl. lia.
    + intros ?. apply Z.mod_small. lia.
    + rewrite wf_sum0, zsum_app, i64_add_l. f_equal. simpl. lia.
    + by rewrite nonzeros_app, nonzeros_single, wf_nz0.
  - unfold contents at 2. rewrite (proj2 (Z.ltb_lt _ _)) by done.
    rewrite lastn_all by (rewrite length_app; simpl; lia).
    unfold contents. simpl. destruct (Z.ltb_spec (slength s + 1) (capacity s)); [done|].
    replace (slength s + 1) with (capacity s) by lia. rewrite Z.mod_same by lia. simpl.
    by rewrite app_nil_r.
Qed.

(** Overwriting slot [i] of a full ring of [n] drops the oldest record. *)
Lemma ring_rotate (l : list Z) (i n : nat) old x :
  l !! i = Some old -> length l = n ->
  lastn n ((drop i l ++ take i l) ++ [x]) = drop (S i) l ++ take i l ++ [x].
Proof.
  intros H Hn. pose proof (lookup_lt_Some _ _ _ H). rewrite (drop_S l old i) by done.
  destruct n as [|n]; [lia|]. rewrite <-app_comm_cons, <-app_comm_cons.
  rewrite lastn_snoc; [by rewrite <-app_assoc|].
  rewrite length_app, length_drop, length_take. lia.
Qed.

Lemma rotate_next (a b : list Z) (i : nat) x :
  length a = i -> drop (i + 1) (a ++ [x] ++ b) ++ take (i + 1) (a ++ [x] ++ b) = b ++ a ++ [x].
Proof. intros <-. by rewrite drop_app_add, take_app_add. Qed.

Lemma ringPush_full s x :
  ring_wf s -> capacity s <= slength s ->
  exists s', ringPush x s = Ret s' /\ ring_wf s' /\ capacity s' = capacity s /\
    contents s' = lastn (Z.to_nat (capacity s)) (contents s ++ [x]).
Proof.
  intros [] Hfull. set (i := Z.to_nat (writeIdx s)).
  destruct (lookup_lt_is_Some_2 (buffer s) i ltac:(lia)) as [old Hold].
  pose proof (lookup_lt_Some _ _ _ Hold) as Hi.
  unfold ringPush. rewrite (proj2 (Z.ltb_ge _ _)) by done. fold i. rewrite Hold.
  eexists. split; [done|]. split; [|split; [done|]].
  - pose proof (Z.mod_pos_bound (writeIdx s + 1) (capacity s) wf_cap0).
    constructor; simpl; try done; try lia.
    + by rewrite length_insert.
    + rewrite (zsum_insert _ _ _ _ Hold), wf_sum0.
      rewrite i64_add_l. rewrite <-Z.add_opp_r, <-!Z.add_assoc, i64_add_l. f_equal. lia.
    + by rewrite (nonzeros_insert _ _ _ _ Hold), wf_nz0.
  - unfold contents at 2. rewrite (proj2 (Z.ltb_ge _ _)) by done. fold i.
    rewrite (ring_rotate _ _ _ old) by (done || lia).
    unfold contents. cbn [slength capacity buffer writeIdx].
    rewrite (proj2 (Z.ltb_ge _ _)), (insert_at _ _ _ x Hold) by done.
    assert (length (take i (buffer s)) = i) as Hti by (rewrite length_take; lia).
    destruct (decide (writeIdx s + 1 < capacity s)).
    + rewrite Z.mod_small by lia. replace (Z.to_nat (writeIdx s + 1)) with (i + 1)%nat by lia.
      by apply rotate_next.
    + replace (writeIdx s + 1) with (capacity s) by lia. rewrite Z.mod_same by lia.
      rewrite (drop_ge _ (S i)) by lia. simpl. by rewrite app_nil_r.
Qed.

(** Recording never panics on a well-formed ring, and keeps exactly the last
    [capacity] records. *)
Lemma ringPush_ok s x :
  ring_wf s ->
  exists s', ringPush x s = Ret s' /\ ring_wf s' /\ capacity s' = capacity s /\
    contents s' = lastn (Z.to_nat (capacity s)) (contents s ++ [x]).
Proof.
  intros Hs. destruct (decide (slength s < capacity s)).
  - by apply ringPush_room.
  - apply ringPush_full; [done|lia].
Qed.

Lemma contents_perm s : contents s ≡ₚ buffer s.
Proof.
  unfold contents. destruct (_ <? _); [done|]. rewrite Permutation_app_comm. by rewrite take_drop.
Qed.

#[global] Instance zsum_perm : Proper ((≡ₚ) ==> (=)) zsum.
Proof. unfold zsum. induction 1; simpl; lia. Qed.
#[global] Instance nonzeros_perm : Proper ((≡ₚ) ==> (=)) nonzeros.
Proof. intros l1 l2 H. unfold nonzeros. by rewrite H. Qed.

(** The fields of a well-formed ring, read off its contents. *)
Lemma ring_fields s :
  ring_wf s ->
  slength s = Z.of_nat (length (contents s)) /\ ssum s = i64 (zsum (contents s)) /\
  nonZeroCount s = nonzeros (contents s).
Proof. intros []. by rewrite contents_perm. Qed.

(** A sequence of records. *)
Fixpoint recordAll (l : list (Z * Z)) : GoM ClockSkewDetector unit :=
  match l with
  | [] => mret tt
  | (x, w) :: l' => _ ← Record_ x w; recordAll l'
  end.

Lemma Record_run x w d :
  ring_wf (state d) ->
  exists d', Record_ x w d = (Ret tt, d') /\ ring_wf (state d') /\
    capacity (state d') = capacity (state d) /\ autoAdjust d' = autoAdjust d /\
    contents (state d') = lastn (Z.to_nat (capacity (state d))) (contents (state d) ++ [x]) /\
    lastWindowUsed d' = Z.min w maxInt64Uint64 /\
    (autoAdjust d <> 1 -> offset d' = offset d).
Proof.
  intros Hs. destruct (ringPush_ok (state d) x Hs) as (s' & E & Hwf & Hcap & Hc).
  unfold Record_. rewrite E. destruct (if _ && _ then _ else _) as [sm off] eqn:Ee.
  eexists. split; [done|]. simpl. repeat split; try done; try apply Hwf.
  - unfold maxInt64Uint64. destruct (Z.ltb_spec (2 ^ 63 - 1) w); lia.
  - intros Ha. rewrite (proj2 (Z.eqb_neq _ _) Ha) in Ee. simpl in Ee. congruence.
Qed.

(** A detector of capacity 0 panics on its first record: there is no slot to
    overwrite. *)
Lemma Record_capacity_0 x w d : NewClockSkewDetector 0 = Ret d -> (Record_ x w d).1 = Panic.
Proof. by intros [= <-]. Qed.

(** The suggestion stays an [int64]. *)
Lemma emaStep_range sum len prev : - 2 ^ 63 <= (emaStep sum len prev).2 < 2 ^ 63.
Proof. unfold emaStep. cbn [snd]. destruct (f_geb _ _); [apply f_round_int64_range|lia]. Qed.

Lemma Record_offset_range x w d :
  - 2 ^ 63 <= offset d < 2 ^ 63 -> - 2 ^ 63 <= offset (Record_ x w d).2 < 2 ^ 63.
Proof.
  intros Ho. unfold Record_. destruct (ringPush x (state d)) as [s|e|]; [|done..].
  pose proof (emaStep_range (ssum s) (slength s) (smoothedScaled d)) as He.
  destruct (_ && _); [|done]. by destruct (emaStep _ _ _).
Qed.

Lemma recordAll_run l : forall d,
  ring_wf (state d) ->
  exists d', recordAll l d = (Ret tt, d') /\ ring_wf (state d') /\
    capacity (state d') = capacity (state d) /\ autoAdjust d' = autoAdjust d /\
    contents (state d') = lastn (Z.to_nat (capacity (state d))) (contents (state d) ++ l.*1) /\
    (autoAdjust d <> 1 -> offset d' = offset d).
Proof.
  induction l as [|[x w] l IH]; intros d Hd.
  - exists d. split; [done|]. rewrite app_nil_r, lastn_all; [done|].
    destruct (ring_fields _ Hd) as [Hl _]. pose proof (wf_le _ Hd). lia.
  - destruct (Record_run x w d Hd) as (d1 & E1 & Hd1 & Hc1 & Ha1 & Hr1 & _ & Ho1).
    destruct (IH d1 Hd1) as (d2 & E2 & Hd2 & Hc2 & Ha2 & Hr2 & Ho2).
    exists d2. cbn [recordAll]. rewrite (run_bind _ _ _ _ _ E1). split; [done|].
    rewrite Hr2, Hr1, Hc1, <-Hc1, Hc2, Ha2, Ha1. repeat split; try done; try apply Hd2.
    + rewrite lastn_lastn. by rewrite <-app_assoc.
    + intros Ha. rewrite Ho2 by congruence. by apply Ho1.
Qed.

(** ** The float comparisons of [Report] *)

Lemma isEdge_exact w v : 0 <= w < 2 ^ 53 -> Z.abs v < 2 ^ 53 -> isEdge w v = (Z.abs v =? w).
Proof. intros Hw Hv. unfold isEdge. rewrite f_abs_of_Z. apply f_eqb_of_Z; lia. Qed.

Lemma mean_threshold n s :
  0 < n < 2 ^ 53 -> Z.abs s < 2 ^ 53 ->
  f_geb (f_abs (f_div (f_of_Z s) (f_of_Z n))) (f_const 1 2) = (n <=? 2 * Z.abs s).
Proof.
  intros Hn Hs. rewrite f_abs_div, !f_abs_of_Z, (Z.abs_eq n) by lia. apply f_div_ge_half; lia.
Qed.

(** How many records sit on the edge of the window. *)
Definition edges (w : Z) (l : list Z) : Z := Z.of_nat (length (filter (fun v => Z.abs v = w) l)).

#[global] Instance edges_perm w : Proper ((≡ₚ) ==> (=)) (edges w).
Proof. intros l1 l2 H. unfold edges. by rewrite H. Qed.

Lemma edges_range w l : 0 <= edges w l <= Z.of_nat (length l).
Proof. unfold edges. pose proof (length_filter (fun v => Z.abs v = w) l). lia. Qed.

Lemma edgeLoop_edges w l : forall k,
  0 <= w < 2 ^ 53 -> Forall (fun v => Z.abs v < 2 ^ 53) l -> edgeLoop w l k = k + edges w l.
Proof.
  induction l as [|v l IH]; intros k Hw Hl; [unfold edges; simpl; lia|].
  apply Forall_cons in Hl as [Hv Hl]. cbn [edgeLoop].
  rewrite IH by done. rewrite (isEdge_exact w v) by done.
  unfold edges. rewrite filter_cons.
  destruct (Z.eqb_spec (Z.abs v) w); [rewrite decide_True by done|rewrite decide_False by done];
    simpl; lia.
Qed.

(** ** Properties *)

(** C31: a fresh detector of positive capacity accepts any sequence
    of records without panicking, and its ring then holds exactly the
    [capacity] most recent offsets in order: [length], [sum] (at 64 bits) and
    [nonZeroCount] are those of that list, and, auto-adjust being off, the
    offset it suggests stays 0. *)
Theorem ClockSkewDetector_ring cap l :
  0 < cap ->
  exists d0 d, NewClockSkewDetector cap = Ret d0 /\ recordAll l d0 = (Ret tt, d) /\
    let recent := lastn (Z.to_nat cap) l.*1 in
    contents (state d) = recent /\
    slength (state d) = Z.min cap (Z.of_nat (length l)) /\
    ssum (state d) = i64 (zsum recent) /\
    nonZeroCount (state d) = nonzeros recent /\
    CurrentOffset d = 0.
Proof.
  intros Hc. unfold NewClockSkewDetector. rewrite (proj2 (Z.ltb_ge _ _)) by lia.
  eexists. edestruct (recordAll_run l) as (d & E & Hd & _ & _ & Hr & Ho);
    [|exists d; split; [done|]; split; [exact E|]]; [by apply empty_wf|].
  destruct (ring_fields _ Hd) as (Hl & Hs & Hn).
  rewrite Hl, Hs, Hn, Hr. cbn [state capacity emptyState].
  replace (contents (emptyState cap)) with (@nil Z)
    by (unfold contents, emptyState; simpl; by destruct (0 <? cap)).
  rewrite app_nil_l, lastn_length, length_fmap.
  do 2 (split; [done || lia|]). do 2 (split; [done|]). by apply Ho.
Qed.

Lemma ClockSkewDetector_ring_witness :
  0 < 3 /\ exists d0 d, NewClockSkewDetector 3 = Ret d0 /\
    recordAll [(1, 2); (0, 2); (-2, 2); (1, 2)] d0 = (Ret tt, d) /\ contents (state d) = [0; -2; 1].
Proof.
  split; [lia|]. destruct (ClockSkewDetector_ring 3 [(1, 2); (0, 2); (-2, 2); (1, 2)] eq_refl)
    as (d0 & d & E0 & E & Hc & _). exists d0, d. split; [exact E0|]. split; [exact E|]. exact Hc.
Defined.

(** C32: on a well-formed detector [Report] counts the samples and the non-zero
    ones, reports [InsufficientData] below 8 samples, and otherwise recommends
    by the exact rational thresholds, in this order: with a non-zero window, at
    least one fifth of the samples on its edge, [WidenWindowOrCheckNtp]; mean
    offset of at least a half in magnitude, [ConsistentDrift]; otherwise
    [NoActionNeeded].  The floating-point divisions and conversions never
    change the answer as long as the number of samples, their magnitudes, the
    magnitude of their sum and the window are below 2^53. *)
Theorem Report_recommends d :
  let l := contents (state d) in
  let n := Z.of_nat (length l) in
  ring_wf (state d) -> n < 2 ^ 53 -> Forall (fun v => Z.abs v < 2 ^ 53) l -> Z.abs (zsum l) < 2 ^ 53 ->
  0 <= lastWindowUsed d < 2 ^ 53 ->
  SampleCount (Report d) = n /\ NonZeroCount (Report d) = nonzeros l /\
  Recommend (Report d) =
    if n <? 8 then InsufficientData
    else if (0 <? lastWindowUsed d) && (n <=? 5 * edges (lastWindowUsed d) l) then WidenWindowOrCheckNtp
    else if n <=? 2 * Z.abs (zsum l) then ConsistentDrift
    else NoActionNeeded.
Proof.
  intros l n Hwf Hn Hl Hsum Hw. destruct (ring_fields _ Hwf) as (El & Es & En). fold l in El, Es, En.
  fold n in El. unfold Report. rewrite El. destruct (Z.ltb_spec n 8) as [|H8]; [simpl; by rewrite En|].
  simpl. split; [done|]. split; [done|]. pose proof (edges_range (lastWindowUsed d) l) as He. fold n in He.
  set (hits := if 0 <? lastWindowUsed d then _ else _).
  assert (Ehits : hits = if 0 <? lastWindowUsed d then edges (lastWindowUsed d) l else 0).
  { unfold hits. destruct (Z.ltb_spec 0 (lastWindowUsed d)); [|done].
    rewrite edgeLoop_edges by (lia || by rewrite <-contents_perm).
    unfold l. by rewrite contents_perm. }
  assert (Hh : 0 <= hits <= n) by (rewrite Ehits; destruct (0 <? _); lia). clearbody hits.
  unfold recommendFor. rewrite f_div_ge_fifth by lia.
  rewrite Es, i64_small by lia. rewrite mean_threshold by lia. rewrite Ehits.
  destruct (0 <? lastWindowUsed d); [done|]. by rewrite (proj2 (Z.leb_gt _ _)) by lia.
Qed.

(** The detector after recording [l] with auto-adjust off. *)
Definition detectorAfter (cap : Z) (l : list (Z * Z)) : ClockSkewDetector :=
  match NewClockSkewDetector cap with Ret d0 => (recordAll l d0).2 | _ =>
    {| state := emptyState cap; autoAdjust := 0; offset := 0; smoothedScaled := 0; lastWindowUsed := 0 |}
  end.

Lemma Report_recommends_witness :
  let d := detectorAfter 64 (replicate 40 (-1, 2) ++ replicate 8 (1000, 1000)) in
  Recommend (Report d) = ConsistentDrift /\ zsum (contents (state d)) = 7960.
Proof.
  set (d := detectorAfter 64 _). assert (Hwf : ring_wf (state d)).
  { constructor; vm_compute; try done; (split; congruence) || congruence. }
  split; [|vm_compute; reflexivity].
  refine (eq_trans (proj2 (proj2 (Report_recommends d Hwf _ _ _ _))) _);
    [vm_compute; reflexivity|apply (bool_decide_unpack _); vm_compute; exact I|vm_compute; reflexivity
    |split; vm_compute; congruence|vm_compute; reflexivity].
Defined.

(** Unless auto-adjust is on, no sequence of records moves the
    offset; [DisableAutoAdjust] puts it to 0 and turns auto-adjust off,
    [Reset] puts it to 0 with an empty ring of the same capacity, and both
    leave a detector that keeps recording. *)
Theorem ClockSkewDetector_passive d l :
  ring_wf (state d) ->
  (autoAdjust d <> 1 -> exists d', recordAll l d = (Ret tt, d') /\ CurrentOffset d' = CurrentOffset d) /\
  (exists d', recordAll l (DisableAutoAdjust d) = (Ret tt, d') /\ CurrentOffset d' = 0 /\
     IsAutoAdjust d' = false) /\
  (IsAutoAdjust (Reset d) = IsAutoAdjust d /\ CurrentOffset (Reset d) = 0 /\
   exists d', recordAll l (Reset d) = (Ret tt, d') /\
     contents (state d') = lastn (Z.to_nat (capacity (state d))) l.*1).
Proof.
  intros Hwf. split; [|split].
  - intros Ha. destruct (recordAll_run l d Hwf) as (d' & E & _ & _ & _ & _ & Ho).
    exists d'. split; [exact E|]. by apply Ho.
  - destruct (recordAll_run l (DisableAutoAdjust d) Hwf) as (d' & E & _ & _ & Ha & _ & Ho).
    exists d'. split; [exact E|]. split; [by apply Ho|]. unfold IsAutoAdjust. by rewrite Ha.
  - split; [done|]. split; [done|].
    destruct (recordAll_run l (Reset d) (empty_wf _ (wf_cap _ Hwf))) as (d' & E & _ & _ & _ & Hr & _).
    exists d'. split; [exact E|]. rewrite Hr. cbn [state capacity Reset emptyState].
    unfold contents, emptyState. simpl. by destruct (0 <? _).
Qed.

Lemma ClockSkewDetector_passive_witness :
  exists d', recordAll (replicate 30 (3, 4)) (detectorAfter 8 []) = (Ret tt, d') /\ CurrentOffset d' = 0.
Proof.
  assert (Hwf : ring_wf (state (detectorAfter 8 []))).
  { constructor; vm_compute; try done; (split; congruence) || congruence. }
  destruct (ClockSkewDetector_passive _ (replicate 30 (3, 4)) Hwf) as [H _].
  refine (H _). vm_compute. congruence.
Defined.
