(* ===== verification/Totp.v ===== *)
(** * TOTP: [totp.go]

    The [TOTP] object, its constructors, [Generate], [Verify], [GenBound],
    [VerifyBound], [VerifyTracking] and [ClearSecret], with the time step and
    the checked counter arithmetic.  The code generation of [totp.go] repeats
    that of [hotp.go]; it is translated here and proved to be that of the
    [HOTP] object with the same fields, so that the sources of [Hotp] carry
    over. *)
From S2P Require Import Prelude Errors ConstantTime Hash Secret Digits Context Hotp Float64 Skew.

(** ** The object *)
Record TOTP (X : Type) : Type := {
  runtime : secretRuntime X;
  algorithm : Algorithm;
  digits : Z;
  period : Z;
  modValue : Z;
  macPool : list macBuf;
  macPoolNew : bool;
  hashFunc : hashFn;
  cleared : bool
}.
Arguments runtime {X} _.
Arguments algorithm {X} _.
Arguments digits {X} _.
Arguments period {X} _.
Arguments modValue {X} _.
Arguments macPool {X} _.
Arguments macPoolNew {X} _.
Arguments hashFunc {X} _.
Arguments cleared {X} _.

(** ** Time and counters *)

(** [time.Now().Unix()]. *)
Definition unixSeconds (ns : Z) : Z := ns / 10 ^ 9.

Definition nowOr {X} (timeVal : option Z) (w : world X) : Z :=
  match timeVal with
  | Some t => t
  | None => let now := unixSeconds (w_now w) in if now <=? 0 then 0 else u64 now
  end.

(** [None] for [ok = false]. *)
Definition checkedAddSigned (counter delta : Z) : option Z :=
  if 0 <=? delta then
    let d := u64 delta in
    let sum := u64 (counter + d) in
    if sum <? counter then None else Some sum
  else
    let d := u64 (i64 (- delta)) in
    if counter <? d then None else Some (u64 (counter - d)).

Definition addCounterSigned (counter delta : Z) : Z :=
  match checkedAddSigned counter delta with None => 0 | Some v => v end.

Section totp.
Context {X : Type} `{HashSuite} `{PoolPolicy}.
Abbreviation W := (world X).
Abbreviation St := (world X * TOTP X)%type.

Definition set_pool (p : list macBuf) (t : TOTP X) : TOTP X :=
  {| runtime := runtime t; algorithm := algorithm t; digits := digits t; period := period t;
     modValue := modValue t; macPool := p; macPoolNew := macPoolNew t;
     hashFunc := hashFunc t; cleared := cleared t |}.
Definition set_cleared (t : TOTP X) : TOTP X :=
  {| runtime := runtime t; algorithm := algorithm t; digits := digits t; period := period t;
     modValue := modValue t; macPool := macPool t; macPoolNew := macPoolNew t;
     hashFunc := hashFunc t; cleared := true |}.
Definition set_runtime (r : secretRuntime X) (t : TOTP X) : TOTP X :=
  {| runtime := r; algorithm := algorithm t; digits := digits t; period := period t;
     modValue := modValue t; macPool := macPool t; macPoolNew := macPoolNew t;
     hashFunc := hashFunc t; cleared := cleared t |}.

(** ** Constructors *)
Definition newTOTPWithRuntime (r : secretRuntime X) (alg : Algorithm) (d per : Z)
    : GoM W (TOTP X) :=
  if (d <? 6) || (8 <? d) then fail ErrInvalidDigits else
  if per =? 0 then fail ErrInvalidTime else
  static ← gets (fun w => hasStaticSecret w r);
  if negb static && negb (hasExternalProvider r) then fail ErrInvalidSecret else
  match hashFuncFor alg with
  | None => fail ErrInvalidAlgorithm
  | Some fn =>
      mret {| runtime := r; algorithm := alg; digits := d; period := per;
              modValue := modValueOf d; macPool := []; macPoolNew := static;
              hashFunc := fn; cleared := false |}
  end.

Definition NewTOTP (s : slice) (alg : Algorithm) (d per : Z) : GoM W (TOTP X) :=
  newTOTPWithRuntime (newStaticSecretRuntime s) alg d per.

Definition NewTOTPFromSecretProvider (p : option (SecretProvider X)) (alg : Algorithm) (d per : Z)
    : GoM W (TOTP X) :=
  match p with
  | None => fail ErrInvalidSecret
  | Some p => newTOTPWithRuntime (newProviderSecretRuntime p) alg d per
  end.

Definition NewTOTPFromHMACProvider (p : option (HMACProvider X)) (alg : Algorithm) (d per : Z)
    : GoM W (TOTP X) :=
  match p with
  | None => fail ErrInvalidSecret
  | Some p => newTOTPWithRuntime (newHMACProviderRuntime p) alg d per
  end.

(** ** Code generation *)
Definition poolGet : GoM St macBuf := fun '(w, t) =>
  let i := pool_pick (macPool t) in
  match macPool t !! i with
  | Some mb => (Ret mb, (w, set_pool (delete i (macPool t)) t))
  | None =>
      if macPoolNew t then
        (Ret {| mb_mac := hmac_New (hashFunc t) (slice_get w (secret (runtime t)));
                mb_counter := replicate 8 Byte.x00;
                mb_sum := replicate maxHMACSize Byte.x00 |}, (w, t))
      else (Panic, (w, t))
  end.

Definition poolPut (mb : macBuf) : GoM St unit := fun '(w, t) =>
  (Ret tt, (w, set_pool (macPool t ++ [mb]) t)).

Definition computeTruncatedStatic (counter : Z) (context : bytes) : GoM St Z :=
  mb ← poolGet;
  let c := PutUint64 counter in
  let mac := mac_Write (mac_Reset (mb_mac mb)) c in
  let mac := if Nat.ltb 0 (length context)
             then mac_Write (mac_Write mac contextBindTag) context else mac in
  let hmacBytes := mac_Sum mac (take 0 (mb_sum mb)) in
  m ← gets (fun '(_, t) => modValue t);
  truncated ← lift (dynamicTruncate hmacBytes m);
  _ ← poolPut {| mb_mac := mac; mb_counter := c;
                 mb_sum := hmacBytes ++ drop (length hmacBytes) (mb_sum mb) |};
  mret truncated.

Definition computeTruncated (counter : Z) (context : bytes) : GoM St Z :=
  static ← gets (fun '(w, t) => hasStaticSecret w (runtime t));
  if (static : bool) then computeTruncatedStatic counter context else
  let message := PutUint64 counter in
  let message := if Nat.ltb 0 (length context)
                 then (message ++ contextBindTag) ++ context else message in
  t ← gets snd;
  hmacBytes ← zoom fst (fun w s => (w, s.2))
                (computeHMAC (runtime t) (algorithm t) (hashFunc t) message);
  lift (dynamicTruncate hmacBytes (modValue t)).

Definition genDigits (dst : bytes) (counter : Z) (context : bytes) : GoM St bytes :=
  code ← computeTruncated counter context;
  d ← gets (fun '(_, t) => digits t);
  lift (formatOTP dst code d).

(** The guard every method starts with. *)
Definition isCleared : GoM St bool := gets (fun '(_, t) => cleared t).

(** [nowOr(timeVal) / t.period]; the constructors exclude a zero period,
    on which Go would panic. *)
Definition currentCounter (timeVal : option Z) : GoM St Z := fun '(w, t) =>
  (if period t =? 0 then Panic else Ret (nowOr timeVal w / period t), (w, t)).

Definition Generate (timeVal : option Z) : GoM St bytes :=
  c ← isCleared;
  if (c : bool) then fail ErrInvalidSecret else
  counter ← currentCounter timeVal;
  genDigits buf8 counter [].

Definition GenBound (context : option OtpContext) (timeVal : option Z) : GoM St bytes :=
  c ← isCleared;
  if (c : bool) then fail ErrInvalidSecret else
  counter ← currentCounter timeVal;
  genDigits buf8 counter (contextBytes context).

(** ** Verification *)

(** [for i := ...; i <= window; i++], [n] iterations left: every code of the
    window is computed and compared, and the comparisons are or-ed. *)
Fixpoint verifyLoop (n : nat) (i : Z) (userBytes : bytes) (counter : Z) (ctxBytes : bytes)
    (matched : byte) : GoM St byte :=
  match n with
  | O => mret matched
  | S n' =>
      let testCounter := addCounterSigned counter i in
      expected ← genDigits buf8 testCounter ctxBytes;
      verifyLoop n' (i + 1) userBytes counter ctxBytes
        (z2b (Z.lor (b2z matched) (b2z (constantTimeEqByteResult userBytes expected))))
  end.

Definition Verify (code : bytes) (timeVal : option Z) (window : Z) : GoM St bool :=
  c ← isCleared;
  if (c : bool) then fail ErrInvalidSecret else
  counter ← currentCounter timeVal;
  if 1000 <? window then fail ErrInvalidTime else
  let windowInt64 := i64 window in
  matched ← verifyLoop (Z.to_nat (2 * windowInt64 + 1)) (- windowInt64) code counter [] Byte.x00;
  mret (negb (b2z matched =? 0)).

Definition VerifyBound (code : bytes) (context : option OtpContext) (timeVal : option Z)
    (window : Z) : GoM St bool :=
  c ← isCleared;
  if (c : bool) then fail ErrInvalidSecret else
  counter ← currentCounter timeVal;
  if 1000 <? window then fail ErrInvalidTime else
  let windowInt64 := i64 window in
  matched ← verifyLoop (Z.to_nat (2 * windowInt64 + 1)) (- windowInt64) code counter
              (contextBytes context) Byte.x00;
  mret (negb (b2z matched =? 0)).

(** [VerifyTracking] also acts on the detector. *)
Abbreviation Tr := (St * ClockSkewDetector)%type.

Definition onTOTP {A} (m : GoM St A) : GoM Tr A := zoom fst (fun s tr => (s, tr.2)) m.
Definition onDetector {A} (m : GoM ClockSkewDetector A) : GoM Tr A :=
  zoom snd (fun d tr => (tr.1, d)) m.

Fixpoint trackLoop (n : nat) (i : Z) (userBytes : bytes) (adjustedCounter window : Z)
    : GoM Tr bool :=
  match n with
  | O => mret false
  | S n' =>
      match checkedAddSigned adjustedCounter i with
      | None => trackLoop n' (i + 1) userBytes adjustedCounter window
      | Some testCounter =>
          expected ← onTOTP (genDigits buf8 testCounter []);
          if constTimeEqBytes userBytes expected then
            _ ← onDetector (Record_ i window);
            mret true
          else trackLoop n' (i + 1) userBytes adjustedCounter window
      end
  end.

Definition VerifyTracking (code : bytes) (timeVal : option Z) (window : Z) : GoM Tr bool :=
  c ← onTOTP isCleared;
  if (c : bool) then fail ErrInvalidSecret else
  baseCounter ← onTOTP (currentCounter timeVal);
  off ← gets (fun '(_, d) => CurrentOffset d);
  let adjustedCounter := default baseCounter (checkedAddSigned baseCounter off) in
  if 1000 <? window then fail ErrInvalidTime else
  let windowInt64 := i64 window in
  trackLoop (Z.to_nat (2 * windowInt64 + 1)) (- windowInt64) code adjustedCounter window.

Definition ClearSecret : GoM St unit := fun '(w, t) =>
  let t := set_cleared t in
  let '(o, (w', r')) := clearStaticSecret (w, runtime t) in
  (o, (w', set_runtime r' t)).
End totp.

(** ** TOTP's code generation is HOTP's *)
Section lens.
Context {X : Type} `{HashSuite} `{PoolPolicy}.
Abbreviation W := (world X).
Abbreviation St := (world X * TOTP X)%type.
Abbreviation HSt := (world X * HOTP X)%type.

(** The [HOTP] object with the same fields. *)
Definition core (t : TOTP X) : HOTP X :=
  {| Hotp.runtime := runtime t; Hotp.algorithm := algorithm t; Hotp.digits := digits t;
     Hotp.modValue := modValue t; Hotp.macPool := macPool t; Hotp.macPoolNew := macPoolNew t;
     Hotp.hashFunc := hashFunc t; Hotp.cleared := cleared t |}.

Definition with_core (p : Z) (h : HOTP X) : TOTP X :=
  {| runtime := Hotp.runtime h; algorithm := Hotp.algorithm h; digits := Hotp.digits h;
     period := p; modValue := Hotp.modValue h; macPool := Hotp.macPool h;
     macPoolNew := Hotp.macPoolNew h; hashFunc := Hotp.hashFunc h; cleared := Hotp.cleared h |}.

(** Run an [HOTP] computation on a [TOTP]. *)
Definition onCore {A} (m : GoM HSt A) : GoM St A :=
  zoom (fun '(w, t) => (w, core t)) (fun '(w, h) '(_, t) => (w, with_core (period t) h)) m.

Lemma with_core_core t : with_core (period t) (core t) = t.
Proof. by destruct t. Qed.

Lemma poolGet_core s : poolGet s = onCore Hotp.poolGet s.
Proof.
  destruct s as [w t]. unfold poolGet, onCore, zoom, Hotp.poolGet. simpl.
  case_match; [done|]. case_match; by rewrite with_core_core.
Qed.

Lemma computeTruncatedStatic_core counter context s :
  computeTruncatedStatic counter context s = onCore (Hotp.computeTruncatedStatic counter context) s.
Proof.
  unfold computeTruncatedStatic, Hotp.computeTruncatedStatic, mbind, M_bind.
  rewrite poolGet_core. unfold onCore at 1 2, zoom. destruct s as [w t].
  destruct (Hotp.poolGet (w, core t)) as [[mb|e|] [w1 h1]]; [|done..].
  unfold gets, lift. simpl. by destruct (dynamicTruncate _ _).
Qed.

Lemma computeTruncated_core counter context s :
  computeTruncated counter context s = onCore (Hotp.computeTruncated counter context) s.
Proof.
  destruct s as [w t]. unfold computeTruncated, onCore, zoom, Hotp.computeTruncated.
  rewrite !run_gets. change (Hotp.runtime (core t)) with (runtime t).
  destruct (hasStaticSecret w (runtime t)).
  - rewrite computeTruncatedStatic_core. done.
  - rewrite !run_gets. unfold mbind, M_bind, zoom. simpl.
    destruct (computeHMAC _ _ _ _ w) as [[mac|e|] w']; simpl; by rewrite with_core_core.
Qed.

Lemma genDigits_core dst counter context s :
  genDigits dst counter context s = onCore (Hotp.genDigits dst counter context) s.
Proof.
  unfold genDigits, Hotp.genDigits, mbind, M_bind. rewrite computeTruncated_core.
  unfold onCore, zoom. destruct s as [w t].
  by destruct (Hotp.computeTruncated counter context (w, core t)) as [[c|e|] [w1 h1]].
Qed.

(** A [TOTP] is in [Inv] with period [p] when its core is. *)
Definition on_inv (p : Z) (Inv : HSt -> Prop) (s : St) : Prop :=
  Inv (s.1, core s.2) /\ period s.2 = p.

Lemma core_with_core p h : core (with_core p h) = h.
Proof. by destruct h. Qed.

#[export] Instance core_source code Inv p :
  CodeSource (Hotp.genDigits buf8) code Inv -> CodeSource (genDigits buf8) code (on_inv p Inv).
Proof.
  intros Hs. constructor; [|intros; apply code_short].
  intros [w t] counter context [HI Hp]. simpl in *.
  destruct (gen_code (w, core t) counter context HI) as ([w' h'] & E & HI').
  exists (w', with_core (period t) h'). rewrite genDigits_core. unfold onCore, zoom. rewrite E.
  split; [done|]. split; [|done]. simpl. by rewrite core_with_core.
Qed.

(** *** Constructors *)
Lemma NewTOTP_core s alg d per w :
  per <> 0 ->
  NewTOTP s alg d per w =
  match NewHOTP s alg d w with
  | (Ret h, w') => (Ret (with_core per h), w')
  | (Err e, w') => (Err e, w')
  | (Panic, w') => (Panic, w')
  end.
Proof.
  intros Hp. unfold NewTOTP, NewHOTP, newTOTPWithRuntime, newHOTPWithRuntime.
  destruct ((d <? 6) || (8 <? d)); [done|]. rewrite (proj2 (Z.eqb_neq _ _) Hp), !run_gets.
  case_match; [done|]. by case_match.
Qed.
End lens.

(** ** Time and counters *)
Lemma checkedAddSigned_spec counter delta :
  0 <= counter < 2 ^ 64 -> - 2 ^ 63 <= delta < 2 ^ 63 ->
  checkedAddSigned counter delta =
  if decide (0 <= counter + delta < 2 ^ 64) then Some (counter + delta) else None.
Proof.
  intros Hc Hd. unfold checkedAddSigned. destruct (Z.leb_spec 0 delta).
  - rewrite (u64_small delta) by lia. case_decide.
    + rewrite u64_small by lia. rewrite (proj2 (Z.ltb_ge _ _)) by lia. done.
    + rewrite (proj2 (Z.ltb_lt _ _)); [done|]. unfold u64. zdiv.
  - assert (u64 (i64 (- delta)) = - delta) as ->.
    { unfold u64, i64. destruct (decide (delta = - 2 ^ 63)) as [->|]; [done|]. zdiv. }
    case_decide.
    + rewrite (proj2 (Z.ltb_ge _ _)), u64_small by lia. f_equal. lia.
    + rewrite (proj2 (Z.ltb_lt _ _)) by lia. done.
Qed.

(** The steps of a window name the counters at most [window] away: steps below
    zero and steps past the 64-bit limit are both taken for counter 0. *)
Lemma window_codes_wrap (P : Z -> Prop) counter window :
  0 <= counter < 2 ^ 64 -> 0 <= window < 2 ^ 63 ->
  (exists j, - window <= j <= window /\ P (addCounterSigned counter j)) <->
  (exists c, Z.max 0 (counter - window) <= c <= Z.min (counter + window) (2 ^ 64 - 1) /\ P c) \/
  (2 ^ 64 <= counter + window /\ P 0).
Proof.
  intros Hc Hw. unfold addCounterSigned. split.
  - intros (j & Hj & HP). rewrite checkedAddSigned_spec in HP by lia. case_decide as Hr.
    { left. exists (counter + j). split; [lia|done]. }
    destruct (decide (counter + j < 0)); [left; exists 0; split; [lia|done]|right; split; [lia|done]].
  - intros [(c & Hcr & HP)|[Hlt HP]].
    + exists (c - counter). split; [lia|]. rewrite checkedAddSigned_spec, decide_True by lia.
      by replace (counter + (c - counter)) with c by lia.
    + exists window. split; [lia|]. rewrite checkedAddSigned_spec, decide_False by lia. done.
Qed.

(** Below the limit, none of the latter. *)
Lemma window_codes (P : Z -> Prop) counter window :
  0 <= counter -> 0 <= window < 2 ^ 63 -> counter + window < 2 ^ 64 ->
  (exists j, - window <= j <= window /\ P (addCounterSigned counter j)) <->
  (exists c, Z.max 0 (counter - window) <= c <= counter + window /\ P c).
Proof.
  intros Hc Hw Hlt. rewrite window_codes_wrap by lia. rewrite Z.min_l by lia. split; [|auto].
  intros [?|[? _]]; [done|lia].
Qed.

Lemma nowOr_range {X} timeVal (w : world X) :
  (forall t, timeVal = Some t -> 0 <= t < 2 ^ 64) -> 0 <= nowOr timeVal w < 2 ^ 64.
Proof.
  intros Ht. unfold nowOr. destruct timeVal as [t|]; [by apply Ht|].
  case_match; [lia|apply u64_range].
Qed.

(** Without a given time, the whole seconds of the clock, 0 before 1970. *)
Lemma nowOr_default {X} timeVal (w : world X) :
  nowOr timeVal w = default (u64 (Z.max 0 (w_now w / 10 ^ 9))) timeVal.
Proof.
  unfold nowOr. destruct timeVal; [done|]. unfold unixSeconds. simpl default.
  destruct (Z.leb_spec (w_now w / 10 ^ 9) 0); [by rewrite Z.max_l by lia|]. by rewrite Z.max_r by lia.
Qed.

Lemma counter_range {X} timeVal (w : world X) per :
  (forall t, timeVal = Some t -> 0 <= t < 2 ^ 64) -> 0 < per -> 0 <= nowOr timeVal w / per < 2 ^ 64.
Proof.
  intros Ht Hp. pose proof (nowOr_range timeVal w Ht). split; [apply Z.div_pos; lia|].
  apply Z.div_lt_upper_bound; nia.
Qed.

Lemma byte_lor_zero a b : b2z (z2b (Z.lor (b2z a) (b2z b))) = 0 <-> b2z a = 0 /\ b2z b = 0.
Proof.
  pose proof (b2z_range a). pose proof (b2z_range b).
  rewrite b2z_z2b_small by (apply (lor_bound _ _ 8); lia).
  by rewrite Z.lor_eq_0_iff.
Qed.

(** ** Verification, against the interface *)
Section verify.
Context {X : Type} `{HashSuite} `{PoolPolicy}.
Abbreviation St := (world X * TOTP X)%type.
Context (code : Z -> bytes -> bytes) (Inv : St -> Prop) (per : Z).
Context `{!CodeSource (genDigits buf8) code Inv}.
Context (Hlive : forall s, Inv s -> cleared s.2 = false).
Context (Hper : forall s, Inv s -> period s.2 = per) (Hper0 : per <> 0).

Lemma totp_isCleared_false {A} (f : bool -> GoM St A) s : Inv s -> (isCleared ≫= f) s = f false s.
Proof. intros Hs%Hlive. unfold isCleared. rewrite run_gets. destruct s. by rewrite <-Hs. Qed.

Lemma currentCounter_run {A} (f : Z -> GoM St A) timeVal s :
  Inv s -> (currentCounter timeVal ≫= f) s = f (nowOr timeVal s.1 / per) s.
Proof.
  intros Hs%Hper. destruct s as [w t]. simpl in Hs. unfold mbind, M_bind, currentCounter.
  by rewrite Hs, (proj2 (Z.eqb_neq _ _) Hper0).
Qed.

Lemma totp_genDigits_run {A} (f : bytes -> GoM St A) counter context s :
  Inv s -> exists s', (genDigits buf8 counter context ≫= f) s = f (code counter context) s' /\ Inv s'.
Proof.
  intros Hs. destruct (gen_code s counter context Hs) as (s' & E & Hs').
  exists s'. by rewrite (run_bind _ _ _ _ _ E).
Qed.

Lemma totp_GenBound_run s context timeVal :
  Inv s -> exists s', GenBound context timeVal s
    = (Ret (code (nowOr timeVal s.1 / per) (contextBytes context)), s') /\ Inv s'.
Proof.
  intros Hs. unfold GenBound. rewrite totp_isCleared_false, currentCounter_run by done.
  by apply gen_code.
Qed.

(** The loop ends with a non-zero byte exactly when some step matched. *)
Lemma verifyLoop_ok user counter ctx n : forall i matched s,
  Inv s -> Z.of_nat (length user) < 2 ^ 63 ->
  exists m s', verifyLoop n i user counter ctx matched s = (Ret m, s') /\ Inv s' /\
    (b2z m <> 0 <-> b2z matched <> 0 \/
     exists j, i <= j < i + Z.of_nat n /\ user = code (addCounterSigned counter j) ctx).
Proof.
  induction n as [|n IH]; intros i matched s Hs Hu.
  - eexists _, _. split; [done|]. split; [done|]. split; [auto|]. intros [?|(j & ? & _)]; [done|lia].
  - cbn [verifyLoop].
    edestruct (totp_genDigits_run (fun expected => verifyLoop n (i + 1) user counter ctx
      (z2b (Z.lor (b2z matched) (b2z (constantTimeEqByteResult user expected))))))
      as (s1 & -> & Hs1); [exact Hs|].
    destruct (IH (i + 1)
      (z2b (Z.lor (b2z matched) (b2z (constantTimeEqByteResult user
        (code (addCounterSigned counter i) ctx))))) s1 Hs1 Hu) as (m & s2 & -> & Hs2 & Hm).
    exists m, s2. split; [done|]. split; [done|]. rewrite Hm, byte_lor_zero.
    rewrite constantTimeEqByteResult_decides by (done || apply (@code_short _ _ _ _ _)).
    case_decide as Heq; change (b2z Byte.x01) with 1; change (b2z Byte.x00) with 0.
    + split; [|intros _; left; lia]. intros _. right. exists i. split; [lia|done].
    + split.
      * intros [?|(j & ? & ?)]; [left; lia|right; exists j; split; [lia|done]].
      * intros [?|(j & ? & ?)]; [left; lia|]. right. exists j. split; [|done].
        destruct (decide (j = i)) as [->|]; [done|lia].
Qed.

Lemma totp_VerifyBound_run s user context timeVal window :
  Inv s -> Z.of_nat (length user) < 2 ^ 63 -> 0 <= window ->
  if 1000 <? window then VerifyBound user context timeVal window s = (Err ErrInvalidTime, s) else
  exists b s', VerifyBound user context timeVal window s = (Ret b, s') /\ Inv s' /\
    (b = true <-> exists j, - window <= j <= window /\
      user = code (addCounterSigned (nowOr timeVal s.1 / per) j) (contextBytes context)).
Proof.
  intros Hs Hu Hw. unfold VerifyBound. rewrite totp_isCleared_false, currentCounter_run by done.
  destruct (Z.ltb_spec 1000 window); [done|]. rewrite i64_small by lia.
  edestruct (verifyLoop_ok user (nowOr timeVal s.1 / per) (contextBytes context)
    (Z.to_nat (2 * window + 1)) (- window) Byte.x00 s) as (m & s' & E & Hs' & Hm); [done|done|].
  eexists _, s'. split; [by rewrite (run_bind _ _ _ _ _ E)|]. split; [done|].
  change (b2z Byte.x00) with 0 in Hm. rewrite negb_true_iff, Z.eqb_neq, Hm. split.
  - intros [?|(j & ? & ?)]; [done|]. exists j. split; [lia|done].
  - intros (j & ? & ?). right. exists j. split; [lia|done].
Qed.

(** The outcome of the tracking loop over the steps [lo, lo + n). *)
Definition trackResult (user : bytes) (adj window lo n : Z) (d : ClockSkewDetector)
    (ok : bool) (d' : ClockSkewDetector) : Prop :=
  if ok then
    exists j, lo <= j < lo + n /\ 0 <= adj + j < 2 ^ 64 /\ user = code (adj + j) [] /\
      (forall k, lo <= k < j -> 0 <= adj + k < 2 ^ 64 -> user <> code (adj + k) []) /\
      Record_ j window d = (Ret tt, d')
  else d' = d /\
    forall k, lo <= k < lo + n -> 0 <= adj + k < 2 ^ 64 -> user <> code (adj + k) [].

Lemma trackLoop_ok user adj window d n : forall i s,
  Inv s -> Z.of_nat (length user) < 2 ^ 63 -> 0 <= adj < 2 ^ 64 ->
  -1000 <= i -> i + Z.of_nat n <= 1001 -> ring_wf (state d) ->
  exists ok s' d', trackLoop n i user adj window (s, d) = (Ret ok, (s', d')) /\ Inv s' /\
    trackResult user adj window i (Z.of_nat n) d ok d'.
Proof.
  induction n as [|n IH]; intros i s Hs Hu Ha Hi Hn Hd.
  - exists false, s, d. split; [done|]. split; [done|]. split; [done|]. intros k. lia.
  - cbn [trackLoop]. rewrite checkedAddSigned_spec by lia. case_decide as Hc.
    + destruct (gen_code s (adj + i) [] Hs) as (s1 & E & Hs1).
      unfold mbind at 1, M_bind at 1, onTOTP, zoom. cbn [fst snd]. rewrite E.
      rewrite constTimeEqBytes_decides by (done || apply (@code_short _ _ _ _ _)).
      case_bool_decide as Heq.
      * destruct (Record_run i window d Hd) as (d' & Er & _). exists true, s1, d'.
        split; [|split; [done|]].
        -- unfold mbind, M_bind, onDetector, zoom. cbn [fst snd]. by rewrite Er.
        -- exists i. split; [lia|]. split; [lia|]. split; [done|]. split; [intros k; lia|done].
      * destruct (IH (i + 1) s1 Hs1 Hu Ha ltac:(lia) ltac:(lia) Hd) as (ok & s2 & d' & -> & Hs2 & Hr).
        exists ok, s2, d'. split; [done|]. split; [done|]. unfold trackResult in *. destruct ok.
        -- destruct Hr as (j & ? & ? & ? & Hf & ?). exists j. split; [lia|]. split; [lia|].
           split; [done|]. split; [|done]. intros k Hk.
           destruct (decide (k = i)) as [->|]; [done|]. apply Hf. lia.
        -- destruct Hr as [? Hf]. split; [done|]. intros k Hk.
           destruct (decide (k = i)) as [->|]; [done|]. apply Hf. lia.
    + destruct (IH (i + 1) s Hs Hu Ha ltac:(lia) ltac:(lia) Hd) as (ok & s2 & d' & E & Hs2 & Hr).
      exists ok, s2, d'. split; [exact E|]. split; [done|]. unfold trackResult in *. destruct ok.
      * destruct Hr as (j & ? & ? & ? & Hf & ?). exists j. split; [lia|]. split; [lia|].
        split; [done|]. split; [|done]. intros k Hk ?. apply Hf; lia.
      * destruct Hr as [? Hf]. split; [done|]. intros k Hk ?.
        destruct (decide (k = i)) as [->|]; [lia|]. apply Hf; lia.
Qed.

(** Where [VerifyTracking] centres its window. *)
Definition adjusted (base off : Z) : Z :=
  if decide (0 <= base + off < 2 ^ 64) then base + off else base.

Lemma VerifyTracking_run s d user timeVal window :
  Inv s -> ring_wf (state d) -> Z.of_nat (length user) < 2 ^ 63 ->
  0 <= nowOr timeVal s.1 / per < 2 ^ 64 -> - 2 ^ 63 <= offset d < 2 ^ 63 -> 0 <= window ->
  if 1000 <? window then VerifyTracking user timeVal window (s, d) = (Err ErrInvalidTime, (s, d)) else
  exists ok s' d', VerifyTracking user timeVal window (s, d) = (Ret ok, (s', d')) /\ Inv s' /\
    trackResult user (adjusted (nowOr timeVal s.1 / per) (offset d)) window
      (- window) (2 * window + 1) d ok d'.
Proof.
  intros Hs Hd Hu Hb Ho Hw. unfold VerifyTracking.
  assert (E1 : onTOTP isCleared (s, d) = (Ret false, (s, d))).
  { unfold onTOTP, zoom, isCleared, gets. cbn [fst snd]. pose proof (Hlive s Hs) as Hc.
    destruct s as [w t]. simpl in Hc. by rewrite Hc. }
  assert (E2 : onTOTP (currentCounter timeVal) (s, d) = (Ret (nowOr timeVal s.1 / per), (s, d))).
  { unfold onTOTP, zoom, currentCounter. cbn [fst snd]. pose proof (Hper s Hs) as Hp.
    destruct s as [w t]. simpl in Hp. by rewrite Hp, (proj2 (Z.eqb_neq _ _) Hper0). }
  rewrite (run_bind _ _ _ _ _ E1), (run_bind _ _ _ _ _ E2), run_gets.
  destruct (Z.ltb_spec 1000 window); [done|]. rewrite i64_small by lia.
  unfold CurrentOffset. rewrite checkedAddSigned_spec by lia.
  assert (default (nowOr timeVal s.1 / per) (if decide (0 <= nowOr timeVal s.1 / per + offset d < 2 ^ 64)
    then Some (nowOr timeVal s.1 / per + offset d) else None)
    = adjusted (nowOr timeVal s.1 / per) (offset d)) as -> by (unfold adjusted; by case_decide).
  destruct (trackLoop_ok user (adjusted (nowOr timeVal s.1 / per) (offset d)) window d
    (Z.to_nat (2 * window + 1)) (- window) s) as (ok & s' & d' & E & Hs' & Hr);
    [done|done|unfold adjusted; case_decide; lia|lia|lia|done|].
  exists ok, s', d'. split; [done|]. split; [done|].
  by replace (Z.of_nat (Z.to_nat (2 * window + 1))) with (2 * window + 1) in Hr by lia.
Qed.
End verify.

(** ** A [TOTP] with a static secret *)
Section static.
Context {X : Type} `{HashSuite} `{PoolPolicy}.

(** Buffer [l] holds [key], every pooled MAC is keyed with it, and the
    parameters are as the constructors leave them. *)
Definition totp_inv (fn : hashFn) (d per : Z) (l : positive) (key : bytes)
    (s : world X * TOTP X) : Prop :=
  on_inv per (static_inv fn d l key) s /\ 0 < per.

Lemma totp_inv_live fn d per l key s : totp_inv fn d per l key s -> cleared s.2 = false.
Proof. intros [[Hs _] _]. apply (static_inv_live _ _ _ _ _ Hs). Qed.
Lemma totp_inv_period fn d per l key s : totp_inv fn d per l key s -> period s.2 = per.
Proof. by intros [[_ Hs] _]. Qed.
Lemma totp_inv_digits fn d per l key s : totp_inv fn d per l key s -> 6 <= d <= 8.
Proof. intros [[[Hl _] _] _]. apply Hl. Qed.
Lemma totp_inv_pos fn d per l key s : totp_inv fn d per l key s -> 0 < per.
Proof. by intros [_ Hp]. Qed.

#[export] Instance totp_source fn d per l key :
  6 <= d <= 8 -> CodeSource (genDigits buf8) (otp_code fn key d) (totp_inv fn d per l key).
Proof.
  intros Hd. pose proof (core_source (otp_code fn key d) (static_inv fn d l key) per
    (static_source (X := X) fn d l key Hd)) as Hs.
  constructor; [|apply Hs]. intros s c ctx [Hi Hp].
  destruct (gen_code s c ctx Hi) as (s' & E & Hi'). by exists s'.
Qed.

(** Generating from a static secret leaves the world alone. *)
Lemma genDigits_world fn d per l key dst c ctx (s : world X * TOTP X) :
  totp_inv fn d per l key s -> (genDigits dst c ctx s).2.1 = s.1.
Proof.
  intros [[(Hlive & Hr & Hl & Hk & _) _] _]. destruct s as [w t]. simpl in Hr, Hl.
  unfold genDigits, computeTruncated, computeTruncatedStatic, mbind, M_bind, gets, lift.
  assert (Hst : hasStaticSecret w (runtime t) = true).
  { unfold hasStaticSecret, slice_get. rewrite Hr. simpl. rewrite Hl. by destruct key. }
  rewrite Hst. unfold poolGet. destruct (macPool t !! _); [|destruct (macPoolNew t); [|done]]; simpl;
    destruct (dynamicTruncate _ _); simpl; try done; by destruct (formatOTP _ _ _).
Qed.

#[export] Instance totp_source_at fn d per l key w :
  CodeSource (genDigits buf8) (otp_code fn key d) (totp_inv fn d per l key) ->
  CodeSource (genDigits buf8) (otp_code fn key d) (fun s => totp_inv fn d per l key s /\ s.1 = w).
Proof.
  intros Hsrc. constructor; [|apply Hsrc]. intros s c ctx [Hi Hw].
  destruct (gen_code s c ctx Hi) as (s' & E & Hi'). exists s'. split; [done|]. split; [done|].
  pose proof (genDigits_world fn d per l key buf8 c ctx s Hi) as Hg. rewrite E in Hg. by rewrite <-Hw.
Qed.

Lemma NewTOTP_ok w l key alg fn d per :
  w_heap w !! l = Some key -> key <> [] -> hashFuncFor alg = Some fn -> 6 <= d <= 8 -> 0 < per ->
  exists t, NewTOTP (Some l) alg d per w = (Ret t, w) /\ totp_inv fn d per l key (w, t).
Proof.
  intros Hl Hk Hfn Hd Hp. rewrite NewTOTP_core by lia.
  destruct (NewHOTP_ok w l key alg fn d) as (h & -> & Hs); [done..|].
  exists (with_core per h). split; [done|]. split; [|done]. split; [|done].
  cbn [fst snd]. by rewrite core_with_core.
Qed.
End static.

(** Generate at a list of times from one object, threading its state. *)
Fixpoint generateAt {X} `{HashSuite} `{PoolPolicy} (times : list Z)
    : GoM (world X * TOTP X) (list bytes) :=
  match times with
  | [] => mret []
  | t :: ts => x ← Generate (Some t); xs ← generateAt ts; mret (x :: xs)
  end.

Lemma generateAt_ok {X} `{HashSuite} `{PoolPolicy} fn d per l key ts (s : world X * TOTP X) :
  totp_inv fn d per l key s ->
  exists s', generateAt ts s = (Ret ((fun t => otp_code fn key d (t / per) []) <$> ts), s') /\
    totp_inv fn d per l key s'.
Proof.
  revert s. induction ts as [|t ts IH]; intros s Hs; [by eexists|].
  pose proof (totp_source (X := X) fn d per l key (totp_inv_digits _ _ _ _ _ _ Hs)).
  pose proof (totp_inv_pos _ _ _ _ _ _ Hs).
  destruct (totp_GenBound_run (otp_code fn key d) (totp_inv fn d per l key) per
    (totp_inv_live fn d per l key) (totp_inv_period fn d per l key) ltac:(lia) s None (Some t) Hs)
    as (s1 & E1 & Hs1).
  destruct (IH s1 Hs1) as (s2 & E2 & Hs2). exists s2. split; [|done]. cbn [generateAt].
  change (Generate (Some t)) with (@GenBound X _ _ None (Some t)).
  rewrite (run_bind _ _ _ _ _ E1). by rewrite (run_bind _ _ _ _ _ E2).
Qed.

(** ** Concrete inputs: RFC 6238, appendix B *)
Definition rfc6238_key (n : nat) : bytes :=
  take n (lit "1234567890123456789012345678901234567890123456789012345678901234").
Definition rfc6238_world (n : nat) : world unit :=
  {| w_heap := {[ secret_loc := rfc6238_key n ]}; w_now := 0; w_ext := tt |}.
Definition rfc6238_times : list Z := [59; 1111111109; 1111111111; 1234567890; 2000000000; 20000000000].

Definition rfc6238_totp : TOTP unit :=
  with_core 30 {| Hotp.runtime := newStaticSecretRuntime (Some secret_loc); Hotp.algorithm := SHA1;
     Hotp.digits := 8; Hotp.modValue := modValueOf 8; Hotp.macPool := []; Hotp.macPoolNew := true;
     Hotp.hashFunc := sha1_New; Hotp.cleared := false |}.

Lemma rfc6238_inv :
  totp_inv sha1_New 8 30 secret_loc (rfc6238_key 20) (rfc6238_world 20, rfc6238_totp).
Proof. by repeat split; simpl; try apply Forall_nil_2; lia || done. Qed.

(** ** Properties *)

(** C5: the appendix B vectors of RFC 6238. *)
Theorem TOTP_rfc6238_vectors (policy : PoolPolicy) :
  let codes n alg :=
    match NewTOTP (Some secret_loc) alg 8 30 (rfc6238_world n) with
    | (Ret t, w) => fst (@generateAt _ Sha.suite policy rfc6238_times (w, t))
    | _ => Panic
    end in
  codes 20%nat SHA1 = Ret (lit <$> ["94287082"; "07081804"; "14050471"; "89005924"; "69279037"; "65353130"]%string) /\
  codes 32%nat SHA256 = Ret (lit <$> ["46119246"; "68084774"; "67062674"; "91819424"; "90698825"; "77737706"]%string) /\
  codes 64%nat SHA512 = Ret (lit <$> ["90693936"; "25091201"; "99943326"; "93441116"; "38618901"; "47863826"]%string).
Proof.
  assert (Hgen : forall n alg fn, (0 < n)%nat -> hashFuncFor alg = Some fn ->
    match NewTOTP (Some secret_loc) alg 8 30 (rfc6238_world n) with
    | (Ret t, w) => fst (@generateAt _ Sha.suite policy rfc6238_times (w, t))
    | _ => Panic
    end = Ret ((fun t => @otp_code Sha.suite fn (rfc6238_key n) 8 (t / 30) []) <$> rfc6238_times)).
  { intros n alg fn Hn Hfn.
    destruct (NewTOTP_ok (rfc6238_world n) secret_loc (rfc6238_key n) alg fn 8 30) as (t & -> & Hs);
      [done|by destruct n; [lia|vm_compute]|done|lia|lia|].
    destruct (@generateAt_ok _ Sha.suite policy _ _ _ _ _ rfc6238_times _ Hs) as (s' & -> & _). done. }
  cbv beta zeta. rewrite (Hgen 20%nat SHA1 sha1_New), (Hgen 32%nat SHA256 sha256_New),
    (Hgen 64%nat SHA512 sha512_New) by (lia || done).
  split; [|split]; vm_compute; reflexivity.
Qed.

(** C28: [NewTOTP] on a stored secret validates digits, period, secret
    and algorithm in this order, each with its own error and no effect; on
    success the object satisfies the invariant the other theorems assume. *)
Theorem NewTOTP_spec {X} (w : world X) (l : positive) (key : bytes) (alg : Algorithm) (d per : Z)
    (Hl : w_heap w !! l = Some key) (Hper : 0 <= per) :
  match NewTOTP (Some l) alg d per w with
  | (Ret t, w') => w' = w /\ exists fn, hashFuncFor alg = Some fn /\ totp_inv fn d per l key (w, t)
  | (Err ErrInvalidDigits, w') => w' = w /\ ~ 6 <= d <= 8
  | (Err ErrInvalidTime, w') => w' = w /\ 6 <= d <= 8 /\ per = 0
  | (Err ErrInvalidSecret, w') => w' = w /\ 6 <= d <= 8 /\ 0 < per /\ key = []
  | (Err ErrInvalidAlgorithm, w') => w' = w /\ 6 <= d <= 8 /\ 0 < per /\ key <> [] /\
      alg <> SHA1 /\ alg <> SHA256 /\ alg <> SHA512
  | _ => False
  end.
Proof.
  destruct (decide (6 <= d <= 8)) as [Hd|Hd].
  2: { unfold NewTOTP, newTOTPWithRuntime. destruct ((d <? 6) || (8 <? d)) eqn:E; [done|lia]. }
  destruct (decide (per = 0)) as [->|Hp].
  { unfold NewTOTP, newTOTPWithRuntime. by rewrite (proj2 (digits_guard d) Hd). }
  destruct (decide (key = [])) as [->|Hk].
  { unfold NewTOTP, newTOTPWithRuntime, hasStaticSecret, slice_get.
    rewrite (proj2 (digits_guard d) Hd), (proj2 (Z.eqb_neq _ _) Hp), run_gets. simpl. rewrite Hl.
    simpl. repeat split; lia. }
  destruct (hashFuncFor alg) as [fn|] eqn:Hfn.
  - destruct (NewTOTP_ok w l key alg fn d per) as (t & -> & Hs); [done..|lia|]. split; [done|].
    by exists fn.
  - unfold NewTOTP, newTOTPWithRuntime.
    rewrite (proj2 (digits_guard d) Hd), (proj2 (Z.eqb_neq _ _) Hp), run_gets,
      (hasStaticSecret_Some w _ l key) by done.
    simpl. rewrite Hfn. apply hashFuncFor_None in Hfn as (? & ? & ?). repeat split; done || lia.
Qed.

Lemma NewTOTP_spec_witness :
  match NewTOTP (Some secret_loc) SHA256 8 0 rfc_world with
  | (Err ErrInvalidTime, w') => w' = rfc_world
  | _ => False
  end.
Proof.
  pose proof (NewTOTP_spec rfc_world secret_loc rfc4226_key SHA256 8 0 eq_refl ltac:(lia)) as H.
  revert H. vm_compute. by intros [? _].
Defined.

(** C13: a live TOTP generates, for the given time or, without one, for
    the whole seconds of the clock (0 before 1970), exactly the code HOTP
    assigns to the number of whole periods elapsed, plain or bound to a
    context, and stays in its invariant: TOTP is HOTP at [time / period]. *)
Theorem TOTP_generate_spec {X} `{HashSuite} `{PoolPolicy} (fn : hashFn) (d per : Z) (l : positive)
    (key : bytes) (s : world X * TOTP X) (timeVal : option Z) (context : option OtpContext)
    (Hs : totp_inv fn d per l key s) :
  let counter := nowOr timeVal s.1 / per in
  (exists s', Generate timeVal s = (Ret (otp_code fn key d counter []), s') /\
     totp_inv fn d per l key s') /\
  (exists s', GenBound context timeVal s
     = (Ret (otp_code fn key d counter (contextBytes context)), s') /\ totp_inv fn d per l key s') /\
  fst (Hotp.GenBound counter context (s.1, core s.2)) = fst (GenBound context timeVal s) /\
  nowOr timeVal s.1 = default (u64 (Z.max 0 (w_now s.1 / 10 ^ 9))) timeVal.
Proof.
  pose proof (totp_source (X := X) fn d per l key (totp_inv_digits _ _ _ _ _ _ Hs)) as Hsrc.
  pose proof (totp_inv_pos _ _ _ _ _ _ Hs) as Hp.
  pose proof (fun ctx => totp_GenBound_run (otp_code fn key d) (totp_inv fn d per l key) per
    (totp_inv_live fn d per l key) (totp_inv_period fn d per l key) ltac:(lia) s ctx timeVal Hs) as Hg.
  cbn zeta. split; [apply (Hg None)|]. split; [apply Hg|]. split.
  - destruct (Hg context) as (s' & -> & _). destruct Hs as [[Hs _] _].
    pose proof (static_source (X := X) fn d l key (live_range _ _ _ (proj1 Hs))).
    destruct (Hotp.GenBound_run _ _ (static_inv_live fn d l key) (s.1, core s.2)
      (nowOr timeVal s.1 / per) context Hs) as (s'' & -> & _). done.
  - apply nowOr_default.
Qed.

Lemma TOTP_generate_spec_witness :
  exists s', @Generate _ Sha.suite never_idle (Some 59) (rfc6238_world 20, rfc6238_totp)
    = (Ret (@otp_code Sha.suite sha1_New (rfc6238_key 20) 8 1 []), s') /\
    totp_inv sha1_New 8 30 secret_loc (rfc6238_key 20) s'.
Proof.
  exact (proj1 (@TOTP_generate_spec _ Sha.suite never_idle sha1_New 8 30 secret_loc (rfc6238_key 20)
    (rfc6238_world 20, rfc6238_totp) (Some 59) None rfc6238_inv)).
Defined.

(** C2: [Verify] and [VerifyBound] at any time, given or from the clock, and
    with any window.  Windows over 1000 are rejected with [ErrInvalidTime]
    before the secret is touched.  Otherwise the code is accepted exactly when
    it is that of a counter at most [window] steps from the current one,
    between 0 and the 64-bit limit; or, when the window reaches past that
    limit, that of counter 0. *)
Theorem TOTP_verify_spec {X} `{HashSuite} `{PoolPolicy} (fn : hashFn) (d per : Z) (l : positive)
    (key : bytes) (s : world X * TOTP X) (user : bytes) (timeVal : option Z)
    (context : option OtpContext) (window : Z)
    (Hs : totp_inv fn d per l key s) (Hu : Z.of_nat (length user) < 2 ^ 63) (Hw : 0 <= window)
    (Ht : forall t, timeVal = Some t -> 0 <= t < 2 ^ 64) :
  let counter := nowOr timeVal s.1 / per in
  let code c := otp_code fn key d c (contextBytes context) in
  Verify user timeVal window s = VerifyBound user None timeVal window s /\
  (1000 < window -> VerifyBound user context timeVal window s = (Err ErrInvalidTime, s)) /\
  (window <= 1000 -> exists b s', VerifyBound user context timeVal window s = (Ret b, s') /\
     totp_inv fn d per l key s' /\
     (b = true <->
        (exists c, Z.max 0 (counter - window) <= c <= Z.min (counter + window) (2 ^ 64 - 1) /\ user = code c) \/
        (2 ^ 64 <= counter + window /\ user = code 0))).
Proof.
  pose proof (totp_source (X := X) fn d per l key (totp_inv_digits _ _ _ _ _ _ Hs)) as Hsrc.
  pose proof (totp_inv_pos _ _ _ _ _ _ Hs) as Hp.
  pose proof (totp_VerifyBound_run (otp_code fn key d) (totp_inv fn d per l key) per
    (totp_inv_live fn d per l key) (totp_inv_period fn d per l key) ltac:(lia) s user context timeVal
    window Hs Hu Hw) as Hv.
  pose proof (counter_range timeVal s.1 per Ht Hp) as Hc.
  intros counter code. split; [done|]. split; intros Hb.
  - by rewrite (proj2 (Z.ltb_lt _ _)) in Hv by lia.
  - rewrite (proj2 (Z.ltb_ge _ _)) in Hv by lia. destruct Hv as (b & s' & E & Hs' & Hm).
    exists b, s'. split; [done|]. split; [done|]. rewrite Hm.
    exact (window_codes_wrap (fun c => user = code c) counter window Hc ltac:(lia)).
Qed.

Lemma TOTP_verify_spec_witness :
  exists b s', @VerifyBound _ Sha.suite first_idle (lit "94287082") None (Some 95) 2
      (rfc6238_world 20, rfc6238_totp) = (Ret b, s') /\ b = true.
Proof.
  destruct (proj2 (proj2 (@TOTP_verify_spec _ Sha.suite first_idle sha1_New 8 30 secret_loc
    (rfc6238_key 20) (rfc6238_world 20, rfc6238_totp) (lit "94287082") (Some 95) None 2 rfc6238_inv
    eq_refl ltac:(lia) ltac:(intros t [= <-]; lia))) ltac:(lia)) as (b & s' & E & _ & Hb).
  exists b, s'. split; [exact E|]. apply Hb. left. exists 1. split; [split; vm_compute; congruence|].
  vm_compute. reflexivity.
Defined.

(** What an observer of the object and the world sees of a call. *)
Definition observable {X A} (r : outcome error A * (world X * TOTP X))
    : outcome error unit * (world X * TOTP X) :=
  (match r.1 with Ret _ => Ret tt | Err e => Err e | Panic => Panic end, r.2).

Lemma verifyLoop_observable {X} `{HashSuite} `{PoolPolicy} user user' counter ctx n :
  forall i m m' (s : world X * TOTP X),
  observable (verifyLoop n i user counter ctx m s) = observable (verifyLoop n i user' counter ctx m' s).
Proof.
  induction n as [|n IH]; intros i m m' s; [done|]. cbn [verifyLoop]. unfold mbind, M_bind.
  destruct (genDigits buf8 (addCounterSigned counter i) ctx s) as [[x|e|] s']; [apply IH|done..].
Qed.

(** C27: nothing but the boolean answer of [Verify] and
    [VerifyBound] depends on the submitted code: for any two codes the calls
    end in the same state of object and world (hence made the same MAC and
    provider calls) and with the same error, if any, in every state. *)
Theorem TOTP_verify_oblivious {X} `{HashSuite} `{PoolPolicy} (s : world X * TOTP X)
    (user user' : bytes) (timeVal : option Z) (context : option OtpContext) (window : Z) :
  observable (Verify user timeVal window s) = observable (Verify user' timeVal window s) /\
  observable (VerifyBound user context timeVal window s) =
    observable (VerifyBound user' context timeVal window s).
Proof.
  enough (Hall : forall ctx, observable (VerifyBound user ctx timeVal window s) =
    observable (VerifyBound user' ctx timeVal window s)) by (split; [apply (Hall None)|apply Hall]).
  intros ctx. unfold VerifyBound, mbind, M_bind. destruct (isCleared s) as [[[] | | ] s1]; [done| |done..].
  destruct (currentCounter timeVal s1) as [[c| |] s2]; [|done..].
  destruct (1000 <? window); [done|].
  pose proof (verifyLoop_observable user user' c (contextBytes ctx) (Z.to_nat (2 * i64 window + 1))
    (- i64 window) Byte.x00 Byte.x00 s2) as Ho. unfold observable in *.
  destruct (verifyLoop _ _ user _ _ _ s2) as [[]], (verifyLoop _ _ user' _ _ _ s2) as [[]];
    simpl in *; by simplify_eq.
Qed.

(** C12: [VerifyTracking] centres its window on the current counter
    moved by the detector's suggestion (unmoved if that leaves the 64-bit
    range), accepts exactly the codes of the in-range counters at most
    [window] steps away, and on acceptance records the lowest matching step,
    relative to the centre, exactly once; on rejection the detector is
    untouched. *)
Theorem TOTP_tracking_spec {X} `{HashSuite} `{PoolPolicy} (fn : hashFn) (d per : Z) (l : positive)
    (key : bytes) (s : world X * TOTP X) (det : ClockSkewDetector) (user : bytes)
    (timeVal : option Z) (window : Z)
    (Hs : totp_inv fn d per l key s) (Hdet : ring_wf (state det)) (Hu : Z.of_nat (length user) < 2 ^ 63)
    (Hw : 0 <= window <= 1000) (Hoff : - 2 ^ 63 <= offset det < 2 ^ 63) :
  0 <= nowOr timeVal s.1 / per < 2 ^ 64 ->
  let centre := adjusted (nowOr timeVal s.1 / per) (offset det) in
  exists ok s' det', VerifyTracking user timeVal window (s, det) = (Ret ok, (s', det')) /\
    totp_inv fn d per l key s' /\
    if (ok : bool) then
      exists j, - window <= j <= window /\ 0 <= centre + j < 2 ^ 64 /\
        user = otp_code fn key d (centre + j) [] /\
        (forall k, - window <= k < j -> 0 <= centre + k < 2 ^ 64 ->
           user <> otp_code fn key d (centre + k) []) /\
        Record_ j window det = (Ret tt, det')
    else det' = det /\
      forall k, - window <= k <= window -> 0 <= centre + k < 2 ^ 64 ->
        user <> otp_code fn key d (centre + k) [].
Proof.
  intros Hc centre.
  pose proof (totp_source (X := X) fn d per l key (totp_inv_digits _ _ _ _ _ _ Hs)) as Hsrc.
  pose proof (totp_inv_pos _ _ _ _ _ _ Hs) as Hp.
  pose proof (VerifyTracking_run (otp_code fn key d) (totp_inv fn d per l key) per
    (totp_inv_live fn d per l key) (totp_inv_period fn d per l key) ltac:(lia) s det user timeVal window
    Hs Hdet Hu Hc Hoff ltac:(lia)) as Hv.
  rewrite (proj2 (Z.ltb_ge _ _)) in Hv by lia. destruct Hv as (ok & s' & det' & E & Hs' & Hr).
  exists ok, s', det'. split; [done|]. split; [done|]. fold centre in Hr. unfold trackResult in Hr.
  destruct ok.
  - destruct Hr as (j & Hj & Hin & Heq & Hfirst & Hrec). exists j. split; [lia|]. split; [done|].
    split; [done|]. split; [|done]. intros k Hk. apply Hfirst. lia.
  - destruct Hr as [Hdet' Hnone]. split; [done|]. intros k Hk. apply Hnone. lia.
Qed.

Lemma TOTP_tracking_spec_witness :
  exists ok s' det', @VerifyTracking _ Sha.suite first_idle (lit "94287082") (Some 95) 3
      (rfc6238_world 20, rfc6238_totp, detectorAfter 16 []) = (Ret ok, (s', det')) /\
    totp_inv sha1_New 8 30 secret_loc (rfc6238_key 20) s'.
Proof.
  assert (Hwf : ring_wf (state (detectorAfter 16 []))) by (by apply empty_wf).
  destruct (@TOTP_tracking_spec _ Sha.suite first_idle sha1_New 8 30 secret_loc
    (rfc6238_key 20) (rfc6238_world 20, rfc6238_totp) (detectorAfter 16 []) (lit "94287082") (Some 95) 3
    rfc6238_inv Hwf eq_refl ltac:(lia) ltac:(split; vm_compute; congruence)
    ltac:(split; vm_compute; congruence)) as (ok & s' & det' & E & Hs' & _).
  exists ok, s', det'. split; [exact E|exact Hs'].
Defined.

(** At the very top of the counter range a step past the 64-bit
    limit is checked as counter 0, so [Verify] accepts the code of counter 0
    there, while [VerifyTracking] skips such steps. *)
Theorem TOTP_verify_top {X} `{HashSuite} `{PoolPolicy} (fn : hashFn) (d : Z) (l : positive)
    (key : bytes) (s : world X * TOTP X) (Hs : totp_inv fn d 1 l key s) :
  exists s', Verify (otp_code fn key d 0 []) (Some (2 ^ 64 - 1)) 1 s = (Ret true, s') /\
    checkedAddSigned (2 ^ 64 - 1) 1 = None.
Proof.
  pose proof (totp_source (X := X) fn d 1 l key (totp_inv_digits _ _ _ _ _ _ Hs)) as Hsrc.
  destruct (totp_VerifyBound_run (otp_code fn key d) (totp_inv fn d 1 l key) 1
    (totp_inv_live fn d 1 l key) (totp_inv_period fn d 1 l key) ltac:(lia) s (otp_code fn key d 0 [])
    None (Some (2 ^ 64 - 1)) 1 Hs ltac:(apply (@code_short _ _ _ _ Hsrc)) ltac:(lia))
    as (b & s' & E & _ & Hb).
  exists s'. split; [|done]. change (Verify (otp_code fn key d 0 []) (Some (2 ^ 64 - 1)) 1 s)
    with (VerifyBound (otp_code fn key d 0 []) None (Some (2 ^ 64 - 1)) 1 s).
  rewrite E. f_equal. f_equal. apply Hb. exists 1. split; [lia|]. done.
Qed.

Lemma TOTP_verify_top_witness :
  exists t s', NewTOTP (Some secret_loc) SHA1 8 1 rfc_world = (Ret t, rfc_world) /\
    @Verify _ Sha.suite first_idle (@otp_code Sha.suite sha1_New rfc4226_key 8 0 [])
      (Some (2 ^ 64 - 1)) 1 (rfc_world, t) = (Ret true, s').
Proof.
  destruct (NewTOTP_ok rfc_world secret_loc rfc4226_key SHA1 sha1_New 8 1) as (t & E & Ht);
    [done|done|done|lia|lia|].
  destruct (@TOTP_verify_top _ Sha.suite first_idle sha1_New 8 secret_loc rfc4226_key (rfc_world, t) Ht)
    as (s' & Ev & _).
  exists t, s'. split; [exact E|exact Ev].
Defined.

(** [ClearSecret] overwrites the secret's buffer with zeros of
    the same length, touches no other buffer, drops the reference, and from
    then on every operation fails with [ErrInvalidSecret] and changes nothing. *)
Theorem TOTP_ClearSecret_spec {X} `{HashSuite} `{PoolPolicy} (w : world X) (t : TOTP X)
    (l : positive) (key : bytes)
    (Hr : secret (runtime t) = Some l) (Hl : w_heap w !! l = Some key) :
  exists w' t', ClearSecret (w, t) = (Ret tt, (w', t')) /\
    w_heap w' !! l = Some (replicate (length key) Byte.x00) /\
    (forall l', l' <> l -> w_heap w' !! l' = w_heap w !! l') /\
    secret (runtime t') = None /\
    forall timeVal window user context det,
      Generate timeVal (w', t') = (Err ErrInvalidSecret, (w', t')) /\
      GenBound context timeVal (w', t') = (Err ErrInvalidSecret, (w', t')) /\
      Verify user timeVal window (w', t') = (Err ErrInvalidSecret, (w', t')) /\
      VerifyBound user context timeVal window (w', t') = (Err ErrInvalidSecret, (w', t')) /\
      VerifyTracking user timeVal window (w', t', det) = (Err ErrInvalidSecret, (w', t', det)).
Proof.
  eexists _, _. split; [done|]. simpl secret. change (runtime (set_cleared t)) with (runtime t).
  rewrite Hr. split; [|split; [|done]].
  - unfold slice_zero, set_heap. simpl. by rewrite lookup_alter_eq, Hl.
  - intros l' Hne. by apply lookup_zero_ne.
Qed.

Lemma TOTP_ClearSecret_spec_witness :
  exists w' t', @ClearSecret unit (rfc6238_world 20, rfc6238_totp) = (Ret tt, (w', t')) /\
    w_heap w' !! secret_loc = Some (replicate 20 Byte.x00).
Proof.
  destruct (@TOTP_ClearSecret_spec unit Sha.suite first_idle (rfc6238_world 20) rfc6238_totp secret_loc
    (rfc6238_key 20) eq_refl eq_refl) as (w' & t' & E & Hz & _).
  exists w', t'. split; [exact E|exact Hz].
Defined.

(** ** The feedback loop of [VerifyTracking] and auto-adjust *)

(** A device two steps ahead: each acceptance records the distance from the
    centre, which the suggestion has already moved. *)
Definition driftStep (window : Z) (d : ClockSkewDetector) : ClockSkewDetector :=
  snd (Record_ (2 - CurrentOffset d) window d).

Definition drift0 : ClockSkewDetector := EnableAutoAdjust (detectorAfter 16 []).

Definition driftAfter (window : Z) (n : nat) : ClockSkewDetector := Nat.iter n (driftStep window) drift0.

Fixpoint driftTrace (window : Z) (n : nat) (d : ClockSkewDetector) : list Z :=
  match n with O => [] | S n' => CurrentOffset d :: driftTrace window n' (driftStep window d) end.

Lemma driftTrace_lookup window n : forall i d, (i < n)%nat ->
  driftTrace window n d !! i = Some (CurrentOffset (Nat.iter i (driftStep window) d)).
Proof.
  induction n as [|n IH]; intros i d Hi; [lia|]. destruct i as [|i]; [done|].
  cbn [driftTrace lookup list_lookup]. rewrite Nat.iter_succ_r. apply IH. lia.
Qed.

Lemma driftTrace_69 window : driftTrace window 69 drift0 = replicate 17 0 ++ replicate 52 1.
Proof. vm_compute. reflexivity. Qed.

Lemma driftAfter_cycle window : driftAfter window (16 + 53) = driftAfter window 53.
Proof. vm_compute. reflexivity. Qed.

Lemma driftAfter_add window a b :
  driftAfter window (a + b) = Nat.iter a (driftStep window) (driftAfter window b).
Proof. apply Nat.iter_add. Qed.

Lemma driftAfter_offset window n :
  CurrentOffset (driftAfter window n) = if decide (n < 17)%nat then 0 else 1.
Proof.
  induction (lt_wf n) as [n _ IH]. destruct (decide (n < 69)%nat) as [Hn|Hn].
  - pose proof (driftTrace_lookup window 69 n drift0 Hn) as H. rewrite driftTrace_69 in H.
    case_decide as H17.
    + rewrite lookup_app_l, lookup_replicate_2 in H by (rewrite ?length_replicate; lia). by simplify_eq.
    + rewrite lookup_app_r, lookup_replicate_2 in H by (rewrite ?length_replicate; lia). by simplify_eq.
  - rewrite decide_False by lia.
    replace n with ((n - 69) + (16 + 53))%nat by lia.
    rewrite driftAfter_add, driftAfter_cycle, <-driftAfter_add.
    rewrite IH by lia. by rewrite decide_False by lia.
Qed.

Lemma driftAfter_wf window n : ring_wf (state (driftAfter window n)).
Proof.
  induction n as [|n IH]; [by apply empty_wf|].
  change (driftAfter window (S n)) with (driftStep window (driftAfter window n)). unfold driftStep.
  by destruct (Record_run (2 - CurrentOffset (driftAfter window n)) window _ IH) as (d' & -> & Hd' & _).
Qed.

(** Verify a list of (code, time), threading object, world and detector. *)
Fixpoint trackAll {X} `{HashSuite} `{PoolPolicy} (window : Z) (l : list (bytes * Z))
    : GoM (world X * TOTP X * ClockSkewDetector) (list bool) :=
  match l with
  | [] => mret []
  | (code, t) :: l' =>
      b ← VerifyTracking code (Some t) window; bs ← trackAll window l'; mret (b :: bs)
  end.

(** The counter [b] of the server, when the device's code, that of [b + 2],
    is not also the code of an earlier counter of the window. *)
Definition twoAhead (code : Z -> bytes -> bytes) (window b : Z) : Prop :=
  window <= b < 2 ^ 62 /\ forall j, - window <= j < 2 -> code (b + 2) [] <> code (b + j) [].

Lemma trackAll_drift {X} `{HashSuite} `{PoolPolicy} fn d per l key window (bs : list Z) :
  2 <= window <= 1000 -> Forall (twoAhead (otp_code fn key d) window) bs ->
  forall n (s : world X * TOTP X), totp_inv fn d per l key s ->
  exists s', trackAll window ((fun b => (otp_code fn key d (b + 2) [], b * per)) <$> bs)
      (s, driftAfter window n)
    = (Ret (replicate (length bs) true), (s', driftAfter window (n + length bs))) /\
    totp_inv fn d per l key s'.
Proof.
  intros Hw Hbs. induction Hbs as [|b bs Hb Hbs IH]; intros n s Hs.
  { exists s. by rewrite Nat.add_0_r. }
  pose proof (totp_source (X := X) fn d per l key (totp_inv_digits _ _ _ _ _ _ Hs)) as Hsrc.
  pose proof (totp_inv_pos _ _ _ _ _ _ Hs) as Hp. destruct Hb as [Hbr Hfirst].
  assert (Hnow : nowOr (Some (b * per)) s.1 / per = b) by (unfold nowOr; apply Z.div_mul; lia).
  pose proof (driftAfter_offset window n) as Ho. unfold CurrentOffset in Ho.
  pose proof (VerifyTracking_run (otp_code fn key d) (totp_inv fn d per l key) per
    (totp_inv_live fn d per l key) (totp_inv_period fn d per l key) ltac:(lia) s (driftAfter window n)
    (otp_code fn key d (b + 2) []) (Some (b * per)) window Hs (driftAfter_wf window n)
    ltac:(apply (@code_short _ _ _ _ Hsrc)) ltac:(rewrite Hnow; lia)
    ltac:(rewrite Ho; case_decide; lia) ltac:(lia)) as Hv.
  rewrite (proj2 (Z.ltb_ge _ _)), Hnow in Hv by lia.
  assert (Hadj : adjusted b (offset (driftAfter window n)) = b + offset (driftAfter window n))
    by (unfold adjusted; rewrite Ho; case_decide; case_decide; lia).
  assert (Hor : 0 <= offset (driftAfter window n) <= 1) by (rewrite Ho; case_decide; lia).
  destruct Hv as (ok & s1 & d1 & E & Hs1 & Hr). rewrite Hadj in Hr.
  set (o := offset (driftAfter window n)) in *. destruct ok.
  - destruct Hr as (j & Hj & Hin & Heq & Hless & Hrec).
    assert (j = 2 - o) as ->.
    { destruct (decide (j < 2 - o)).
      - exfalso. apply (Hfirst (o + j)); [lia|]. by rewrite Heq at 1; rewrite Z.add_assoc.
      - destruct (decide (j = 2 - o)); [done|]. exfalso. apply (Hless (2 - o)); [lia|lia|].
        f_equal. lia. }
    assert (d1 = driftAfter window (S n)) as ->.
    { change (driftAfter window (S n)) with (driftStep window (driftAfter window n)).
      unfold driftStep, CurrentOffset. fold o. by rewrite Hrec. }
    destruct (IH (S n) s1 Hs1) as (s2 & E2 & Hs2). exists s2. split; [|done].
    cbn [trackAll fmap list_fmap length replicate]. rewrite (run_bind _ _ _ _ _ E).
    rewrite (run_bind _ _ _ _ _ E2). by rewrite Nat.add_succ_r.
  - exfalso. destruct Hr as [_ Hnone]. apply (Hnone (2 - o)); [lia|lia|]. f_equal. lia.
Qed.

(** C33: the feedback loop under-corrects.  A fresh detector of
    capacity 16 with auto-adjust on follows a device whose clock runs exactly
    two steps ahead (a code that no earlier counter of the window shares, a
    window of 2 to 1000 steps): every verification succeeds, yet from the 17th on, for
    ever, the suggested offset is 1, half the drift, because acceptances are
    recorded relative to the already adjusted counter. *)
Theorem VerifyTracking_half_drift {X} `{HashSuite} `{PoolPolicy} (fn : hashFn) (d per : Z)
    (l : positive) (key : bytes) (s : world X * TOTP X) (window : Z) (bs : list Z)
    (Hs : totp_inv fn d per l key s) (Hw : 2 <= window <= 1000)
    (Hbs : Forall (twoAhead (otp_code fn key d) window) bs) (Hlen : (17 <= length bs)%nat) :
  exists s' det, trackAll window ((fun b => (otp_code fn key d (b + 2) [], b * per)) <$> bs) (s, drift0)
      = (Ret (replicate (length bs) true), (s', det)) /\ CurrentOffset det = 1.
Proof.
  destruct (trackAll_drift fn d per l key window bs Hw Hbs 0%nat s Hs) as (s' & E & _).
  exists s', (driftAfter window (length bs)). split; [exact E|].
  by rewrite driftAfter_offset, decide_False by lia.
Qed.

(** The premise, as a check. *)
Definition twoAheadb (code : Z -> bytes -> bytes) (window b : Z) : bool :=
  (window <=? b) && (b <? 2 ^ 62) &&
  forallb (fun j => negb (bool_decide (code (b + 2) [] = code (b + j) [])))
    (seqZ (- window) (window + 2)).

Lemma twoAheadb_spec code window b :
  0 <= window -> twoAheadb code window b = true -> twoAhead code window b.
Proof.
  unfold twoAheadb. rewrite !andb_true_iff, forallb_forall. intros Hw [[H1 H2] H3].
  split; [lia|]. intros j Hj Heq. specialize (H3 j).
  rewrite negb_true_iff, bool_decide_eq_false in H3. apply H3; [|done].
  apply list_elem_of_In, elem_of_seqZ. lia.
Qed.

Lemma twoAhead_rfc :
  Forall (twoAhead (@otp_code Sha.suite sha1_New (rfc6238_key 20) 8) 2) (replicate 17 2).
Proof.
  apply Forall_replicate, twoAheadb_spec; [lia|]. vm_compute. reflexivity.
Qed.

Lemma VerifyTracking_half_drift_witness :
  exists s' det, @trackAll _ Sha.suite first_idle 2
      ((fun b => (@otp_code Sha.suite sha1_New (rfc6238_key 20) 8 (b + 2) [], b * 30)) <$> replicate 17 2)
      (rfc6238_world 20, rfc6238_totp, drift0)
    = (Ret (replicate 17 true), (s', det)) /\ CurrentOffset det = 1.
Proof.
  exact (@VerifyTracking_half_drift _ Sha.suite first_idle sha1_New 8 30 secret_loc (rfc6238_key 20)
    (rfc6238_world 20, rfc6238_totp) 2 (replicate 17 2) rfc6238_inv ltac:(lia) twoAhead_rfc
    (le_n 17)).
Defined.
