(* ===== verification/Lifecycle.v ===== *)
(** * The life of an object: sequences of operations

    What a client of one [HOTP] object, or of one [TOTP] object with a clock
    skew detector and a clock that anybody may set, sees, as an abstract
    automaton whose answers are those of a code function; and the proof that
    the objects, with their pools of keyed MACs, their flags and their machine
    arithmetic, answer every sequence of operations as the automaton does.  Over any runtime, provider-backed ones
    included, sequences of operations are shown to be type safe. *)
From S2P Require Import Prelude Errors ConstantTime Hash Secret Digits Context Hotp Skew Totp.

(** ** Answers *)
Inductive answer : Type :=
  | ACode (code : bytes)
  | ABool (ok : bool)
  | AResync (counter : Z) (ok : bool)
  | AUnit.

(** The operations on [HOTP] objects. *)
Inductive hotpOp : Type :=
  | HGenerate (counter : Z)
  | HGenBound (counter : Z) (context : option OtpContext)
  | HVerify (code : bytes) (counter : Z)
  | HVerifyBound (code : bytes) (counter : Z) (context : option OtpContext)
  | HVerifyWithResync (code : bytes) (counter lookAhead : Z)
  | HClearSecret.

(** The operations on [TOTP] objects, at a given time or ([None]) that of the
    clock; on the detector [VerifyTracking] is called with; and the clock,
    in nanoseconds since 1970, jumping to any value. *)
Inductive totpOp : Type :=
  | TGenerate (time : option Z)
  | TGenBound (context : option OtpContext) (time : option Z)
  | TVerify (code : bytes) (time : option Z) (window : Z)
  | TVerifyBound (code : bytes) (context : option OtpContext) (time : option Z) (window : Z)
  | TVerifyTracking (code : bytes) (time : option Z) (window : Z)
  | TClearSecret
  | TEnableAutoAdjust
  | TDisableAutoAdjust
  | TReset
  | TClock (now : Z).

(** A method with its answer wrapped; a caller goes on after an error. *)
Definition call {S A} (wrap : A -> answer) (m : GoM S A) (s : S) : result answer * S :=
  let '(o, s') := m s in
  (match o with Ret a => Ret (wrap a) | Err e => Err e | Panic => Panic end, s').

Fixpoint runAll {S Op} (run : Op -> S -> result answer * S) (ops : list Op) (s : S)
    : list (result answer) * S :=
  match ops with
  | [] => ([], s)
  | op :: ops' => let '(a, s1) := run op s in let '(l, s2) := runAll run ops' s1 in (a :: l, s2)
  end.

Section objects.
Context {X : Type} `{HashSuite} `{PoolPolicy}.

Definition runHotp (op : hotpOp) : (world X * HOTP X) -> result answer * (world X * HOTP X) :=
  match op with
  | HGenerate c => call ACode (Hotp.Generate c)
  | HGenBound c ctx => call ACode (Hotp.GenBound c ctx)
  | HVerify u c => call ABool (Hotp.Verify u c)
  | HVerifyBound u c ctx => call ABool (Hotp.VerifyBound u c ctx)
  | HVerifyWithResync u c n => call (fun r => AResync r.1 r.2) (Hotp.VerifyWithResync u c n)
  | HClearSecret => call (fun _ => AUnit) Hotp.ClearSecret
  end.

(** The object and the world, with the detector. *)
Definition setClock (now : Z) (w : world X) : world X :=
  {| w_heap := w_heap w; w_now := now; w_ext := w_ext w |}.

Definition runTotp (op : totpOp) :
    (world X * TOTP X * ClockSkewDetector) -> result answer * (world X * TOTP X * ClockSkewDetector) :=
  match op with
  | TGenerate t => call ACode (onTOTP (Totp.Generate t))
  | TGenBound ctx t => call ACode (onTOTP (Totp.GenBound ctx t))
  | TVerify u t w => call ABool (onTOTP (Totp.Verify u t w))
  | TVerifyBound u ctx t w => call ABool (onTOTP (Totp.VerifyBound u ctx t w))
  | TVerifyTracking u t w => call ABool (Totp.VerifyTracking u t w)
  | TClearSecret => call (fun _ => AUnit) (onTOTP Totp.ClearSecret)
  | TEnableAutoAdjust => call (fun _ => AUnit) (onDetector (modify EnableAutoAdjust))
  | TDisableAutoAdjust => call (fun _ => AUnit) (onDetector (modify DisableAutoAdjust))
  | TReset => call (fun _ => AUnit) (onDetector (modify Skew.Reset))
  | TClock now => call (fun _ => AUnit) (onTOTP (modify (fun s => (setClock now s.1, s.2))))
  end.
End objects.

(** ** The automaton: live or cleared *)
Section automaton.
Context (code : Z -> bytes -> bytes).

(** The first of the [n] counters from [counter + i] that has the code. *)
Fixpoint firstMatch (n : nat) (i : Z) (user : bytes) (counter : Z) : Z * bool :=
  match n with
  | O => (0, false)
  | S n' =>
      if 2 ^ 64 <=? counter + i then (0, false)
      else if bool_decide (user = code (counter + i) []) then (counter + i, true)
      else firstMatch n' (i + 1) user counter
  end.

Definition specHotp (op : hotpOp) (alive : bool) : result answer * bool :=
  match op with
  | HClearSecret => (Ret AUnit, false)
  | _ =>
      if negb alive then (Err ErrInvalidSecret, alive) else
      (match op with
       | HGenerate c => Ret (ACode (code c []))
       | HGenBound c ctx => Ret (ACode (code c (contextBytes ctx)))
       | HVerify u c => Ret (ABool (bool_decide (u = code c [])))
       | HVerifyBound u c ctx => Ret (ABool (bool_decide (u = code c (contextBytes ctx))))
       | HVerifyWithResync u c n =>
           if maxLookAhead <? n then Err ErrInvalidCounter
           else let r := firstMatch (Z.to_nat (n + 1)) 0 u c in Ret (AResync r.1 r.2)
       | HClearSecret => Ret AUnit
       end, alive)
  end.

(** Whether a code belongs to one of the counters of a window, cut off at 0 and
    at the 64-bit limit; past the limit the code of counter 0 is good too. *)
Definition inWindow (user : bytes) (counter window : Z) (context : bytes) : bool :=
  existsb (fun c => bool_decide (user = code c context))
    (zrange (Z.max 0 (counter - window)) (Z.min (counter + window) (2 ^ 64 - 1))) ||
  ((2 ^ 64 <=? counter + window) && bool_decide (user = code 0 context)).

(** The first of the [n] steps from [i] whose counter is in range and has the
    code. *)
Fixpoint firstStep (n : nat) (i : Z) (user : bytes) (centre : Z) : option Z :=
  match n with
  | O => None
  | S n' =>
      if bool_decide (0 <= centre + i < 2 ^ 64) && bool_decide (user = code (centre + i) [])
      then Some i else firstStep n' (i + 1) user centre
  end.

(** Live or cleared, the clock, and the detector. *)
Record automaton : Type := { alive : bool; clock : Z; detector : ClockSkewDetector }.

Definition set_detector (d : ClockSkewDetector) (a : automaton) : automaton :=
  {| alive := alive a; clock := clock a; detector := d |}.

Definition secondsOf (time : option Z) (now : Z) : Z :=
  match time with Some t => t | None => u64 (Z.max 0 (now / 10 ^ 9)) end.

Definition specTotp (per : Z) (op : totpOp) (a : automaton) : result answer * automaton :=
  let counter time := secondsOf time (clock a) / per in
  let live (r : result answer) := (if alive a then r else Err ErrInvalidSecret, a) in
  match op with
  | TGenerate t => live (Ret (ACode (code (counter t) [])))
  | TGenBound ctx t => live (Ret (ACode (code (counter t) (contextBytes ctx))))
  | TVerify u t w =>
      live (if 1000 <? w then Err ErrInvalidTime else Ret (ABool (inWindow u (counter t) w [])))
  | TVerifyBound u ctx t w =>
      live (if 1000 <? w then Err ErrInvalidTime else Ret (ABool (inWindow u (counter t) w (contextBytes ctx))))
  | TVerifyTracking u t w =>
      if negb (alive a) then (Err ErrInvalidSecret, a) else
      if 1000 <? w then (Err ErrInvalidTime, a) else
      match firstStep (Z.to_nat (2 * w + 1)) (- w) u (adjusted (counter t) (offset (detector a))) with
      | Some j => (Ret (ABool true), set_detector (Record_ j w (detector a)).2 a)
      | None => (Ret (ABool false), a)
      end
  | TClearSecret => (Ret AUnit, {| alive := false; clock := clock a; detector := detector a |})
  | TEnableAutoAdjust => (Ret AUnit, set_detector (EnableAutoAdjust (detector a)) a)
  | TDisableAutoAdjust => (Ret AUnit, set_detector (DisableAutoAdjust (detector a)) a)
  | TReset => (Ret AUnit, set_detector (Skew.Reset (detector a)) a)
  | TClock now => (Ret AUnit, {| alive := alive a; clock := now; detector := detector a |})
  end.
End automaton.

(** Arguments within their Go types. *)
Definition hotpOp_ok (op : hotpOp) : Prop :=
  match op with
  | HVerify u _ | HVerifyBound u _ _ => Z.of_nat (length u) < 2 ^ 63
  | HVerifyWithResync u c n => Z.of_nat (length u) < 2 ^ 63 /\ 0 <= c < 2 ^ 64 /\ 0 <= n
  | _ => True
  end.

Definition time_ok (time : option Z) : Prop := forall t, time = Some t -> 0 <= t < 2 ^ 64.

Definition totpOp_ok (op : totpOp) : Prop :=
  match op with
  | TGenerate t | TGenBound _ t => time_ok t
  | TVerify u t w | TVerifyBound u _ t w | TVerifyTracking u t w =>
      Z.of_nat (length u) < 2 ^ 63 /\ time_ok t /\ 0 <= w < 2 ^ 64
  | _ => True
  end.

(** ** Simulation, one operation at a time *)
Lemma run_simulates {S A Op} (run : Op -> S -> result answer * S)
    (spec : Op -> A -> result answer * A) (ok : Op -> Prop) (R : S -> A -> Prop) :
  (forall op s a, ok op -> R s a -> exists s', run op s = ((spec op a).1, s') /\ R s' (spec op a).2) ->
  forall ops s a, Forall ok ops -> R s a ->
  exists s', runAll run ops s = ((runAll spec ops a).1, s') /\ R s' (runAll spec ops a).2.
Proof.
  intros Hstep. induction ops as [|op ops IH]; intros s a Hok HR; [by exists s|].
  apply Forall_cons in Hok as [Hop Hok]. cbn [runAll].
  destruct (Hstep op s a Hop HR) as (s1 & -> & HR1). destruct (spec op a) as [o a1]. simpl in *.
  destruct (IH s1 a1 Hok HR1) as (s2 & -> & HR2). destruct (runAll spec ops a1) as [l a2]. by exists s2.
Qed.

(** The key is out of reach: the reference is dropped, the buffer zeroed. *)
Definition erased {X} (l : positive) (key : bytes) (w : world X) (r : secretRuntime X) : Prop :=
  secret r = None /\ w_heap w !! l = Some (replicate (length key) Byte.x00).

Lemma clear_erases {X} l key (w : world X) r :
  secret r = Some l /\ w_heap w !! l = Some key \/ erased l key w r ->
  exists w' r', clearStaticSecret (w, r) = (Ret tt, (w', r')) /\ erased l key w' r'.
Proof.
  intros [[Hr Hl]|[Hr Hl]]; (eexists _, _; split; [done|]); (split; [done|]); rewrite Hr; [|done].
  unfold slice_zero, set_heap. simpl. by rewrite lookup_alter_eq, Hl.
Qed.

Section hotp.
Context {X : Type} `{HashSuite} `{PoolPolicy} (fn : hashFn) (d : Z) (l : positive) (key : bytes).
Context (Hd : 6 <= d <= 8).
Abbreviation code := (otp_code fn key d).

Lemma firstMatch_result user counter n : forall i,
  0 <= counter -> 0 <= i -> resyncResult code user counter i (Z.of_nat n) (firstMatch code n i user counter).
Proof.
  induction n as [|n IH]; intros i Hc Hi; [split; [done|]; lia|]. cbn [firstMatch]. unfold resyncResult in *.
  destruct (Z.leb_spec (2 ^ 64) (counter + i)); [split; [done|]; lia|].
  case_bool_decide as Heq.
  - exists i. repeat split; try lia; done.
  - specialize (IH (i + 1) Hc ltac:(lia)). destruct (firstMatch code n (i + 1) user counter) as [r [|]]; simpl in *.
    + destruct IH as (k & Hk & ? & ? & ? & Hf). exists k. repeat split; try lia; try done.
      intros j Hj. destruct (decide (j = i)) as [->|]; [done|]. apply Hf. lia.
    + destruct IH as [-> Hn]. split; [done|]. intros j Hj Hlt.
      destruct (decide (j = i)) as [->|]; [done|]. apply Hn; lia.
Qed.

Lemma resyncResult_unique user counter lo n r r' :
  resyncResult code user counter lo n r -> resyncResult code user counter lo n r' -> r = r'.
Proof.
  destruct r as [c [|]], r' as [c' [|]]; unfold resyncResult; simpl.
  - intros (i & Hi & ? & -> & Hm & Hf) (i' & Hi' & ? & -> & Hm' & Hf').
    destruct (Z.lt_trichotomy i i') as [Hlt|[->|Hlt]]; [|done|].
    + by destruct (Hf' i ltac:(lia)).
    + by destruct (Hf i' ltac:(lia)).
  - intros (i & Hi & ? & -> & Hm & _) [_ Hn]. by destruct (Hn i ltac:(lia) ltac:(lia)).
  - intros [_ Hn] (i & Hi & ? & -> & Hm & _). by destruct (Hn i ltac:(lia) ltac:(lia)).
  - by intros [-> _] [-> _].
Qed.

Definition hotp_sim (s : world X * HOTP X) (alive : bool) : Prop :=
  if alive then static_inv fn d l key s else
  Hotp.cleared s.2 = true /\ erased l key s.1 (Hotp.runtime s.2).

Lemma hotp_dead {A} (f : bool -> GoM (world X * HOTP X) A) s :
  Hotp.cleared s.2 = true -> (Hotp.isCleared ≫= f) s = f true s.
Proof. intros Hc. unfold Hotp.isCleared. rewrite run_gets. destruct s. simpl in Hc. by rewrite Hc. Qed.

Lemma call_ret {S A} (wrap : A -> answer) (m : GoM S A) s a s' :
  m s = (Ret a, s') -> call wrap m s = (Ret (wrap a), s').
Proof. intros E. unfold call. by rewrite E. Qed.

Lemma call_err {S A} (wrap : A -> answer) (m : GoM S A) s e s' :
  m s = (Err e, s') -> call wrap m s = (Err e, s').
Proof. intros E. unfold call. by rewrite E. Qed.

Lemma hotp_step op s alive :
  hotpOp_ok op -> hotp_sim s alive ->
  exists s', runHotp op s = ((specHotp code op alive).1, s') /\ hotp_sim s' (specHotp code op alive).2.
Proof.
  intros Hop Hs. pose proof (static_source (X := X) fn d l key Hd) as Hsrc.
  pose proof (static_inv_live (X := X) fn d l key) as Hlive.
  assert (op = HClearSecret \/ op <> HClearSecret) as [->|Hne] by (destruct op; auto).
  { destruct s as [w h].
    destruct (clear_erases l key w (Hotp.runtime h)) as (w' & r' & E & He).
    { destruct alive; [left|right; apply Hs]. destruct Hs as (_ & Hr & Hl & _). simpl in Hr, Hl. by rewrite Hr. }
    eexists. unfold runHotp, call, Hotp.ClearSecret. simpl Hotp.runtime. rewrite E. split; [done|].
    by split. }
  destruct alive.
  2: { destruct Hs as [Hc He]. exists s. destruct op as [c|c ctx|u c|u c ctx|u c n|]; [..|done];
       (split; [|done]); apply call_err; unfold Hotp.Generate, Hotp.GenBound, Hotp.Verify, Hotp.VerifyBound,
         Hotp.VerifyWithResync; by rewrite hotp_dead. }
  destruct op as [c|c ctx|u c|u c ctx|u c n|]; simpl in Hop.
  - destruct (GenBound_run _ _ Hlive s c None Hs) as (s' & E & Hs'). exists s'. by split; [apply call_ret|].
  - destruct (GenBound_run _ _ Hlive s c ctx Hs) as (s' & E & Hs'). exists s'. by split; [apply call_ret|].
  - destruct (VerifyBound_run _ _ Hlive s u c None Hs Hop) as (s' & E & Hs').
    exists s'. by split; [apply (call_ret ABool _ _ _ _ E)|].
  - destruct (VerifyBound_run _ _ Hlive s u c ctx Hs Hop) as (s' & E & Hs').
    exists s'. by split; [apply (call_ret ABool _ _ _ _ E)|].
  - destruct Hop as (Hu & Hc & Hn). simpl.
    assert (E0 : VerifyWithResync u c n s = (if maxLookAhead <? n then fail ErrInvalidCounter
        else resyncLoop (Z.to_nat (n + 1)) 0 u c) s)
      by (unfold VerifyWithResync; by rewrite (isCleared_false _ Hlive)).
    unfold specHotp. cbn [negb]. destruct (Z.ltb_spec maxLookAhead n).
    + exists s. by split; [apply call_err|].
    + destruct (resyncLoop_ok code _ u c (Z.to_nat (n + 1)) 0 s) as (r & s' & E & Hs' & Hr); [done|done|done|lia|lia|].
      exists s'. split; [|done]. rewrite E in E0. rewrite (call_ret _ _ _ _ _ E0). cbn [fst].
      by rewrite (resyncResult_unique _ _ _ _ _ _ Hr (firstMatch_result u c _ 0 ltac:(lia) ltac:(lia))).
  - done.
Qed.
End hotp.

Section totp.
Context {X : Type} `{HashSuite} `{PoolPolicy} (fn : hashFn) (d per : Z) (l : positive) (key : bytes).
Context (Hd : 6 <= d <= 8) (Hper : 0 < per).
Abbreviation code := (otp_code fn key d).

Definition totp_live_sim (s : world X * TOTP X) (live : bool) : Prop :=
  if live then totp_inv fn d per l key s else
  Totp.cleared s.2 = true /\ erased l key s.1 (Totp.runtime s.2).

(** A detector that can record, its suggestion an [int64]. *)
Definition detector_ok (det : ClockSkewDetector) : Prop :=
  ring_wf (state det) /\ - 2 ^ 63 <= offset det < 2 ^ 63.

Record totp_sim (s : world X * TOTP X * ClockSkewDetector) (a : automaton) : Prop := {
  ts_live : totp_live_sim s.1 (alive a);
  ts_clock : w_now s.1.1 = clock a;
  ts_detector : s.2 = detector a;
  ts_ok : detector_ok (detector a)
}.

Lemma totp_dead {A} (f : bool -> GoM (world X * TOTP X) A) s :
  Totp.cleared s.2 = true -> (Totp.isCleared ≫= f) s = f true s.
Proof. intros Hc. unfold Totp.isCleared. rewrite run_gets. destruct s. simpl in Hc. by rewrite Hc. Qed.

Lemma inWindow_spec user counter window context :
  0 <= counter < 2 ^ 64 -> 0 <= window < 2 ^ 63 ->
  inWindow code user counter window context = true <->
  exists j, - window <= j <= window /\ user = code (addCounterSigned counter j) context.
Proof.
  intros Hc Hw. rewrite (window_codes_wrap (fun c => user = code c context)) by done.
  unfold inWindow. rewrite orb_true_iff, existsb_exists, andb_true_iff, Z.leb_le, bool_decide_eq_true.
  split; (intros [(c & Hin & Heq)|?]; [left|by right]); exists c.
  - apply bool_decide_eq_true in Heq. split; [|done]. by apply zrange_In in Hin.
  - split; [by apply zrange_In|by apply bool_decide_eq_true].
Qed.

Lemma firstStep_result user centre w det n : forall i,
  match firstStep code n i user centre with
  | Some j => trackResult code user centre w i (Z.of_nat n) det true (Record_ j w det).2 \/
      (Record_ j w det).1 <> Ret tt
  | None => trackResult code user centre w i (Z.of_nat n) det false det
  end.
Proof.
  induction n as [|n IH]; intros i; [split; [done|]; lia|]. cbn [firstStep].
  destruct (andb _ _) eqn:E.
  - apply andb_true_iff in E as [Hin%bool_decide_eq_true Heq%bool_decide_eq_true].
    destruct (Record_ i w det) as [[[]|e|] det'] eqn:Er; [left|by right..].
    exists i. split; [lia|]. split; [done|]. split; [done|]. split; [lia|exact Er].
  - assert (Hi : 0 <= centre + i < 2 ^ 64 -> user <> code (centre + i) []).
    { intros Hin Heq. rewrite !bool_decide_eq_true_2 in E by done. done. }
    specialize (IH (i + 1)). destruct (firstStep code n (i + 1) user centre) as [j|].
    + destruct IH as [(j' & Hj & Hin & Heq & Hf & Hr)|?]; [left|by right]. exists j'.
      split; [lia|]. split; [done|]. split; [done|]. split; [|done]. intros k Hk.
      destruct (decide (k = i)) as [->|]; [done|]. apply Hf. lia.
    + destruct IH as [_ Hn]. split; [done|]. intros k Hk.
      destruct (decide (k = i)) as [->|]; [done|]. apply Hn. lia.
Qed.

Lemma trackResult_unique user centre w lo n det ok det1 ok' det2 :
  trackResult code user centre w lo n det ok det1 -> trackResult code user centre w lo n det ok' det2 ->
  ok = ok' /\ det1 = det2.
Proof.
  unfold trackResult. destruct ok, ok'.
  - intros (j & Hj & Hin & Heq & Hf & Hr) (j' & Hj' & Hin' & Heq' & Hf' & Hr'). split; [done|].
    destruct (Z.lt_trichotomy j j') as [Hlt|[->|Hlt]].
    + by destruct (Hf' j ltac:(lia)).
    + rewrite Hr in Hr'. by injection Hr'.
    + by destruct (Hf j' ltac:(lia)).
  - intros (j & Hj & Hin & Heq & _) [_ Hn]. by destruct (Hn j ltac:(lia)).
  - intros [_ Hn] (j & Hj & Hin & Heq & _). by destruct (Hn j ltac:(lia)).
  - by intros [-> _] [-> _].
Qed.

(** Methods of the object alone, on the whole state. *)
Lemma call_onTOTP {A} (wrap : A -> answer) (m : GoM (world X * TOTP X) A) s det o s' :
  call wrap m s = (o, s') -> call wrap (onTOTP m) (s, det) = (o, (s', det)).
Proof. unfold call, onTOTP, zoom. cbn [fst snd]. destruct (m s). by intros [= <- <-]. Qed.

(** A live object with the clock as it is. *)
Abbreviation at_world w := (fun s : world X * TOTP X => totp_inv fn d per l key s /\ s.1 = w).

Lemma live_at (w : world X) s : at_world w s -> Totp.cleared s.2 = false.
Proof. intros [Hs _]. apply (totp_inv_live _ _ _ _ _ _ Hs). Qed.
Lemma period_at (w : world X) s : at_world w s -> Totp.period s.2 = per.
Proof. intros [Hs _]. apply (totp_inv_period _ _ _ _ _ _ Hs). Qed.

Lemma totp_gen_step (s : world X * TOTP X) ctx t :
  totp_inv fn d per l key s ->
  exists s', call ACode (Totp.GenBound ctx t) s =
    (Ret (ACode (code (secondsOf t (w_now s.1) / per) (contextBytes ctx))), s') /\
    totp_inv fn d per l key s' /\ s'.1 = s.1.
Proof.
  intros Hs. pose proof (totp_source_at fn d per l key s.1 (totp_source (X := X) fn d per l key Hd)) as Hsrc.
  destruct (totp_GenBound_run code (at_world s.1) per (live_at s.1) (period_at s.1) ltac:(lia) s ctx t)
    as (s' & E & Hs'); [done|].
  exists s'. split; [|done]. rewrite (call_ret _ _ _ _ _ E). by rewrite nowOr_default.
Qed.

(** [Verify] and [VerifyBound] in one. *)
Lemma totp_verify_step (s : world X * TOTP X) user ctx t window :
  totp_inv fn d per l key s -> Z.of_nat (length user) < 2 ^ 63 -> time_ok t -> 0 <= window ->
  exists s', call ABool (Totp.VerifyBound user ctx t window) s =
    ((if 1000 <? window then Err ErrInvalidTime
      else Ret (ABool (inWindow code user (secondsOf t (w_now s.1) / per) window (contextBytes ctx)))), s') /\
    totp_inv fn d per l key s' /\ s'.1 = s.1.
Proof.
  intros Hs Hu Ht Hw.
  pose proof (totp_source_at fn d per l key s.1 (totp_source (X := X) fn d per l key Hd)) as Hsrc.
  pose proof (totp_VerifyBound_run code (at_world s.1) per (live_at s.1) (period_at s.1) ltac:(lia)
    s user ctx t window ltac:(done) Hu Hw) as Hv.
  destruct (Z.ltb_spec 1000 window); [exists s; split; [by apply call_err|done]|].
  destruct Hv as (b & s' & E & Hs' & Hb). exists s'. split; [|done].
  rewrite (call_ret _ _ _ _ _ E). do 3 f_equal. apply eq_true_iff_eq.
  pose proof (counter_range t s.1 per Ht Hper) as Hc. rewrite Hb.
  rewrite nowOr_default in Hc |- *. rewrite inWindow_spec; [done|exact Hc|lia].
Qed.

Lemma totp_tracking_step (s : world X * TOTP X) det user t window :
  totp_inv fn d per l key s -> detector_ok det -> Z.of_nat (length user) < 2 ^ 63 -> time_ok t -> 0 <= window ->
  exists s', call ABool (Totp.VerifyTracking user t window) (s, det) =
    (if 1000 <? window then (Err ErrInvalidTime, (s', det)) else
     match firstStep code (Z.to_nat (2 * window + 1)) (- window) user
             (adjusted (secondsOf t (w_now s.1) / per) (offset det)) with
     | Some j => (Ret (ABool true), (s', (Record_ j window det).2))
     | None => (Ret (ABool false), (s', det))
     end) /\ totp_inv fn d per l key s' /\ s'.1 = s.1.
Proof.
  intros Hs [Hd1 Hd2] Hu Ht Hw.
  pose proof (totp_source_at fn d per l key s.1 (totp_source (X := X) fn d per l key Hd)) as Hsrc.
  pose proof (counter_range t s.1 per Ht Hper) as Hc.
  pose proof (VerifyTracking_run code (at_world s.1) per (live_at s.1) (period_at s.1) ltac:(lia)
    s det user t window ltac:(done) Hd1 Hu Hc Hd2 Hw) as Hv.
  rewrite nowOr_default in Hv. change (default _ t) with (secondsOf t (w_now s.1)) in Hv.
  destruct (Z.ltb_spec 1000 window); [exists s; split; [by apply call_err|done]|].
  destruct Hv as (ok & s' & det' & E & Hs' & Hr). exists s'. split; [|done].
  rewrite (call_ret _ _ _ _ _ E). set (centre := adjusted _ _) in *.
  pose proof (firstStep_result user centre window det (Z.to_nat (2 * window + 1)) (- window)) as Hf.
  rewrite Z2Nat.id in Hf by lia.
  destruct (firstStep code _ _ user centre) as [j|].
  - destruct Hf as [Hf|Hf].
    + by destruct (trackResult_unique _ _ _ _ _ _ _ _ _ _ Hr Hf) as [-> ->].
    + exfalso. destruct (Record_run j window det Hd1) as (d1 & Er & _). by rewrite Er in Hf.
  - by destruct (trackResult_unique _ _ _ _ _ _ _ _ _ _ Hr Hf) as [-> ->].
Qed.

Lemma Record_ok j w det : detector_ok det -> detector_ok (Record_ j w det).2.
Proof.
  intros [Hr Ho]. split; [|by apply Record_offset_range].
  by destruct (Record_run j w det Hr) as (det' & -> & Hd' & _).
Qed.

Lemma detector_ops_ok det :
  detector_ok det -> detector_ok (EnableAutoAdjust det) /\ detector_ok (DisableAutoAdjust det) /\
  detector_ok (Skew.Reset det).
Proof.
  intros [Hr Ho]. split; [done|]. split; (split; [|simpl; lia]); [done|]. apply empty_wf, Hr.
Qed.

Lemma totp_clear_step (s : world X * TOTP X) live :
  totp_live_sim s live ->
  exists s', call (fun _ => AUnit) Totp.ClearSecret s = (Ret AUnit, s') /\ totp_live_sim s' false /\
    w_now s'.1 = w_now s.1.
Proof.
  intros Hs. destruct s as [w o].
  destruct (clear_erases l key w (Totp.runtime o)) as (w' & r' & E & He).
  { destruct live; [left|right; apply Hs]. destruct Hs as [[(_ & Hr & Hl & _) _] _].
    simpl in Hr, Hl. by rewrite Hr. }
  eexists. unfold call, Totp.ClearSecret. simpl Totp.runtime. rewrite E. split; [done|]. split; [by split|].
  injection E as <- _. simpl. by destruct (secret (Totp.runtime o)).
Qed.

(** The methods that need the secret fail once it is cleared. *)
Definition needsSecret (op : totpOp) : Prop :=
  match op with
  | TGenerate _ | TGenBound _ _ | TVerify _ _ _ | TVerifyBound _ _ _ _ | TVerifyTracking _ _ _ => True
  | _ => False
  end.

Lemma totp_dead_step op s a :
  needsSecret op -> alive a = false -> totp_sim s a ->
  runTotp op s = (Err ErrInvalidSecret, s) /\ specTotp code per op a = (Err ErrInvalidSecret, a).
Proof.
  intros Hop Ha [Hl _ _ _]. destruct s as [s det]. simpl in Hl. rewrite Ha in Hl. destruct Hl as [Hc _].
  split; [|by destruct op; simpl; rewrite ?Ha].
  assert (Ht : onTOTP Totp.isCleared (s, det) = (Ret true, (s, det))).
  { unfold onTOTP, zoom, Totp.isCleared, gets. destruct s. simpl in *. by rewrite Hc. }
  destruct op as [t|ctx t|u t w|u ctx t w|u t w| | | | |now]; try done;
    [apply call_onTOTP, call_err; unfold Totp.Generate, Totp.GenBound, Totp.Verify, Totp.VerifyBound;
     by rewrite totp_dead by done..|].
  apply call_err. unfold Totp.VerifyTracking. by rewrite (run_bind _ _ _ _ _ Ht).
Qed.

(** Back in the simulation, the world but for its clock irrelevant. *)
Lemma totp_sim_live (s' : world X * TOTP X) a det :
  totp_inv fn d per l key s' -> w_now s'.1 = clock a -> alive a = true -> detector_ok det ->
  totp_sim (s', det) (set_detector det a).
Proof. intros Hs Hw Ha Hd'. split; simpl; try done. by rewrite Ha. Qed.

Lemma set_detector_id a : set_detector (detector a) a = a.
Proof. by destruct a. Qed.

Lemma totp_step op s a :
  totpOp_ok op -> totp_sim s a ->
  exists s', runTotp op s = ((specTotp code per op a).1, s') /\ totp_sim s' (specTotp code per op a).2.
Proof.
  intros Hop Hsim. pose proof Hsim as [Hlive Hclock Hdet Hok]. destruct s as [s det]. simpl in *. subst det.
  assert (needsSecret op /\ alive a = false \/ needsSecret op /\ alive a = true \/ ~ needsSecret op)
    as [[Hn Ha]|[[Hn Ha]|Hn]] by (destruct op, (alive a); simpl; auto).
  { destruct (totp_dead_step op _ a Hn Ha Hsim) as [-> ->]. by eexists. }
  - rewrite Ha in Hlive. simpl in Hlive.
    assert (Hback : forall s' det, totp_inv fn d per l key s' -> s'.1 = s.1 -> detector_ok det ->
      totp_sim (s', det) (set_detector det a)) by (intros; apply totp_sim_live; congruence).
    assert (Hsame : forall s', totp_inv fn d per l key s' -> s'.1 = s.1 -> totp_sim (s', detector a) a).
    { intros s' Hi Hw. pose proof (Hback s' (detector a) Hi Hw Hok) as Hs'. by rewrite set_detector_id in Hs'. }
    destruct op as [t|ctx t|u t w|u ctx t w|u t w| | | | |now]; try done; simpl in Hop; cbn [specTotp];
      rewrite ?Ha, <-?Hclock.
    + destruct (totp_gen_step s None t Hlive) as (s' & E & Hi & Hw).
      exists (s', detector a). split; [by apply call_onTOTP|by apply Hsame].
    + destruct (totp_gen_step s ctx t Hlive) as (s' & E & Hi & Hw).
      exists (s', detector a). split; [by apply call_onTOTP|by apply Hsame].
    + destruct (totp_verify_step s u None t w Hlive) as (s' & E & Hi & Hw); [lia || apply Hop..|].
      exists (s', detector a). split; [by apply call_onTOTP|by apply Hsame].
    + destruct (totp_verify_step s u ctx t w Hlive) as (s' & E & Hi & Hw); [lia || apply Hop..|].
      exists (s', detector a). split; [by apply call_onTOTP|by apply Hsame].
    + destruct (totp_tracking_step s (detector a) u t w Hlive Hok) as (s' & E & Hi & Hw); [lia || apply Hop..|].
      cbn [negb]. unfold runTotp. rewrite E. destruct (1000 <? w); [eexists; by split; [|apply Hsame]|].
      destruct (firstStep _ _ _ _ _); eexists; (split; [reflexivity|]); [|by apply Hsame].
      by apply Hback, Record_ok.
  - destruct (detector_ops_ok _ Hok) as (Hon & Hoff & Hreset).
    destruct op as [t|ctx t|u t w|u ctx t w|u t w| | | | |now]; try (by destruct Hn).
    + destruct (totp_clear_step s (alive a) Hlive) as (s' & E & Hs' & Hw). exists (s', detector a).
      split; [by apply call_onTOTP|]. split; simpl; [done|congruence|done..].
    + eexists. by split; [reflexivity|split].
    + eexists. by split; [reflexivity|split].
    + eexists. by split; [reflexivity|split].
    + eexists. split; [reflexivity|]. split; [|done..]. simpl.
      destruct s as [w0 o], (alive a); exact Hlive.
Qed.
End totp.

(** ** Type safety

    For an object over any runtime, provider-backed ones included, with any
    arguments: no call panics, and what it returns is well typed. *)

(** From [Inv], the computation stays in [Inv], does not panic, and returns
    only values of [Q]. *)
Definition safe {S A} (Inv : S -> Prop) (Q : A -> Prop) (m : GoM S A) : Prop :=
  forall s, Inv s -> Inv (m s).2 /\ match (m s).1 with Ret a => Q a | Err _ => True | Panic => False end.

Section safe.
Context {S : Type} (Inv : S -> Prop).

Lemma safe_ret {A} (Q : A -> Prop) a : Q a -> safe Inv Q (mret a).
Proof. by intros ?. Qed.
Lemma safe_fail {A} (Q : A -> Prop) e : safe Inv Q (fail e).
Proof. done. Qed.
Lemma safe_gets {A} (g : S -> A) : safe Inv (fun _ => True) (gets g).
Proof. done. Qed.
Lemma safe_bind {A B} (Q : A -> Prop) (R : B -> Prop) (m : GoM S A) (k : A -> GoM S B) :
  safe Inv Q m -> (forall a, Q a -> safe Inv R (k a)) -> safe Inv R (m ≫= k).
Proof.
  intros Hm Hk s Hs. specialize (Hm s Hs). unfold mbind, M_bind.
  destruct (m s) as [[a|e|] s']; simpl in *; [|done|by destruct Hm].
  destruct Hm. by apply Hk.
Qed.
Lemma safe_if {A} (Q : A -> Prop) (b : bool) (m1 m2 : GoM S A) :
  safe Inv Q m1 -> safe Inv Q m2 -> safe Inv Q (if b then m1 else m2).
Proof. by destruct b. Qed.
Lemma safe_call {A} (Q : A -> Prop) (R : answer -> Prop) (wrap : A -> answer) (m : GoM S A) :
  safe Inv Q m -> (forall a, Q a -> R (wrap a)) -> safe Inv R (call wrap m).
Proof.
  intros Hm Hw s Hs. specialize (Hm s Hs). unfold call. destruct (m s) as [[a|e|] s']; simpl in *; [|done|done].
  destruct Hm as [Hi Hq]. split; [done|by apply Hw].
Qed.

(** Every answer of a sequence of safe calls. *)
Lemma safe_runAll {Op} (run : Op -> S -> result answer * S) (R : answer -> Prop) ops :
  (forall op, safe Inv R (run op)) -> forall s, Inv s ->
  Forall (fun a => match a with Ret a => R a | Err _ => True | Panic => False end) (runAll run ops s).1.
Proof.
  intros Hrun. induction ops as [|op ops IH]; intros s Hs; [by constructor|]. cbn [runAll].
  destruct (Hrun op s Hs) as [Hs1 Ha]. destruct (run op s) as [a s1]. simpl in *.
  specialize (IH s1 Hs1). destruct (runAll run ops s1). by constructor.
Qed.
End safe.

(** A code of [d] decimal digits. *)
Definition isCode (d : Z) (c : bytes) : Prop :=
  Z.of_nat (length c) = d /\ Forall (fun b => 48 <= b2z b <= 57) c.

Definition answer_ok (d : Z) (a : answer) : Prop := match a with ACode c => isCode d c | _ => True end.

Lemma dec_digits_isCode d n : 0 <= d -> isCode d (dec_digits (Z.to_nat d) n).
Proof.
  intros Hd. split; [rewrite dec_digits_length; lia|apply dec_digits_decimal].
Qed.

(** Providers that return. *)
Definition safe_runtime {X} (r : secretRuntime X) : Prop :=
  (forall p, provider r = Some p -> forall w, (p w).1 <> Panic) /\
  (forall q, hmacProvider r = Some q -> forall a m w, (q a m w).1 <> Panic).

Section hotp_types.
Context {X : Type} `{HashSuite} `{PoolPolicy}.
Abbreviation St := (world X * HOTP X)%type.

(** A well-typed object of [d] digits. *)
Record typed (d : Z) (h : HOTP X) : Prop := {
  ty_digits : Hotp.digits h = d;
  ty_range : 6 <= d <= 8;
  ty_mod : Hotp.modValue h = modValueOf d;
  ty_fn : hashFuncFor (Hotp.algorithm h) = Some (Hotp.hashFunc h);
  ty_new : secret (Hotp.runtime h) <> None -> Hotp.macPoolNew h = true;
  ty_runtime : safe_runtime (Hotp.runtime h)
}.
Definition typed_state (d : Z) (s : St) : Prop := typed d s.2.

(** A runtime of the package: a static secret or providers, not both. *)
Definition one_source (r : secretRuntime X) : Prop := secret r = None \/ hasExternalProvider r = false.

Lemma newHOTP_typed r alg d w h w' :
  newHOTPWithRuntime r alg d w = (Ret h, w') -> one_source r -> safe_runtime r -> typed d h.
Proof.
  unfold newHOTPWithRuntime. destruct (_ || _) eqn:Hd; [done|]. rewrite run_gets.
  destruct (hasStaticSecret w r) eqn:Hs, (hasExternalProvider r) eqn:He; simpl negb; cbn [andb]; try done;
    (destruct (hashFuncFor alg) eqn:Hfn; [|done]); intros [= <- _] Hone Hr;
    apply digits_guard in Hd; constructor; try done.
  simpl. destruct Hone as [-> | Hone]; congruence.
Qed.

Lemma hmac_length_ok fn key m : (20 <= length (hmac_sum fn key m))%nat.
Proof. pose proof (hmac_sum_length fn key m). pose proof (hash_size_bounds fn). lia. Qed.

Lemma computeHMAC_safe (r : secretRuntime X) alg fn m w :
  safe_runtime r -> hashFuncFor alg = Some fn ->
  match (computeHMAC r alg fn m w).1 with
  | Ret sum => (20 <= length sum)%nat | Err _ => True | Panic => False end.
Proof.
  intros [Hp Hq] Hfn. unfold computeHMAC. destruct (hmacProvider r) as [q|].
  - specialize (Hq q eq_refl alg m w). destruct (q alg m w) as [[sum|e|] w']; [|done|done].
    destruct (Z.eqb_spec (Z.of_nat (length sum)) (expectedHMACSize alg)) as [Hl|]; [|done]. simpl.
    rewrite (hashFuncFor_size _ _ Hfn) in Hl. pose proof (hash_size_bounds fn). lia.
  - unfold withMAC. rewrite run_gets. destruct (hasStaticSecret w r); [apply hmac_length_ok|].
    destruct (provider r) as [p|]; [|done]. specialize (Hp p eq_refl w).
    destruct (p w) as [[s|e|] w']; [|done|done]. cbn zeta.
    destruct (Nat.eqb _ _); [done|apply hmac_length_ok].
Qed.

(** The interface to the rest of the library: generation over a runtime. *)
Lemma hotp_truncated_safe d counter ctx : safe (typed_state d) (fun _ => True) (Hotp.computeTruncated counter ctx).
Proof.
  intros [w h] Ht. pose proof Ht as []. simpl in *. unfold Hotp.computeTruncated. rewrite run_gets.
  destruct (modValueOf_ok d ty_range0) as [Hm Hpos].
  destruct (hasStaticSecret w (Hotp.runtime h)) eqn:Hst.
  - assert (Hnew : Hotp.macPoolNew h = true).
    { apply ty_new0. intros E. unfold hasStaticSecret, slice_get in Hst. by rewrite E in Hst. }
    unfold Hotp.computeTruncatedStatic.
    assert (Hget : exists mb s', Hotp.poolGet (w, h) = (Ret mb, s') /\ typed_state d s').
    { unfold Hotp.poolGet. case_match; [eexists _, _; split; [done|]; by constructor|].
      rewrite Hnew. by eexists _, _. }
    destruct Hget as (mb & [w1 h1] & E & Ht1). rewrite (run_bind _ _ _ _ _ E), run_gets.
    simpl in Ht1. rewrite (ty_mod d h1 Ht1), Hm.
    erewrite run_bind by (unfold lift; rewrite take_0; unfold mac_Sum;
      rewrite app_nil_l, dynamicTruncate_ok by (apply hmac_length_ok || done); done).
    split; [by destruct Ht1; constructor|done].
  - cbn zeta. rewrite run_gets. simpl snd.
    set (m := if Nat.ltb 0 (length ctx) then _ else _).
    pose proof (computeHMAC_safe (Hotp.runtime h) _ _ m w ty_runtime0 ty_fn0) as Hs.
    unfold mbind, M_bind, zoom. simpl fst.
    destruct (computeHMAC (Hotp.runtime h) _ _ m w) as [[sum|e|] w']; [|done|done]. simpl in Hs.
    split; [done|]. simpl. unfold lift. by rewrite ty_mod0, Hm, dynamicTruncate_ok.
Qed.

Lemma hotp_genDigits_safe d counter ctx :
  safe (typed_state d) (isCode d) (Hotp.genDigits buf8 counter ctx).
Proof.
  unfold Hotp.genDigits. eapply safe_bind; [apply hotp_truncated_safe|]. intros code _.
  intros [w h] Ht. pose proof (ty_range d h Ht). rewrite run_gets, (ty_digits d h Ht).
  split; [done|]. unfold lift. rewrite formatOTP_ok by (unfold buf8; rewrite length_replicate; lia).
  apply dec_digits_isCode. lia.
Qed.

Lemma hotp_resync_safe d n : forall i user counter,
  safe (typed_state d) (fun _ => True) (resyncLoop n i user counter).
Proof.
  induction n as [|n IH]; intros i user counter; cbn [resyncLoop]; [by apply safe_ret|].
  apply safe_if; [by apply safe_ret|]. eapply safe_bind; [apply hotp_genDigits_safe|]. intros code _.
  apply safe_if; [by apply safe_ret|done].
Qed.

(** The guard of every method, then its body. *)
Lemma hotp_guarded d {A} (Q : A -> Prop) (m : GoM St A) e :
  safe (typed_state d) Q m ->
  safe (typed_state d) Q (c ← Hotp.isCleared; if (c : bool) then fail e else m).
Proof. intros Hm. eapply safe_bind; [apply safe_gets|]. intros [] _; [apply safe_fail|done]. Qed.

Lemma hotp_compare_safe d (user : bytes) counter ctx :
  safe (typed_state d) (fun _ => True)
    (expected ← Hotp.genDigits buf8 counter ctx; mret (constTimeEqBytes user expected)).
Proof. eapply safe_bind; [apply hotp_genDigits_safe|]. intros. by apply safe_ret. Qed.

Lemma hotp_op_safe d op : safe (typed_state d) (answer_ok d) (runHotp op).
Proof.
  destruct op as [c|c ctx|u c|u c ctx|u c n|];
    [eapply (safe_call _ (isCode d))|eapply (safe_call _ (isCode d))|
     eapply (safe_call _ (fun _ => True))..]; try done.
  - apply hotp_guarded, hotp_genDigits_safe.
  - apply hotp_guarded, hotp_genDigits_safe.
  - apply hotp_guarded, hotp_compare_safe.
  - apply hotp_guarded, hotp_compare_safe.
  - apply hotp_guarded, safe_if; [apply safe_fail|apply hotp_resync_safe].
  - intros [w h] []. split; [|done]. by constructor.
Qed.
End hotp_types.

Section totp_types.
Context {X : Type} `{HashSuite} `{PoolPolicy}.
Abbreviation St := (world X * TOTP X)%type.

Definition totp_typed (d : Z) (s : St) : Prop := typed d (core s.2) /\ Totp.period s.2 <> 0.

Lemma newTOTP_typed r alg d per (w : world X) t w' :
  newTOTPWithRuntime r alg d per w = (Ret t, w') -> one_source r -> safe_runtime r -> totp_typed d (w', t).
Proof.
  unfold newTOTPWithRuntime. destruct ((d <? 6) || (8 <? d)) eqn:Hd; [done|].
  destruct (Z.eqb_spec per 0) as [|Hp]; [done|]. intros E Hone Hr.
  assert (newHOTPWithRuntime r alg d w = (Ret (core t), w) /\ Totp.period t = per) as [Eh <-].
  { revert E. unfold newHOTPWithRuntime. rewrite Hd, !run_gets. destruct (_ && _); [done|].
    destruct (hashFuncFor alg); [|done]. by intros [= <- <-]. }
  split; [|done]. exact (newHOTP_typed _ _ _ _ _ _ Eh Hone Hr).
Qed.

Lemma totp_genDigits_safe d counter ctx :
  safe (totp_typed d) (isCode d) (Totp.genDigits buf8 counter ctx).
Proof.
  intros [w t] [Ht Hp]. rewrite genDigits_core. unfold onCore, zoom.
  pose proof (hotp_genDigits_safe d counter ctx (w, core t) Ht) as Hs.
  destruct (Hotp.genDigits buf8 counter ctx (w, core t)) as [o [w1 h1]]. destruct Hs as [Hs Ho].
  split; [|done]. split; [|done]. simpl in *. by rewrite core_with_core.
Qed.

Lemma totp_guarded d {A} (Q : A -> Prop) (k : Z -> GoM St A) e timeVal :
  (forall counter, safe (totp_typed d) Q (k counter)) ->
  safe (totp_typed d) Q
    (c ← Totp.isCleared; if (c : bool) then fail e else counter ← currentCounter timeVal; k counter).
Proof.
  intros Hk. eapply safe_bind; [apply safe_gets|]. intros [] _; [apply safe_fail|].
  apply (safe_bind _ (fun _ => True)); [|by intros].
  intros [w t] [Ht Hp]. unfold currentCounter. simpl in *. by rewrite (proj2 (Z.eqb_neq _ _) Hp).
Qed.

Lemma verifyLoop_safe d n : forall i user counter ctx matched,
  safe (totp_typed d) (fun _ => True) (verifyLoop n i user counter ctx matched).
Proof.
  induction n as [|n IH]; intros i user counter ctx matched; cbn [verifyLoop]; [by apply safe_ret|].
  cbn zeta. eapply safe_bind; [apply totp_genDigits_safe|]. intros. apply IH.
Qed.

Lemma totp_generate_safe d ctx timeVal : safe (totp_typed d) (isCode d) (Totp.GenBound ctx timeVal).
Proof. apply totp_guarded. intros. apply totp_genDigits_safe. Qed.

Lemma totp_verify_safe d user ctx timeVal window :
  safe (totp_typed d) (fun _ => True) (Totp.VerifyBound user ctx timeVal window).
Proof.
  apply totp_guarded. intros. apply safe_if; [apply safe_fail|]. cbn zeta.
  eapply safe_bind; [apply verifyLoop_safe|]. intros. by apply safe_ret.
Qed.

(** With a detector that can record. *)
Abbreviation Tr := (St * ClockSkewDetector)%type.

Definition tracked (d : Z) (tr : Tr) : Prop := totp_typed d tr.1 /\ ring_wf (state tr.2).

Lemma onTOTP_safe {A} d (Q : A -> Prop) (m : GoM St A) :
  safe (totp_typed d) Q m -> safe (tracked d) Q (onTOTP m).
Proof.
  intros Hm [s det] [Hs Hdet]. unfold onTOTP, zoom. specialize (Hm s Hs). cbn [fst snd].
  destruct (m s) as [o s']. destruct Hm as [Hs' Ho]. done.
Qed.

Lemma onDetector_safe {A} d (Q : A -> Prop) (m : GoM ClockSkewDetector A) :
  safe (fun det => ring_wf (state det)) Q m -> safe (tracked d) Q (onDetector m).
Proof.
  intros Hm [s det] [Hs Hdet]. unfold onDetector, zoom. specialize (Hm det Hdet). cbn [fst snd].
  destruct (m det) as [o det']. destruct Hm as [Hdet' Ho]. done.
Qed.

Lemma Record_safe i window : safe (fun det => ring_wf (state det)) (fun _ => True) (Record_ i window).
Proof. intros det Hd. by destruct (Record_run i window det Hd) as (det' & -> & Hd' & _). Qed.

Lemma trackLoop_safe d n : forall i user adj window,
  safe (tracked d) (fun _ => True) (trackLoop n i user adj window).
Proof.
  induction n as [|n IH]; intros i user adj window; cbn [trackLoop]; [by apply safe_ret|].
  destruct (checkedAddSigned adj i) as [c|]; [|apply IH].
  eapply safe_bind; [apply onTOTP_safe, totp_genDigits_safe|]. intros code _. cbv beta.
  apply safe_if; [|apply IH]. eapply safe_bind; [apply onDetector_safe, Record_safe|].
  intros. by apply safe_ret.
Qed.

Lemma tracking_safe d user timeVal window :
  safe (tracked d) (fun _ => True) (Totp.VerifyTracking user timeVal window).
Proof.
  eapply safe_bind; [apply onTOTP_safe, safe_gets|]. intros [] _; [apply safe_fail|].
  apply (safe_bind _ (fun _ => True)).
  - apply onTOTP_safe. intros [w t] [Ht Hp]. unfold currentCounter. simpl in *.
    by rewrite (proj2 (Z.eqb_neq _ _) Hp).
  - intros base _. apply (safe_bind _ (fun _ => True)); [by intros [s det]|]. intros off _. cbv zeta.
    apply safe_if; [apply safe_fail|apply trackLoop_safe].
Qed.

Lemma totp_op_safe d op : safe (tracked d) (answer_ok d) (runTotp op).
Proof.
  destruct op as [t|ctx t|u t n|u ctx t n|u t n| | | | |now];
    [eapply (safe_call _ (isCode d))|eapply (safe_call _ (isCode d))|
     eapply (safe_call _ (fun _ => True))..]; try done.
  - apply onTOTP_safe, (totp_generate_safe d None).
  - apply onTOTP_safe, totp_generate_safe.
  - apply onTOTP_safe, (totp_verify_safe d u None).
  - apply onTOTP_safe, totp_verify_safe.
  - apply tracking_safe.
  - apply onTOTP_safe. intros [w t] [[] Hp]. split; [|done]. split; [|done]. by constructor.
  - apply onDetector_safe. intros det Hdet. split; [|done]. apply empty_wf, Hdet.
Qed.
End totp_types.

(** ** Properties *)

(** C10: a new [HOTP] object answers every sequence of operations as
    the automaton: code function and first match while it is live,
    [ErrInvalidSecret] once it is cleared; the pool of keyed MACs, whatever its
    policy, and the earlier operations never show.  If the object was cleared,
    its key is gone from memory at the end. *)
Theorem HOTP_lifecycle_refines {X} `{HashSuite} `{PoolPolicy} (w : world X) (l : positive)
    (key : bytes) (alg : Algorithm) (fn : hashFn) (d : Z) (ops : list hotpOp)
    (Hl : w_heap w !! l = Some key) (Hk : key <> []) (Hfn : hashFuncFor alg = Some fn)
    (Hd : 6 <= d <= 8) (Hops : Forall hotpOp_ok ops) :
  exists h s', NewHOTP (Some l) alg d w = (Ret h, w) /\
    runAll runHotp ops (w, h) = ((runAll (specHotp (otp_code fn key d)) ops true).1, s') /\
    ((runAll (specHotp (otp_code fn key d)) ops true).2 = false ->
       w_heap s'.1 !! l = Some (replicate (length key) Byte.x00)).
Proof.
  destruct (NewHOTP_ok w l key alg fn d) as (h & E & Hs); [done..|].
  destruct (run_simulates runHotp (specHotp (otp_code fn key d)) hotpOp_ok (hotp_sim fn d l key)
    (fun op s a => hotp_step fn d l key Hd op s a) ops (w, h) true Hops Hs) as (s' & Er & Hs').
  exists h, s'. split; [done|]. split; [done|]. intros Ef. rewrite Ef in Hs'. by destruct Hs' as (_ & _ & ?).
Qed.

Definition sample_hotp_ops : list hotpOp :=
  [HGenerate 0; HVerify (lit "755224") 0; HVerifyWithResync (lit "969429") 0 5; HClearSecret; HGenerate 0].

Lemma HOTP_lifecycle_refines_witness :
  exists h s', NewHOTP (Some secret_loc) SHA1 6 rfc_world = (Ret h, rfc_world) /\
    @runAll _ _ (@runHotp _ Sha.suite first_idle) sample_hotp_ops (rfc_world, h) =
      ([Ret (ACode (lit "755224")); Ret (ABool true); Ret (AResync 3 true); Ret AUnit; Err ErrInvalidSecret], s').
Proof.
  destruct (@HOTP_lifecycle_refines _ Sha.suite first_idle rfc_world secret_loc rfc4226_key SHA1 sha1_New 6
    sample_hotp_ops) as (h & s' & E & Er & _); [reflexivity|discriminate|reflexivity|lia| |].
  - repeat constructor; simpl; lia.
  - exists h, s'. split; [exact E|]. rewrite Er. vm_compute. reflexivity.
Defined.

(** C4: a new [TOTP] object, with a clock skew detector of positive capacity
    and a clock, answers every sequence of operations (generation,
    verification, [VerifyTracking], [ClearSecret], auto-adjust on and off,
    reset of the detector; at given times or the clock's, the clock jumping at
    will) as the automaton: the code of the time step, membership in the
    window, the first matching step around the adjusted counter, which is
    recorded, [ErrInvalidTime] for windows over 1000, [ErrInvalidSecret] once
    cleared.  The detector ends as the automaton's, and a cleared object's key
    is gone from memory.  Arguments are any of their Go types. *)
Theorem TOTP_lifecycle_refines {X} `{HashSuite} `{PoolPolicy} (w : world X) (l : positive)
    (key : bytes) (alg : Algorithm) (fn : hashFn) (d per cap : Z) (ops : list totpOp)
    (Hl : w_heap w !! l = Some key) (Hk : key <> []) (Hfn : hashFuncFor alg = Some fn)
    (Hd : 6 <= d <= 8) (Hper : 0 < per) (Hcap : 0 < cap) (Hops : Forall totpOp_ok ops) :
  exists t det s', NewTOTP (Some l) alg d per w = (Ret t, w) /\ NewClockSkewDetector cap = Ret det /\
    let spec := runAll (specTotp (otp_code fn key d) per) ops
                  {| alive := true; clock := w_now w; detector := det |} in
    runAll runTotp ops (w, t, det) = (spec.1, s') /\ s'.2 = detector spec.2 /\
    (alive spec.2 = false -> w_heap s'.1.1 !! l = Some (replicate (length key) Byte.x00)).
Proof.
  destruct (NewTOTP_ok w l key alg fn d per) as (t & E & Hs); [done..|].
  assert (Hnew : exists det, NewClockSkewDetector cap = Ret det /\ detector_ok det).
  { unfold NewClockSkewDetector. rewrite (proj2 (Z.ltb_ge _ _)) by lia. eexists. split; [done|].
    split; [by apply empty_wf|simpl; lia]. }
  destruct Hnew as (det & Edet & Hdet).
  destruct (run_simulates runTotp (specTotp (otp_code fn key d) per) totpOp_ok (totp_sim fn d per l key)
    (fun op s a => totp_step fn d per l key Hd Hper op s a) ops (w, t, det)
    {| alive := true; clock := w_now w; detector := det |} Hops) as (s' & Er & Hs'); [by split|].
  exists t, det, s'. split; [done|]. split; [done|]. cbv zeta. split; [exact Er|].
  destruct Hs' as [Hlive _ Hdet' _]. split; [done|]. intros Ef. rewrite Ef in Hlive. by destruct Hlive as (_ & _ & ?).
Qed.

(** The clock at 59 s; codes of counter 1 from the clock, at given times, at
    the very top of the time range, and after the secret is cleared. *)
Definition sample_totp_ops : list totpOp :=
  [TClock (59 * 10 ^ 9); TGenerate None; TVerify (lit "94287082") (Some 89) 1;
   TVerify (lit "94287082") (Some 120) 1; TVerify (lit "94287082") (Some 59) 1001;
   TVerifyTracking (lit "94287082") (Some 119) 3; TVerifyTracking (lit "00000000") (Some 119) 3;
   TVerify (lit "94287082") (Some (2 ^ 64 - 1)) 1; TClearSecret; TVerifyTracking (lit "94287082") None 1].

Lemma TOTP_lifecycle_refines_witness :
  exists t det s', NewTOTP (Some secret_loc) SHA1 8 30 (rfc6238_world 20) = (Ret t, rfc6238_world 20) /\
    @runAll _ _ (@runTotp _ Sha.suite first_idle) sample_totp_ops (rfc6238_world 20, t, det) =
      ([Ret AUnit; Ret (ACode (lit "94287082")); Ret (ABool true); Ret (ABool false); Err ErrInvalidTime;
        Ret (ABool true); Ret (ABool false); Ret (ABool false); Ret AUnit; Err ErrInvalidSecret], s') /\
    contents (state s'.2) = [-2].
Proof.
  destruct (@TOTP_lifecycle_refines _ Sha.suite first_idle (rfc6238_world 20) secret_loc (rfc6238_key 20) SHA1
    sha1_New 8 30 16 sample_totp_ops) as (t & det & s' & E & Edet & Er & Hdet & _);
    [reflexivity|discriminate|reflexivity|lia|lia|lia| |].
  - assert (Ht : forall t, time_ok (Some t) <-> 0 <= t < 2 ^ 64).
    { intros t. split; [intros H; by apply H|by intros ? ? [= <-]]. }
    unfold sample_totp_ops. repeat (apply Forall_cons; split); try apply Forall_nil_2; simpl;
      rewrite ?Ht; by repeat split; try lia.
  - exists t, det, s'. split; [exact E|]. rewrite Er, Hdet. vm_compute in Edet. injection Edet as <-.
    split; vm_compute; reflexivity.
Defined.

(** C11: type safety of the objects, over any runtime whose providers return
    (whatever bytes and errors they answer): after any constructor that
    succeeds, no sequence of operations of an [HOTP] object, nor of a [TOTP]
    object with a detector of positive capacity ([VerifyTracking], clock times
    and detector operations included), with any arguments, panics, and every
    code it yields has exactly [digits] decimal digits.  (A detector of
    capacity 0 panics on its first record, [Record_capacity_0].) *)
Theorem objects_type_safe {X} `{HashSuite} `{PoolPolicy} (r : secretRuntime X) (alg : Algorithm)
    (d per cap : Z) (w w1 w2 : world X) (h : HOTP X) (t : TOTP X) (det : ClockSkewDetector)
    (hops : list hotpOp) (tops : list totpOp)
    (Hone : one_source r) (Hr : safe_runtime r)
    (Eh : newHOTPWithRuntime r alg d w = (Ret h, w1)) (Et : newTOTPWithRuntime r alg d per w = (Ret t, w2))
    (Hcap : cap <> 0) (Edet : NewClockSkewDetector cap = Ret det) :
  let well_typed a := match a with Ret a => answer_ok d a | Err _ => True | Panic => False end in
  Forall well_typed (runAll runHotp hops (w1, h)).1 /\
  Forall well_typed (runAll runTotp tops (w2, t, det)).1.
Proof.
  cbn zeta. split.
  - eapply safe_runAll; [apply hotp_op_safe|]. exact (newHOTP_typed _ _ _ _ _ _ Eh Hone Hr).
  - eapply safe_runAll; [apply totp_op_safe|].
    split; [exact (newTOTP_typed _ _ _ _ _ _ _ Et Hone Hr)|].
    unfold NewClockSkewDetector in Edet. destruct (Z.ltb_spec cap 0); [done|]. injection Edet as <-.
    apply empty_wf. lia.
Qed.

(** A provider that answers with bytes that are no HMAC. *)
Definition junk_provider : HMACProvider unit := fun alg m w =>
  (Ret (replicate (Z.to_nat (expectedHMACSize alg)) Byte.xff), w).

Lemma objects_type_safe_witness :
  exists h t w1 w2 det,
    newHOTPWithRuntime (newHMACProviderRuntime junk_provider) SHA256 7 rfc_world = (Ret h, w1) /\
    newTOTPWithRuntime (newHMACProviderRuntime junk_provider) SHA256 7 30 rfc_world = (Ret t, w2) /\
    NewClockSkewDetector 1 = Ret det /\
    Forall (fun a => match a with Ret a => answer_ok 7 a | Err _ => True | Panic => False end)
      (@runAll _ _ (@runTotp _ Sha.suite first_idle)
         [TGenerate (Some (-1)); TVerifyTracking (lit "4294967") None 3; TClearSecret; TVerify [] None (-3)]
         (w2, t, det)).1.
Proof.
  eexists _, _, _, _, _. split; [reflexivity|]. split; [reflexivity|]. split; [reflexivity|].
  refine (proj2 (@objects_type_safe unit Sha.suite first_idle (newHMACProviderRuntime junk_provider) SHA256 7 30 1
    rfc_world rfc_world rfc_world _ _ _ [] _ (or_introl eq_refl) _ eq_refl eq_refl ltac:(lia) eq_refl)).
  split; [by intros p [=]|]. by intros q [= <-].
Defined.
