(* ===== verification/ReplayStore.v ===== *)
(** * The replay store: [replay_store.go]

    The interface [ReplayStore] the verifier is written against, with its
    contract, and [InMemoryReplayStore]: a map of expiry times with an
    insertion-order list, periodic sweeps and batch eviction.  The store's
    invariant ties map and list together; it bounds the memory, and gives how
    long a recorded key is remembered.  Below its capacity the store refines a
    plain map of expiry times. *)
From S2P Require Import Prelude Errors.

(** ** [time.Time]: wall clock and, for readings of the clock, monotonic time,
    both in nanoseconds *)
Record goTime : Type := { wall : Z; mono : option Z }.

Definition zeroTime : goTime := {| wall := -62135596800 * 10 ^ 9; mono := None |}.

(** [t.After(u)]: monotonic readings when both have one. *)
Definition After (t u : goTime) : bool :=
  match mono t, mono u with
  | Some a, Some b => b <? a
  | _, _ => wall u <? wall t
  end.

Definition Add (t : goTime) (d : Z) : goTime :=
  {| wall := wall t + d; mono := (fun m => m + d) <$> mono t |}.

Definition UnixNano (t : goTime) : Z := i64 (wall t).

(** ** The interface

    Each call reads the clock; the reading is the argument [now]. *)
Class ReplayStore (S : Type) : Type := {
  CheckAndRecord : goTime -> bytes -> Z -> GoM S bool;
  Reset : GoM S unit
}.

(** What a verifier may rely on: a call fails or answers whether the key is
    new, and a key that was answered as new is known until it expires, as far
    as this one call goes. *)
Class ReplayStoreLaws (S : Type) `{ReplayStore S} (Inv : S -> Prop)
    (seen : S -> Z -> bytes -> bool) : Prop := {
  check_answers : forall s now key ttl, Inv s -> exists r s',
    CheckAndRecord now key ttl s = (r, s') /\ Inv s' /\
    (r = Ret (negb (seen s (UnixNano now) key)) \/ exists e, r = Err e);
  check_records : forall s now key ttl s', Inv s ->
    CheckAndRecord now key ttl s = (Ret true, s') ->
    forall now', UnixNano now' < i64 (UnixNano now + ttl) -> seen s' (UnixNano now') key = true
}.

(** ** [InMemoryReplayStore] *)
Record InMemoryReplayStore : Type := {
  entries : gmap bytes Z;
  order : list bytes;
  maxSize : Z;
  nextSweep : goTime;
  sweepEvery : Z
}.

Definition second : Z := 10 ^ 9.

(** [make([]string, 0, maxSize)] panics on a negative capacity. *)
Definition NewInMemoryReplayStore (max : Z) : result InMemoryReplayStore :=
  if max <? 0 then Panic
  else Ret {| entries := ∅; order := []; maxSize := max; nextSweep := zeroTime;
              sweepEvery := 30 * second |}.

Definition set_data (m : gmap bytes Z) (o : list bytes) (s : InMemoryReplayStore) : InMemoryReplayStore :=
  {| entries := m; order := o; maxSize := maxSize s; nextSweep := nextSweep s;
     sweepEvery := sweepEvery s |}.
Definition set_nextSweep (t : goTime) (s : InMemoryReplayStore) : InMemoryReplayStore :=
  {| entries := entries s; order := order s; maxSize := maxSize s; nextSweep := t;
     sweepEvery := sweepEvery s |}.

(** [len(s.entries)]. *)
Definition Size (s : InMemoryReplayStore) : Z := Z.of_nat (size (entries s)).

Fixpoint removeFromOrder (key : bytes) (l : list bytes) : list bytes :=
  match l with
  | [] => []
  | k :: l' => if decide (k = key) then l' else k :: removeFromOrder key l'
  end.

Definition removeFromOrderLocked (key : bytes) (s : InMemoryReplayStore) : InMemoryReplayStore :=
  set_data (entries s) (removeFromOrder key (order s)) s.

(** The pass over [s.order], with the map and [newOrder] so far. *)
Fixpoint sweepLoop (nowNano : Z) (l : list bytes) (m : gmap bytes Z) (newOrder : list bytes)
    : gmap bytes Z * list bytes :=
  match l with
  | [] => (m, newOrder)
  | k :: l' =>
      match m !! k with
      | None => sweepLoop nowNano l' m newOrder
      | Some exp =>
          if exp <=? nowNano then sweepLoop nowNano l' (delete k m) newOrder
          else sweepLoop nowNano l' m (newOrder ++ [k])
      end
  end.

Definition sweepExpiredLocked (nowNano : Z) (s : InMemoryReplayStore) : InMemoryReplayStore :=
  let '(m, o) := sweepLoop nowNano (order s) (entries s) [] in set_data m o s.

(** [count] from 0 to [target]: [n] rounds left. *)
Fixpoint evictLoop (n : nat) (m : gmap bytes Z) (o : list bytes) : gmap bytes Z * list bytes :=
  match n with
  | O => (m, o)
  | S n' =>
      match o with
      | [] => (m, o)
      | oldest :: o' => evictLoop n' (delete oldest m) o'
      end
  end.

Definition evictTarget (len : Z) : Z := Z.max (len / 10) 1.

Definition evictBatchLocked (s : InMemoryReplayStore) : InMemoryReplayStore :=
  let '(m, o) := evictLoop (Z.to_nat (evictTarget (Size s))) (entries s) (order s) in set_data m o s.

(** The periodic sweep at the start of a call. *)
Definition periodicSweep (now : goTime) (s : InMemoryReplayStore) : InMemoryReplayStore :=
  if After now (nextSweep s)
  then let s := sweepExpiredLocked (UnixNano now) s in set_nextSweep (Add now (sweepEvery s)) s
  else s.

(** Making room: sweep, and if that is not enough evict. *)
Definition makeRoom (nowNano : Z) (s : InMemoryReplayStore) : InMemoryReplayStore :=
  if maxSize s <=? Size s then
    let s := sweepExpiredLocked nowNano s in
    if maxSize s <=? Size s then evictBatchLocked s else s
  else s.

Definition record (key : bytes) (expireAt : Z) (s : InMemoryReplayStore) : InMemoryReplayStore :=
  let s := if bool_decide (is_Some (entries s !! key)) then removeFromOrderLocked key s else s in
  set_data (<[key := expireAt]> (entries s)) (order s ++ [key]) s.

Definition isLive (m : gmap bytes Z) (nowNano : Z) (key : bytes) : bool :=
  match m !! key with Some exp => nowNano <? exp | None => false end.

Definition checkAndRecord (now : goTime) (key : bytes) (ttl : Z) : GoM InMemoryReplayStore bool :=
  fun s =>
  let nowNano := UnixNano now in
  let expireAt := i64 (nowNano + ttl) in
  let s := periodicSweep now s in
  if isLive (entries s) nowNano key then (Ret false, s)
  else (Ret true, record key expireAt (makeRoom nowNano s)).

Definition reset : GoM InMemoryReplayStore unit := fun s =>
  (Ret tt, set_nextSweep zeroTime (set_data ∅ [] s)).

#[global] Instance in_memory_store : ReplayStore InMemoryReplayStore :=
  {| CheckAndRecord := checkAndRecord; Reset := reset |}.

(** ** The invariant *)
Record store_inv (s : InMemoryReplayStore) : Prop := {
  inv_nodup : NoDup (order s);
  inv_dom : forall k, k ∈ order s <-> is_Some (entries s !! k);
  inv_size : Size s <= Z.max (maxSize s) 1;
  inv_max : 0 <= maxSize s
}.

(** ** Lemmas on the two collections *)

(** The list is an enumeration of the map's keys. *)
Definition lists (o : list bytes) (m : gmap bytes Z) : Prop :=
  NoDup o /\ forall k, k ∈ o <-> is_Some (m !! k).

Lemma lists_size o m : lists o m -> size m = length o.
Proof.
  intros [Hnd Hdom]. rewrite <-size_dom, <-(size_list_to_set (C := gset bytes) o) by done.
  f_equal. apply leibniz_equiv. intros k. by rewrite elem_of_dom, elem_of_list_to_set, Hdom.
Qed.

Lemma inv_lists s : store_inv s -> lists (order s) (entries s).
Proof. intros []. by split. Qed.

Lemma lists_cons k o m : lists (k :: o) m -> lists o (delete k m) /\ is_Some (m !! k).
Proof.
  intros [Hnd Hdom]. apply NoDup_cons in Hnd as [Hk Hnd]. split; [split; [done|]|].
  - intros k'. rewrite lookup_delete_is_Some, <-Hdom, elem_of_cons. split.
    + intros Hk'. split; [by intros ->|by right].
    + by intros [Hne [->|?]].
  - apply Hdom. left.
Qed.

Lemma removeFromOrder_elem key l k :
  NoDup l -> k ∈ removeFromOrder key l <-> k ∈ l /\ k <> key.
Proof.
  induction 1 as [|x l Hx Hnd IH]; simpl.
  - split; [intros Hk; by apply elem_of_nil in Hk|by intros [Hk _]].
  - case_decide as E.
    + subst. rewrite elem_of_cons. split; [intros Hk; split; [by right|by intros ->]|].
      by intros [[->|?] ?].
    + rewrite !elem_of_cons, IH. split; [intros [->|[? ?]]; auto|]. intros [[->|?] ?]; auto.
Qed.

Lemma removeFromOrder_nodup key l : NoDup l -> NoDup (removeFromOrder key l).
Proof.
  induction 1 as [|x l Hx Hnd IH]; simpl; [constructor|]. case_decide; [done|].
  constructor; [|done]. by rewrite removeFromOrder_elem; [intros [? _]|].
Qed.

Lemma removeFromOrder_app key l1 l2 :
  key ∉ l2 -> removeFromOrder key (l1 ++ l2) = removeFromOrder key l1 ++ l2.
Proof.
  intros Hk. induction l1 as [|x l1 IH]; simpl.
  - clear -Hk. induction l2 as [|x l2 IH]; [done|]. simpl. apply not_elem_of_cons in Hk as [? ?].
    rewrite decide_False by congruence. by rewrite IH.
  - case_decide; [done|]. by rewrite IH.
Qed.

(** Sweeping keeps exactly the unexpired keys, in order. *)
Definition unexpired (nowNano : Z) (m : gmap bytes Z) : gmap bytes Z :=
  filter (fun p => nowNano < p.2) m.

Lemma isLive_spec m now k : isLive m now k = true <-> exists e, m !! k = Some e /\ now < e.
Proof.
  unfold isLive. destruct (m !! k) as [e|]; [rewrite Z.ltb_lt|]; split; intros H.
  - by exists e.
  - by destruct H as (e' & [= <-] & ?).
  - done.
  - by destruct H as (e' & ? & ?).
Qed.

Lemma unexpired_lookup now m k e : unexpired now m !! k = Some e <-> m !! k = Some e /\ now < e.
Proof. unfold unexpired. by rewrite map_lookup_filter_Some. Qed.

Lemma isLive_unexpired m now now' k :
  now <= now' -> isLive (unexpired now m) now' k = isLive m now' k.
Proof.
  intros Hle. apply eq_true_iff_eq. rewrite !isLive_spec. split.
  - intros (e & [? ?]%unexpired_lookup & ?). by exists e.
  - intros (e & ? & ?). exists e. rewrite unexpired_lookup. split; [split; [done|lia]|done].
Qed.

Lemma isLive_delete m now k k' : k' <> k -> isLive (delete k m) now k' = isLive m now k'.
Proof. intros Hne. unfold isLive. by rewrite lookup_delete_ne. Qed.

Lemma filter_live_ext (m m' : gmap bytes Z) now (l : list bytes) :
  (forall k, k ∈ l -> isLive m now k = isLive m' now k) ->
  filter (fun k => isLive m now k = true) l = filter (fun k => isLive m' now k = true) l.
Proof.
  intros Hext. induction l as [|k l IH]; [done|].
  rewrite !filter_cons, (Hext k) by (left). rewrite IH by (intros; apply Hext; by right). done.
Qed.

Lemma sweepLoop_spec now l : forall m acc, NoDup l ->
  (sweepLoop now l m acc).2 = acc ++ filter (fun k => isLive m now k = true) l /\
  forall k, (sweepLoop now l m acc).1 !! k =
    if decide (k ∈ l) then (if isLive m now k then m !! k else None) else m !! k.
Proof.
  induction l as [|x l IH]; intros m acc Hnd.
  { split; [by rewrite app_nil_r|]. intros k. rewrite decide_False; [done|]. apply not_elem_of_nil. }
  apply NoDup_cons in Hnd as [Hx Hnd]. cbn [sweepLoop]. rewrite filter_cons.
  assert (Hmem : forall k (a b : option Z),
    (k = x -> a = b) -> (if decide (k ∈ l) then a else b) = (if decide (k ∈ x :: l) then a else b)).
  { intros k a b Hab. destruct (decide (k ∈ l)); [by rewrite decide_True by (by right)|].
    case_decide as E; [|done]. apply elem_of_cons in E as [->|]; [by rewrite Hab|done]. }
  destruct (m !! x) as [e|] eqn:Ex; [destruct (Z.leb_spec e now)|].
  - assert (Hl : isLive m now x = false) by (unfold isLive; rewrite Ex; lia).
    destruct (IH (delete x m) acc Hnd) as [-> Hlook]. rewrite decide_False by congruence. split.
    + f_equal. apply filter_live_ext. intros k Hk. apply isLive_delete. by intros ->.
    + intros k. rewrite Hlook. destruct (decide (k = x)) as [->|Hne].
      * rewrite decide_False, lookup_delete_eq by done.
        rewrite decide_True by (left). by rewrite Hl.
      * rewrite isLive_delete, lookup_delete_ne by done. apply Hmem. done.
  - assert (Hl : isLive m now x = true) by (unfold isLive; rewrite Ex; lia).
    destruct (IH m (acc ++ [x]) Hnd) as [-> Hlook]. rewrite decide_True by done. split.
    + by rewrite <-app_assoc.
    + intros k. rewrite Hlook. apply Hmem. intros ->. by rewrite Hl.
  - assert (Hl : isLive m now x = false) by (unfold isLive; by rewrite Ex).
    destruct (IH m acc Hnd) as [-> Hlook]. rewrite decide_False by congruence. split; [done|].
    intros k. rewrite Hlook. apply Hmem. intros ->. by rewrite Hl.
Qed.

Lemma sweep_spec now o m :
  lists o m ->
  sweepLoop now o m [] = (unexpired now m, filter (fun k => isLive m now k = true) o).
Proof.
  intros [Hnd Hdom]. destruct (sweepLoop_spec now o m [] Hnd) as [H2 H1].
  destruct (sweepLoop now o m []) as [m' o']. simpl in *. f_equal; [|done].
  apply map_eq. intros k. rewrite H1. unfold unexpired, isLive. rewrite map_lookup_filter.
  destruct (m !! k) as [e|] eqn:Ek; simpl.
  - rewrite decide_True by (apply Hdom; by rewrite Ek).
    destruct (Z.ltb_spec now e); [by rewrite option_guard_True|by rewrite option_guard_False by lia].
  - by case_decide.
Qed.

Lemma lists_unexpired now o m :
  lists o m -> lists (filter (fun k => isLive m now k = true) o) (unexpired now m).
Proof.
  intros [Hnd Hdom]. split; [by apply NoDup_filter|]. intros k.
  rewrite list_elem_of_filter, isLive_spec, Hdom. unfold is_Some. setoid_rewrite unexpired_lookup.
  split; [intros [(e & ? & ?) _]; by exists e|]. intros (e & ? & ?). split; by exists e.
Qed.

(** Evicting drops the [n] oldest keys. *)
Lemma evictLoop_spec n : forall o m, lists o m ->
  (evictLoop n m o).2 = drop n o /\ lists (drop n o) (evictLoop n m o).1 /\
  forall k, (evictLoop n m o).1 !! k = if decide (k ∈ take n o) then None else m !! k.
Proof.
  induction n as [|n IH]; intros o m Hl.
  { split; [done|]. split; [done|]. intros k. rewrite decide_False; [done|]. apply not_elem_of_nil. }
  destruct o as [|x o].
  { split; [done|]. split; [done|]. intros k. rewrite decide_False; [done|]. apply not_elem_of_nil. }
  destruct (lists_cons _ _ _ Hl) as [Hl' _]. cbn [evictLoop drop take].
  destruct (IH o (delete x m) Hl') as (H2 & H1 & Hk). split; [done|]. split; [done|].
  intros k. rewrite Hk. destruct (decide (k = x)) as [->|Hne].
  - rewrite lookup_delete_eq. rewrite (decide_True (P := x ∈ x :: take n o)) by (left). by case_decide.
  - rewrite lookup_delete_ne by done.
    destruct (decide (k ∈ take n o)); [by rewrite decide_True by (by right)|].
    rewrite decide_False; [done|]. by rewrite elem_of_cons; intros [?|?].
Qed.

(** ** Each step keeps the invariant *)
Lemma store_inv_intro s :
  lists (order s) (entries s) -> Size s <= Z.max (maxSize s) 1 -> 0 <= maxSize s -> store_inv s.
Proof. intros [] **. by constructor. Qed.

Lemma Size_length s : lists (order s) (entries s) -> Size s = Z.of_nat (length (order s)).
Proof. intros Hl. unfold Size. by rewrite (lists_size _ _ Hl). Qed.

Lemma sweep_run now s :
  store_inv s -> sweepExpiredLocked now s =
    set_data (unexpired now (entries s)) (filter (fun k => isLive (entries s) now k = true) (order s)) s.
Proof. intros Hs%inv_lists. unfold sweepExpiredLocked. by rewrite sweep_spec. Qed.

Lemma sweep_inv now s : store_inv s -> store_inv (sweepExpiredLocked now s).
Proof.
  intros Hs. rewrite sweep_run by done. pose proof (inv_lists s Hs) as Hl.
  assert (Hl' := lists_unexpired now _ _ Hl). apply store_inv_intro; simpl; [done| |apply Hs].
  rewrite Size_length by done. simpl. pose proof (inv_size s Hs) as Hsz.
  rewrite Size_length in Hsz by done.
  pose proof (length_filter (fun k => isLive (entries s) now k = true) (order s)). lia.
Qed.

(** A key of the store at most [a] records from the newest, expiring at [e]. *)
Definition holds (s : InMemoryReplayStore) (k : bytes) (e : Z) (a : nat) : Prop :=
  entries s !! k = Some e /\ exists l1 l2, order s = l1 ++ k :: l2 /\ (length l2 <= a)%nat.

Lemma sweep_holds now s k e a :
  store_inv s -> now < e -> holds s k e a -> holds (sweepExpiredLocked now s) k e a.
Proof.
  intros Hs He (Hk & l1 & l2 & Ho & Hlen). rewrite sweep_run by done. split; simpl.
  - by rewrite unexpired_lookup.
  - rewrite Ho, filter_app, filter_cons, decide_True by (apply isLive_spec; by exists e).
    eexists _, _. split; [done|].
    pose proof (length_filter (fun k => isLive (entries s) now k = true) l2). lia.
Qed.

Lemma evict_run s :
  store_inv s ->
  let n := Z.to_nat (evictTarget (Size s)) in
  exists m, evictBatchLocked s = set_data m (drop n (order s)) s /\ lists (drop n (order s)) m /\
    forall k, m !! k = if decide (k ∈ take n (order s)) then None else entries s !! k.
Proof.
  intros Hs%inv_lists n. destruct (evictLoop_spec n _ _ Hs) as (H2 & H1 & Hk).
  exists (evictLoop n (entries s) (order s)).1. unfold evictBatchLocked. fold n.
  destruct (evictLoop n (entries s) (order s)) as [m o]. simpl in *. by rewrite H2.
Qed.

Lemma evict_inv s : store_inv s -> store_inv (evictBatchLocked s).
Proof.
  intros Hs. destruct (evict_run s Hs) as (m & -> & Hl & _).
  apply store_inv_intro; simpl; [done| |apply Hs]. rewrite Size_length by done. simpl.
  pose proof (inv_size s Hs) as Hsz. rewrite Size_length in Hsz by (by apply inv_lists).
  rewrite length_drop. lia.
Qed.

Lemma evict_holds s k e a :
  store_inv s -> Z.of_nat a < Size s - evictTarget (Size s) -> holds s k e a ->
  holds (evictBatchLocked s) k e a.
Proof.
  intros Hs Ha (Hk & l1 & l2 & Ho & Hlen).
  rewrite (Size_length s) in Ha by (by apply inv_lists).
  destruct (evict_run s Hs) as (m & -> & Hl & Hm).
  rewrite (Size_length s), Ho in * by (by apply inv_lists).
  set (n := Z.to_nat (evictTarget (Z.of_nat (length (l1 ++ k :: l2))))) in *.
  assert (Hn : (n <= length l1)%nat).
  { unfold n, evictTarget in *. rewrite length_app in *. cbn [length] in *. zdiv. }
  split; simpl.
  - rewrite Hm, take_app_le by done. rewrite decide_False; [done|].
    pose proof (inv_nodup s Hs) as Hnd. rewrite Ho, NoDup_app in Hnd.
    destruct Hnd as (_ & Hnd & _). intros Hin. apply (Hnd k); [|left].
    rewrite <-(take_drop n l1), elem_of_app. by left.
  - rewrite drop_app_le by done. by eexists _, _.
Qed.

Lemma isLive_sweep now now' s k :
  store_inv s -> now <= now' ->
  isLive (entries (sweepExpiredLocked now s)) now' k = isLive (entries s) now' k.
Proof. intros Hs Hle. rewrite sweep_run by done. by apply isLive_unexpired. Qed.

(** Changes to [nextSweep] alone. *)
Lemma set_nextSweep_inv t s : store_inv s -> store_inv (set_nextSweep t s).
Proof. intros []. by constructor. Qed.

Lemma periodicSweep_inv now s : store_inv s -> store_inv (periodicSweep now s).
Proof.
  intros Hs. unfold periodicSweep. case_match; [|done]. by apply set_nextSweep_inv, sweep_inv.
Qed.

Lemma periodicSweep_isLive now s k :
  store_inv s ->
  isLive (entries (periodicSweep now s)) (UnixNano now) k = isLive (entries s) (UnixNano now) k.
Proof. intros Hs. unfold periodicSweep. case_match; [|done]. by apply isLive_sweep. Qed.

Lemma periodicSweep_maxSize now s : store_inv s -> maxSize (periodicSweep now s) = maxSize s.
Proof. intros Hs. unfold periodicSweep. case_match; [|done]. by rewrite sweep_run. Qed.

Lemma periodicSweep_holds now s k e a :
  store_inv s -> UnixNano now < e -> holds s k e a -> holds (periodicSweep now s) k e a.
Proof.
  intros Hs He Hh. unfold periodicSweep. case_match; [|done].
  by apply (sweep_holds _ s).
Qed.

Lemma makeRoom_maxSize now s : store_inv s -> maxSize (makeRoom now s) = maxSize s.
Proof.
  intros Hs. unfold makeRoom. destruct (maxSize s <=? Size s); [|done].
  destruct (_ <=? _); [|by rewrite sweep_run].
  destruct (evict_run _ (sweep_inv now s Hs)) as (m & -> & _). simpl. by rewrite sweep_run.
Qed.

Lemma makeRoom_inv now s :
  store_inv s -> store_inv (makeRoom now s) /\ Size (makeRoom now s) < Z.max (maxSize s) 1.
Proof.
  intros Hs. unfold makeRoom. destruct (Z.leb_spec (maxSize s) (Size s)); [|split; [done|lia]].
  pose proof (sweep_inv now s Hs) as Hs'.
  assert (Em : maxSize (sweepExpiredLocked now s) = maxSize s) by (by rewrite sweep_run).
  destruct (Z.leb_spec (maxSize (sweepExpiredLocked now s)) (Size (sweepExpiredLocked now s)));
    [|split; [done|lia]].
  split; [by apply evict_inv|]. pose proof (inv_size _ Hs') as Hsz.
  destruct (evict_run _ Hs') as (m & -> & Hl & _).
  rewrite Size_length by done. simpl. rewrite (Size_length _ (inv_lists _ Hs')) in *.
  rewrite length_drop. unfold evictTarget. lia.
Qed.

(** Room is made at the expense of the oldest tenth only. *)
Lemma makeRoom_holds now s k e a :
  store_inv s -> now < e -> Z.of_nat a < maxSize s - evictTarget (maxSize s) ->
  holds s k e a -> holds (makeRoom now s) k e a.
Proof.
  intros Hs He Ha Hh. unfold makeRoom. destruct (_ <=? Size s); [|done].
  pose proof (sweep_inv now s Hs) as Hs'.
  assert (Em : maxSize (sweepExpiredLocked now s) = maxSize s) by (by rewrite sweep_run).
  destruct (Z.leb_spec (maxSize (sweepExpiredLocked now s)) (Size (sweepExpiredLocked now s)));
    [|by apply sweep_holds].
  apply evict_holds; [done| |by apply sweep_holds].
  assert (1 <= maxSize s) by (unfold evictTarget in Ha; zdiv).
  assert (Size (sweepExpiredLocked now s) = maxSize s) as -> by (pose proof (inv_size _ Hs'); lia).
  done.
Qed.

Lemma record_lists key e s :
  lists (order s) (entries s) -> lists (order (record key e s)) (entries (record key e s)).
Proof.
  intros [Hnd Hdom]. unfold record. case_bool_decide as E; (split; simpl; [|intros k]).
  - apply NoDup_app. split; [by apply removeFromOrder_nodup|]. split; [|apply NoDup_singleton].
    intros k Hk. apply removeFromOrder_elem in Hk as [_ Hk]; [|done].
    by rewrite list_elem_of_singleton.
  - rewrite elem_of_app, list_elem_of_singleton, removeFromOrder_elem by done.
    rewrite lookup_insert_is_Some', Hdom. destruct (decide (k = key)) as [->|]; [tauto|].
    split; [intros [[? _]|?]; [by right|done]|intros [->|?]; [by right|by left]].
  - apply NoDup_app. split; [done|]. split; [|apply NoDup_singleton].
    intros k Hk. rewrite list_elem_of_singleton. intros ->. by apply E, Hdom.
  - rewrite elem_of_app, list_elem_of_singleton, lookup_insert_is_Some', Hdom.
    split; [intros [?|?]|intros [?|?]]; auto.
Qed.

Lemma record_inv key e s :
  store_inv s -> Size s < Z.max (maxSize s) 1 -> store_inv (record key e s).
Proof.
  intros Hs Hlt. pose proof (record_lists key e s (inv_lists s Hs)) as Hl.
  assert (Em : maxSize (record key e s) = maxSize s) by (unfold record; by case_bool_decide).
  apply store_inv_intro; [done| |rewrite Em; apply Hs]. rewrite Em.
  assert (Size (record key e s) <= Size s + 1); [|lia].
  assert (entries (record key e s) = <[key := e]> (entries s)) as Ee
    by (unfold record; by case_bool_decide).
  unfold Size. rewrite Ee, map_size_insert. destruct (entries s !! key); simpl; lia.
Qed.

Lemma record_new key e s : holds (record key e s) key e 0.
Proof.
  unfold record. case_bool_decide; (split; simpl; [by rewrite lookup_insert_eq|]);
    eexists _, []; by split.
Qed.

Lemma record_holds key e' s k e a :
  store_inv s -> k <> key -> holds s k e a -> holds (record key e' s) k e (S a).
Proof.
  intros Hs Hne (Hk & l1 & l2 & Ho & Hlen). unfold record.
  case_bool_decide; (split; simpl; [by rewrite lookup_insert_ne|]); rewrite Ho.
  - destruct (decide (key ∈ k :: l2)) as [Hin|Hin].
    + apply elem_of_cons in Hin as [?|Hin]; [done|].
      assert (Hnot : key ∉ l1).
      { pose proof (inv_nodup s Hs) as Hnd. rewrite Ho, NoDup_app in Hnd.
        destruct Hnd as (_ & Hnd & _). intros Hin'. apply (Hnd key Hin'). by right. }
      exists l1, (removeFromOrder key l2 ++ [key]). split.
      * rewrite app_comm_cons, app_assoc. f_equal. clear -Hnot Hne.
        induction l1 as [|x l1 IH]; simpl; [by rewrite decide_False|].
        apply not_elem_of_cons in Hnot as [? ?]. rewrite decide_False by done. by rewrite IH.
      * rewrite length_app. simpl. clear -Hlen Hin.
        enough (S (length (removeFromOrder key l2)) = length l2) by lia.
        clear Hlen. induction l2 as [|x l2 IH]; simpl; [by apply elem_of_nil in Hin|].
        case_decide; [done|]. apply elem_of_cons in Hin as [->|]; [done|]. simpl. by rewrite IH.
    + rewrite removeFromOrder_app by done. exists (removeFromOrder key l1), (l2 ++ [key]).
      rewrite <-app_assoc, length_app. simpl. split; [done|lia].
  - exists l1, (l2 ++ [key]). rewrite <-app_assoc, length_app. simpl. split; [done|lia].
Qed.

(** ** One call *)
Lemma checkAndRecord_run now key ttl s :
  store_inv s ->
  exists s', checkAndRecord now key ttl s = (Ret (negb (isLive (entries s) (UnixNano now) key)), s') /\
    store_inv s' /\ maxSize s' = maxSize s /\
    (isLive (entries s) (UnixNano now) key = false -> holds s' key (i64 (UnixNano now + ttl)) 0).
Proof.
  intros Hs. unfold checkAndRecord. rewrite periodicSweep_isLive by done.
  pose proof (periodicSweep_inv now s Hs) as Hs1.
  pose proof (periodicSweep_maxSize now s Hs) as Em.
  destruct (isLive (entries s) (UnixNano now) key).
  - eexists. split; [done|]. split; [done|]. by split.
  - destruct (makeRoom_inv (UnixNano now) _ Hs1) as [Hs2 Hlt].
    pose proof (makeRoom_maxSize (UnixNano now) _ Hs1) as Em2.
    eexists. split; [done|]. split; [apply record_inv; [done|by rewrite Em2]|]. split.
    + rewrite <-Em, <-Em2. unfold record. by case_bool_decide.
    + intros _. apply record_new.
Qed.

(** A remembered key ages by at most one record per new key. *)
Lemma checkAndRecord_holds now key ttl s k e a :
  store_inv s -> UnixNano now < e -> holds s k e a ->
  Z.of_nat a < maxSize s - evictTarget (maxSize s) ->
  holds (checkAndRecord now key ttl s).2 k e
    (if isLive (entries s) (UnixNano now) key then a else S a).
Proof.
  intros Hs He Hh Ha. unfold checkAndRecord. rewrite periodicSweep_isLive by done.
  pose proof (periodicSweep_inv now s Hs) as Hs1. pose proof (periodicSweep_maxSize now s Hs) as Em.
  destruct (isLive (entries s) (UnixNano now) key) eqn:E; simpl.
  - by apply periodicSweep_holds.
  - assert (k <> key).
    { intros ->. destruct Hh as [Hk _]. unfold isLive in E. rewrite Hk in E. lia. }
    apply record_holds; [by apply makeRoom_inv|done|].
    apply makeRoom_holds; [done|done|by rewrite Em|]. by apply periodicSweep_holds.
Qed.

Lemma holds_isLive s k e a now : holds s k e a -> now < e -> isLive (entries s) now k = true.
Proof. intros [Hk _] He. apply isLive_spec. by exists e. Qed.

(** Nothing but the checked key becomes live. *)
Lemma subset_isLive (m m' : gmap bytes Z) t k : m ⊆ m' -> isLive m t k = true -> isLive m' t k = true.
Proof.
  intros Hsub. rewrite !isLive_spec. intros (e & Hk & He). exists e. split; [|done].
  by apply (lookup_weaken m).
Qed.

Lemma sweep_subset now s : store_inv s -> entries (sweepExpiredLocked now s) ⊆ entries s.
Proof. intros Hs. rewrite sweep_run by done. simpl. apply map_filter_subseteq. Qed.

Lemma makeRoom_subset now s : store_inv s -> entries (makeRoom now s) ⊆ entries s.
Proof.
  intros Hs. unfold makeRoom. destruct (_ <=? Size s); [|done].
  destruct (_ <=? _); [|by apply sweep_subset].
  destruct (evict_run _ (sweep_inv now s Hs)) as (m & -> & _ & Hm). simpl.
  etrans; [|by apply (sweep_subset now)]. apply map_subseteq_spec. intros k e. rewrite Hm. by case_decide.
Qed.

Lemma checkAndRecord_others now key ttl s k t :
  store_inv s -> k <> key ->
  isLive (entries (checkAndRecord now key ttl s).2) t k = true -> isLive (entries s) t k = true.
Proof.
  intros Hs Hne. pose proof (periodicSweep_inv now s Hs) as Hs1.
  assert (Hp : entries (periodicSweep now s) ⊆ entries s).
  { unfold periodicSweep. case_match; [by apply (sweep_subset (UnixNano now) s)|done]. }
  unfold checkAndRecord. case_match; cbn [snd]; [by apply subset_isLive|].
  assert (Er : forall e s', entries (record key e s') = <[key := e]> (entries s'))
    by (intros; unfold record; by case_bool_decide).
  rewrite Er. intros Hl. apply (subset_isLive (entries (makeRoom (UnixNano now) (periodicSweep now s)))).
  { etrans; [by apply makeRoom_subset|done]. }
  revert Hl. unfold isLive. by rewrite lookup_insert_ne.
Qed.

#[global] Instance in_memory_laws :
  ReplayStoreLaws InMemoryReplayStore store_inv (fun s now k => isLive (entries s) now k).
Proof.
  constructor.
  - intros s now key ttl Hs. destruct (checkAndRecord_run now key ttl s Hs) as (s' & E & Hs' & _).
    eexists _, s'. split; [exact E|]. split; [done|]. by left.
  - intros s now key ttl s' Hs E now' Hnow.
    destruct (checkAndRecord_run now key ttl s Hs) as (s1 & E1 & _ & _ & Hh).
    simpl in E. rewrite E1 in E. injection E as Hb ->. rewrite negb_true_iff in Hb.
    apply holds_isLive with (1 := Hh Hb). done.
Qed.

(** ** Sequences of calls *)
Inductive storeOp : Type :=
| OpCheck (now : goTime) (key : bytes) (ttl : Z)
| OpReset.

(** The answers, [None] for a reset. *)
Fixpoint runOps (ops : list storeOp) : GoM InMemoryReplayStore (list (option bool)) :=
  match ops with
  | [] => mret []
  | OpCheck now key ttl :: ops' =>
      b ← CheckAndRecord now key ttl; bs ← runOps ops'; mret (Some b :: bs)
  | OpReset :: ops' => _ ← Reset; bs ← runOps ops'; mret (None :: bs)
  end.

Lemma empty_lists : lists [] ∅.
Proof.
  split; [constructor|]. intros k. rewrite lookup_empty. split; [intros Hk; by apply elem_of_nil in Hk|].
  by intros [? ?].
Qed.

Lemma reset_inv s : store_inv s -> store_inv (reset s).2.
Proof.
  intros Hs. apply store_inv_intro; simpl; [|unfold Size; simpl; rewrite map_size_empty; lia|apply Hs].
  apply empty_lists.
Qed.

Lemma runOps_inv ops : forall s, store_inv s ->
  exists bs s', runOps ops s = (Ret bs, s') /\ store_inv s' /\ maxSize s' = maxSize s.
Proof.
  induction ops as [|[now key ttl|] ops IH]; intros s Hs; [by eexists _, _| |].
  - destruct (checkAndRecord_run now key ttl s Hs) as (s1 & E1 & Hs1 & Em & _).
    destruct (IH s1 Hs1) as (bs & s2 & E2 & Hs2 & Em2).
    eexists _, s2. cbn [runOps]. rewrite (run_bind _ _ _ _ _ E1), (run_bind _ _ _ _ _ E2).
    split; [done|]. split; [done|congruence].
  - destruct (IH _ (reset_inv s Hs)) as (bs & s2 & E2 & Hs2 & Em2).
    eexists _, s2. cbn [runOps]. assert (E1 : @Reset InMemoryReplayStore _ s = (Ret tt, (reset s).2)) by done.
    rewrite (run_bind _ _ _ _ _ E1).
    rewrite (run_bind _ _ _ _ _ E2). done.
Qed.

Definition newStore (max : Z) : InMemoryReplayStore :=
  {| entries := ∅; order := []; maxSize := max; nextSweep := zeroTime; sweepEvery := 30 * second |}.

Lemma newStore_inv max : 0 <= max -> store_inv (newStore max).
Proof.
  intros Hm. apply store_inv_intro; simpl; [|unfold Size; simpl; rewrite map_size_empty; lia|done].
  apply empty_lists.
Qed.

(** ** Reference: an unbounded map of expiry times *)
Definition specCheck (nowNano : Z) (key : bytes) (ttl : Z) (m : gmap bytes Z) : bool * gmap bytes Z :=
  if isLive m nowNano key then (false, m) else (true, <[key := i64 (nowNano + ttl)]> m).

Fixpoint specRun (calls : list (goTime * bytes * Z)) (m : gmap bytes Z) : list bool :=
  match calls with
  | [] => []
  | (now, key, ttl) :: calls' =>
      let '(b, m') := specCheck (UnixNano now) key ttl m in b :: specRun calls' m'
  end.

Fixpoint runChecks (calls : list (goTime * bytes * Z)) : GoM InMemoryReplayStore (list bool) :=
  match calls with
  | [] => mret []
  | (now, key, ttl) :: calls' =>
      b ← CheckAndRecord now key ttl; bs ← runChecks calls'; mret (b :: bs)
  end.

(** How many answers were "first seen". *)
Definition fresh (bs : list bool) : Z := Z.of_nat (length (filter (fun b => b = true) bs)).

Lemma fresh_cons b bs : fresh (b :: bs) = (if b then 1 else 0) + fresh bs.
Proof.
  unfold fresh. rewrite filter_cons. destruct b; [rewrite decide_True by done|rewrite decide_False by done];
    cbn [length]; lia.
Qed.

Lemma fresh_nonneg bs : 0 <= fresh bs.
Proof. unfold fresh. lia. Qed.

(** The clock does not run backwards. *)
Fixpoint forward (t : Z) (calls : list (goTime * bytes * Z)) : Prop :=
  match calls with
  | [] => True
  | (now, _, _) :: calls' => t <= UnixNano now /\ forward (UnixNano now) calls'
  end.

(** From time [t] on, store and map agree about what is live. *)
Definition agree (t : Z) (s : InMemoryReplayStore) (m : gmap bytes Z) : Prop :=
  forall now k, t <= now -> isLive (entries s) now k = isLive m now k.

Lemma agree_later t t' s m : t <= t' -> agree t s m -> agree t' s m.
Proof. intros Hle Ha now k Hnow. apply Ha. lia. Qed.

Lemma agree_sweep now s m : store_inv s -> agree now s m -> agree now (sweepExpiredLocked now s) m.
Proof. intros Hs Ha t k Ht. rewrite isLive_sweep by done. by apply Ha. Qed.

Lemma agree_periodicSweep now s m :
  store_inv s -> agree (UnixNano now) s m -> agree (UnixNano now) (periodicSweep now s) m.
Proof. intros Hs Ha. unfold periodicSweep. case_match; [|done]. by apply (agree_sweep _ s). Qed.

Lemma isLive_insert m key e now k :
  isLive (<[key := e]> m) now k = if decide (k = key) then now <? e else isLive m now k.
Proof.
  unfold isLive. case_decide as E; [subst; by rewrite lookup_insert_eq|by rewrite lookup_insert_ne].
Qed.

Lemma agree_record t s m key e : agree t s m -> agree t (record key e s) (<[key := e]> m).
Proof.
  intros Ha now k Hnow.
  assert (entries (record key e s) = <[key := e]> (entries s)) as ->
    by (unfold record; by case_bool_decide).
  rewrite !isLive_insert. case_decide; [done|]. by apply Ha.
Qed.

Lemma periodicSweep_Size now s : store_inv s -> Size (periodicSweep now s) <= Size s.
Proof.
  intros Hs. unfold periodicSweep. case_match; [|done].
  change (Size (sweepExpiredLocked (UnixNano now) s) <= Size s).
  rewrite (Size_length _ (inv_lists _ (sweep_inv _ _ Hs))), (Size_length _ (inv_lists _ Hs)).
  rewrite sweep_run by done. simpl.
  pose proof (length_filter (fun k => isLive (entries s) (UnixNano now) k = true) (order s)). lia.
Qed.

Lemma record_Size key e s : Size (record key e s) <= Size s + 1.
Proof.
  assert (entries (record key e s) = <[key := e]> (entries s)) as E
    by (unfold record; by case_bool_decide).
  unfold Size. rewrite E, map_size_insert. destruct (entries s !! key); simpl; lia.
Qed.

(** One call below the capacity simulates the reference. *)
Lemma checkAndRecord_spec now key ttl s m :
  store_inv s -> agree (UnixNano now) s m ->
  Size s + (if (specCheck (UnixNano now) key ttl m).1 then 1 else 0) <= maxSize s ->
  exists s', checkAndRecord now key ttl s = (Ret (specCheck (UnixNano now) key ttl m).1, s') /\
    store_inv s' /\ agree (UnixNano now) s' (specCheck (UnixNano now) key ttl m).2 /\
    maxSize s' = maxSize s /\
    Size s' <= Size s + (if (specCheck (UnixNano now) key ttl m).1 then 1 else 0).
Proof.
  intros Hs Ha Hsz. destruct (checkAndRecord_run now key ttl s Hs) as (s' & E & Hs' & Em & _).
  exists s'. unfold specCheck in *. rewrite <-(Ha (UnixNano now) key) in * by done.
  rewrite <-(periodicSweep_isLive now s key Hs) in *.
  pose proof (agree_periodicSweep now s m Hs Ha) as Ha1.
  pose proof (periodicSweep_Size now s Hs) as Hsz1.
  pose proof (periodicSweep_maxSize now s Hs) as Em1.
  pose proof E as E'. unfold checkAndRecord in E'.
  destruct (isLive (entries (periodicSweep now s)) (UnixNano now) key); simplify_eq/=.
  - split; [done|]. split; [done|]. split; [done|]. split; [done|lia].
  - rewrite E. split; [done|]. split; [done|].
    assert (makeRoom (UnixNano now) (periodicSweep now s) = periodicSweep now s) as ->.
    { unfold makeRoom. by rewrite (proj2 (Z.leb_gt _ _)) by lia. }
    split; [by apply agree_record|]. split; [|pose proof (record_Size key (i64 (UnixNano now + ttl)) (periodicSweep now s)); lia].
    by destruct (bool_decide (is_Some (entries (periodicSweep now s) !! key))).
Qed.

Lemma runChecks_spec calls : forall t s m,
  store_inv s -> agree t s m -> forward t calls -> Size s + fresh (specRun calls m) <= maxSize s ->
  exists s', runChecks calls s = (Ret (specRun calls m), s') /\ store_inv s'.
Proof.
  induction calls as [|[[now key] ttl] calls IH]; intros t s m Hs Ha Hf Hsz; [by exists s|].
  destruct Hf as [Ht Hf]. apply (agree_later t (UnixNano now)) in Ha; [|done].
  destruct (checkAndRecord_spec now key ttl s m Hs Ha) as (s1 & E1 & Hs1 & Ha1 & Em & Hsz1).
  { cbn [specRun] in Hsz. destruct (specCheck _ _ _ _) as [b m']. rewrite fresh_cons in Hsz.
    pose proof (fresh_nonneg (specRun calls m')). simpl. lia. }
  cbn [specRun runChecks] in *. destruct (specCheck _ _ _ _) as [b m']. simpl in *.
  rewrite fresh_cons in Hsz.
  destruct (IH (UnixNano now) s1 m' Hs1 Ha1 Hf ltac:(lia)) as (s2 & E2 & Hs2).
  exists s2. split; [|done]. rewrite (run_bind _ _ _ _ _ E1). by rewrite (run_bind _ _ _ _ _ E2).
Qed.

Lemma runChecks_inv calls : forall s, store_inv s ->
  exists bs s', runChecks calls s = (Ret bs, s') /\ store_inv s' /\ maxSize s' = maxSize s.
Proof.
  induction calls as [|[[now key] ttl] calls IH]; intros s Hs; [by eexists _, _|].
  destruct (checkAndRecord_run now key ttl s Hs) as (s1 & E1 & Hs1 & Em & _).
  destruct (IH s1 Hs1) as (bs & s2 & E2 & Hs2 & Em2). eexists _, s2. cbn [runChecks].
  rewrite (run_bind _ _ _ _ _ E1), (run_bind _ _ _ _ _ E2). split; [done|]. split; [done|congruence].
Qed.

(** A key survives as many fresh records as leave it out of the oldest tenth. *)
Lemma runChecks_holds calls : forall s k e a bs s',
  store_inv s -> holds s k e a -> Forall (fun c => UnixNano c.1.1 < e) calls ->
  runChecks calls s = (Ret bs, s') ->
  Z.of_nat a + fresh bs <= maxSize s - evictTarget (maxSize s) ->
  exists a', holds s' k e a' /\ store_inv s'.
Proof.
  induction calls as [|[[now key] ttl] calls IH]; intros s k e a bs s' Hs Hh Hf E Ha.
  { injection E as <- <-. by exists a. }
  apply Forall_cons in Hf as [He Hf]. simpl in He.
  destruct (checkAndRecord_run now key ttl s Hs) as (s1 & E1 & Hs1 & Em & _).
  destruct (runChecks_inv calls s1 Hs1) as (bs1 & s2 & E2 & _).
  cbn [runChecks] in E. rewrite (run_bind _ _ _ _ _ E1), (run_bind _ _ _ _ _ E2) in E.
  injection E as <- <-. rewrite fresh_cons in Ha. pose proof (fresh_nonneg bs1).
  destruct (isLive (entries s) (UnixNano now) key) eqn:El; simpl in Ha.
  - destruct (decide (Z.of_nat a < maxSize s - evictTarget (maxSize s))) as [Hlt|Hge].
    + pose proof (checkAndRecord_holds now key ttl s k e a Hs He Hh Hlt) as Hh1.
      rewrite E1, El in Hh1. apply (IH s1 k e a bs1 s2 Hs1 Hh1 Hf E2). rewrite Em. lia.
    + apply (IH s1 k e a bs1 s2 Hs1); [|done|done|rewrite Em; lia].
      unfold checkAndRecord in E1. rewrite periodicSweep_isLive, El in E1 by done.
      injection E1 as <-. by apply periodicSweep_holds.
  - pose proof (checkAndRecord_holds now key ttl s k e a Hs He Hh ltac:(lia)) as Hh1.
    rewrite E1, El in Hh1. apply (IH s1 k e (S a) bs1 s2 Hs1 Hh1 Hf E2). rewrite Em. lia.
Qed.

(** A recorded key is still live after [calls]. *)
Lemma recorded_is_live s now0 key ttl s1 calls bs s2 now :
  store_inv s -> checkAndRecord now0 key ttl s = (Ret true, s1) ->
  Forall (fun c => UnixNano c.1.1 < i64 (UnixNano now0 + ttl)) calls ->
  UnixNano now < i64 (UnixNano now0 + ttl) -> runChecks calls s1 = (Ret bs, s2) ->
  fresh bs <= maxSize s - evictTarget (maxSize s) ->
  store_inv s2 /\ isLive (entries s2) (UnixNano now) key = true.
Proof.
  intros Hs E0 Hf Hnow E Hfresh.
  destruct (checkAndRecord_run now0 key ttl s Hs) as (s1' & E1 & Hs1 & Em & Hh).
  rewrite E1 in E0. injection E0 as Hb ->. rewrite negb_true_iff in Hb. specialize (Hh Hb).
  destruct (runChecks_holds calls s1 key _ 0 bs s2 Hs1 Hh Hf E) as (a' & Hh2 & Hs2);
    [rewrite Em; lia|]. split; [done|]. by apply (holds_isLive _ _ _ _ _ Hh2).
Qed.

(** ** Properties *)

(** C21: a store of any non-negative size answers every sequence of
    calls and resets without panic or error, its list and its map always hold
    the same keys, each once, and it never holds more than
    [max(maxSize, 1)] of them. *)
Theorem InMemoryReplayStore_bounded max ops :
  0 <= max ->
  exists s0 bs s, NewInMemoryReplayStore max = Ret s0 /\ runOps ops s0 = (Ret bs, s) /\
    Size s <= Z.max max 1 /\ length (order s) = size (entries s) /\ NoDup (order s) /\
    forall k, k ∈ order s <-> is_Some (entries s !! k).
Proof.
  intros Hm. exists (newStore max). unfold NewInMemoryReplayStore.
  rewrite (proj2 (Z.ltb_ge _ _)) by lia.
  destruct (runOps_inv ops (newStore max) (newStore_inv max Hm)) as (bs & s & E & Hs & Em).
  exists bs, s. split; [done|]. split; [done|].
  split; [pose proof (inv_size s Hs) as H; by rewrite Em in H|].
  split; [by rewrite (lists_size _ _ (inv_lists s Hs))|]. split; apply Hs.
Qed.

Definition at_second (n : Z) : goTime := {| wall := n * second; mono := Some (n * second) |}.

Lemma InMemoryReplayStore_bounded_witness :
  exists s0 bs s, NewInMemoryReplayStore 2 = Ret s0 /\
    runOps [OpCheck (at_second 1) (lit "a") second; OpCheck (at_second 1) (lit "b") second;
            OpReset; OpCheck (at_second 1) (lit "a") second] s0 = (Ret bs, s) /\ Size s <= Z.max 2 1.
Proof.
  destruct (InMemoryReplayStore_bounded 2 [OpCheck (at_second 1) (lit "a") second;
    OpCheck (at_second 1) (lit "b") second; OpReset; OpCheck (at_second 1) (lit "a") second] ltac:(lia))
    as (s0 & bs & s & E0 & E & H & _).
  exists s0, bs, s. split; [exact E0|]. split; [exact E|exact H].
Defined.

(** C7: once a key has been answered as new, it is answered as
    seen until its time to live ends, whatever other keys are checked in
    between, as long as at most [maxSize - max(maxSize/10, 1)] of those are
    new; the store's bounded memory costs nothing below that. *)
Theorem CheckAndRecord_remembers s now0 key ttl s1 calls bs s2 now ttl' :
  store_inv s -> CheckAndRecord now0 key ttl s = (Ret true, s1) ->
  let expiry := i64 (UnixNano now0 + ttl) in
  Forall (fun c => UnixNano c.1.1 < expiry) calls -> UnixNano now < expiry ->
  runChecks calls s1 = (Ret bs, s2) ->
  fresh bs <= maxSize s - evictTarget (maxSize s) ->
  fst (CheckAndRecord now key ttl' s2) = Ret false.
Proof.
  intros Hs E0 expiry Hf Hnow E Hfresh.
  destruct (recorded_is_live s now0 key ttl s1 calls bs s2 now Hs E0 Hf Hnow E Hfresh) as [Hs2 Hl].
  simpl. destruct (checkAndRecord_run now key ttl' s2 Hs2) as (s3 & -> & _). by rewrite Hl.
Qed.

(** A store of size 10 is checked with nine more keys. *)
Definition otherCalls (n : Z) : list (goTime * bytes * Z) :=
  (fun i => (at_second 1, [z2b i], 90 * second)) <$> seqZ 0 n.

Definition afterFirst : InMemoryReplayStore :=
  (CheckAndRecord (at_second 1) (lit "123456") (90 * second) (newStore 10)).2.

Lemma CheckAndRecord_remembers_witness :
  fst (CheckAndRecord (at_second 2) (lit "123456") second (runChecks (otherCalls 9) afterFirst).2) = Ret false.
Proof.
  apply (CheckAndRecord_remembers (newStore 10) (at_second 1) (lit "123456") (90 * second) afterFirst
    (otherCalls 9) (replicate 9 true) _ (at_second 2) second).
  - apply newStore_inv. lia.
  - vm_compute. reflexivity.
  - apply (bool_decide_unpack _). vm_compute. exact I.
  - vm_compute. reflexivity.
  - vm_compute. reflexivity.
  - vm_compute. congruence.
Defined.

(** The bound is sharp.  With one more new key the same,
    still unexpired, key is evicted and answered as new again: a bounded store
    forgets under load. *)
Theorem CheckAndRecord_evicts :
  fst (runChecks (otherCalls 10) afterFirst) = Ret (replicate 10 true) /\
  fst (CheckAndRecord (at_second 2) (lit "123456") second (runChecks (otherCalls 10) afterFirst).2) = Ret true.
Proof. split; vm_compute; reflexivity. Qed.

(** C8: while no more keys are new than the store has room for
    and the clock does not run backwards, the store's answers are those of an
    unbounded map of expiry times: a key is new exactly when it was not
    recorded before or its last record has expired. *)
Theorem InMemoryReplayStore_refines max calls t :
  0 <= max -> forward t calls -> fresh (specRun calls ∅) <= max ->
  exists s0 s, NewInMemoryReplayStore max = Ret s0 /\ runChecks calls s0 = (Ret (specRun calls ∅), s).
Proof.
  intros Hm Hf Hfresh. exists (newStore max). unfold NewInMemoryReplayStore.
  rewrite (proj2 (Z.ltb_ge _ _)) by lia.
  destruct (runChecks_spec calls t (newStore max) ∅) as (s & E & _); [by apply newStore_inv|done|done| |].
  - unfold Size. simpl. rewrite map_size_empty. lia.
  - by exists s.
Qed.

Lemma InMemoryReplayStore_refines_witness :
  exists s0 s, NewInMemoryReplayStore 2 = Ret s0 /\
    runChecks [(at_second 1, lit "a", 5 * second); (at_second 2, lit "a", second);
               (at_second 7, lit "a", second)] s0 = (Ret [true; false; true], s).
Proof.
  apply (InMemoryReplayStore_refines 2 [(at_second 1, lit "a", 5 * second); (at_second 2, lit "a", second);
    (at_second 7, lit "a", second)] 0).
  - lia.
  - repeat split; vm_compute; congruence.
  - vm_compute. congruence.
Defined.

(** A time to live that takes the expiry past the 64-bit
    nanosecond range (about the year 2262) wraps around to the past: the key
    is expired as soon as it is recorded, and an immediate replay of it is
    answered as new again. *)
Theorem CheckAndRecord_ttl_overflow s now key ttl :
  store_inv s -> 0 <= UnixNano now -> 0 <= ttl < 2 ^ 63 -> 2 ^ 63 <= UnixNano now + ttl ->
  isLive (entries s) (UnixNano now) key = false ->
  exists s1 s2, CheckAndRecord now key ttl s = (Ret true, s1) /\
    CheckAndRecord now key ttl s1 = (Ret true, s2).
Proof.
  intros Hs Hnow Httl Hover Hnew.
  destruct (checkAndRecord_run now key ttl s Hs) as (s1 & E1 & Hs1 & _ & Hh).
  destruct (checkAndRecord_run now key ttl s1 Hs1) as (s2 & E2 & _).
  exists s1, s2. simpl. rewrite E1, E2, Hnew. split; [done|].
  destruct (Hh Hnew) as [Hk _]. unfold isLive. rewrite Hk. 
  pose proof (i64_range (wall now)). unfold UnixNano in *.
  assert (i64 (i64 (wall now) + ttl) = i64 (wall now) + ttl - 2 ^ 64) as ->.
  { unfold i64 at 1. zdiv. }
  by rewrite (proj2 (Z.ltb_ge _ _)) by lia.
Qed.

Lemma CheckAndRecord_ttl_overflow_witness :
  exists s1 s2, CheckAndRecord (at_second 1700000000) (lit "a") (2 ^ 63 - 1) (newStore 10) = (Ret true, s1) /\
    CheckAndRecord (at_second 1700000000) (lit "a") (2 ^ 63 - 1) s1 = (Ret true, s2).
Proof.
  apply (CheckAndRecord_ttl_overflow (newStore 10) (at_second 1700000000) (lit "a") (2 ^ 63 - 1)).
  - apply newStore_inv. lia.
  - vm_compute. congruence.
  - lia.
  - vm_compute. congruence.
  - reflexivity.
Defined.
