(* ===== verification/Verifier.v ===== *)
(** * The verifier: [verifier.go]

    Replay protection and rate limiting over any [ReplayStore]: the calls one
    at a time, with their specification against the store's contract; and the
    calls interleaved, as a step relation whose steps are the critical
    sections of [verifyInner] ([Locking] proves that the code with its mutexes
    refines this relation). *)
From S2P Require Import Prelude Errors ConstantTime Strings Context ReplayStore.

Definition defaultMaxUsedCodes : Z := 10000.
Definition defaultReplayTTL : Z := 90 * second.

Definition replayKey (dst code context : bytes) : bytes := ((dst ++ code) ++ [Byte.x00]) ++ context.

(** The mutex and the pool of scratch buffers (truncated before each use)
    carry no state between calls. *)
Record Verifier (S : Type) : Type := {
  store : S;
  ttl : Z;
  maxAttempts : Z;
  attempts : Z
}.
Arguments store {S} _.
Arguments ttl {S} _.
Arguments maxAttempts {S} _.
Arguments attempts {S} _.

Definition NewVerifierWithStore {S} (maxAtt : Z) (st : S) (t : Z) : Verifier S :=
  {| store := st; ttl := t; maxAttempts := maxAtt; attempts := 0 |}.

Definition NewVerifierWithCapacity (maxAtt maxUsedCodes : Z) : result (Verifier InMemoryReplayStore) :=
  match NewInMemoryReplayStore maxUsedCodes with
  | Ret st => Ret (NewVerifierWithStore maxAtt st defaultReplayTTL)
  | Err e => Err e
  | Panic => Panic
  end.

Definition NewVerifier (maxAtt : Z) : result (Verifier InMemoryReplayStore) :=
  NewVerifierWithCapacity maxAtt defaultMaxUsedCodes.

Section verifier.
Context {S : Type} `{ReplayStore S}.
Abbreviation V := (Verifier S).

Definition set_attempts (n : Z) (v : V) : V :=
  {| store := store v; ttl := ttl v; maxAttempts := maxAttempts v; attempts := n |}.
Definition set_store (s : S) (v : V) : V :=
  {| store := s; ttl := ttl v; maxAttempts := maxAttempts v; attempts := attempts v |}.

(** [v.attempts++]. *)
Definition bump (v : V) : V := set_attempts (u32 (attempts v + 1)) v.

Definition verifyInner (now : goTime) (code expected issuedContext requestContext : bytes)
    : GoM V bool := fun v =>
  if maxAttempts v <=? attempts v then (Ret false, v) else
  let ctxMatch := constTimeEqBytes issuedContext requestContext in
  let codeMatch := constantTimeEq code expected in
  if negb ctxMatch || negb codeMatch then (Ret false, bump v) else
  let b := replayKey [] code issuedContext in
  match CheckAndRecord now b (ttl v) (store v) with
  | (Panic, s) => (Panic, set_store s v)
  | (Err _, s) => (Ret false, bump (set_store s v))
  | (Ret false, s) => (Ret false, bump (set_store s v))
  | (Ret true, s) => (Ret true, set_attempts 0 (set_store s v))
  end.

Definition VerifyWithReplayProtection (now : goTime) (code expected : bytes) : GoM V bool :=
  verifyInner now code expected [] [].

Definition VerifyWithContext (now : goTime) (code expected : bytes)
    (issuedContext requestContext : option OtpContext) : GoM V bool :=
  verifyInner now code expected (contextBytes issuedContext) (contextBytes requestContext).

Definition IsRateLimited (v : V) : bool := maxAttempts v <=? attempts v.

Definition ResetAttempts (v : V) : V := set_attempts 0 v.

(** The store's error is dropped. *)
Definition ClearUsedCodes : GoM V unit := fun v =>
  match Reset (store v) with
  | (Panic, s) => (Panic, set_store s v)
  | (_, s) => (Ret tt, set_store s v)
  end.

(** ** A submission, and sequences of them *)
Record submission : Type := {
  s_now : goTime; s_code : bytes; s_expected : bytes; s_issued : bytes; s_request : bytes
}.

Definition submit (r : submission) : GoM V bool :=
  verifyInner (s_now r) (s_code r) (s_expected r) (s_issued r) (s_request r).

Fixpoint submitAll (l : list submission) : GoM V (list bool) :=
  match l with
  | [] => mret []
  | r :: l' => b ← submit r; bs ← submitAll l'; mret (b :: bs)
  end.

(** The code and the context are the expected ones. *)
Definition matches (r : submission) : bool :=
  bool_decide (s_issued r = s_request r) && bool_decide (s_code r = s_expected r).

(** Go strings and slices are shorter than [2^63]. *)
Definition sized (r : submission) : Prop :=
  Z.of_nat (length (s_code r)) < 2 ^ 63 /\ Z.of_nat (length (s_expected r)) < 2 ^ 63 /\
  Z.of_nat (length (s_issued r)) < 2 ^ 63 /\ Z.of_nat (length (s_request r)) < 2 ^ 63.

Definition keyOf (r : submission) : bytes := replayKey [] (s_code r) (s_issued r).

Definition counters_ok (v : V) : Prop :=
  0 <= attempts v <= maxAttempts v /\ maxAttempts v < 2 ^ 32.

Lemma matches_guard r :
  sized r ->
  negb (constTimeEqBytes (s_issued r) (s_request r)) || negb (constantTimeEq (s_code r) (s_expected r))
  = negb (matches r).
Proof.
  intros (? & ? & ? & ?). unfold constantTimeEq, matches.
  rewrite !constTimeEqBytes_decides by done. by destruct (bool_decide _), (bool_decide _).
Qed.

Lemma matches_iff r : matches r = true <-> s_issued r = s_request r /\ s_code r = s_expected r.
Proof. unfold matches. by rewrite andb_true_iff, !bool_decide_eq_true. Qed.

Lemma matches_also r (P : Prop) :
  s_issued r = s_request r /\ s_code r = s_expected r /\ P <-> matches r = true /\ P.
Proof. rewrite matches_iff. tauto. Qed.

Lemma bump_attempts v : counters_ok v -> attempts v < maxAttempts v -> attempts (bump v) = attempts v + 1.
Proof. intros [] Hlt. simpl. rewrite u32_small; lia. Qed.
End verifier.
Arguments keyOf _ : simpl never.

(** ** Against the store's contract *)
Section laws.
Context {S : Type} `{ReplayStore S} (Inv : S -> Prop) (seen : S -> Z -> bytes -> bool)
  `{!ReplayStoreLaws S Inv seen}.

(** One submission: locked, refused or accepted. *)
Inductive submitted (r : submission) (v : Verifier S) : bool -> Verifier S -> Prop :=
| sub_locked :
    attempts v = maxAttempts v -> submitted r v false v
| sub_mismatch :
    attempts v < maxAttempts v -> matches r = false ->
    submitted r v false (set_attempts (attempts v + 1) v)
| sub_refused s :
    attempts v < maxAttempts v -> matches r = true ->
    (exists o, CheckAndRecord (s_now r) (keyOf r) (ttl v) (store v) = (o, s) /\
      (seen (store v) (UnixNano (s_now r)) (keyOf r) = true \/ exists e, o = Err e)) ->
    submitted r v false (set_attempts (attempts v + 1) (set_store s v))
| sub_accepted s :
    attempts v < maxAttempts v -> matches r = true ->
    CheckAndRecord (s_now r) (keyOf r) (ttl v) (store v) = (Ret true, s) ->
    seen (store v) (UnixNano (s_now r)) (keyOf r) = false ->
    submitted r v true (set_attempts 0 (set_store s v)).

Lemma submit_run r v :
  Inv (store v) -> counters_ok v -> sized r ->
  exists b v', submit r v = (Ret b, v') /\ Inv (store v') /\ counters_ok v' /\
    maxAttempts v' = maxAttempts v /\ ttl v' = ttl v /\ submitted r v b v'.
Proof.
  intros Hi Hc Hr. pose proof Hc as [Ha Hm]. unfold submit, verifyInner. rewrite matches_guard by done.
  destruct (Z.leb_spec (maxAttempts v) (attempts v)).
  { exists false, v. do 5 (split; [done|]). apply sub_locked. lia. }
  assert (Hb : u32 (attempts v + 1) = attempts v + 1) by (apply u32_small; lia).
  destruct (matches r) eqn:Em; simpl negb; cbv iota.
  2: { eexists _, _. split; [done|]. unfold bump. rewrite Hb. do 2 (split; [done || split; simpl; lia|]).
       do 2 (split; [done|]). by apply sub_mismatch. }
  destruct (check_answers (store v) (s_now r) (keyOf r) (ttl v) Hi) as (o & s & E & Hi' & Ho).
  change (replayKey [] (s_code r) (s_issued r)) with (keyOf r). rewrite E.
  assert (Hrefused : (seen (store v) (UnixNano (s_now r)) (keyOf r) = true \/ exists e, o = Err e) ->
    exists b v', (Ret false, bump (set_store s v)) = (Ret (E := error) b, v') /\ Inv (store v') /\
      counters_ok v' /\ maxAttempts v' = maxAttempts v /\ ttl v' = ttl v /\ submitted r v b v').
  { intros Hs. eexists _, _. split; [done|]. unfold bump. simpl attempts. rewrite Hb.
    do 2 (split; [done || split; simpl; lia|]). do 2 (split; [done|]).
    apply sub_refused; [done|done|]. by exists o. }
  destruct Ho as [-> | [e -> ]]; [|apply Hrefused; right; by exists e].
  destruct (seen (store v) (UnixNano (s_now r)) (keyOf r)) eqn:Es; simpl; [apply Hrefused; by left|].
  eexists _, _. split; [done|]. do 2 (split; [done || split; simpl; lia|]). do 2 (split; [done|]).
  by apply sub_accepted.
Qed.

(** Without an acceptance the counter only climbs, one step per submission,
    and stops at the limit. *)
Lemma submitAll_run l : forall v,
  Inv (store v) -> counters_ok v -> Forall sized l ->
  exists bs v', submitAll l v = (Ret bs, v') /\ Inv (store v') /\ counters_ok v' /\
    maxAttempts v' = maxAttempts v /\ length bs = length l /\
    (Forall (fun b => b = false) bs -> attempts v' = Z.min (attempts v + Z.of_nat (length l)) (maxAttempts v)).
Proof.
  induction l as [|r l IH]; intros v Hi Hc Hl.
  { exists [], v. do 5 (split; [done|]). intros _. destruct Hc. simpl. lia. }
  apply Forall_cons in Hl as [Hr Hl].
  destruct (submit_run r v Hi Hc Hr) as (b & v1 & E1 & Hi1 & Hc1 & Em1 & _ & Hs).
  destruct (IH v1 Hi1 Hc1 Hl) as (bs & v2 & E2 & Hi2 & Hc2 & Em2 & Hlen & Ha).
  exists (b :: bs), v2. cbn [submitAll]. rewrite (run_bind _ _ _ _ _ E1), (run_bind _ _ _ _ _ E2).
  do 3 (split; [done|]). split; [congruence|]. split; [simpl; congruence|].
  intros [Hb Hbs]%Forall_cons. rewrite (Ha Hbs), Em1. destruct Hc.
  destruct Hs; simpl; try lia.
Qed.
End laws.

(** ** With the in-memory store *)

(** A submission makes at most one call to the store, and is accepted exactly
    when that call says the key is new. *)
Lemma submit_store r (v : Verifier InMemoryReplayStore) b v' :
  submit r v = (Ret b, v') ->
  (store v' = store v /\ b = false) \/
  CheckAndRecord (s_now r) (keyOf r) (ttl v) (store v) = (Ret b, store v').
Proof.
  unfold submit, verifyInner. destruct (_ <=? _); [intros [= <- <-]; by left|].
  destruct (_ || _); [intros [= <- <-]; by left|].
  change (replayKey [] (s_code r) (s_issued r)) with (keyOf r).
  destruct (CheckAndRecord _ _ _ _) as [o s] eqn:E. simpl in E. unfold checkAndRecord in E.
  destruct (isLive _ _ _); simplify_eq/=; intros [= <- <-]; by right.
Qed.

Lemma submit_ttl r (v : Verifier InMemoryReplayStore) b v' :
  submit r v = (Ret b, v') -> ttl v' = ttl v.
Proof.
  unfold submit, verifyInner. destruct (_ <=? _); [by intros [= <- <-]|].
  destruct (_ || _); [by intros [= <- <-]|].
  destruct (CheckAndRecord _ _ _ _) as [[[]| |] s]; intros E; by simplify_eq/=.
Qed.

(** The store calls behind a sequence of submissions. *)
Lemma submitAll_store l : forall (v : Verifier InMemoryReplayStore) bs v',
  submitAll l v = (Ret bs, v') ->
  exists calls answers, runChecks calls (store v) = (Ret answers, store v') /\
    fresh answers = fresh bs /\ ttl v' = ttl v /\
    Forall (fun c => exists r, r ∈ l /\ c.1.1 = s_now r) calls.
Proof.
  induction l as [|r l IH]; intros v bs v' E.
  { injection E as <- <-. by exists [], []. }
  cbn [submitAll] in E. unfold mbind, M_bind in E.
  destruct (submit r v) as [[b|e|] v1] eqn:E1; [|done..].
  destruct (submitAll l v1) as [[bs1|e|] v2] eqn:E2; [|done..]. injection E as <- <-.
  destruct (IH v1 bs1 v2 E2) as (calls & ans & Er & Ef & Et & Hc).
  rewrite <-(submit_ttl r v b v1 E1).
  assert (Hc' : Forall (fun c => exists r', r' ∈ r :: l /\ c.1.1 = s_now r') calls).
  { eapply Forall_impl; [exact Hc|]. intros c (r' & Hin & Hc'). exists r'. split; [by right|done]. }
  destruct (submit_store r v b v1 E1) as [[Es ->]|Es].
  - exists calls, ans. rewrite <-Es, fresh_cons. by repeat split.
  - exists ((s_now r, keyOf r, ttl v) :: calls), (b :: ans). cbn [runChecks].
    rewrite (run_bind _ _ _ _ _ Es), (run_bind _ _ _ _ _ Er), !fresh_cons, Ef.
    do 3 (split; [done|]). constructor; [|done]. exists r. split; [left|done].
Qed.

(** ** Concurrent submissions

    Each thread loops: check the limit under the lock, compare, call the
    store (atomic under the store's lock), then update the counter under the
    lock.  Other threads run between any two of these steps. *)
Section concurrent.
Context {S : Type} `{ReplayStore S}.

Inductive pc : Type :=
| Idle
| Passed (r : submission)     (** past the limit check *)
| ToStore (r : submission)    (** codes matched *)
| Failing                     (** about to run [v.attempts++] *)
| Winning.                    (** about to run [v.attempts = 0] *)

Record conf : Type := { verifier : Verifier S; threads : list pc }.

Inductive label : Type :=
| LPass (i : nat)
| LLocked (i : nat)
| LCompare (i : nat)
| LStore (i : nat) (r : submission) (firstSeen : bool)
| LFail (i : nat)
| LWin (i : nat).

Definition set_pc (i : nat) (p : pc) (c : conf) : conf :=
  {| verifier := verifier c; threads := <[i := p]> (threads c) |}.
Definition set_v (v : Verifier S) (c : conf) : conf :=
  {| verifier := v; threads := threads c |}.

Inductive step : conf -> label -> conf -> Prop :=
| step_pass c i r :
    threads c !! i = Some Idle -> attempts (verifier c) < maxAttempts (verifier c) ->
    step c (LPass i) (set_pc i (Passed r) c)
| step_locked c i :
    threads c !! i = Some Idle -> maxAttempts (verifier c) <= attempts (verifier c) ->
    step c (LLocked i) c
| step_compare c i r :
    threads c !! i = Some (Passed r) ->
    step c (LCompare i)
      (set_pc i (if negb (constTimeEqBytes (s_issued r) (s_request r))
                    || negb (constantTimeEq (s_code r) (s_expected r))
                 then Failing else ToStore r) c)
| step_store c i r o s :
    threads c !! i = Some (ToStore r) ->
    CheckAndRecord (s_now r) (keyOf r) (ttl (verifier c)) (store (verifier c)) = (o, s) ->
    o <> Panic ->
    step c (LStore i r (bool_decide (o = Ret true)))
      (set_pc i (if bool_decide (o = Ret true) then Winning else Failing)
        (set_v (set_store s (verifier c)) c))
| step_fail c i :
    threads c !! i = Some Failing ->
    step c (LFail i) (set_pc i Idle (set_v (bump (verifier c)) c))
| step_win c i :
    threads c !! i = Some Winning ->
    step c (LWin i) (set_pc i Idle (set_v (set_attempts 0 (verifier c)) c)).

Inductive steps : conf -> list label -> conf -> Prop :=
| steps_nil c : steps c [] c
| steps_snoc c tr c1 l c2 : steps c tr c1 -> step c1 l c2 -> steps c (tr ++ [l]) c2.

(** [k] idle threads on a verifier. *)
Definition initial (v : Verifier S) (k : nat) : conf := {| verifier := v; threads := replicate k Idle |}.

Definition isPass (l : label) : bool := match l with LPass _ => true | _ => false end.
Definition isWinStore (l : label) : bool := match l with LStore _ _ b => b | _ => false end.
Definition count (p : label -> bool) (tr : list label) : Z :=
  Z.of_nat (length (filter (fun l => p l = true) tr)).

Definition busy (p : pc) : Z := match p with Idle => 0 | _ => 1 end.
Definition inFlight (c : conf) : Z := zsum (busy <$> threads c).

(** While nobody has won, every check passed is counted or still in flight,
    and nobody is about to reset. *)
Record noWin (k : nat) (tr : list label) (v0 : Verifier S) (c : conf) : Prop := {
  nw_max : maxAttempts (verifier c) = maxAttempts v0;
  nw_att : 0 <= attempts (verifier c);
  nw_threads : length (threads c) = k;
  nw_nowin : Forall (fun p => p <> Winning) (threads c);
  nw_count : attempts v0 + count isPass tr = attempts (verifier c) + inFlight c;
  nw_bound : attempts (verifier c) + inFlight c <= Z.max (attempts v0) (maxAttempts v0 + Z.of_nat k - 1)
}.
End concurrent.
Arguments conf _ : clear implicits.

Section concurrent_lemmas.
Context {S : Type} `{ReplayStore S}.

Lemma count_snoc p tr l : count p (tr ++ [l]) = count p tr + (if p l then 1 else 0).
Proof.
  unfold count. rewrite filter_app, length_app, filter_cons, filter_nil.
  destruct (p l); [rewrite decide_True by done|rewrite decide_False by done]; simpl; lia.
Qed.

Lemma inFlight_set c i p old :
  threads c !! i = Some old -> inFlight (S := S) (set_pc i p c) = inFlight c - busy old + busy p.
Proof.
  intros Hi. unfold inFlight, set_pc. simpl. rewrite list_fmap_insert.
  apply zsum_insert. by rewrite list_lookup_fmap, Hi.
Qed.

Lemma busy_range p : 0 <= busy p <= 1.
Proof. by destruct p. Qed.

Lemma inFlight_range (c : conf S) : 0 <= inFlight c <= Z.of_nat (length (threads c)).
Proof.
  unfold inFlight. induction (threads c) as [|p l IH]; [done|].
  rewrite fmap_cons. unfold zsum in *. cbn [foldr length]. pose proof (busy_range p). lia.
Qed.

Lemma inFlight_idle (c : conf S) i :
  threads c !! i = Some Idle -> inFlight c <= Z.of_nat (length (threads c)) - 1.
Proof.
  intros Hi. pose proof (inFlight_set c i Failing Idle Hi) as E.
  pose proof (inFlight_range (set_pc i Failing c)) as Hr. simpl in *.
  rewrite length_insert in Hr. lia.
Qed.

Lemma noWin_step k tr v0 c l c' :
  noWin (S := S) k tr v0 c -> attempts v0 <= maxAttempts v0 -> maxAttempts v0 + Z.of_nat k <= 2 ^ 32 ->
  step c l c' -> isWinStore l = false -> noWin k (tr ++ [l]) v0 c'.
Proof.
  intros [] Ha Hm Hstep Hw. pose proof (inFlight_range c) as Hfl.
  assert (Hlen : forall i p, length (threads (set_pc i p c)) = k) by (intros; simpl; by rewrite length_insert).
  destruct Hstep as [c i r Hi Hlt|c i Hi Hge|c i r Hi|c i r o s Hi E Hp|c i Hi|c i Hi];
    rewrite ?nw_threads0 in Hfl.
  - pose proof (inFlight_idle c i Hi) as Hidle.
    pose proof (inFlight_set c i (Passed r) Idle Hi) as Ef. simpl busy in Ef.
    constructor; [done|done|done|by apply Forall_insert| |];
      rewrite ?count_snoc; simpl isPass; cbv iota; simpl verifier; lia.
  - constructor; try done. rewrite count_snoc. simpl isPass. cbv iota. lia.
  - set (p := if _ || _ then Failing else ToStore r).
    assert (Hp : busy p = 1 /\ p <> Winning) by (unfold p; by case_match).
    destruct Hp as [Hp Hnw]. pose proof (inFlight_set c i p (Passed r) Hi) as Ef. simpl (busy (Passed r)) in Ef.
    constructor; [done|done|done|by apply Forall_insert| |];
      rewrite ?count_snoc; simpl isPass; cbv iota; simpl verifier; lia.
  - simpl in Hw. rewrite Hw in *.
    pose proof (inFlight_set (set_v (set_store s (verifier c)) c) i Failing (ToStore r) Hi) as Ef.
    change (inFlight (set_v (set_store s (verifier c)) c)) with (inFlight c) in Ef. simpl busy in Ef.
    constructor; [done|done|simpl; by rewrite length_insert|by apply Forall_insert| |];
      rewrite ?count_snoc; simpl isPass; cbv iota; simpl (attempts (verifier _)); lia.
  - pose proof (inFlight_set (set_v (bump (verifier c)) c) i Idle Failing Hi) as Ef.
    change (inFlight (set_v (bump (verifier c)) c)) with (inFlight c) in Ef. simpl busy in Ef.
    assert (Hb : attempts (bump (verifier c)) = attempts (verifier c) + 1).
    { simpl. apply u32_small. pose proof (inFlight_range (set_pc i Idle (set_v (bump (verifier c)) c))). lia. }
    constructor; [done|simpl; pose proof (u32_range (attempts (verifier c) + 1)); lia
      |simpl; by rewrite length_insert|by apply Forall_insert| |];
      rewrite ?count_snoc; simpl isPass; cbv iota;
      change (attempts (verifier (set_pc i Idle (set_v (bump (verifier c)) c))))
        with (attempts (bump (verifier c))); lia.
  - exfalso. by apply (Forall_lookup_1 _ _ _ _ nw_nowin0 Hi).
Qed.

Lemma noWin_init v k : 0 <= attempts v -> noWin (S := S) k [] v (initial v k).
Proof.
  intros Ha. assert (inFlight (initial v k) = 0) as E.
  { unfold inFlight, initial. simpl. rewrite fmap_replicate. clear.
    induction k as [|k IH]; [done|]. change (busy Idle + zsum (replicate k (busy Idle)) = 0). by rewrite IH. }
  constructor; rewrite ?E; cbn [verifier threads initial].
  - done.
  - done.
  - apply length_replicate.
  - by apply Forall_replicate.
  - unfold count. simpl. lia.
  - lia.
Qed.

Lemma noWin_steps c0 tr c :
  steps (S := S) c0 tr c -> forall v k, c0 = initial v k ->
  0 <= attempts v <= maxAttempts v -> maxAttempts v + Z.of_nat k <= 2 ^ 32 ->
  Forall (fun l => isWinStore l = false) tr -> noWin k tr v c.
Proof.
  induction 1 as [c|c tr c1 l c2 Hs IH Hstep]; intros v k -> Ha Hm Hw.
  - apply noWin_init. lia.
  - apply Forall_app in Hw as [Hw [Hl _]%Forall_cons].
    apply (noWin_step k tr v c1 l c2); [exact (IH v k eq_refl Ha Hm Hw)|lia|lia|done|done].
Qed.
End concurrent_lemmas.

(** The store calls of a trace, in order: the trace is linearised at them. *)
Definition storeCalls (t : Z) (tr : list label) : list (goTime * bytes * Z) :=
  omap (fun l => match l with LStore _ r _ => Some (s_now r, keyOf r, t) | _ => None end) tr.
Definition storeAnswers (tr : list label) : list bool :=
  omap (fun l => match l with LStore _ _ b => Some b | _ => None end) tr.

Lemma runChecks_app cs1 : forall cs2 s bs1 s1,
  runChecks cs1 s = (Ret bs1, s1) ->
  runChecks (cs1 ++ cs2) s =
  match runChecks cs2 s1 with
  | (Ret bs2, s2) => (Ret (bs1 ++ bs2), s2)
  | (Err e, s2) => (Err e, s2)
  | (Panic, s2) => (Panic, s2)
  end.
Proof.
  induction cs1 as [|[[now key] t] cs1 IH]; intros cs2 s bs1 s1 E.
  - injection E as <- <-. simpl. by destruct (runChecks cs2 s) as [[]].
  - cbn [app runChecks] in *. unfold mbind, M_bind in *.
    destruct (CheckAndRecord now key t s) as [[b|e|] s'] eqn:Eb; [|done..].
    destruct (runChecks cs1 s') as [[bs|e|] s''] eqn:Er; [|done..]. injection E as <- <-.
    rewrite (IH cs2 s' bs s'' Er). by destruct (runChecks cs2 s'') as [[]].
Qed.

Lemma steps_store c0 tr c :
  steps (S := InMemoryReplayStore) c0 tr c -> forall t, ttl (verifier c0) = t ->
  ttl (verifier c) = t /\
  runChecks (storeCalls t tr) (store (verifier c0)) = (Ret (storeAnswers tr), store (verifier c)).
Proof.
  induction 1 as [c|c tr c1 l c2 Hs IH Hstep]; intros t Ht; [done|].
  destruct (IH t Ht) as [Ht1 Er]. unfold storeCalls, storeAnswers in *. rewrite !omap_app.
  rewrite (runChecks_app _ _ _ _ _ Er).
  destruct Hstep as [| | |c1 i r o s Hi E Hp| | ]; simpl; rewrite ?app_nil_r; try done.
  split; [done|]. rewrite Ht1 in E. cbn [runChecks]. unfold mbind, M_bind.
  simpl in E. rewrite E. unfold checkAndRecord in E.
  by destruct (isLive _ _ _); injection E as <- <-.
Qed.

(** ** Properties *)

Section properties.
Context {S : Type} `{ReplayStore S} (Inv : S -> Prop) (seen : S -> Z -> bytes -> bool)
  `{!ReplayStoreLaws S Inv seen}.

(** C1: on any store that keeps its contract, a submission is
    accepted exactly when the verifier is not locked, contexts and codes
    agree, and the store answers that (code, context) is new.  A locked
    verifier rejects and changes nothing, store included; any other
    rejection, whatever its cause (wrong code, wrong context, replay or store
    error), adds one attempt; an acceptance resets them and leaves the key
    known to the store until its time to live ends.  The store is called once
    when the verifier is not locked and everything agrees, and is untouched
    otherwise: a wrong code or context records nothing. *)
Theorem verifyInner_spec r (v : Verifier S)
    (Hi : Inv (store v)) (Hc : counters_ok v) (Hr : sized r) :
  exists b v', verifyInner (s_now r) (s_code r) (s_expected r) (s_issued r) (s_request r) v = (Ret b, v') /\
    Inv (store v') /\ counters_ok v' /\
    (b = true <-> attempts v < maxAttempts v /\ s_issued r = s_request r /\ s_code r = s_expected r /\
       fst (CheckAndRecord (s_now r) (replayKey [] (s_code r) (s_issued r)) (ttl v) (store v)) = Ret true) /\
    (IsRateLimited v = true -> b = false /\ v' = v) /\
    (IsRateLimited v = false -> attempts v' = if b then 0 else attempts v + 1) /\
    maxAttempts v' = maxAttempts v /\ ttl v' = ttl v /\
    (attempts v < maxAttempts v /\ s_issued r = s_request r /\ s_code r = s_expected r ->
       store v' = snd (CheckAndRecord (s_now r) (replayKey [] (s_code r) (s_issued r)) (ttl v) (store v))) /\
    (~ (attempts v < maxAttempts v /\ s_issued r = s_request r /\ s_code r = s_expected r) ->
       store v' = store v) /\
    (b = true -> forall t, UnixNano t < i64 (UnixNano (s_now r) + ttl v) ->
       seen (store v') (UnixNano t) (replayKey [] (s_code r) (s_issued r)) = true).
Proof.
  destruct (submit_run Inv seen r v Hi Hc Hr) as (b & v' & E & Hi' & Hc' & Hm' & Ht' & Hs).
  exists b, v'. split; [exact E|]. split; [done|]. split; [done|].
  rewrite <-matches_iff. unfold IsRateLimited. rewrite Z.leb_le, Z.leb_gt. fold (keyOf r).
  destruct Hs as [Hl|Hl Hf|s Hl Hf (o & Eo & Hseen)|s Hl Hf Eo Hseen].
  - split; [split; [done|lia]|]. by repeat split; try lia.
  - split; [split; [done|]|].
    { intros (_ & Ht). apply matches_also in Ht as [Ht _]. congruence. }
    repeat split; try done; try lia; intros [_ ?]; congruence.
  - split; [split; [done|]|].
    { intros (_ & Ht). apply matches_also in Ht as [_ Ht]. rewrite Eo in Ht. simpl in Ht. subst o.
      destruct Hseen as [Hseen|[e [=]]].
      destruct (check_answers (store v) (s_now r) (keyOf r) (ttl v) Hi) as (o' & s' & E' & _ & Ho).
      rewrite Eo in E'. injection E' as <- <-. rewrite Hseen in Ho. by destruct Ho as [?|[? ?]]. }
    repeat split; try done; try lia; rewrite ?Eo; try done. intros Hn. by destruct Hn.
  - split; [split; [intros _|done]|].
    { rewrite Eo. split; [done|]. by apply matches_also. }
    split; [lia|]. split; [done|]. split; [done|]. split; [done|].
    split; [by rewrite Eo|]. split; [intros Hn; by destruct Hn|]. intros _ t Ht. simpl.
    by apply (check_records (store v) (s_now r) (keyOf r) (ttl v) s Hi Eo).
Qed.

(** C14: rate limiting cannot be bypassed by mixing kinds of bad
    submissions.  From any state, as long as nothing is accepted, [n]
    submissions leave [min(attempts + n, maxAttempts)] attempts; so after
    [maxAttempts] of them the verifier is locked, and then every submission,
    right or wrong, is rejected without effect. *)
Theorem verifier_lockout (l : list submission) (r : submission) (v : Verifier S)
    (Hi : Inv (store v)) (Hc : counters_ok v) (Hl : Forall sized l) (Hr : sized r) :
  exists bs v', submitAll l v = (Ret bs, v') /\ length bs = length l /\
    (Forall (fun b => b = false) bs ->
      attempts v' = Z.min (attempts v + Z.of_nat (length l)) (maxAttempts v) /\
      (maxAttempts v <= attempts v + Z.of_nat (length l) ->
        IsRateLimited v' = true /\ submit r v' = (Ret false, v'))).
Proof.
  destruct (submitAll_run Inv seen l v Hi Hc Hl) as (bs & v' & E & Hi' & Hc' & Em & Hlen & Ha).
  exists bs, v'. split; [done|]. split; [done|]. intros Hb. specialize (Ha Hb).
  split; [done|]. intros Hmax.
  assert (Hlim : (maxAttempts v' <=? attempts v') = true) by (rewrite Em, Ha; lia).
  split; [done|]. unfold submit, verifyInner. by rewrite Hlim.
Qed.
End properties.

(** A submission of [code] against itself, in context [ctx], at second [t]. *)
Definition good (t : Z) (code ctx : bytes) : submission :=
  {| s_now := at_second t; s_code := code; s_expected := code; s_issued := ctx; s_request := ctx |}.
Definition bad (t : Z) (code : bytes) : submission :=
  {| s_now := at_second t; s_code := code; s_expected := lit "000000"; s_issued := []; s_request := [] |}.

Definition verifier3 : Verifier InMemoryReplayStore :=
  NewVerifierWithStore 3 (newStore 10) defaultReplayTTL.

Lemma verifier3_ok : store_inv (store verifier3) /\ counters_ok verifier3.
Proof. split; [by apply newStore_inv|]. unfold counters_ok. simpl. lia. Qed.

Lemma verifyInner_spec_witness :
  exists b v', verifyInner (at_second 1) (lit "123456") (lit "123456") [] [] verifier3 = (Ret b, v') /\ b = true.
Proof.
  destruct (verifyInner_spec store_inv (fun s t k => isLive (entries s) t k) (good 1 (lit "123456") [])
    verifier3 (proj1 verifier3_ok) (proj2 verifier3_ok) ltac:(by unfold sized)) as (b & v' & E & _ & _ & Hb & _).
  exists b, v'. split; [exact E|]. apply Hb. split; [vm_compute; reflexivity|].
  split; [reflexivity|]. split; [reflexivity|]. vm_compute. reflexivity.
Defined.

Lemma verifier_lockout_witness :
  exists bs v', submitAll [bad 1 (lit "111111"); bad 1 (lit "222222"); bad 2 (lit "333333")] verifier3
    = (Ret bs, v') /\ submit (good 3 (lit "123456") []) v' = (Ret false, v').
Proof.
  destruct (verifier_lockout store_inv (fun s t k => isLive (entries s) t k)
    [bad 1 (lit "111111"); bad 1 (lit "222222"); bad 2 (lit "333333")] (good 3 (lit "123456") []) verifier3
    (proj1 verifier3_ok) (proj2 verifier3_ok) ltac:(by repeat constructor) ltac:(by unfold sized))
    as (bs & v' & E & _ & H).
  exists bs, v'. split; [exact E|].
  assert (Hb : Forall (fun b => b = false) bs).
  { assert (Hv : fst (submitAll [bad 1 (lit "111111"); bad 1 (lit "222222"); bad 2 (lit "333333")] verifier3)
      = Ret [false; false; false]) by (vm_compute; reflexivity).
    rewrite E in Hv. injection Hv as ->. by repeat constructor. }
  destruct (H Hb) as [_ Hlock]. apply Hlock. vm_compute. congruence.
Defined.

(** The accepted call of [submit_store]. *)
Lemma submit_accepted r (v : Verifier InMemoryReplayStore) v' :
  submit r v = (Ret true, v') ->
  CheckAndRecord (s_now r) (keyOf r) (ttl v) (store v) = (Ret true, store v').
Proof. intros E. by destruct (submit_store r v true v' E) as [[_ ?]|?]. Qed.

(** Over the in-memory store a submission always returns. *)
Lemma submit_ret r (v : Verifier InMemoryReplayStore) : exists b v', submit r v = (Ret b, v').
Proof.
  unfold submit, verifyInner. destruct (_ <=? _); [by eexists _, _|].
  destruct (_ || _); [by eexists _, _|]. simpl. unfold checkAndRecord.
  destruct (isLive _ _ _); by eexists _, _.
Qed.

(** Over the in-memory store, an accepted (code, context) pair
    is not accepted a second time before its time to live ends, whatever
    submissions come in between, as long as at most
    [maxSize - max(maxSize/10, 1)] of them are accepted. *)
Theorem verifier_rejects_replay (r r' : submission) (l : list submission)
    (v v1 v2 : Verifier InMemoryReplayStore) (bs : list bool)
    (Hs : store_inv (store v)) (Hacc : submit r v = (Ret true, v1))
    (Hl : submitAll l v1 = (Ret bs, v2)) (Hkey : keyOf r' = keyOf r)
    (Htimes : Forall (fun x => UnixNano (s_now x) < i64 (UnixNano (s_now r) + ttl v)) (r' :: l))
    (Hfresh : fresh bs <= maxSize (store v) - evictTarget (maxSize (store v))) :
  fst (submit r' v2) = Ret false.
Proof.
  apply Forall_cons in Htimes as [Hr' Htimes].
  destruct (submitAll_store l v1 bs v2 Hl) as (calls & answers & Er & Ef & _ & Hc).
  rewrite <-Ef in Hfresh.
  destruct (recorded_is_live _ _ _ _ _ calls answers (store v2) (s_now r') Hs
    (submit_accepted r v v1 Hacc)) as [Hs2 Hlive]; [|done..|].
  { eapply Forall_impl; [exact Hc|]. intros c (x & Hx & ->).
    exact (proj1 (Forall_forall _ l) Htimes x Hx). }
  destruct (submit_ret r' v2) as ([] & v3 & E3); [|by rewrite E3].
  pose proof (submit_accepted r' v2 v3 E3) as E4. simpl in E4. rewrite Hkey in E4.
  destruct (checkAndRecord_run (s_now r') (keyOf r) (ttl v2) (store v2) Hs2) as (s4 & E5 & _).
  by rewrite E5, Hlive in E4.
Qed.

Lemma verifier_rejects_replay_witness :
  fst (submit (good 60 (lit "123456") [])
    (snd (submitAll [good 2 (lit "222222") []; bad 3 (lit "111111")]
      (snd (submit (good 1 (lit "123456") []) verifier3))))) = Ret false.
Proof.
  apply (verifier_rejects_replay (good 1 (lit "123456") []) (good 60 (lit "123456") [])
    [good 2 (lit "222222") []; bad 3 (lit "111111")] verifier3
    (snd (submit (good 1 (lit "123456") []) verifier3)) _ [true; false]).
  - apply verifier3_ok.
  - vm_compute. reflexivity.
  - vm_compute. reflexivity.
  - reflexivity.
  - apply (bool_decide_unpack _). vm_compute. exact I.
  - vm_compute. congruence.
Defined.

Lemma replayKey_inj (code1 code2 ctx1 ctx2 : bytes) :
  Byte.x00 ∉ code1 -> Byte.x00 ∉ code2 ->
  replayKey [] code1 ctx1 = replayKey [] code2 ctx2 -> code1 = code2 /\ ctx1 = ctx2.
Proof.
  unfold replayKey. rewrite !app_nil_l, <-!app_assoc. revert code2.
  induction code1 as [|b code1 IH]; intros [|b' code2] H1 H2 E.
  - by injection E as ->.
  - exfalso. injection E as <- _. apply H2. left.
  - exfalso. injection E as -> _. apply H1. left.
  - injection E as -> E. apply not_elem_of_cons in H1 as [_ H1], H2 as [_ H2].
    by destruct (IH code2 H1 H2 E) as [-> ->].
Qed.

Lemma submit_resets r (v v' : Verifier InMemoryReplayStore) :
  submit r v = (Ret true, v') -> attempts v' = 0 /\ maxAttempts v' = maxAttempts v.
Proof.
  unfold submit, verifyInner. destruct (_ <=? _); [done|]. destruct (_ || _); [done|].
  destruct (CheckAndRecord _ _ _ _) as [[[]| |] s]; [|done..].
  by intros [= <-].
Qed.

(** C20: replay records are per context.  Codes without a NUL byte
    (every code this package produces) and contexts determine the key, so
    accepting a code in one context never makes the verifier reject the same
    code, or another, in a different context where it was new. *)
Theorem verifier_isolates_contexts (r r' : submission) (v v1 : Verifier InMemoryReplayStore)
    (Hs : store_inv (store v)) (Hc : counters_ok v) (Hmax : 0 < maxAttempts v)
    (Hsz : sized r') (Hacc : submit r v = (Ret true, v1))
    (Hcode : Byte.x00 ∉ s_code r) (Hcode' : Byte.x00 ∉ s_code r')
    (Hne : (s_code r, s_issued r) <> (s_code r', s_issued r'))
    (Hmatch : s_issued r' = s_request r' /\ s_code r' = s_expected r')
    (Hnew : isLive (entries (store v)) (UnixNano (s_now r')) (keyOf r') = false) :
  fst (submit r' v1) = Ret true.
Proof.
  pose proof (submit_accepted r v v1 Hacc) as E0. simpl in E0.
  destruct (checkAndRecord_run (s_now r) (keyOf r) (ttl v) (store v) Hs) as (s1 & E1 & Hs1 & _).
  assert (Hk : keyOf r' <> keyOf r).
  { intros Ek. symmetry in Ek. apply replayKey_inj in Ek as [? ?]; [|done..]. apply Hne. congruence. }
  pose proof (checkAndRecord_others (s_now r) (keyOf r) (ttl v) (store v) (keyOf r')
    (UnixNano (s_now r')) Hs Hk) as Hoth.
  rewrite E0 in Hoth. simpl in Hoth. rewrite E1 in E0. injection E0 as _ ->.
  destruct (submit_resets r v v1 Hacc) as [Ha Hm].
  destruct (submit_run store_inv (fun s t k => isLive (entries s) t k) r' v1 Hs1) as
    (b & v2 & E & _ & _ & _ & _ & Hsub); [unfold counters_ok in *; rewrite Ha, Hm; lia|done|].
  rewrite E. destruct Hsub as [Hl|Hl Hf|s Hl Hf (o & Eo & Hseen)|s Hl Hf Eo Hseen]; [lia| | |done].
  - exfalso. unfold matches in Hf. destruct Hmatch as [E2 E3]. rewrite !bool_decide_eq_true_2 in Hf by done. done.
  - exfalso. destruct Hseen as [Hseen|[e ->]].
    + specialize (Hoth Hseen). congruence.
    + destruct (checkAndRecord_run (s_now r') (keyOf r') (ttl v1) (store v1) Hs1) as (s5 & E5 & _).
      simpl in Eo. by rewrite E5 in Eo.
Qed.

Lemma verifier_isolates_contexts_witness :
  fst (submit (good 2 (lit "123456") (lit "bob")) (snd (submit (good 1 (lit "123456") (lit "alice")) verifier3)))
  = Ret true.
Proof.
  apply (verifier_isolates_contexts (good 1 (lit "123456") (lit "alice")) (good 2 (lit "123456") (lit "bob"))
    verifier3 (snd (submit (good 1 (lit "123456") (lit "alice")) verifier3))).
  - apply verifier3_ok.
  - apply verifier3_ok.
  - reflexivity.
  - by unfold sized.
  - vm_compute. reflexivity.
  - apply (bool_decide_unpack _). vm_compute. exact I.
  - apply (bool_decide_unpack _). vm_compute. exact I.
  - discriminate.
  - split; reflexivity.
  - vm_compute. reflexivity.
Defined.

(** C18: rate limiting under concurrency.  With [k] threads submitting
    to one verifier, at most [maxAttempts + k - 1] submissions get past the
    limit check (have their code compared) before any is accepted: the check
    and the increment are separate critical sections, so up to [k - 1] checks
    can pass on a count about to change; the counter itself never wraps. *)
Theorem verifier_race_bound {S} `{ReplayStore S} (v : Verifier S) (k : nat) (tr : list label) (c : conf S)
    (Hk : (0 < k)%nat) (Ha : attempts v = 0) (Hm : 0 <= maxAttempts v)
    (Hbig : maxAttempts v + Z.of_nat k <= 2 ^ 32)
    (Hsteps : steps (initial v k) tr c) (Hnone : Forall (fun l => isWinStore l = false) tr) :
  count isPass tr <= maxAttempts v + Z.of_nat k - 1 /\
  0 <= attempts (verifier c) <= count isPass tr.
Proof.
  destruct (noWin_steps _ tr c Hsteps v k eq_refl ltac:(lia) Hbig Hnone).
  pose proof (inFlight_range c). lia.
Qed.

(** Two threads, one allowed attempt: both guesses are compared. *)
Definition verifier1 : Verifier InMemoryReplayStore := NewVerifierWithStore 1 (newStore 10) defaultReplayTTL.

Definition raceTrace : list label := [LPass 0; LPass 1; LCompare 0; LCompare 1; LFail 0; LFail 1].

Lemma raceTrace_steps : exists c, steps (initial verifier1 2) raceTrace c /\ attempts (verifier c) = 2.
Proof.
  eexists. split.
  - unfold raceTrace.
    change [LPass 0; LPass 1; LCompare 0; LCompare 1; LFail 0; LFail 1]
      with (((((([] ++ [LPass 0]) ++ [LPass 1]) ++ [LCompare 0]) ++ [LCompare 1]) ++ [LFail 0]) ++ [LFail 1]).
    do 6 try eapply steps_snoc; [apply steps_nil|..].
    + by apply (step_pass _ 0 (bad 1 (lit "111111"))).
    + by apply (step_pass _ 1 (bad 1 (lit "222222"))).
    + by eapply step_compare.
    + by eapply step_compare.
    + by apply step_fail.
    + by apply step_fail.
  - vm_compute. reflexivity.
Qed.

(** The bound is reached. *)
Lemma verifier_race_bound_witness :
  exists c, steps (initial verifier1 2) raceTrace c /\ count isPass raceTrace <= 1 + 2 - 1 /\
    count isPass raceTrace = 2.
Proof.
  destruct raceTrace_steps as (c & Hc & _). exists c. split; [exact Hc|].
  destruct (verifier_race_bound verifier1 2 raceTrace c ltac:(lia) eq_refl ltac:(simpl; lia)
    ltac:(simpl; lia) Hc ltac:(by repeat constructor)) as [H _].
  split; [exact H|vm_compute; reflexivity].
Defined.

Lemma storeAnswers_app tr1 tr2 : storeAnswers (tr1 ++ tr2) = storeAnswers tr1 ++ storeAnswers tr2.
Proof. apply omap_app. Qed.

Lemma steps_snoc_inv {S} `{ReplayStore S} (c0 : conf S) tr l c2 :
  steps c0 (tr ++ [l]) c2 -> exists c1, steps c0 tr c1 /\ step c1 l c2.
Proof.
  intros Hs. remember (tr ++ [l]) as t eqn:E. destruct Hs as [c|c tr' c1 l' c2 Hs Hstep].
  - by apply app_cons_not_nil in E.
  - apply app_inj_tail in E as [-> ->]. by exists c1.
Qed.

Lemma steps_app_inv {S} `{ReplayStore S} (c0 : conf S) tr1 tr2 c2 :
  steps c0 (tr1 ++ tr2) c2 -> exists c1, steps c0 tr1 c1 /\ steps c1 tr2 c2.
Proof.
  revert c2. induction tr2 as [|l tr2 IH] using rev_ind; intros c2 Hs.
  - rewrite app_nil_r in Hs. exists c2. split; [done|constructor].
  - rewrite app_assoc in Hs. apply steps_snoc_inv in Hs as (c1 & Hs & Hstep).
    destruct (IH c1 Hs) as (c' & H1 & H2). exists c'. split; [done|]. by eapply steps_snoc.
Qed.

(** A store step is one call of the store. *)
Lemma step_store_call (c : conf InMemoryReplayStore) i r b c' :
  step c (LStore i r b) c' ->
  ttl (verifier c') = ttl (verifier c) /\
  CheckAndRecord (s_now r) (keyOf r) (ttl (verifier c)) (store (verifier c)) = (Ret b, store (verifier c')).
Proof.
  intros Hst. destruct (steps_store c ([] ++ [LStore i r b]) c'
    (steps_snoc _ [] _ _ _ (steps_nil _) Hst) _ eq_refl) as [Ht E].
  split; [done|]. cbn [app storeCalls storeAnswers omap list_omap runChecks] in E.
  unfold mbind, M_bind in E. destruct (CheckAndRecord _ _ _ _) as [[b'|e|] s]; [|done..].
  by injection E as -> <-.
Qed.

(** C3: replay protection under concurrency.  In every interleaving of
    any number of threads on one verifier with the in-memory store, once a
    store call has answered that a (code, context) is new, no later call for
    the same pair is answered so before its time to live ends, as long as at
    most [maxSize - max(maxSize/10, 1)] other pairs are accepted in between:
    of threads racing with the same valid code exactly one can be accepted. *)
Theorem verifier_accepts_once (v : Verifier InMemoryReplayStore) (k i j : nat) (r r' : submission)
    (tr1 tr2 : list label) (b : bool) (c : conf InMemoryReplayStore)
    (Hs : store_inv (store v)) (Hkey : keyOf r' = keyOf r)
    (Hsteps : steps (initial v k) ((tr1 ++ [LStore i r true]) ++ (tr2 ++ [LStore j r' b])) c)
    (Htimes : Forall (fun x => UnixNano x.1.1 < i64 (UnixNano (s_now r) + ttl v))
                (storeCalls (ttl v) (tr2 ++ [LStore j r' b])))
    (Hfresh : fresh (storeAnswers tr2) <= maxSize (store v) - evictTarget (maxSize (store v))) :
  b = false.
Proof.
  apply steps_app_inv in Hsteps as (c2 & Hs2 & Hs4).
  apply steps_snoc_inv in Hs2 as (c1 & Hs1 & Hst1).
  apply steps_snoc_inv in Hs4 as (c3 & Hs3 & Hst2).
  destruct (steps_store _ _ _ Hs1 (ttl v) eq_refl) as [Ht1 Er1].
  destruct (runChecks_inv (storeCalls (ttl v) tr1) (store v) Hs) as (bs1 & s1 & E1 & Hi1 & Em1).
  cbn [verifier initial] in Er1. rewrite E1 in Er1. injection Er1 as -> ->.
  destruct (step_store_call _ _ _ _ _ Hst1) as [Ht2 E2].
  destruct (step_store_call _ _ _ _ _ Hst2) as [_ E4]. rewrite Ht1 in E2, Ht2.
  destruct (steps_store _ _ _ Hs3 (ttl v) Ht2) as [Ht3 E3]. rewrite Ht3, Hkey in E4.
  rewrite <-Em1 in Hfresh.
  destruct b; [|done]. exfalso.
  unfold storeCalls in Htimes. rewrite omap_app in Htimes. apply Forall_app in Htimes as [Htr2 Hlast].
  apply Forall_cons in Hlast as [Hlast _].
  destruct (recorded_is_live _ _ _ _ _ _ _ _ (s_now r') Hi1 E2 Htr2 Hlast E3 Hfresh) as [Hi3 Hlive].
  destruct (checkAndRecord_run (s_now r') (keyOf r) (ttl v) _ Hi3) as (s5 & E5 & _).
  simpl in E4. rewrite E5, Hlive in E4. done.
Qed.

(** Two threads submit the same valid code. *)
Definition goodSub : submission := good 1 (lit "123456") [].
Definition sharedPrefix : list label := [LPass 0; LPass 1; LCompare 0; LCompare 1].

Lemma shared_steps :
  exists c, steps (initial verifier3 2)
    ((sharedPrefix ++ [LStore 0 goodSub true]) ++ ([] ++ [LStore 1 goodSub false])) c.
Proof.
  eexists. unfold sharedPrefix.
  change ((([LPass 0; LPass 1; LCompare 0; LCompare 1] ++ [LStore 0 goodSub true]) ++
    ([] ++ [LStore 1 goodSub false])))
    with (((((([] ++ [LPass 0]) ++ [LPass 1]) ++ [LCompare 0]) ++ [LCompare 1]) ++
      [LStore 0 goodSub true]) ++ [LStore 1 goodSub false]).
  do 6 try eapply steps_snoc; [apply steps_nil|..].
  - by apply (step_pass _ 0 goodSub).
  - by apply (step_pass _ 1 goodSub).
  - by eapply step_compare.
  - by eapply step_compare.
  - by eapply (step_store _ 0 goodSub (Ret true)); [vm_compute|vm_compute|].
  - by eapply (step_store _ 1 goodSub (Ret false)); [vm_compute|vm_compute|].
Qed.

Lemma verifier_accepts_once_witness :
  (exists c, steps (initial verifier3 2)
    ((sharedPrefix ++ [LStore 0 goodSub true]) ++ ([] ++ [LStore 1 goodSub false])) c) /\
  ~ (exists c, steps (initial verifier3 2)
    ((sharedPrefix ++ [LStore 0 goodSub true]) ++ ([] ++ [LStore 1 goodSub true])) c).
Proof.
  split; [exact shared_steps|]. intros [c Hc].
  assert (Hf : Forall (fun x => UnixNano x.1.1 < i64 (UnixNano (s_now goodSub) + ttl verifier3))
    (storeCalls (ttl verifier3) ([] ++ [LStore 1 goodSub true])))
    by (apply (bool_decide_unpack _); vm_compute; exact I).
  discriminate (verifier_accepts_once verifier3 2 0 1 goodSub goodSub sharedPrefix [] true c
    (proj1 verifier3_ok) eq_refl Hc Hf ltac:(vm_compute; congruence)).
Defined.
