(* ===== verification/Locking.v ===== *)
(** * The locks: [sync.Mutex] in [verifier.go] and [replay_store.go]

    The methods of [Verifier] over [InMemoryReplayStore] as goroutines run
    them: one instruction at a time, the two mutexes explicit, every read and
    write of [v.attempts] and of the store a step of its own, so that a
    missing [Lock] or [Unlock] shows.  The locks are released on every path,
    any number of goroutines complete any calls without deadlock, no two of
    them access the same variable at once, and the interleaved code refines
    the relation [step] of [Verifier], whose steps are critical sections. *)
From stdpp Require Import functions.
From S2P Require Import Prelude Errors ConstantTime Strings Context ReplayStore Verifier.

(** ** Instructions *)

(** [v.mu] and the store's [s.mu]. *)
Inductive mutex : Type := VerifierMu | StoreMu.

#[global] Instance mutex_eq_dec : EqDecision mutex.
Proof. solve_decision. Defined.

Inductive answer : Type := ABool (b : bool) | ASize (n : Z) | ADone.

(** The code of a goroutine up to its return: [VerifierMu] guards
    [v.attempts], [StoreMu] guards the store's fields. *)
Inductive prog : Type :=
| Return (a : answer)
| Lock (m : mutex) (k : prog)
| Unlock (m : mutex) (k : prog)
| LoadAttempts (k : Z -> prog)
| StoreAttempts (n : Z) (k : prog)
| LoadStore (k : InMemoryReplayStore -> prog)
| UpdateStore (s : InMemoryReplayStore) (k : prog).

(** ** The methods *)

(** [v.mu.Lock(); v.attempts++; v.mu.Unlock()] *)
Definition failing : prog :=
  Lock VerifierMu (
  LoadAttempts (fun a => StoreAttempts (u32 (a + 1)) (
  Unlock VerifierMu (
  Return (ABool false))))).

(** [v.mu.Lock(); v.attempts = 0; v.mu.Unlock()] *)
Definition winning : prog :=
  Lock VerifierMu (
  StoreAttempts 0 (
  Unlock VerifierMu (
  Return (ABool true)))).

(** [CheckAndRecord], the [Unlock] deferred to both returns. *)
Definition CheckAndRecord_code (now : goTime) (key : bytes) (ttl : Z) (k : bool -> prog) : prog :=
  let nowNano := UnixNano now in
  let expireAt := i64 (nowNano + ttl) in
  Lock StoreMu (
  LoadStore (fun s => UpdateStore (periodicSweep now s) (
  LoadStore (fun s =>
  if isLive (entries s) nowNano key then Unlock StoreMu (k false) else
  LoadStore (fun s => UpdateStore (makeRoom nowNano s) (
  LoadStore (fun s => UpdateStore (record key expireAt s) (
  Unlock StoreMu (k true))))))))).

Definition storing (ttl : Z) (r : submission) : prog :=
  CheckAndRecord_code (s_now r) (replayKey [] (s_code r) (s_issued r)) ttl
    (fun firstSeen => if firstSeen then winning else failing).

Definition comparing (ttl : Z) (r : submission) : prog :=
  let ctxMatch := constTimeEqBytes (s_issued r) (s_request r) in
  let codeMatch := constantTimeEq (s_code r) (s_expected r) in
  if negb ctxMatch || negb codeMatch then failing else storing ttl r.

Definition verifyInner_code (maxAtt ttl : Z) (r : submission) : prog :=
  Lock VerifierMu (
  LoadAttempts (fun a =>
  if maxAtt <=? a then Unlock VerifierMu (Return (ABool false)) else
  Unlock VerifierMu (
  comparing ttl r))).

Definition IsRateLimited_code (maxAtt : Z) : prog :=
  Lock VerifierMu (LoadAttempts (fun a => Unlock VerifierMu (Return (ABool (maxAtt <=? a))))).

Definition ResetAttempts_code : prog :=
  Lock VerifierMu (StoreAttempts 0 (Unlock VerifierMu (Return ADone))).

(** The store's [Reset]. *)
Definition ClearUsedCodes_code : prog :=
  Lock StoreMu (
  LoadStore (fun s => UpdateStore (set_data ∅ [] s) (
  LoadStore (fun s => UpdateStore (set_nextSweep zeroTime s) (
  Unlock StoreMu (Return ADone)))))).

Definition Size_code : prog :=
  Lock StoreMu (LoadStore (fun s => Unlock StoreMu (Return (ASize (Size s))))).

Inductive call : Type :=
| Submit (r : submission)
| CallIsRateLimited
| CallResetAttempts
| CallClearUsedCodes
| CallSize.

(** [maxAttempts] and [ttl] are set once, by the constructor. *)
Definition code (maxAtt ttl : Z) (c : call) : prog :=
  match c with
  | Submit r => verifyInner_code maxAtt ttl r
  | CallIsRateLimited => IsRateLimited_code maxAtt
  | CallResetAttempts => ResetAttempts_code
  | CallClearUsedCodes => ClearUsedCodes_code
  | CallSize => Size_code
  end.

(** ** Goroutines *)
Abbreviation V := (Verifier InMemoryReplayStore).

(** A goroutine has calls left to make, perhaps one under way, and the answers
    of those that returned. *)
Record goroutine : Type := { calls : list call; cur : option prog; answers : list answer }.

Record mconf : Type := { shared : V; held : mutex -> bool; goroutines : list goroutine }.

(** One instruction.  [Lock] blocks on a held mutex; [Unlock] of a free one is
    fatal in Go: neither has a successor. *)
Definition exec (p : prog) (v : V) (h : mutex -> bool) : option (prog * V * (mutex -> bool)) :=
  match p with
  | Return _ => None
  | Lock m k => if h m then None else Some (k, v, <[m := true]> h)
  | Unlock m k => if h m then Some (k, v, <[m := false]> h) else None
  | LoadAttempts k => Some (k (attempts v), v, h)
  | StoreAttempts n k => Some (k, set_attempts n v, h)
  | LoadStore k => Some (k (store v), v, h)
  | UpdateStore s k => Some (k, set_store s v, h)
  end.

Definition set_g (i : nat) (g : goroutine) (c : mconf) : mconf :=
  {| shared := shared c; held := held c; goroutines := <[i := g]> (goroutines c) |}.

(** A step of goroutine [i]: it makes its next call, executes an instruction,
    or returns. *)
Inductive mstep (c : mconf) (i : nat) : mconf -> Prop :=
| m_call j js ans :
    goroutines c !! i = Some {| calls := j :: js; cur := None; answers := ans |} ->
    mstep c i (set_g i {| calls := js;
                          cur := Some (code (maxAttempts (shared c)) (ttl (shared c)) j);
                          answers := ans |} c)
| m_exec js p ans p' v' h' :
    goroutines c !! i = Some {| calls := js; cur := Some p; answers := ans |} ->
    exec p (shared c) (held c) = Some (p', v', h') ->
    mstep c i {| shared := v'; held := h';
                 goroutines := <[i := {| calls := js; cur := Some p'; answers := ans |}]> (goroutines c) |}
| m_return js a ans :
    goroutines c !! i = Some {| calls := js; cur := Some (Return a); answers := ans |} ->
    mstep c i (set_g i {| calls := js; cur := None; answers := ans ++ [a] |} c).

(** A run, with the goroutine of each step. *)
Inductive mrun (c : mconf) : list nat -> mconf -> Prop :=
| mrun_nil : mrun c [] c
| mrun_snoc tr c1 i c2 : mrun c tr c1 -> mstep c1 i c2 -> mrun c (tr ++ [i]) c2.

(** Both mutexes free, each goroutine with its calls. *)
Definition start (v : V) (work : list (list call)) : mconf :=
  {| shared := v; held := fun _ => false;
     goroutines := (fun js => {| calls := js; cur := None; answers := [] |}) <$> work |}.

Definition returned (g : goroutine) : Prop := calls g = [] /\ cur g = None.

#[global] Instance returned_dec g : Decision (returned g).
Proof.
  destruct g as [[|j js] [p|] ans]; [right|left|right..]; [by intros [_ [=]]|done|by intros [[=] _]..].
Defined.

(** ** Well-locked code *)

(** The section the code is in. *)
Definition inCS (p : prog) : option mutex :=
  match p with
  | Return _ | Lock _ _ => None
  | Unlock m _ => Some m
  | LoadAttempts _ | StoreAttempts _ _ => Some VerifierMu
  | LoadStore _ | UpdateStore _ _ => Some StoreMu
  end.

(** The variable the next instruction reads or writes, by its mutex. *)
Definition accesses (p : prog) : option mutex :=
  match p with
  | LoadAttempts _ | StoreAttempts _ _ => Some VerifierMu
  | LoadStore _ | UpdateStore _ _ => Some StoreMu
  | _ => None
  end.

(** Sections do not nest, every path through one ends in its [Unlock], and the
    variables are accessed inside only. *)
Fixpoint well_locked (p : prog) : Prop :=
  match p with
  | Return _ => True
  | Lock m k => inCS k = Some m /\ well_locked k
  | Unlock m k => inCS k = None /\ well_locked k
  | LoadAttempts k => forall a, inCS (k a) = Some VerifierMu /\ well_locked (k a)
  | StoreAttempts _ k => inCS k = Some VerifierMu /\ well_locked k
  | LoadStore k => forall s, inCS (k s) = Some StoreMu /\ well_locked (k s)
  | UpdateStore _ k => inCS k = Some StoreMu /\ well_locked k
  end.

(** At most [n] instructions to the return. *)
Fixpoint within (p : prog) (n : nat) : Prop :=
  match p, n with
  | Return _, _ => True
  | _, O => False
  | Lock _ k, S n' | Unlock _ k, S n' | StoreAttempts _ k, S n' | UpdateStore _ k, S n' => within k n'
  | LoadAttempts k, S n' => forall a, within (k a) n'
  | LoadStore k, S n' => forall s, within (k s) n'
  end.

(** Code outside the sections, at most [n] instructions from its return. *)
Definition well_formed (p : prog) (n : nat) : Prop := inCS p = None /\ well_locked p /\ within p n.

(** Instructions of the longest call; its steps count the call and the return. *)
Definition callInstructions : nat := 15.
Definition callSteps : nat := 17.

(** Down the branches of a piece of code. *)
Ltac walk :=
  repeat first
    [ progress cbn [inCS well_locked within]
    | match goal with
      | |- _ /\ _ => split
      | |- forall _, _ => intro
      | |- context [if ?b then _ else _] => destruct b
      end ]; try done.

Lemma within_mono p : forall n n', within p n -> (n <= n')%nat -> within p n'.
Proof.
  induction p as [a|m k IH|m k IH|k IH|x k IH|k IH|x k IH]; intros [|n] [|n'] Hn Hle; simpl in *;
    try done; try lia; try intros y; (eapply IH; [apply Hn|lia]).
Qed.

Lemma failing_ok : well_formed failing 4.
Proof. unfold well_formed, failing. walk. Qed.

Lemma winning_ok : well_formed winning 3.
Proof. unfold well_formed, winning. walk. Qed.

Lemma CheckAndRecord_ok now key ttl k n :
  well_formed (k true) n -> well_formed (k false) (4 + n) ->
  well_formed (CheckAndRecord_code now key ttl k) (9 + n).
Proof. intros (? & ? & ?) (? & ? & ?). unfold well_formed, CheckAndRecord_code. simpl Nat.add in *. walk. Qed.

Lemma well_formed_mono p n n' : well_formed p n -> (n <= n')%nat -> well_formed p n'.
Proof. intros (? & ? & ?) ?. split; [done|]. split; [done|]. by eapply within_mono. Qed.

Lemma comparing_ok ttl r : well_formed (comparing ttl r) 12.
Proof.
  unfold comparing. destruct (_ || _); [eapply well_formed_mono; [apply failing_ok|lia]|].
  apply (CheckAndRecord_ok _ _ _ _ 3); [apply winning_ok|].
  eapply well_formed_mono; [apply failing_ok|lia].
Qed.

Lemma verifyInner_ok maxAtt ttl r : well_formed (verifyInner_code maxAtt ttl r) callInstructions.
Proof.
  destruct (comparing_ok ttl r) as (Hcs & Hw & Hn). unfold well_formed, verifyInner_code, callInstructions.
  revert Hcs Hw Hn. generalize (comparing ttl r). intros p Hcs Hw Hn.
  split; [reflexivity|]. split.
  - cbn [inCS well_locked]. split; [reflexivity|]. intros a. destruct (maxAtt <=? a); cbn [inCS well_locked]; auto.
  - cbn [within]. intros a. destruct (maxAtt <=? a); cbn [within]; [exact I|exact Hn].
Qed.

Lemma code_ok maxAtt ttl c : well_formed (code maxAtt ttl c) callInstructions.
Proof.
  destruct c as [r| | | |]; unfold code; [apply verifyInner_ok|..];
    unfold well_formed, callInstructions, IsRateLimited_code, ResetAttempts_code, ClearUsedCodes_code, Size_code;
    walk.
Qed.

(** ** What a section does *)

(** The rest of the section run at once: the code after its [Unlock], and the
    variables it leaves. *)
Fixpoint finish (p : prog) (v : V) : prog * V :=
  match p with
  | Return _ | Lock _ _ => (p, v)
  | Unlock _ k => (k, v)
  | LoadAttempts k => finish (k (attempts v)) v
  | StoreAttempts n k => finish k (set_attempts n v)
  | LoadStore k => finish (k (store v)) v
  | UpdateStore s k => finish k (set_store s v)
  end.

Definition other (m : mutex) : mutex := match m with VerifierMu => StoreMu | StoreMu => VerifierMu end.

(** The variables a mutex guards are the same. *)
Definition same (m : mutex) (v v' : V) : Prop :=
  match m with VerifierMu => attempts v = attempts v' | StoreMu => store v = store v' end.

(** The constants are. *)
Definition same_config (v v' : V) : Prop := maxAttempts v = maxAttempts v' /\ ttl v = ttl v'.

Lemma finish_outside p v : inCS p = None -> finish p v = (p, v).
Proof. by destruct p. Qed.

(** A section depends on what its mutex guards, and changes nothing else. *)
Lemma finish_same m p : forall v v',
  inCS p = Some m -> well_locked p -> same m v v' ->
  fst (finish p v) = fst (finish p v') /\ same m (snd (finish p v)) (snd (finish p v')) /\
  same (other m) v (snd (finish p v)) /\ same_config v (snd (finish p v)).
Proof.
  induction p as [a|m' k IH|m' k IH|k IH|n k IH|k IH|s k IH]; intros v v' Hp Hw Hs; simpl in *; simplify_eq.
  - by destruct m.
  - rewrite <-Hs. destruct (Hw (attempts v)). by apply IH.
  - destruct Hw. by apply (IH (set_attempts n v) (set_attempts n v')).
  - rewrite <-Hs. destruct (Hw (store v)). by apply IH.
  - destruct Hw. by apply (IH (set_store s v) (set_store s v')).
Qed.

(** An instruction of well-locked code: it enters a section, leaves one, or
    goes on inside it. *)
Inductive moved (p : prog) (v : V) (h : mutex -> bool) : prog -> V -> (mutex -> bool) -> Prop :=
| mv_enter m k :
    p = Lock m k -> h m = false -> inCS k = Some m -> moved p v h k v (<[m := true]> h)
| mv_leave m k :
    p = Unlock m k -> h m = true -> inCS k = None -> moved p v h k v (<[m := false]> h)
| mv_inside m k v' :
    inCS p = Some m -> inCS k = Some m -> finish p v = finish k v' -> same (other m) v v' ->
    same_config v v' -> moved p v h k v' h.

Lemma exec_moved p v h p' v' h' :
  well_locked p -> exec p v h = Some (p', v', h') -> moved p v h p' v' h' /\ well_locked p'.
Proof.
  intros Hw E. destruct p as [a|m k|m k|k|n k|k|s k]; simpl in *; [done|..].
  - destruct (h m) eqn:Eh; [done|]. injection E as <- <- <-. destruct Hw. split; [by eapply mv_enter|done].
  - destruct (h m) eqn:Eh; [|done]. injection E as <- <- <-. destruct Hw. split; [by eapply mv_leave|done].
  - injection E as <- <- <-. destruct (Hw (attempts v)). split; [by apply (mv_inside _ _ _ VerifierMu)|done].
  - injection E as <- <- <-. destruct Hw. split; [by apply (mv_inside _ _ _ VerifierMu)|done].
  - injection E as <- <- <-. destruct (Hw (store v)). split; [by apply (mv_inside _ _ _ StoreMu)|done].
  - injection E as <- <- <-. destruct Hw. split; [by apply (mv_inside _ _ _ StoreMu)|done].
Qed.

(** ** The locks' invariant *)
Definition curOf (c : mconf) (i : nat) : option prog := goroutines c !! i ≫= cur.

(** The section goroutine [i] is in. *)
Definition place (c : mconf) (i : nat) : option mutex := curOf c i ≫= inCS.

Record lock_inv (c : mconf) : Prop := {
  li_code : forall i p, curOf c i = Some p -> well_locked p;
  li_held : forall m, held c m = true <-> exists i, place c i = Some m;
  li_one : forall i j m, place c i = Some m -> place c j = Some m -> i = j
}.

(** [c'] is [c] but for what goroutine [i] runs. *)
Definition only (i : nat) (p : option prog) (c c' : mconf) : Prop :=
  forall j, curOf c' j = if decide (j = i) then p else curOf c j.

Lemma only_insert c c' i g g' :
  goroutines c !! i = Some g -> goroutines c' = <[i := g']> (goroutines c) -> only i (cur g') c c'.
Proof.
  intros Hi E j. unfold curOf. rewrite E. case_decide as Hj.
  - subst. by rewrite list_lookup_insert_eq by (by eapply lookup_lt_Some).
  - by rewrite list_lookup_insert_ne.
Qed.

Lemma only_place c c' i p : only i p c c' ->
  place c' i = p ≫= inCS /\ forall j, j <> i -> place c' j = place c j.
Proof.
  intros Ho. unfold place. split.
  - by rewrite Ho, decide_True.
  - intros j Hj. by rewrite Ho, decide_False.
Qed.

Lemma lock_inv_step c c' i p :
  lock_inv c -> only i p c c' -> (forall q, p = Some q -> well_locked q) ->
  (p ≫= inCS = place c i /\ held c' = held c) \/
  (exists m, place c i = None /\ held c m = false /\ p ≫= inCS = Some m /\ held c' = <[m := true]> (held c)) \/
  (exists m, place c i = Some m /\ p ≫= inCS = None /\ held c' = <[m := false]> (held c)) ->
  lock_inv c'.
Proof.
  intros [Hcode Hheld Hone] Ho Hp Hcase. destruct (only_place _ _ _ _ Ho) as [Hi Hj].
  assert (Hcode' : forall j q, curOf c' j = Some q -> well_locked q).
  { intros j q. rewrite Ho. case_decide; [apply Hp|apply Hcode]. }
  assert (Hpl : forall j, place c' j = if decide (j = i) then p ≫= inCS else place c j).
  { intros j. case_decide; [by subst|by apply Hj]. }
  destruct Hcase as [[E Eh]|[(m & Ei & Hm & E & Eh)|(m & Ei & E & Eh)]].
  - assert (Hsame : forall j, place c' j = place c j) by (intros j; rewrite Hpl; case_decide; by subst).
    split; [done|intros m; rewrite Eh, Hheld; by setoid_rewrite Hsame|].
    intros j k m. rewrite !Hsame. apply Hone.
  - assert (Hnone : forall j, place c j <> Some m).
    { intros j Hjm. assert (held c m = true) by (apply Hheld; by exists j). congruence. }
    split; [done|..].
    + intros m'. rewrite Eh. destruct (decide (m' = m)) as [->|Hne].
      * rewrite fn_lookup_insert. split; [|done]. intros _. exists i. by rewrite Hpl, decide_True.
      * rewrite fn_lookup_insert_ne, Hheld by done. split; intros (j & Hjm); exists j.
        -- rewrite Hpl. case_decide; congruence.
        -- rewrite Hpl in Hjm. case_decide; congruence.
    + intros j k m'. rewrite !Hpl. repeat case_decide; subst; try done; [..|apply Hone];
        rewrite E; intros ? ?; simplify_eq; exfalso; by eapply Hnone.
  - split; [done|..].
    + intros m'. rewrite Eh. destruct (decide (m' = m)) as [->|Hne].
      * rewrite fn_lookup_insert. split; [done|]. intros (j & Hjm). rewrite Hpl in Hjm.
        case_decide; [congruence|]. by destruct (Hone j i m Hjm Ei).
      * rewrite fn_lookup_insert_ne, Hheld by done. split; intros (j & Hjm); exists j.
        -- rewrite Hpl. case_decide; congruence.
        -- rewrite Hpl in Hjm. case_decide; congruence.
    + intros j k m'. rewrite !Hpl. repeat case_decide; subst; try done; [congruence..|apply Hone].
Qed.

(** What a step does to the goroutine that takes it. *)
Lemma mstep_inv c i c' : lock_inv c -> mstep c i c' -> lock_inv c'.
Proof.
  intros Hinv Hstep. destruct Hstep as [j js ans Hg|js p ans p' v' h' Hg E|js a ans Hg].
  - destruct (code_ok (maxAttempts (shared c)) (ttl (shared c)) j) as (Hcs & Hw & _).
    apply (lock_inv_step c _ i (Some (code (maxAttempts (shared c)) (ttl (shared c)) j)) Hinv).
    + by apply (only_insert c _ i _ (Build_goroutine js (Some (code (maxAttempts (shared c)) (ttl (shared c)) j)) ans) Hg).
    + by intros q [= <-].
    + left. unfold place, curOf. by rewrite Hg.
  - assert (Hw : well_locked p) by (apply (li_code c Hinv i); unfold curOf; by rewrite Hg).
    destruct (exec_moved _ _ _ _ _ _ Hw E) as [Hm Hw'].
    assert (Hpl : place c i = inCS p) by (unfold place, curOf; by rewrite Hg).
    apply (lock_inv_step c _ i (Some p') Hinv).
    + by apply (only_insert c _ i _ (Build_goroutine js (Some p') ans) Hg).
    + by intros q [= <-].
    + destruct Hm as [m k -> Hm Hk|m k -> Hm Hk|m k v' Hp Hk]; simpl held; simpl in Hpl.
      * right. left. by exists m.
      * right. right. by exists m.
      * left. simpl. split; [congruence|done].
  - apply (lock_inv_step c _ i None Hinv).
    + by apply (only_insert c _ i _ (Build_goroutine js None (ans ++ [a])) Hg).
    + done.
    + left. unfold place, curOf. by rewrite Hg.
Qed.

Lemma start_inv v work : lock_inv (start v work).
Proof.
  assert (Hcur : forall i, curOf (start v work) i = None).
  { intros i. unfold curOf. simpl. rewrite list_lookup_fmap. by destruct (work !! i). }
  assert (Hpl : forall i, place (start v work) i = None) by (intros i; unfold place; by rewrite Hcur).
  split.
  - intros i p. by rewrite Hcur.
  - intros m. split; [done|]. intros (i & Hi). by rewrite Hpl in Hi.
  - intros i j m. by rewrite Hpl.
Qed.

Lemma mrun_inv c tr c' : mrun c tr c' -> lock_inv c -> lock_inv c'.
Proof. induction 1 as [|tr c1 i c2 _ IH Hstep]; intros Hi; [done|]. exact (mstep_inv c1 i c2 (IH Hi) Hstep). Qed.

(** ** Progress *)

(** The goroutine is stopped at a [Lock]. *)
Definition waiting (c : mconf) (i : nat) (m : mutex) : Prop := exists k, curOf c i = Some (Lock m k).

(** Code inside its section is never stuck. *)
Lemma inside_steps c i m : lock_inv c -> place c i = Some m -> exists c', mstep c i c'.
Proof.
  intros Hinv Hp. assert (Hh : held c m = true) by (apply (li_held c Hinv); by exists i).
  unfold place, curOf in Hp. destruct (goroutines c !! i) as [[js [p|] ans]|] eqn:Hg; simplify_eq/=.
  assert (exists r, exec p (shared c) (held c) = Some r) as ([[p' v'] h'] & E).
  { destruct p; simplify_eq/=; try by eexists. rewrite Hh. by eexists. }
  eexists. by eapply m_exec.
Qed.

Lemma busy_steps c i g :
  lock_inv c -> goroutines c !! i = Some g -> ~ returned g ->
  (exists c', mstep c i c') \/
  (exists m j, waiting c i m /\ j <> i /\ place c j = Some m /\ exists c', mstep c j c').
Proof.
  intros Hinv Hg Hr. destruct (place c i) as [m|] eqn:Hp; [left; by eapply inside_steps|].
  assert (Hcur : curOf c i = cur g) by (unfold curOf; by rewrite Hg).
  destruct g as [js [p|] ans]; simpl in Hcur.
  - unfold place in Hp. rewrite Hcur in Hp. destruct p as [a|m k|m k|k|n k|k|s k]; simplify_eq/=.
    + left. eexists. by eapply m_return.
    + destruct (held c m) eqn:Eh.
      * right. destruct (proj1 (li_held c Hinv m) Eh) as (j & Hj). exists m, j.
        split; [by exists k|]. split; [|split; [done|by eapply inside_steps]].
        intros ->. unfold place in Hj. by rewrite Hcur in Hj.
      * left. eexists. eapply m_exec; [exact Hg|]. simpl. by rewrite Eh.
  - left. destruct js as [|j js]; [by destruct Hr|]. eexists. by eapply m_call.
Qed.

Definition stepsOf (i : nat) (tr : list nat) : nat := length (filter (fun j => j = i) tr).

Lemma stepsOf_snoc i tr j : stepsOf i (tr ++ [j]) = (stepsOf i tr + if decide (j = i) then 1 else 0)%nat.
Proof. unfold stepsOf. rewrite filter_app, length_app, filter_cons. by case_decide. Qed.

(** A goroutine given [js] that took [n] steps: what it can still take, and
    how its calls are shared out. *)
Definition account (js : list call) (n : nat) (g : goroutine) : Prop :=
  exists left, match cur g with None => left = O | Some p => exists l, left = Datatypes.S l /\ within p l end /\
    (n + left + callSteps * length (calls g) <= callSteps * length js)%nat /\
    (length (answers g) + length (calls g) + (match cur g with None => 0 | Some _ => 1 end) = length js)%nat.

Lemma account_call (v : V) js n j js' ans :
  account js n {| calls := j :: js'; cur := None; answers := ans |} ->
  account js (n + 1) {| calls := js'; cur := Some (code (maxAttempts v) (ttl v) j); answers := ans |}.
Proof.
  intros (left & -> & Hn & Ha). destruct (code_ok (maxAttempts v) (ttl v) j) as (_ & _ & Hw).
  exists (Datatypes.S callInstructions). split; [by eexists|].
  unfold callInstructions, callSteps in *. cbn [calls cur answers length] in *. split; lia.
Qed.

Lemma account_exec js n js' p p' v v' h h' ans :
  exec p v h = Some (p', v', h') ->
  account js n {| calls := js'; cur := Some p; answers := ans |} ->
  account js (n + 1) {| calls := js'; cur := Some p'; answers := ans |}.
Proof.
  intros E (left & (l & -> & Hl) & Hn & Ha). cbn [calls cur answers] in *.
  assert (exists l', l = Datatypes.S l' /\ within p' l') as (l' & -> & Hl').
  { destruct p as [a|m k|m k|k|x k|k|s k], l as [|l]; simpl in *; simplify_eq; try done;
      repeat case_match; simplify_eq; eauto. }
  exists (Datatypes.S l'). split; [by exists l'|]. cbn [calls cur answers] in *. split; lia.
Qed.

Lemma account_return js n js' a ans :
  account js n {| calls := js'; cur := Some (Return a); answers := ans |} ->
  account js (n + 1) {| calls := js'; cur := None; answers := ans ++ [a] |}.
Proof.
  intros (left & (l & -> & Hl) & Hn & Ha). exists O. cbn [calls cur answers] in *.
  rewrite length_app. cbn [length]. split; [done|]. split; lia.
Qed.

(** Goroutine by goroutine, along a run. *)
Definition accounts (work : list (list call)) (tr : list nat) (c : mconf) : Prop :=
  length (goroutines c) = length work /\
  forall i js g, work !! i = Some js -> goroutines c !! i = Some g -> account js (stepsOf i tr) g.

Lemma accounts_insert work tr c c' i g g' :
  accounts work tr c -> goroutines c !! i = Some g -> goroutines c' = <[i := g']> (goroutines c) ->
  (forall js n, account js n g -> account js (n + 1) g') -> accounts work (tr ++ [i]) c'.
Proof.
  intros [Hlen Hacc] Hg E Hstep. split; [by rewrite E, length_insert|].
  intros j js gj Hj Hgj. rewrite stepsOf_snoc. rewrite E in Hgj. case_decide as Hij.
  - subst. rewrite list_lookup_insert_eq in Hgj by (by eapply lookup_lt_Some). injection Hgj as <-.
    by eapply Hstep, Hacc.
  - rewrite list_lookup_insert_ne in Hgj by done. rewrite Nat.add_0_r. by apply Hacc.
Qed.

Lemma run_accounts v work tr c : mrun (start v work) tr c -> accounts work tr c.
Proof.
  induction 1 as [|tr c1 i c2 _ IH Hstep].
  - split; [apply length_fmap|]. intros i js g Hj Hg. simpl in Hg. rewrite list_lookup_fmap, Hj in Hg.
    injection Hg as <-. exists O. split; [done|]. simpl. split; lia.
  - destruct Hstep as [j js ans Hg|js p ans p' v' h' Hg E|js a ans Hg].
    + eapply accounts_insert; [exact IH|exact Hg|reflexivity|]. intros ? ?. apply account_call.
    + eapply accounts_insert; [exact IH|exact Hg|reflexivity|]. intros ? ?. by eapply account_exec.
    + eapply accounts_insert; [exact IH|exact Hg|reflexivity|]. intros ? ?. apply account_return.
Qed.

(** C15: the verifier never deadlocks.  Any number of goroutines make any
    calls of the verifier and its in-memory store (submissions,
    [IsRateLimited], [ResetAttempts], [ClearUsedCodes], [Size]), interleaved
    instruction by instruction with both mutexes explicit.  In every run: a
    goroutine that is not done can step, or is stopped at the [Lock] of a
    mutex whose holder, another goroutine, can step; no goroutine takes more
    than 17 steps per call; so a run that can go no further has answered every
    call of every goroutine, and left both mutexes free. *)
Theorem calls_complete (v : V) (work : list (list call)) (tr : list nat) (c : mconf)
    (Hrun : mrun (start v work) tr c) :
  (forall i g, goroutines c !! i = Some g -> ~ returned g ->
     (exists c', mstep c i c') \/
     (exists m j, waiting c i m /\ j <> i /\ place c j = Some m /\ exists c', mstep c j c')) /\
  (forall i js, work !! i = Some js -> (stepsOf i tr <= callSteps * length js)%nat) /\
  ((forall i c', ~ mstep c i c') ->
     (forall i js, work !! i = Some js ->
        exists g, goroutines c !! i = Some g /\ returned g /\ length (answers g) = length js) /\
     (forall m, held c m = false)).
Proof.
  pose proof (mrun_inv _ _ _ Hrun (start_inv v work)) as Hinv.
  destruct (run_accounts v work tr c Hrun) as [Hlen Hacc].
  assert (Hall : forall i js, work !! i = Some js -> exists g, goroutines c !! i = Some g).
  { intros i js Hi. apply lookup_lt_Some in Hi. rewrite <-Hlen in Hi. by apply lookup_lt_is_Some in Hi. }
  split; [|split].
  - intros i g. by apply busy_steps.
  - intros i js Hi. destruct (Hall i js Hi) as (g & Hg).
    destruct (Hacc i js g Hi Hg) as (left & _ & Hn & _). lia.
  - intros Hstuck. split.
    + intros i js Hi. destruct (Hall i js Hi) as (g & Hg). exists g.
      assert (Hr : returned g).
      { destruct (decide (returned g)) as [|Hn]; [done|]. exfalso.
        destruct (busy_steps c i g Hinv Hg Hn) as [(c' & Hs)|(m & k & _ & _ & _ & c' & Hs)]; by eapply Hstuck. }
      split; [done|]. split; [done|]. destruct (Hacc i js g Hi Hg) as (left & _ & _ & Ha).
      destruct Hr as [E1 E2]. rewrite E1, E2 in Ha. simpl in Ha. lia.
    + intros m. destruct (held c m) eqn:Eh; [|done]. exfalso.
      destruct (proj1 (li_held c Hinv m) Eh) as (j & Hj).
      destruct (inside_steps c j m Hinv Hj) as (c' & Hs). by eapply Hstuck.
Qed.

(** C17: no data race.  In every run of any number of goroutines making any
    calls, two goroutines are never both about to read or write the attempt
    counter, nor both about to read or write the store, and one that is holds
    the mutex that guards it. *)
Theorem no_data_race (v : V) (work : list (list call)) (tr : list nat) (c : mconf)
    (Hrun : mrun (start v work) tr c) (i j : nat) (p q : prog) (m : mutex)
    (Hi : curOf c i = Some p) (Hj : curOf c j = Some q)
    (Hp : accesses p = Some m) (Hq : accesses q = Some m) :
  i = j /\ held c m = true.
Proof.
  pose proof (mrun_inv _ _ _ Hrun (start_inv v work)) as Hinv.
  assert (Hpi : place c i = Some m) by (unfold place; rewrite Hi; by destruct p).
  assert (Hqj : place c j = Some m) by (unfold place; rewrite Hj; by destruct q).
  split; [by eapply (li_one c Hinv)|]. apply (li_held c Hinv). by exists i.
Qed.

(** ** Refinement to critical sections

    The calls as steps of [Verifier.step], and one step for each of the other
    methods. *)
Inductive event : Type :=
| ESubmit (l : label)
| ELimited (i : nat) (b : bool)
| EReset (i : nat)
| EClear (i : nat)
| ESize (i : nat) (n : Z).

Abbreviation vconf := (conf InMemoryReplayStore).

Inductive vstep (a : vconf) : event -> vconf -> Prop :=
| v_submit l a' : step a l a' -> vstep a (ESubmit l) a'
| v_limited i : threads a !! i = Some Idle -> vstep a (ELimited i (IsRateLimited (verifier a))) a
| v_reset i : threads a !! i = Some Idle -> vstep a (EReset i) (set_v (ResetAttempts (verifier a)) a)
| v_clear i : threads a !! i = Some Idle -> vstep a (EClear i) (set_v (snd (ClearUsedCodes (verifier a))) a)
| v_size i : threads a !! i = Some Idle -> vstep a (ESize i (Size (store (verifier a)))) a.

Inductive vsteps (a : vconf) : list event -> vconf -> Prop :=
| vsteps_nil : vsteps a [] a
| vsteps_snoc es a1 e a2 : vsteps a es a1 -> vstep a1 e a2 -> vsteps a (es ++ [e]) a2.

(** What a step of thread [i] answers to the caller. *)
Definition answerOf (i : nat) (e : event) : option answer :=
  match e with
  | ESubmit (LLocked j) | ESubmit (LFail j) => if decide (j = i) then Some (ABool false) else None
  | ESubmit (LWin j) => if decide (j = i) then Some (ABool true) else None
  | ESubmit _ => None
  | ELimited j b => if decide (j = i) then Some (ABool b) else None
  | EReset j | EClear j => if decide (j = i) then Some ADone else None
  | ESize j n => if decide (j = i) then Some (ASize n) else None
  end.

Definition isSubmit (c : call) : Prop := match c with Submit _ => True | _ => False end.
Definition ofSubmit (e : event) : Prop := match e with ESubmit _ => True | _ => False end.

Definition answersOf (i : nat) (es : list event) : list answer := omap (answerOf i) es.

(** Where a goroutine outside the sections is, and the answer it is about to
    return; [only] says that nothing but submissions is called. *)
Inductive at_pc (only : Prop) (maxAtt t : Z) : option prog -> pc -> list answer -> Prop :=
| at_none : at_pc only maxAtt t None Idle []
| at_call c : (only -> isSubmit c) -> at_pc only maxAtt t (Some (code maxAtt t c)) Idle []
| at_return a : at_pc only maxAtt t (Some (Return a)) Idle [a]
| at_failing : at_pc only maxAtt t (Some failing) Failing []
| at_storing r : at_pc only maxAtt t (Some (storing t r)) (ToStore r) []
| at_winning : at_pc only maxAtt t (Some winning) Winning [].

Lemma vsteps_app a es1 a1 es2 a2 : vsteps a es1 a1 -> vsteps a1 es2 a2 -> vsteps a (es1 ++ es2) a2.
Proof.
  intros H1 H2. induction H2 as [|es a3 e a4 H2 IH Hs]; [by rewrite app_nil_r|].
  rewrite app_assoc. by eapply vsteps_snoc.
Qed.

Lemma vsteps_one a e a' : vstep a e a' -> vsteps a [e] a'.
Proof. intros Hs. by apply (vsteps_snoc a [] a e a'); [constructor|]. Qed.

Lemma vsteps_two a e1 a1 e2 a2 : vstep a e1 a1 -> vstep a1 e2 a2 -> vsteps a [e1; e2] a2.
Proof. intros H1 H2. apply (vsteps_snoc a [e1] a1 e2 a2); [by apply vsteps_one|done]. Qed.

(** What the step of a section does: the same as the section run at once. *)
Definition section_steps (only : Prop) (i : nat) (k : prog) (v : V) (a : vconf) : Prop :=
  exists es a' q pend, vsteps a es a' /\ (only -> Forall ofSubmit es) /\ threads a' = <[i := q]> (threads a) /\
    at_pc only (maxAttempts v) (ttl v) (Some (fst (finish k v))) q pend /\
    answersOf i es = pend /\ (forall j, j <> i -> answersOf j es = []) /\
    (forall m, inCS k = Some m -> same m (snd (finish k v)) (verifier a')) /\
    (forall m, inCS k <> Some m -> same m (verifier a) (verifier a')) /\
    same_config (verifier a) (verifier a').

(** One step of the relation for a section under [m]. *)
Lemma section_one only i m k v (a a' : vconf) e q pend :
  vstep a e a' -> (only -> ofSubmit e) -> inCS k = Some m ->
  threads a' = <[i := q]> (threads a) ->
  at_pc only (maxAttempts v) (ttl v) (Some (fst (finish k v))) q pend ->
  answersOf i [e] = pend -> (forall j, j <> i -> answersOf j [e] = []) ->
  same m (snd (finish k v)) (verifier a') -> same (other m) (verifier a) (verifier a') ->
  same_config (verifier a) (verifier a') -> section_steps only i k v a.
Proof.
  intros He Hsub Hm Ht Hp Ha Hj Hs Ho Hc. exists [e], a', q, pend. split; [by apply vsteps_one|].
  split; [intros Hon; by constructor; [apply Hsub|]|]. do 4 (split; [done|]). split; [intros m' Hm'; congruence|]. split; [|done].
  intros m' Hm'. rewrite Hm in Hm'. by destruct m, m'.
Qed.

(** The thread's own answers, and the others'. *)
Ltac answers_done :=
  intros; unfold answersOf; cbn [omap list_omap answerOf option_bind mbind];
  rewrite ?decide_True, ?decide_False by done; done.

Lemma passed_section only i r v (a : vconf) k :
  threads a !! i = Some Idle -> same_config v (verifier a) -> attempts v = attempts (verifier a) ->
  code (maxAttempts v) (ttl v) (Submit r) = Lock VerifierMu k -> section_steps only i k v a.
Proof.
  intros Hi Hc Ha [= <-]. pose proof Hc as [Em Et].
  destruct (Z.leb_spec (maxAttempts v) (attempts v)) as [Hle|Hlt].
  - eapply (section_one only i VerifierMu _ v a a (ESubmit (LLocked i)) Idle [ABool false]).
    + apply v_submit, step_locked; [done|lia].
    + done.
    + done.
    + by rewrite list_insert_id.
    + cbn [finish]. rewrite (proj2 (Z.leb_le _ _)) by done. constructor.
    + answers_done.
    + answers_done.
    + cbn [finish]. by rewrite (proj2 (Z.leb_le _ _)).
    + done.
    + done.
  - pose proof (lookup_lt_Some _ _ _ Hi) as Hlen.
    set (q := if negb (constTimeEqBytes (s_issued r) (s_request r)) || negb (constantTimeEq (s_code r) (s_expected r))
              then Failing else ToStore r).
    exists [ESubmit (LPass i); ESubmit (LCompare i)], (set_pc i q (set_pc i (Passed r) a)), q, [].
    split; [eapply vsteps_two|].
    + apply v_submit, step_pass; [done|lia].
    + apply v_submit. apply step_compare. by apply list_lookup_insert_eq.
    + split; [by repeat constructor|]. split; [apply list_insert_insert_eq|]. cbn [finish]. rewrite (proj2 (Z.leb_gt _ _)) by done.
      split; [|split; [done|split; [done|split; [by intros m [= <-]|split; [by intros []|done]]]]].
      cbn [finish fst]. unfold q, comparing. destruct (_ || _); constructor.
Qed.

Lemma verifier_section (only : Prop) i c v (a : vconf) m k :
  (only -> isSubmit c) -> threads a !! i = Some Idle -> same_config v (verifier a) -> same m v (verifier a) ->
  code (maxAttempts v) (ttl v) c = Lock m k -> section_steps only i k v a.
Proof.
  intros Hon Hi Hc Hs E. pose proof Hc as [Em Et].
  destruct c as [r| | | |]; injection E as <- <-; simpl in Hs.
  - by eapply passed_section.
  - eapply (section_one only i VerifierMu _ v a a (ELimited i _) Idle); [by apply v_limited|exact Hon|done|by rewrite list_insert_id|..];
      [|answers_done|answers_done|done..].
    cbn [finish fst]. unfold IsRateLimited. rewrite Hs, Em. constructor.
  - eapply (section_one only i VerifierMu _ v a _ (EReset i) Idle); [by apply v_reset|exact Hon|done|by rewrite list_insert_id|..];
      [constructor|answers_done|answers_done|done..].
  - eapply (section_one only i StoreMu _ v a _ (EClear i) Idle); [by apply v_clear|exact Hon|done|by rewrite list_insert_id|..];
      [constructor|answers_done|answers_done| |done..].
    simpl. by rewrite Hs.
  - eapply (section_one only i StoreMu _ v a a (ESize i _) Idle); [by apply v_size|exact Hon|done|by rewrite list_insert_id|..];
      [|answers_done|answers_done|done..].
    cbn [finish fst]. rewrite Hs. constructor.
Qed.

Lemma failing_section only i v (a : vconf) m k :
  threads a !! i = Some Failing -> same_config v (verifier a) -> same m v (verifier a) ->
  failing = Lock m k -> section_steps only i k v a.
Proof.
  intros Hi Hc Hs [= <- <-]. simpl in Hs.
  eapply (section_one only i VerifierMu _ v a _ (ESubmit (LFail i))); [by apply v_submit, step_fail|done|done|done|..];
    [constructor|answers_done|answers_done| |done..].
  simpl. by rewrite Hs.
Qed.

Lemma winning_section only i v (a : vconf) m k :
  threads a !! i = Some Winning -> same_config v (verifier a) -> same m v (verifier a) ->
  winning = Lock m k -> section_steps only i k v a.
Proof.
  intros Hi Hc Hs [= <- <-].
  eapply (section_one only i VerifierMu _ v a _ (ESubmit (LWin i))); [by apply v_submit, step_win|done|done|done|..];
    [constructor|answers_done|answers_done|done..].
Qed.

(** The pieces of [CheckAndRecord] run at once are [checkAndRecord]. *)
Lemma finish_CheckAndRecord now key t k k' v :
  CheckAndRecord_code now key t k = Lock StoreMu k' ->
  exists b s, checkAndRecord now key t (store v) = (Ret b, s) /\ finish k' v = (k b, set_store s v).
Proof.
  intros [= <-]. unfold checkAndRecord. cbn [finish store set_store].
  destruct (isLive _ _ _); by eexists _, _.
Qed.

Lemma storing_section only i r v (a : vconf) m k :
  threads a !! i = Some (ToStore r) -> same_config v (verifier a) -> same m v (verifier a) ->
  storing (ttl v) r = Lock m k -> section_steps only i k v a.
Proof.
  intros Hi [Em Et] Hs E. assert (m = StoreMu) as -> by by injection E.
  destruct (finish_CheckAndRecord _ _ _ _ _ v E) as (b & s & Er & Ef). simpl in Hs.
  assert (Hcs : inCS k = Some StoreMu) by by injection E as <-.
  set (won := bool_decide (Ret (E := error) b = Ret true)). set (q := if won then Winning else Failing).
  apply (section_one only i StoreMu _ v a (set_pc i q (set_v (set_store s (verifier a)) a))
    (ESubmit (LStore i r won)) q []).
  - apply v_submit, (step_store a i r (Ret b) s); [done| |done].
    rewrite <-Hs, <-Et. exact Er.
  - done.
  - done.
  - done.
  - rewrite Ef. unfold q, won. cbn [fst]. destruct b; constructor.
  - done.
  - done.
  - by rewrite Ef.
  - done.
  - done.
Qed.

(** Every section of the code is a step, or two, of the relation. *)
Lemma lock_section only i q pend v (a : vconf) m k :
  at_pc only (maxAttempts v) (ttl v) (Some (Lock m k)) q pend -> threads a !! i = Some q ->
  same_config v (verifier a) -> same m v (verifier a) -> pend = [] /\ section_steps only i k v a.
Proof.
  intros Hp Hi Hc Hs. inversion Hp as [|c Hon E|a' E|E|r E|E]; subst; (split; [done|]).
  - by eapply verifier_section.
  - by eapply failing_section.
  - by eapply storing_section.
  - by eapply winning_section.
Qed.

(** ** The simulation *)

(** The goroutine's code once its section is over. *)
Definition after (g : goroutine) (v : V) : option prog := (fun p => fst (finish p v)) <$> cur g.

(** [a] is [c] with the sections under way completed. *)
Record simulates (only : Prop) (c : mconf) (a : vconf) (es : list event) : Prop := {
  sim_config : same_config (shared c) (verifier a);
  sim_free : forall m, held c m = false -> same m (shared c) (verifier a);
  sim_held : forall i p m, curOf c i = Some p -> inCS p = Some m ->
    same m (snd (finish p (shared c))) (verifier a);
  sim_length : length (threads a) = length (goroutines c);
  sim_goroutine : forall i g, goroutines c !! i = Some g -> exists q pend, threads a !! i = Some q /\
    at_pc only (maxAttempts (shared c)) (ttl (shared c)) (after g (shared c)) q pend /\
    answersOf i es = answers g ++ pend;
  sim_only : only -> Forall (fun g => Forall isSubmit (calls g)) (goroutines c) /\ Forall ofSubmit es
}.

Lemma same_trans m v1 v2 v3 : same m v1 v2 -> same m v2 v3 -> same m v1 v3.
Proof. destruct m; simpl; congruence. Qed.

Lemma same_sym m v1 v2 : same m v1 v2 -> same m v2 v1.
Proof. destruct m; simpl; congruence. Qed.

Lemma config_trans v1 v2 v3 : same_config v1 v2 -> same_config v2 v3 -> same_config v1 v3.
Proof. unfold same_config. intuition congruence. Qed.

Lemma answersOf_app i es1 es2 : answersOf i (es1 ++ es2) = answersOf i es1 ++ answersOf i es2.
Proof. apply omap_app. Qed.

Lemma not_held c m : lock_inv c -> held c m = false <-> forall i, place c i <> Some m.
Proof.
  intros Hinv. pose proof (li_held c Hinv m) as Hh. split.
  - intros E i Hi. rewrite (proj2 Hh) in E by (by exists i). done.
  - intros Hn. destruct (held c m); [|done]. destruct (proj1 Hh eq_refl) as (i & Hi). by destruct (Hn i).
Qed.

(** A call or a return: the goroutine changes, outside the sections. *)
Lemma simulates_local only c a es i g g' q pend :
  simulates only c a es -> goroutines c !! i = Some g -> threads a !! i = Some q ->
  place c i = None -> cur g' ≫= inCS = None ->
  at_pc only (maxAttempts (shared c)) (ttl (shared c)) (after g' (shared c)) q pend ->
  answersOf i es = answers g' ++ pend ->
  (only -> Forall isSubmit (calls g) -> Forall isSubmit (calls g')) ->
  simulates only (set_g i g' c) a es.
Proof.
  intros [Hc Hf Hh Hl Hg Ho] Hi Hq Hp Hp' Hpc Ha Hcalls.
  pose proof (only_insert c (set_g i g' c) i g g' Hi eq_refl) as Honly.
  split; [done|done| | | |].
  - intros j p m Hj Hm. rewrite Honly in Hj. case_decide.
    + rewrite Hj in Hp'. simpl in Hp'. congruence.
    + by eapply Hh.
  - simpl. by rewrite length_insert.
  - intros j gj Hj. simpl in Hj. destruct (decide (j = i)) as [->|Hne].
    + rewrite list_lookup_insert_eq in Hj by (by eapply lookup_lt_Some). injection Hj as <-.
      by exists q, pend.
    + rewrite list_lookup_insert_ne in Hj by done. by apply Hg.
  - intros Hon. destruct (Ho Hon) as [Hcs Hes]. split; [|done]. simpl.
    apply Forall_insert; [done|]. apply (Hcalls Hon). exact (Forall_lookup_1 _ _ _ _ Hcs Hi).
Qed.

(** An instruction inside a section: the abstract configuration stays. *)
Lemma simulates_inside only c a es i js p k ans v' h' m :
  lock_inv c -> simulates only c a es ->
  goroutines c !! i = Some {| calls := js; cur := Some p; answers := ans |} ->
  place c i = Some m -> finish p (shared c) = finish k v' -> same (other m) (shared c) v' ->
  same_config (shared c) v' -> (forall m', m' <> m -> h' m' = held c m') ->
  (inCS k = Some m /\ h' m = true \/ inCS k = None /\ h' m = false) ->
  simulates only {| shared := v'; held := h';
    goroutines := <[i := {| calls := js; cur := Some k; answers := ans |}]> (goroutines c) |} a es.
Proof.
  intros Hinv [Hc Hf Hh Hl Hg Ho] Hi Hp Ef Hs Hcf Hheld Hk. set (c' := Build_mconf _ _ _).
  pose proof (only_insert c c' i _ {| calls := js; cur := Some k; answers := ans |} Hi eq_refl) as Honly.
  assert (Hcur : curOf c i = Some p) by (unfold curOf; by rewrite Hi).
  assert (Hpm : inCS p = Some m) by (unfold place in Hp; by rewrite Hcur in Hp).
  assert (Hother : forall m', m' <> m -> m' = other m) by (intros m' Hm'; by destruct m, m').
  (** The other goroutines are outside, or in the other section. *)
  assert (Hj : forall j q, j <> i -> curOf c j = Some q ->
    fst (finish q v') = fst (finish q (shared c)) /\
    forall m', inCS q = Some m' -> same m' (snd (finish q v')) (snd (finish q (shared c)))).
  { intros j q Hji Hq. destruct (inCS q) as [m'|] eqn:Em.
    - assert (m' <> m) as ->%Hother.
      { intros ->. apply Hji, (li_one c Hinv j i m); [unfold place; by rewrite Hq|done]. }
      destruct (finish_same (other m) q v' (shared c)) as (E1 & E2 & _); [done|by eapply li_code|by apply same_sym|].
      split; [done|]. by intros m' [= <-].
    - by rewrite !finish_outside. }
  split.
  - simpl. eapply config_trans; [|exact Hc]. unfold same_config in *. intuition.
  - intros m' Hm'. simpl in *. destruct (decide (m' = m)) as [->|Hne].
    + destruct Hk as [[_ Hk]|[Hk _]]; [congruence|].
      specialize (Hh i p m Hcur Hpm). rewrite Ef, (finish_outside k) in Hh by done. exact Hh.
    + rewrite Hheld in Hm' by done. apply (same_trans _ _ (shared c)); [|by apply Hf].
      rewrite (Hother m' Hne). by apply same_sym.
  - intros j q m' Hq Hm'. rewrite Honly in Hq. simpl in Hq |- *. case_decide as Hji.
    + injection Hq as <-. rewrite <-Ef. destruct Hk as [[Hk _]|[Hk _]]; [|congruence].
      assert (m' = m) as -> by congruence. by apply (Hh i p).
    + destruct (Hj j q Hji Hq) as [_ E]. eapply same_trans; [by apply E|]. by apply (Hh j q).
  - simpl. by rewrite length_insert.
  - intros j gj Hgj. simpl in Hgj |- *. destruct Hcf as [<- <-]. destruct (decide (j = i)) as [->|Hne].
    + rewrite list_lookup_insert_eq in Hgj by (by eapply lookup_lt_Some). injection Hgj as <-.
      destruct (Hg i _ Hi) as (q & pend & ? & Hat & ?). exists q, pend. split; [done|]. split; [|done].
      unfold after in *. simpl in *. by rewrite <-Ef.
    + rewrite list_lookup_insert_ne in Hgj by done.
      destruct (Hg j gj Hgj) as (q & pend & ? & Hat & ?). exists q, pend. split; [done|]. split; [|done].
      unfold after in *. destruct (cur gj) as [qj|] eqn:Ecur; [|done]. simpl in *.
      destruct (Hj j qj Hne) as [-> _]; [|done]. unfold curOf. by rewrite Hgj.
  - intros Hon. destruct (Ho Hon) as [Hcs Hes]. split; [|done]. simpl.
    apply Forall_insert; [done|]. exact (Forall_lookup_1 _ _ _ _ Hcs Hi).
Qed.

(** Entering a section: the abstract configuration runs all of it. *)
Lemma simulates_enter only c a es i js m k ans :
  lock_inv c -> simulates only c a es ->
  goroutines c !! i = Some {| calls := js; cur := Some (Lock m k); answers := ans |} ->
  held c m = false -> inCS k = Some m -> well_locked k ->
  exists es' a', vsteps a es' a' /\
    simulates only {| shared := shared c; held := <[m := true]> (held c);
      goroutines := <[i := {| calls := js; cur := Some k; answers := ans |}]> (goroutines c) |} a' (es ++ es').
Proof.
  intros Hinv [Hc Hf Hh Hl Hg Ho] Hi Hm Hk Hw. set (c' := Build_mconf _ _ _).
  pose proof (only_insert c c' i _ {| calls := js; cur := Some k; answers := ans |} Hi eq_refl) as Honly.
  destruct (Hg i _ Hi) as (q & pend & Hq & Hat & Hans). simpl in Hat, Hans.
  destruct (lock_section only i q pend (shared c) a m k Hat Hq Hc (Hf m Hm))
    as (-> & es' & a' & q' & pend' & Hv & Hsub & Ht & Hat' & Hai & Haj & Hin & Hout & Hc').
  exists es', a'. split; [done|].
  pose proof (proj1 (not_held c m Hinv) Hm) as Hfree.
  split.
  - by eapply config_trans.
  - intros m' Hm'. simpl in Hm' |- *. destruct (decide (m' = m)) as [->|Hne].
    { by rewrite fn_lookup_insert in Hm'. }
    rewrite fn_lookup_insert_ne in Hm' by done.
    eapply same_trans; [by apply Hf|]. apply Hout. congruence.
  - intros j p m' Hj Hm'. rewrite Honly in Hj. simpl in Hj |- *. case_decide as Hji.
    + injection Hj as <-. by apply Hin.
    + eapply same_trans; [by apply (Hh j p)|]. apply Hout. intros [= Hkm]. apply (Hfree j).
      unfold place. rewrite Hj. simpl. congruence.
  - simpl. by rewrite Ht, !length_insert.
  - intros j gj Hgj. simpl in Hgj |- *. rewrite answersOf_app. destruct (decide (j = i)) as [->|Hne].
    + rewrite list_lookup_insert_eq in Hgj by (by eapply lookup_lt_Some). injection Hgj as <-.
      exists q', pend'. rewrite Ht, list_lookup_insert_eq by (by eapply lookup_lt_Some).
      split; [done|]. split; [done|]. by rewrite Hans, Hai, app_nil_r.
    + rewrite list_lookup_insert_ne in Hgj by done. destruct (Hg j gj Hgj) as (qj & pj & ? & ? & ?).
      exists qj, pj. rewrite Ht, list_lookup_insert_ne by done. split; [done|]. split; [done|].
      by rewrite Haj, app_nil_r by done.
  - intros Hon. destruct (Ho Hon) as [Hcs Hes]. split; [|by apply Forall_app; split; [|apply Hsub]].
    simpl. apply Forall_insert; [done|]. exact (Forall_lookup_1 _ _ _ _ Hcs Hi).
Qed.

Lemma simulates_step only c i c' a es :
  lock_inv c -> mstep c i c' -> simulates only c a es ->
  exists es' a', vsteps a es' a' /\ simulates only c' a' (es ++ es').
Proof.
  intros Hinv Hstep Hsim. destruct Hstep as [j js ans Hg|js p ans p' v' h' Hg E|js x ans Hg].
  - destruct (code_ok (maxAttempts (shared c)) (ttl (shared c)) j) as (Hcs & _ & _).
    destruct (sim_goroutine _ _ _ _ Hsim i _ Hg) as (q & pend & Hq & Hat & Hans).
    simpl in Hat. inversion Hat; subst. exists [], a. rewrite app_nil_r. split; [constructor|].
    eapply (simulates_local only c a es i _ _ Idle []); [exact Hsim|exact Hg|exact Hq|..].
    + unfold place, curOf. by rewrite Hg.
    + done.
    + unfold after. simpl. rewrite finish_outside by done. simpl. apply at_call.
      intros Hon. destruct (sim_only _ _ _ _ Hsim Hon) as [Hcalls _].
      pose proof (Forall_lookup_1 _ _ _ _ Hcalls Hg) as Hj. by inversion Hj.
    + done.
    + simpl. by intros _ [_ ?]%Forall_cons.
  - assert (Hw : well_locked p) by (apply (li_code c Hinv i); unfold curOf; by rewrite Hg).
    destruct (exec_moved _ _ _ _ _ _ Hw E) as [Hm Hw'].
    assert (Hpl : place c i = inCS p) by (unfold place, curOf; by rewrite Hg).
    destruct Hm as [m k -> Hm Hk|m k -> Hm Hk|m k v' Hp Hk Ef Hs Hcf].
    + by apply simulates_enter.
    + exists [], a. rewrite app_nil_r. split; [constructor|].
      apply (simulates_inside only c a es i js (Unlock m k) k ans (shared c) _ m); try done.
      * by rewrite (finish_outside k).
      * by destruct m.
      * intros m' Hm'. by rewrite fn_lookup_insert_ne.
      * right. by rewrite fn_lookup_insert.
    + exists [], a. rewrite app_nil_r. split; [constructor|].
      apply (simulates_inside only c a es i js p k ans v' _ m); try done; [congruence|].
      left. split; [done|]. apply (li_held c Hinv). exists i. congruence.
  - destruct (sim_goroutine _ _ _ _ Hsim i _ Hg) as (q & pend & Hq & Hat & Hans).
    simpl in Hat. inversion Hat as [|y ? Ey| | | |]; subst; [by destruct y|].
    exists [], a. rewrite app_nil_r. split; [constructor|].
    eapply (simulates_local only c a es i _ _ Idle []); [exact Hsim|exact Hg|exact Hq|..].
    + unfold place, curOf. by rewrite Hg.
    + done.
    + constructor.
    + simpl in *. by rewrite app_nil_r.
    + done.
Qed.

Lemma mrun_simulates only v work tr c :
  (only -> Forall (Forall isSubmit) work) -> mrun (start v work) tr c ->
  exists es a, vsteps (initial v (length work)) es a /\ simulates only c a es.
Proof.
  intros Hon. induction 1 as [|tr c1 i c2 Hrun (es & a & Hv & Hsim) Hstep].
  - exists [], (initial v (length work)). split; [constructor|]. split; simpl.
    + done.
    + by intros [].
    + intros i p m. unfold curOf. simpl. rewrite list_lookup_fmap. by destruct (work !! i).
    + by rewrite length_replicate, length_fmap.
    + intros i g. rewrite list_lookup_fmap. destruct (work !! i) as [js|] eqn:Ei; [|done].
      intros [= <-]. exists Idle, []. split; [|split; [constructor|done]].
      apply lookup_replicate. split; [done|]. by eapply lookup_lt_Some.
    + intros Ho. split; [|done]. specialize (Hon Ho). clear -Hon. induction Hon; by constructor.
  - destruct (simulates_step only c1 i c2 a es (mrun_inv _ _ _ Hrun (start_inv v work)) Hstep Hsim)
      as (es' & a' & Hv' & Hsim'). exists (es ++ es'), a'. split; [by eapply vsteps_app|done].
Qed.

Lemma vsteps_submit v k es a :
  vsteps (initial v k) es a -> Forall ofSubmit es -> exists ls, es = ESubmit <$> ls /\ steps (initial v k) ls a.
Proof.
  intros Hv. induction Hv as [|es a1 e a2 Hv IH Hs]; intros Hf.
  - exists []. split; [done|constructor].
  - apply Forall_app in Hf as [Hf [He _]%Forall_cons]. destruct (IH Hf) as (ls & -> & Hls).
    destruct Hs as [l a' Hs| | | |]; try done. exists (ls ++ [l]). rewrite fmap_app.
    split; [done|]. by eapply steps_snoc.
Qed.


(** ** One goroutine alone *)

(** The calls as the sequential model has them. *)
Definition perform (c : call) : GoM V answer :=
  match c with
  | Submit r => b ← submit r; mret (ABool b)
  | CallIsRateLimited => gets (fun v => ABool (IsRateLimited v))
  | CallResetAttempts => fun v => (Ret ADone, ResetAttempts v)
  | CallClearUsedCodes => _ ← ClearUsedCodes; mret ADone
  | CallSize => gets (fun v => ASize (Size (store v)))
  end.

Fixpoint performAll (l : list call) : GoM V (list answer) :=
  match l with
  | [] => mret []
  | c :: l' => a ← perform c; others ← performAll l'; mret (a :: others)
  end.

(** The rest of a call with nobody else running. *)
Fixpoint alone (p : prog) : GoM V answer := fun v =>
  match p with
  | Return a => (Ret a, v)
  | Lock _ k | Unlock _ k => alone k v
  | LoadAttempts k => alone (k (attempts v)) v
  | StoreAttempts n k => alone k (set_attempts n v)
  | LoadStore k => alone (k (store v)) v
  | UpdateStore s k => alone k (set_store s v)
  end.

Lemma alone_code (v : V) c : alone (code (maxAttempts v) (ttl v) c) v = perform c v.
Proof.
  destruct c as [r| | | |]; try done. unfold perform, mbind, M_bind, submit, verifyInner.
  cbn [code verifyInner_code alone]. destruct (maxAttempts v <=? attempts v); [done|].
  unfold comparing. cbn [alone]. destruct (_ || _); [done|].
  unfold storing, CheckAndRecord_code. cbn [alone store set_store CheckAndRecord in_memory_store].
  unfold checkAndRecord. by destruct (isLive _ _ _).
Qed.

(** What a goroutine will have answered, and left, once it is done. *)
Definition outlook (g : goroutine) : GoM V (list answer) :=
  first ← match cur g with None => mret [] | Some p => a ← alone p; mret [a] end;
  others ← performAll (calls g);
  mret (answers g ++ first ++ others).

Lemma outlook_step c c' g : mstep c 0 c' -> goroutines c = [g] ->
  exists g', goroutines c' = [g'] /\ outlook g' (shared c') = outlook g (shared c).
Proof.
  intros Hstep E. destruct Hstep as [j js ans Hg|js p ans p' v' h' Hg Ex|js a ans Hg];
    rewrite E in Hg; injection Hg as ->; unfold set_g; cbn [goroutines shared]; rewrite E;
    (eexists; split; [reflexivity|]).
  - unfold outlook, mbind, M_bind. cbn [cur calls answers performAll shared set_g].
    unfold mbind, M_bind, mret, M_ret. rewrite alone_code. destruct (perform j (shared c)) as [[a|e|] v]; [|done..].
    by destruct (performAll js v) as [[]].
  - assert (Ha : alone p (shared c) = alone p' v').
    { destruct p; simpl in Ex; repeat case_match; by simplify_eq. }
    unfold outlook, mbind, M_bind. cbn [cur calls answers shared]. by rewrite Ha.
  - unfold outlook, mbind, M_bind. cbn [cur calls answers shared set_g alone mret M_ret].
    destruct (performAll js (shared c)) as [[as'|e|] v]; [|done..]. unfold mret, M_ret.
    by rewrite <-app_assoc.
Qed.

(** Every run of one goroutine ends, when it is done, with the answers and the
    verifier of the sequential model. *)
Theorem alone_is_sequential (v : V) (js : list call) (tr : list nat) (c : mconf) (g : goroutine)
    (Hrun : mrun (start v [js]) tr c) (Hg : goroutines c = [g]) (Hret : returned g) :
  performAll js v = (Ret (answers g), shared c).
Proof.
  assert (exists g', goroutines c = [g'] /\ outlook g' (shared c) = performAll js v) as (g' & E & Ho).
  { clear Hg Hret g. induction Hrun as [|tr c1 i c2 _ (g1 & E1 & Ho1) Hstep].
    - eexists. split; [reflexivity|]. unfold outlook, mbind, M_bind. cbn [cur calls answers shared start mret M_ret].
      unfold mret, M_ret. by destruct (performAll js v) as [[]].
    - assert (i = O) as ->.
      { destruct Hstep as [? ? ? Hg|? ? ? ? ? ? Hg ?|? ? ? Hg]; rewrite E1 in Hg; by destruct i. }
      destruct (outlook_step c1 c2 g1 Hstep E1) as (g2 & E2 & Ho2). exists g2. split; [done|]. congruence. }
  rewrite Hg in E. injection E as <-. rewrite <-Ho. destruct Hret as [E1 E2].
  unfold outlook, mbind, M_bind. rewrite E1, E2. cbn [performAll mret M_ret]. unfold mret, M_ret.
  by rewrite !app_nil_r.
Qed.

(** ** Concrete runs *)

(** The step of goroutine [i], if it has one. *)
Definition mnext (c : mconf) (i : nat) : option mconf :=
  match goroutines c !! i with
  | Some {| calls := js; cur := Some (Return a); answers := ans |} =>
      Some (set_g i {| calls := js; cur := None; answers := ans ++ [a] |} c)
  | Some {| calls := js; cur := Some p; answers := ans |} =>
      match exec p (shared c) (held c) with
      | Some (p', v', h') =>
          Some {| shared := v'; held := h';
                  goroutines := <[i := {| calls := js; cur := Some p'; answers := ans |}]> (goroutines c) |}
      | None => None
      end
  | Some {| calls := j :: js; cur := None; answers := ans |} =>
      Some (set_g i {| calls := js; cur := Some (code (maxAttempts (shared c)) (ttl (shared c)) j);
                       answers := ans |} c)
  | _ => None
  end.

Lemma mnext_mstep c i c' : mnext c i = Some c' -> mstep c i c'.
Proof.
  unfold mnext. destruct (goroutines c !! i) as [[[|j js] [p|] ans]|] eqn:Hg; intros E; try done.
  2: { destruct p as [a| | | | | |]; [injection E as <-; by eapply m_return|..];
       destruct (exec _ _ _) as [[[p' v'] h']|] eqn:Ex; try done; injection E as <-; by eapply m_exec. }
  2: { injection E as <-. by eapply m_call. }
  destruct p as [a| | | | | |]; [injection E as <-; by eapply m_return|..];
    destruct (exec _ _ _) as [[[p' v'] h']|] eqn:Ex; try done; injection E as <-; by eapply m_exec.
Qed.

(** A schedule: a goroutine that cannot step is passed over. *)
Fixpoint play (sched : list nat) (c : mconf) : list nat * mconf :=
  match sched with
  | [] => ([], c)
  | i :: sched' =>
      match mnext c i with
      | Some c' => let '(tr, c'') := play sched' c' in (i :: tr, c'')
      | None => play sched' c
      end
  end.

Lemma mrun_cons c i c1 tr c2 : mstep c i c1 -> mrun c1 tr c2 -> mrun c (i :: tr) c2.
Proof.
  intros Hs Hr. induction Hr as [|tr c3 j c4 Hr IH Hs'].
  - apply (mrun_snoc c [] c i c1); [constructor|done].
  - apply (mrun_snoc c (i :: tr) c3 j c4); done.
Qed.

Lemma play_run sched : forall c, mrun c (fst (play sched c)) (snd (play sched c)).
Proof.
  induction sched as [|i sched IH]; intros c; simpl; [constructor|].
  destruct (mnext c i) as [c'|] eqn:E; [|apply IH].
  specialize (IH c'). destruct (play sched c') as [tr c'']. simpl in *.
  eapply mrun_cons; [by apply mnext_mstep|done].
Qed.

(** Two goroutines submit the same valid code, one of them twice; a third one
    submits a wrong code, asks for the limit and resets the attempts. *)
Definition work3 : list (list call) :=
  [[Submit (good 1 (lit "123456") []); Submit (good 2 (lit "123456") [])];
   [Submit (good 1 (lit "123456") [])];
   [Submit (bad 1 (lit "111111")); CallIsRateLimited; CallResetAttempts; CallSize]].

(** In turn, one instruction each. *)
Definition turns (n : nat) : list nat := concat (replicate n [0; 1; 2]%nat).
Definition end3 : mconf := snd (play (turns 60) (start verifier3 work3)).

Lemma end3_run : mrun (start verifier3 work3) (fst (play (turns 60) (start verifier3 work3))) end3.
Proof. apply play_run. Qed.

Lemma end3_returned : Forall returned (goroutines end3).
Proof. apply (bool_decide_unpack _). vm_compute. exact I. Qed.

Lemma end3_stuck i c' : ~ mstep end3 i c'.
Proof.
  intros Hs. pose proof end3_returned as Hr.
  destruct Hs as [j js ans Hg|js p ans p' v' h' Hg _|js a ans Hg];
    by destruct (Forall_lookup_1 _ _ _ _ Hr Hg).
Qed.

(** Only one of the three submissions of the code is accepted. *)
Lemma calls_complete_witness :
  (exists g, goroutines end3 !! 0%nat = Some g /\ returned g /\ length (answers g) = 2%nat) /\
  (forall m, held end3 m = false) /\
  answers <$> goroutines end3 = [[ABool true; ABool false]; [ABool false]; [ABool false; ABool false; ADone; ASize 1]].
Proof.
  destruct (calls_complete verifier3 work3 _ end3 end3_run) as (_ & _ & H).
  destruct (H end3_stuck) as [Hall Hfree]. split; [exact (Hall 0%nat _ eq_refl)|].
  split; [exact Hfree|]. vm_compute. reflexivity.
Defined.

(** Midway, goroutine 0 holds the verifier's mutex and is about to read. *)
Definition mid3 : mconf := snd (play [0; 0; 1; 1; 2]%nat (start verifier3 work3)).

Lemma mid3_run : mrun (start verifier3 work3) (fst (play [0; 0; 1; 1; 2]%nat (start verifier3 work3))) mid3.
Proof. apply play_run. Qed.

Lemma no_data_race_witness : held mid3 VerifierMu = true.
Proof.
  assert (Ha : curOf mid3 0 ≫= accesses = Some VerifierMu) by (vm_compute; reflexivity).
  destruct (curOf mid3 0) as [p|] eqn:E; [|discriminate Ha]. simpl in Ha.
  exact (proj2 (no_data_race verifier3 work3 _ mid3 mid3_run 0 0 p p VerifierMu E E Ha Ha)).
Defined.

