(* ===== verification/Login.v ===== *)
(** * A login: [TOTP] and [Verifier] together

    The flow of [docs/usage.md]: the server generates the code it expects for
    the context it issued and submits the user's code to its verifier.  Runs of
    logins are runs of the verifier on the codes of the reference function, so
    the guarantees of the two components combine. *)
From S2P Require Import Prelude Errors ConstantTime Hash Secret Digits Strings Context Hotp Skew Totp.
From S2P Require Import ReplayStore Verifier.

(** One login: the store's clock, the time the code is for, the user's code
    and the two contexts. *)
Record attempt : Type := {
  l_now : goTime; l_time : Z; l_code : bytes; l_issued : option OtpContext; l_request : option OtpContext
}.

Section login.
Context {X S : Type} `{HashSuite} `{PoolPolicy} `{ReplayStore S}.
Abbreviation St := (world X * TOTP X)%type.
Abbreviation Server := (St * Verifier S)%type.

Definition login (a : attempt) : GoM Server bool :=
  expected ← zoom fst (fun s sv => (s, sv.2)) (Totp.GenBound (l_issued a) (Some (l_time a)));
  zoom snd (fun v sv => (sv.1, v))
    (VerifyWithContext (l_now a) (l_code a) expected (l_issued a) (l_request a)).

Fixpoint loginAll (l : list attempt) : GoM Server (list bool) :=
  match l with
  | [] => mret []
  | a :: l' => b ← login a; bs ← loginAll l'; mret (b :: bs)
  end.

(** The submission the verifier sees. *)
Definition submissionOf (code : Z -> bytes -> bytes) (per : Z) (a : attempt) : submission :=
  {| s_now := l_now a; s_code := l_code a; s_expected := code (l_time a / per) (contextBytes (l_issued a));
     s_issued := contextBytes (l_issued a); s_request := contextBytes (l_request a) |}.

Section run.
Context (fn : hashFn) (d per : Z) (l : positive) (key : bytes).
Abbreviation code := (otp_code fn key d).

Lemma login_run a (s : St) (v : Verifier S) :
  totp_inv fn d per l key s ->
  exists s', totp_inv fn d per l key s' /\
    login a (s, v) = (let '(o, v') := submit (submissionOf code per a) v in (o, (s', v'))).
Proof.
  intros Hs. pose proof (totp_inv_pos _ _ _ _ _ _ Hs) as Hp.
  pose proof (totp_source (X := X) fn d per l key (totp_inv_digits _ _ _ _ _ _ Hs)) as Hsrc.
  destruct (totp_GenBound_run code (totp_inv fn d per l key) per (totp_inv_live fn d per l key)
    (totp_inv_period fn d per l key) ltac:(lia) s (l_issued a) (Some (l_time a)) Hs) as (s' & E & Hs').
  exists s'. split; [done|]. unfold login, mbind, M_bind, zoom. cbn [fst snd]. rewrite E. done.
Qed.

(** A run of logins is a run of the verifier. *)
Lemma loginAll_run las : forall (s : St) (v : Verifier S),
  totp_inv fn d per l key s ->
  exists s', totp_inv fn d per l key s' /\
    forall bs v', submitAll (submissionOf code per <$> las) v = (Ret bs, v') ->
    loginAll las (s, v) = (Ret bs, (s', v')).
Proof.
  induction las as [|a las IH]; intros s v Hs.
  { exists s. split; [done|]. by intros bs v' [= <- <-]. }
  destruct (login_run a s v Hs) as (s1 & Hs1 & E1).
  destruct (submit (submissionOf code per a) v) as [o v1] eqn:Es.
  destruct (IH s1 v1 Hs1) as (s2 & Hs2 & E2). exists s2. split; [done|].
  intros bs v'. cbn [fmap list_fmap submitAll loginAll]. unfold mbind, M_bind. rewrite Es, E1.
  destruct o as [b|e|]; [|done..].
  destruct (submitAll (submissionOf code per <$> las) v1) as [[bs1|e|] v2] eqn:Ea; [|done..].
  intros [= <- <-]. by rewrite (E2 bs1 v2 eq_refl).
Qed.
End run.
End login.

(** ** Runs of the verifier *)
Section runs.
Context {S : Type} `{ReplayStore S}.

Lemma submit_matches r (v : Verifier S) v' : sized r -> submit r v = (Ret true, v') -> matches r = true.
Proof.
  intros Hr. unfold submit, verifyInner. rewrite matches_guard by done.
  destruct (_ <=? _); [done|]. by destruct (matches r).
Qed.

(** A run, cut at one of its submissions. *)
Lemma submitAll_split l1 : forall r l2 (v v' : Verifier S) bs,
  submitAll (l1 ++ r :: l2) v = (Ret bs, v') ->
  exists bs1 b bs2 v1 v2, bs = bs1 ++ b :: bs2 /\ length bs1 = length l1 /\
    submitAll l1 v = (Ret bs1, v1) /\ submit r v1 = (Ret b, v2) /\ submitAll l2 v2 = (Ret bs2, v').
Proof.
  induction l1 as [|r0 l1 IH]; intros r l2 v v' bs E; cbn [app submitAll] in E; unfold mbind, M_bind in E.
  - destruct (submit r v) as [[b|e|] v1] eqn:E0; [|done..].
    destruct (submitAll l2 v1) as [[bs1|e|] v2] eqn:E1; [|done..]. injection E as <- <-.
    by exists [], b, bs1, v, v1.
  - destruct (submit r0 v) as [[b0|e|] v1] eqn:E0; [|done..].
    destruct (submitAll (l1 ++ r :: l2) v1) as [[bs0|e|] v2] eqn:E1; [|done..]. injection E as <- <-.
    destruct (IH r l2 v1 v2 bs0 E1) as (bs1 & b & bs2 & v3 & v4 & -> & Hlen & E3 & E4 & E5).
    exists (b0 :: bs1), b, bs2, v3, v4. split; [done|]. split; [simpl; by rewrite Hlen|]. split; [|done].
    cbn [submitAll]. unfold mbind, M_bind. by rewrite E0, E3.
Qed.

Lemma submitAll_accepts_matching l i r (v v' : Verifier S) bs :
  Forall sized l -> submitAll l v = (Ret bs, v') -> l !! i = Some r -> bs !! i = Some true -> matches r = true.
Proof.
  intros Hl E Hi Hb. pose proof (lookup_lt_Some _ _ _ Hi) as Hlt.
  rewrite <-(take_drop_middle _ _ _ Hi) in E.
  destruct (submitAll_split _ _ _ _ _ _ E) as (bs1 & b & bs2 & v1 & v2 & -> & Hlen & _ & Es & _).
  rewrite length_take in Hlen. rewrite list_lookup_middle in Hb by lia. injection Hb as ->.
  apply (submit_matches r v1 v2); [|done]. exact (Forall_lookup_1 _ _ _ _ Hl Hi).
Qed.
End runs.

Lemma submit_keeps r (v : Verifier InMemoryReplayStore) b v' :
  store_inv (store v) -> submit r v = (Ret b, v') ->
  store_inv (store v') /\ maxSize (store v') = maxSize (store v) /\ ttl v' = ttl v.
Proof.
  intros Hs E. rewrite (submit_ttl r v b v' E). destruct (submit_store r v b v' E) as [[-> _]|Ec]; [done|].
  destruct (checkAndRecord_run (s_now r) (keyOf r) (ttl v) (store v) Hs) as (s' & E' & Hs' & Hm & _).
  simpl in Ec. rewrite E' in Ec. by injection Ec as _ <-.
Qed.

Lemma submitAll_keeps l : forall (v : Verifier InMemoryReplayStore) bs v',
  store_inv (store v) -> submitAll l v = (Ret bs, v') ->
  store_inv (store v') /\ maxSize (store v') = maxSize (store v) /\ ttl v' = ttl v /\ length bs = length l.
Proof.
  induction l as [|r l IH]; intros v bs v' Hs E; [by injection E as <- <-|].
  cbn [submitAll] in E. unfold mbind, M_bind in E.
  destruct (submit r v) as [[b|e|] v1] eqn:E1; [|done..].
  destruct (submitAll l v1) as [[bs1|e|] v2] eqn:E2; [|done..]. injection E as <- <-.
  destruct (submit_keeps r v b v1 Hs E1) as (Hs1 & Hm1 & Ht1).
  destruct (IH v1 bs1 v2 Hs1 E2) as (Hs2 & Hm2 & Ht2 & Hlen).
  split; [done|]. split; [congruence|]. split; [congruence|]. simpl. by rewrite Hlen.
Qed.

(** Within one time to live, and as long as the store has room, no (code,
    context) is accepted twice in a run. *)
Lemma submitAll_distinct l i j r r' (v v' : Verifier InMemoryReplayStore) bs :
  store_inv (store v) -> submitAll l v = (Ret bs, v') -> (i < j)%nat ->
  l !! i = Some r -> l !! j = Some r' -> bs !! i = Some true -> bs !! j = Some true ->
  Forall (fun x => UnixNano (s_now x) < i64 (UnixNano (s_now r) + ttl v)) l ->
  Z.of_nat (length l) <= maxSize (store v) - evictTarget (maxSize (store v)) ->
  keyOf r' <> keyOf r.
Proof.
  intros Hs E Hij Hi Hj Hbi Hbj Htimes Hcap Hkey.
  pose proof (lookup_lt_Some _ _ _ Hi) as Hli. pose proof (lookup_lt_Some _ _ _ Hj) as Hlj.
  rewrite <-(take_drop_middle _ _ _ Hi) in E.
  destruct (submitAll_split _ _ _ _ _ _ E) as (bs1 & b & bs2 & v1 & v2 & -> & Hlen1 & E1 & Er & E2).
  rewrite length_take in Hlen1. rewrite list_lookup_middle in Hbi by lia. injection Hbi as ->.
  assert (Hj' : drop (Datatypes.S i) l !! (j - Datatypes.S i)%nat = Some r')
    by (rewrite lookup_drop; by replace (Datatypes.S i + (j - Datatypes.S i))%nat with j by lia).
  rewrite <-(take_drop_middle _ _ _ Hj') in E2.
  destruct (submitAll_split _ _ _ _ _ _ E2) as (bs3 & b' & bs4 & v3 & v4 & -> & Hlen3 & E3 & Er' & _).
  rewrite length_take, length_drop in Hlen3.
  assert (b' = true) as ->.
  { rewrite lookup_app_r, lookup_cons_ne_0 in Hbj by lia.
    rewrite list_lookup_middle in Hbj by lia. by injection Hbj. }
  destruct (submitAll_keeps _ _ _ _ Hs E1) as (Hs1 & Hm1 & Ht1 & _).
  pose proof (verifier_rejects_replay r r' (take (j - Datatypes.S i) (drop (Datatypes.S i) l)) v1 v2 v3 bs3 Hs1 Er E3 Hkey)
    as Hrej. rewrite Er' in Hrej. simpl in Hrej. rewrite Ht1, Hm1 in Hrej.
  enough (Ret (E := error) true = Ret false) by done. apply Hrej.
  - constructor; [exact (Forall_lookup_1 _ _ _ _ Htimes Hj)|]. by apply Forall_take, Forall_drop.
  - pose proof (length_filter (fun b => b = true) bs3). unfold fresh. lia.
Qed.

(** A right submission on an unlocked verifier whose store does not know it. *)
Lemma submit_complete r (v : Verifier InMemoryReplayStore) :
  store_inv (store v) -> sized r -> attempts v < maxAttempts v -> matches r = true ->
  isLive (entries (store v)) (UnixNano (s_now r)) (keyOf r) = false -> (submit r v).1 = Ret true.
Proof.
  intros Hs Hr Hlt Hm Hlive. unfold submit, verifyInner. rewrite matches_guard, Hm by done.
  rewrite (proj2 (Z.leb_gt _ _)) by done. cbn [negb]. fold (keyOf r).
  destruct (checkAndRecord_run (s_now r) (keyOf r) (ttl v) (store v) Hs) as (s' & E & _).
  rewrite Hlive in E. cbn [CheckAndRecord in_memory_store]. by rewrite E.
Qed.

(** ** Property *)

(** Inputs shorter than [2^63]. *)
Definition attempt_sized (a : attempt) : Prop :=
  Z.of_nat (length (l_code a)) < 2 ^ 63 /\ Z.of_nat (length (contextBytes (l_issued a))) < 2 ^ 63 /\
  Z.of_nat (length (contextBytes (l_request a))) < 2 ^ 63.

Lemma submissionOf_sized `{HashSuite} fn d per key a :
  6 <= d <= 8 -> attempt_sized a -> sized (submissionOf (otp_code fn key d) per a).
Proof. intros Hd (? & ? & ?). repeat split; try done. simpl. rewrite otp_code_length; lia. Qed.

(** C19: [GenBound] and [VerifyWithContext] together, over the in-memory
    store.  Every sequence of logins returns.  An accepted login presented the
    code of its own time step bound to the issued context, from that context;
    a right first login is accepted unless the verifier is locked or the store
    knows the code; a sequence of at most [maxSize - max(maxSize/10, 1)] logins,
    all before the expiry of an accepted one, never accepts its (code, context)
    a second time; and [n] logins without an
    acceptance leave [min(attempts + n, maxAttempts)] attempts. *)
Theorem login_sound {X} `{HashSuite} `{PoolPolicy} (fn : hashFn) (d per : Z) (l : positive) (key : bytes)
    (s : world X * TOTP X) (v : Verifier InMemoryReplayStore) (las : list attempt)
    (Hs : totp_inv fn d per l key s) (Hstore : store_inv (store v)) (Hc : counters_ok v)
    (Hl : Forall attempt_sized las) :
  let right a := contextBytes (l_issued a) = contextBytes (l_request a) /\
    l_code a = otp_code fn key d (l_time a / per) (contextBytes (l_issued a)) in
  exists bs s' v', loginAll las (s, v) = (Ret bs, (s', v')) /\ length bs = length las /\
    (forall i a, las !! i = Some a -> bs !! i = Some true -> right a) /\
    (forall a, las !! 0%nat = Some a -> right a -> attempts v < maxAttempts v ->
       isLive (entries (store v)) (UnixNano (l_now a)) (replayKey [] (l_code a) (contextBytes (l_issued a))) = false ->
       bs !! 0%nat = Some true) /\
    (forall i j a a', (i < j)%nat -> las !! i = Some a -> las !! j = Some a' ->
       bs !! i = Some true -> bs !! j = Some true ->
       Forall (fun b => UnixNano (l_now b) < i64 (UnixNano (l_now a) + ttl v)) las ->
       Z.of_nat (length las) <= maxSize (store v) - evictTarget (maxSize (store v)) ->
       (l_code a, contextBytes (l_issued a)) <> (l_code a', contextBytes (l_issued a'))) /\
    (Forall (fun b => b = false) bs ->
       attempts v' = Z.min (attempts v + Z.of_nat (length las)) (maxAttempts v)).
Proof.
  intros right. set (f := submissionOf (otp_code fn key d) per).
  assert (Hd : 6 <= d <= 8) by exact (totp_inv_digits _ _ _ _ _ _ Hs).
  assert (Hsized : Forall sized (f <$> las)).
  { apply Forall_fmap. eapply Forall_impl; [exact Hl|]. intros a. by apply submissionOf_sized. }
  assert (Hright : forall a, matches (f a) = true <-> right a)
    by (intros a; unfold matches; by rewrite andb_true_iff, !bool_decide_eq_true).
  destruct (submitAll_run store_inv (fun s t k => isLive (entries s) t k) (f <$> las) v Hstore Hc Hsized)
    as (bs & v' & E & _ & _ & _ & Hlen & Hatt). rewrite length_fmap in Hlen, Hatt.
  destruct (loginAll_run fn d per l key las s v Hs) as (s' & _ & Hrun).
  exists bs, s', v'. split; [exact (Hrun bs v' E)|]. split; [done|].
  assert (Hf : forall i a, las !! i = Some a -> (f <$> las) !! i = Some (f a))
    by (intros i a Hi; by rewrite list_lookup_fmap, Hi).
  split; [|split; [|split; [|done]]].
  - intros i a Hi Hb. apply Hright. exact (submitAll_accepts_matching _ i _ v v' bs Hsized E (Hf i a Hi) Hb).
  - intros a Ha Hr Hlt Hlive. pose proof (Hf 0%nat a Ha) as Hhd.
    rewrite <-(take_drop_middle _ _ _ Hhd) in E. rewrite take_0 in E.
    destruct (submitAll_split _ _ _ _ _ _ E) as (bs1 & b & bs2 & v1 & v2 & -> & Hl1 & E1 & Es & _).
    destruct bs1; [|done]. injection E1 as <-. simpl.
    pose proof (submit_complete (f a) v Hstore (Forall_lookup_1 _ _ _ _ Hsized Hhd) Hlt (proj2 (Hright a) Hr) Hlive)
      as Ht. rewrite Es in Ht. by injection Ht as ->.
  - intros i j a a' Hij Hi Hj Hbi Hbj Htimes Hcap Heq.
    apply (submitAll_distinct (f <$> las) i j (f a) (f a') v v' bs Hstore E Hij); auto.
    + by apply Forall_fmap.
    + by rewrite length_fmap.
    + unfold keyOf, f, submissionOf. cbn [s_code s_issued]. injection Heq as -> ->. done.
Qed.

(** The right code, the same again, a wrong one, and the right one from
    another context. *)
Definition sample_logins : list attempt :=
  let ctx := Some (OtpContextFromBytes (lit "device=a")) in
  let good := @otp_code Sha.suite sha1_New (rfc6238_key 20) 8 1 (lit "device=a") in
  [{| l_now := at_second 59; l_time := 59; l_code := good; l_issued := ctx; l_request := ctx |};
   {| l_now := at_second 60; l_time := 59; l_code := good; l_issued := ctx; l_request := ctx |};
   {| l_now := at_second 61; l_time := 59; l_code := lit "00000000"; l_issued := ctx; l_request := ctx |};
   {| l_now := at_second 62; l_time := 59; l_code := good; l_issued := ctx; l_request := None |}].

Lemma login_sound_witness :
  exists bs s' v', @loginAll _ _ Sha.suite first_idle _ sample_logins
      (rfc6238_world 20, rfc6238_totp, verifier3) = (Ret bs, (s', v')) /\
    bs !! 0%nat = Some true /\ bs !! 1%nat <> Some true.
Proof.
  destruct (@login_sound _ Sha.suite first_idle sha1_New 8 30 secret_loc (rfc6238_key 20)
    (rfc6238_world 20, rfc6238_totp) verifier3 sample_logins rfc6238_inv (proj1 verifier3_ok) (proj2 verifier3_ok))
    as (bs & s' & v' & E & _ & _ & Hfirst & Hdistinct & _).
  { repeat constructor; vm_compute; congruence. }
  assert (H0 : bs !! 0%nat = Some true).
  { eapply Hfirst; [reflexivity| |reflexivity|]; [split; vm_compute; reflexivity|vm_compute; reflexivity]. }
  exists bs, s', v'. split; [exact E|]. split; [exact H0|]. intros H1.
  refine (Hdistinct 0%nat 1%nat _ _ _ eq_refl eq_refl H0 H1 _ _ eq_refl).
  - lia.
  - apply (bool_decide_unpack _). vm_compute. exact I.
  - vm_compute. congruence.
Defined.
