(* ===== verification/Provisioning.v ===== *)
(** * Provisioning URIs: [provisioning.go]

    The [OtpAuthUri] builder, percent-encoding and the normalisation of
    secrets.  A reference parser of the [otpauth://] format shows that the
    built URI carries exactly the fields that were set. *)
From S2P Require Import Prelude Errors Bits Base32 Strings.

Definition OtpType : Type := Z.
Definition HotpType : OtpType := 0.
Definition TotpType : OtpType := 1.

Record OtpAuthUri : Type := {
  typ : OtpType;
  label : bytes;
  secret : bytes;
  issuer : bytes;
  algorithm : option Algorithm;
  digits : option Z;
  period : option Z;
  counter : option Z
}.

(** ** The builder *)
Definition NewOtpAuthUri (t : OtpType) (l s : bytes) : OtpAuthUri :=
  {| typ := t; label := l; secret := s; issuer := []; algorithm := None; digits := None;
     period := None; counter := None |}.

Definition Issuer (i : bytes) (u : OtpAuthUri) : OtpAuthUri :=
  {| typ := typ u; label := label u; secret := secret u; issuer := i; algorithm := algorithm u;
     digits := digits u; period := period u; counter := counter u |}.
Definition Algorithm_ (a : Algorithm) (u : OtpAuthUri) : OtpAuthUri :=
  {| typ := typ u; label := label u; secret := secret u; issuer := issuer u; algorithm := Some a;
     digits := digits u; period := period u; counter := counter u |}.
Definition Digits_ (d : Z) (u : OtpAuthUri) : OtpAuthUri :=
  {| typ := typ u; label := label u; secret := secret u; issuer := issuer u;
     algorithm := algorithm u; digits := Some d; period := period u; counter := counter u |}.
Definition Period (p : Z) (u : OtpAuthUri) : OtpAuthUri :=
  {| typ := typ u; label := label u; secret := secret u; issuer := issuer u;
     algorithm := algorithm u; digits := digits u; period := Some p; counter := counter u |}.
Definition Counter (c : Z) (u : OtpAuthUri) : OtpAuthUri :=
  {| typ := typ u; label := label u; secret := secret u; issuer := issuer u;
     algorithm := algorithm u; digits := digits u; period := period u; counter := Some c |}.

(** ** Percent-encoding *)
Definition shouldNotEncode (b : byte) : bool :=
  let c := b2z b in
  in_range 65 90 c || in_range 97 122 c || in_range 48 57 c
  || (c =? 45) || (c =? 46) || (c =? 95) || (c =? 126).

Definition hexUpper : bytes := lit "0123456789ABCDEF".
Definition hexDigit (n : Z) : byte := nth (Z.to_nat n) hexUpper Byte.x00.

Fixpoint percentEncode (s : bytes) : bytes :=
  match s with
  | [] => []
  | b :: s' =>
      (if shouldNotEncode b then [b]
       else ["%"%byte; hexDigit (Z.shiftr (b2z b) 4); hexDigit (Z.land (b2z b) 0x0f)])
      ++ percentEncode s'
  end.

(** ** Secrets *)
Definition isWhitespace (c : Z) : bool :=
  (c =? 9) || (c =? 10) || (c =? 11) || (c =? 12) || (c =? 13) || (c =? 32) || (c =? 0x85)
  || (c =? 0xa0) || (c =? 0x1680) || (c =? 0x2028) || (c =? 0x2029) || (c =? 0x202f)
  || (c =? 0x205f) || (c =? 0x3000) || in_range 0x2000 0x200a c.

Definition normalizeBase32Secret (s : bytes) : bytes :=
  c ← filter (fun c => negb (c =? 61) && negb (isWhitespace c) = true) (runes s); encodeRune c.

(** ** [strconv.FormatUint(v, 10)]; 20 digits are enough for 64 bits *)
Fixpoint formatUint (fuel : nat) (v : Z) (acc : bytes) : bytes :=
  match fuel with
  | O => acc
  | S f =>
      let acc := z2b (48 + v mod 10) :: acc in
      if v <? 10 then acc else formatUint f (v / 10) acc
  end.
Definition FormatUint (v : Z) : bytes := formatUint 20 v [].

(** ** [Build] *)
Definition typeStr (t : OtpType) : bytes := if t =? HotpType then lit "hotp" else lit "totp".

Definition Build (u : OtpAuthUri) : bytes :=
  let uri := lit "otpauth://" ++ typeStr (typ u) ++ lit "/" ++ percentEncode (label u)
             ++ lit "?secret=" ++ percentEncode (normalizeBase32Secret (secret u)) in
  let uri := if bool_decide (issuer u = []) then uri
             else uri ++ lit "&issuer=" ++ percentEncode (issuer u) in
  let uri := match algorithm u with
             | Some a => uri ++ lit "&algorithm=" ++ Algorithm_String a | None => uri end in
  let uri := match digits u with
             | Some d => uri ++ lit "&digits=" ++ FormatUint d | None => uri end in
  let uri := match period u with
             | Some p => uri ++ lit "&period=" ++ FormatUint p | None => uri end in
  match counter u with
  | Some c => uri ++ lit "&counter=" ++ FormatUint c | None => uri end.

Definition OtpAuthUri_String (u : OtpAuthUri) : bytes := Build u.

(** ** Reference parser *)
Definition hexVal (b : byte) : option Z :=
  let c := b2z b in
  if in_range 48 57 c then Some (c - 48)
  else if in_range 65 70 c then Some (c - 55)
  else if in_range 97 102 c then Some (c - 87) else None.

Fixpoint percentDecode (s : bytes) : option bytes :=
  match s with
  | [] => Some []
  | b :: s' =>
      if decide (b = "%"%byte) then
        match s' with
        | h :: l :: s'' =>
            x ← hexVal h; y ← hexVal l; cons (z2b (16 * x + y)) <$> percentDecode s''
        | _ => None
        end
      else cons b <$> percentDecode s'
  end.

Fixpoint parseUintLoop (s : bytes) (v : Z) : option Z :=
  match s with
  | [] => Some v
  | b :: s' => if in_range 48 57 (b2z b) then parseUintLoop s' (10 * v + (b2z b - 48)) else None
  end.
Definition parseUint (s : bytes) : option Z :=
  match s with [] => None | _ => parseUintLoop s 0 end.

(** The part before the first [c], and the part after it if there is one. *)
Definition cut (c : byte) (s : bytes) : bytes * option bytes :=
  match IndexByte s c with
  | Some i => (take i s, Some (drop (S i) s))
  | None => (s, None)
  end.

Fixpoint splitOn (fuel : nat) (c : byte) (s : bytes) : list bytes :=
  match fuel with
  | O => [s]
  | S f => match cut c s with (h, Some r) => h :: splitOn f c r | (h, None) => [h] end
  end.

(** [key=value], both percent-decoded. *)
Definition parseParam (s : bytes) : option (bytes * bytes) :=
  match cut "="%byte s with
  | (k, Some v) => k' ← percentDecode k; v' ← percentDecode v; Some (k', v')
  | _ => None
  end.

Record parsedUri : Type := { p_type : bytes; p_label : bytes; p_params : list (bytes * bytes) }.

Definition parseOtpAuth (s : bytes) : option parsedUri :=
  let scheme := lit "otpauth://" in
  if negb (HasPrefix s scheme) then None else
  match cut "/"%byte (drop (length scheme) s) with
  | (t, Some rest) =>
      match cut "?"%byte rest with
      | (l, Some query) =>
          l' ← percentDecode l;
          ps ← mapM parseParam (splitOn (length query) "&"%byte query);
          Some {| p_type := t; p_label := l'; p_params := ps |}
      | _ => None
      end
  | _ => None
  end.

(** The parameters a URI should carry. *)
Definition uriParams (u : OtpAuthUri) : list (bytes * bytes) :=
  [(lit "secret", normalizeBase32Secret (secret u))]
  ++ (if bool_decide (issuer u = []) then [] else [(lit "issuer", issuer u)])
  ++ (match algorithm u with Some a => [(lit "algorithm", Algorithm_String a)] | None => [] end)
  ++ (match digits u with Some d => [(lit "digits", FormatUint d)] | None => [] end)
  ++ (match period u with Some p => [(lit "period", FormatUint p)] | None => [] end)
  ++ (match counter u with Some c => [(lit "counter", FormatUint c)] | None => [] end).

(** ** Lemmas: percent-encoding *)
Definition escape (b : byte) : bytes :=
  if shouldNotEncode b then [b]
  else ["%"%byte; hexDigit (Z.shiftr (b2z b) 4); hexDigit (Z.land (b2z b) 0x0f)].

Definition escapeCheck (b : byte) : bool :=
  (if shouldNotEncode b then negb (bool_decide (b = "%"%byte)) else
   bool_decide (hexVal (hexDigit (Z.shiftr (b2z b) 4)) = Some (Z.shiftr (b2z b) 4)) &&
   bool_decide (hexVal (hexDigit (Z.land (b2z b) 0x0f)) = Some (Z.land (b2z b) 0x0f)) &&
   bool_decide (z2b (16 * Z.shiftr (b2z b) 4 + Z.land (b2z b) 0x0f) = b)) &&
  forallb (fun c => shouldNotEncode c || bool_decide (c = "%"%byte)) (escape b).

Lemma escapeCheck_all b : escapeCheck b = true.
Proof. revert b. apply byte_all. vm_compute. reflexivity. Qed.

Lemma percentEncode_cons b s : percentEncode (b :: s) = escape b ++ percentEncode s.
Proof. done. Qed.

Lemma percentDecode_escape b s : percentDecode (escape b ++ s) = cons b <$> percentDecode s.
Proof.
  pose proof (escapeCheck_all b) as H. unfold escapeCheck in H. apply andb_prop in H as [H _].
  unfold escape in *. destruct (shouldNotEncode b).
  - rewrite negb_true_iff, bool_decide_eq_false in H. simpl. by rewrite decide_False.
  - rewrite !andb_true_iff, !bool_decide_eq_true in H. destruct H as [[H1 H2] H3].
    cbn [app percentDecode]. rewrite decide_True by done. rewrite H1, H2. cbn [mbind option_bind].
    by rewrite H3.
Qed.

Lemma percentDecode_Encode s : percentDecode (percentEncode s) = Some s.
Proof. induction s as [|b s IH]; [done|]. by rewrite percentEncode_cons, percentDecode_escape, IH. Qed.

(** An encoded string is made of unreserved characters and percent signs. *)
Definition urlSafe (c : byte) : Prop := shouldNotEncode c = true \/ c = "%"%byte.

Lemma percentEncode_safe s : Forall urlSafe (percentEncode s).
Proof.
  induction s as [|b s IH]; [constructor|]. rewrite percentEncode_cons. apply Forall_app. split; [|done].
  pose proof (escapeCheck_all b) as H. unfold escapeCheck in H. apply andb_prop in H as [_ H].
  rewrite forallb_forall in H. apply Forall_forall. intros c Hc%list_elem_of_In.
  specialize (H c Hc). apply orb_prop in H as [H|H]; [by left|right].
  by apply bool_decide_eq_true in H.
Qed.

(** Unreserved text decodes to itself. *)
Lemma percentDecode_unreserved s :
  Forall (fun c => shouldNotEncode c = true) s -> percentDecode s = Some s.
Proof.
  induction 1 as [|c s Hc Hs IH]; [done|]. simpl. rewrite decide_False; [by rewrite IH|]. by intros ->.
Qed.

Lemma percentEncode_unreserved s :
  Forall (fun c => shouldNotEncode c = true) s -> percentEncode s = s.
Proof. induction 1 as [|c s Hc Hs IH]; [done|]. rewrite percentEncode_cons, IH. unfold escape. by rewrite Hc. Qed.

Lemma safe_not_in c s : shouldNotEncode c = false -> c <> "%"%byte -> Forall urlSafe s -> c ∉ s.
Proof.
  intros Hc Hp Hs Hin. destruct (proj1 (Forall_forall _ _) Hs c Hin) as [H|H]; congruence.
Qed.

(** ** Lemmas: numbers *)
Definition isDigit (c : byte) : Prop := 48 <= b2z c <= 57.

Lemma digit_unreserved s : Forall isDigit s -> Forall (fun c => shouldNotEncode c = true) s.
Proof.
  intros H. eapply Forall_impl; [exact H|]. intros c Hc. unfold isDigit, shouldNotEncode, in_range in *.
  rewrite (proj2 (Z.leb_le 48 _)), (proj2 (Z.leb_le _ 57)) by lia. by rewrite orb_true_r.
Qed.

Lemma formatUint_ok f : forall v acc,
  0 <= v < 10 ^ Z.of_nat f -> (0 < f)%nat ->
  exists ds, formatUint f v acc = ds ++ acc /\ ds <> [] /\ Forall isDigit ds /\
    forall rest w, parseUintLoop (ds ++ rest) w = parseUintLoop rest (w * 10 ^ Z.of_nat (length ds) + v).
Proof.
  induction f as [|f IH]; intros v acc Hv Hf; [lia|]. cbn [formatUint].
  pose proof (Z.mod_pos_bound v 10 eq_refl) as Hm.
  assert (Hd : b2z (z2b (48 + v mod 10)) = 48 + v mod 10) by (apply b2z_z2b_small; lia).
  assert (Hin : in_range 48 57 (b2z (z2b (48 + v mod 10))) = true) by (rewrite Hd; unfold in_range; lia).
  assert (Hisd : isDigit (z2b (48 + v mod 10))) by (unfold isDigit; lia).
  destruct (Z.ltb_spec v 10) as [Hlt|Hge].
  - exists [z2b (48 + v mod 10)]. split; [done|]. split; [done|]. split; [by constructor|].
    intros rest w. cbn [app parseUintLoop]. rewrite Hin, Hd. f_equal. rewrite Z.mod_small by lia.
    simpl length. change (10 ^ Z.of_nat 1) with 10. lia.
  - assert (Hf' : (0 < f)%nat) by (destruct f; simpl in Hv; lia).
    assert (Hv' : 0 <= v / 10 < 10 ^ Z.of_nat f).
    { rewrite Nat2Z.inj_succ, Z.pow_succ_r in Hv by lia. split; [apply Z.div_pos; lia|].
      apply Z.div_lt_upper_bound; lia. }
    destruct (IH (v / 10) (z2b (48 + v mod 10) :: acc) Hv' Hf') as (ds & -> & Hne & Hds & Hp).
    exists (ds ++ [z2b (48 + v mod 10)]). rewrite <-app_assoc. split; [done|].
    split; [by destruct ds|]. split; [apply Forall_app; split; [done|by constructor]|].
    intros rest w. rewrite <-app_assoc, Hp. cbn [app parseUintLoop]. rewrite Hin, Hd. f_equal.
    rewrite length_app, Nat2Z.inj_add, Z.pow_add_r by lia. simpl length. change (10 ^ Z.of_nat 1) with 10.
    pose proof (Z.div_mod v 10). lia.
Qed.

Lemma FormatUint_ok v :
  0 <= v < 2 ^ 64 -> Forall isDigit (FormatUint v) /\ parseUint (FormatUint v) = Some v.
Proof.
  intros Hv. destruct (formatUint_ok 20 v []) as (ds & E & Hne & Hds & Hp); [lia|lia|].
  unfold FormatUint. rewrite E, app_nil_r. split; [done|]. specialize (Hp [] 0).
  rewrite app_nil_r in Hp. destruct ds; [done|]. exact Hp.
Qed.

(** ** Lemmas: the URI's shape *)
Lemma cut_app c s r : c ∉ s -> cut c (s ++ c :: r) = (s, Some r).
Proof.
  intros Hc. unfold cut. rewrite IndexByte_app, take_app_length by done. f_equal. f_equal.
  replace (S (length s)) with (length s + 1)%nat by lia. by rewrite drop_app_add.
Qed.

Lemma cut_absent c s : c ∉ s -> cut c s = (s, None).
Proof. intros Hc. unfold cut. by rewrite (proj2 (IndexByte_None s c) Hc). Qed.

Definition renderParam (p : bytes * bytes) : bytes := percentEncode p.1 ++ lit "=" ++ percentEncode p.2.
Definition renderTail (ps : list (bytes * bytes)) : bytes := p ← ps; lit "&" ++ renderParam p.

Lemma renderTail_app ps qs : renderTail (ps ++ qs) = renderTail ps ++ renderTail qs.
Proof. apply bind_app. Qed.

Lemma renderTail_cons p ps : renderTail (p :: ps) = (lit "&" ++ renderParam p) ++ renderTail ps.
Proof. done. Qed.

Lemma renderTail_single p : renderTail [p] = lit "&" ++ renderParam p.
Proof. rewrite renderTail_cons. by rewrite app_nil_r. Qed.

Lemma Algorithm_String_unreserved a : Forall (fun c => shouldNotEncode c = true) (Algorithm_String a).
Proof. unfold Algorithm_String. repeat case_match; by repeat constructor. Qed.

(** Fields of the builder are 64-bit numbers. *)
Definition sized (u : OtpAuthUri) : Prop :=
  forall v, digits u = Some v \/ period u = Some v \/ counter u = Some v -> 0 <= v < 2 ^ 64.

Lemma Build_render u :
  sized u ->
  Build u = lit "otpauth://" ++ typeStr (typ u) ++ lit "/" ++ percentEncode (label u) ++ lit "?" ++
    match uriParams u with [] => [] | p :: ps => renderParam p ++ renderTail ps end.
Proof.
  intros Hs.
  assert (Hnum : forall v, digits u = Some v \/ period u = Some v \/ counter u = Some v ->
    percentEncode (FormatUint v) = FormatUint v).
  { intros v Hv. apply percentEncode_unreserved, digit_unreserved, FormatUint_ok. by apply Hs. }
  unfold uriParams. rewrite <-app_comm_cons, app_nil_l, !renderTail_app. unfold Build.
  assert (Hi : forall uri, (if bool_decide (issuer u = []) then uri
      else uri ++ lit "&issuer=" ++ percentEncode (issuer u)) =
    uri ++ renderTail (if bool_decide (issuer u = []) then [] else [(lit "issuer", issuer u)])).
  { intros uri. case_bool_decide; [by rewrite app_nil_r|]. by rewrite renderTail_single. }
  assert (Hopt : forall (o : option Z) (k : bytes) (f : Z -> bytes) uri,
    percentEncode k = k -> (forall v, o = Some v -> percentEncode (f v) = f v) ->
    match o with Some v => uri ++ (lit "&" ++ k ++ lit "=") ++ f v | None => uri end =
    uri ++ renderTail (match o with Some v => [(k, f v)] | None => [] end)).
  { intros o k f uri Hk Hf. destruct o as [v|]; [|by rewrite app_nil_r].
    rewrite renderTail_single. unfold renderParam. simpl fst. simpl snd.
    by rewrite Hk, (Hf v), <-!app_assoc by done. }
  pose proof (fun uri => Hopt (algorithm u) (lit "algorithm") Algorithm_String uri eq_refl
    (fun v _ => percentEncode_unreserved _ (Algorithm_String_unreserved v))) as Ha.
  pose proof (fun uri => Hopt (digits u) (lit "digits") FormatUint uri eq_refl
    (fun v E => Hnum v (or_introl E))) as Hd.
  pose proof (fun uri => Hopt (period u) (lit "period") FormatUint uri eq_refl
    (fun v E => Hnum v (or_intror (or_introl E)))) as Hp.
  pose proof (fun uri => Hopt (counter u) (lit "counter") FormatUint uri eq_refl
    (fun v E => Hnum v (or_intror (or_intror E)))) as Hc.
  cbv beta zeta. rewrite Hi. etransitivity; [apply Hc|]. rewrite !app_assoc. f_equal.
  etransitivity; [apply Hp|]. f_equal. etransitivity; [apply Hd|]. f_equal.
  etransitivity; [apply Ha|]. f_equal. f_equal. unfold renderParam. simpl fst. simpl snd.
  rewrite <-!app_assoc. done.
Qed.

Lemma splitOn_render c ps : forall f x,
  c ∉ x -> Forall (fun y => c ∉ y) ps -> (length ps <= f)%nat ->
  splitOn f c (x ++ (y ← ps; c :: y)) = x :: ps.
Proof.
  induction ps as [|y ps IH]; intros f x Hx Hps Hf.
  - rewrite app_nil_r. destruct f; simpl; [done|]. by rewrite cut_absent.
  - apply Forall_cons in Hps as [Hy Hps]. destruct f as [|f]; [simpl in Hf; lia|].
    cbn [splitOn]. change ((y' ← y :: ps; c :: y')) with (c :: y ++ (y' ← ps; c :: y')).
    rewrite cut_app by done. f_equal. apply IH; [done|done|simpl in Hf; lia].
Qed.

Lemma renderTail_bind ps : renderTail ps = (y ← renderParam <$> ps; "&"%byte :: y).
Proof. unfold renderTail. induction ps as [|p ps IH]; [done|].
  rewrite fmap_cons, !bind_cons, IH. done. Qed.

Lemma renderParam_safe p : Forall (fun c => urlSafe c \/ c = "="%byte) (renderParam p).
Proof.
  unfold renderParam. rewrite !Forall_app. split; [|split].
  - eapply Forall_impl; [apply percentEncode_safe|]. by left.
  - constructor; [by right|constructor].
  - eapply Forall_impl; [apply percentEncode_safe|]. by left.
Qed.

Lemma renderParam_no_amp p : "&"%byte ∉ renderParam p.
Proof.
  intros Hin. pose proof (proj1 (Forall_forall _ _) (renderParam_safe p) _ Hin) as [[H|H]|H]; done.
Qed.

Lemma parseParam_render p : parseParam (renderParam p) = Some p.
Proof.
  destruct p as [k v]. unfold parseParam, renderParam. simpl fst. simpl snd.
  change (lit "=" ++ percentEncode v) with ("="%byte :: percentEncode v).
  rewrite cut_app by (by apply safe_not_in; [| |apply percentEncode_safe]).
  by rewrite !percentDecode_Encode.
Qed.

Lemma parseParams_render p ps f :
  (length ps <= f)%nat ->
  mapM parseParam (splitOn f "&"%byte (renderParam p ++ renderTail ps)) = Some (p :: ps).
Proof.
  intros Hf. rewrite renderTail_bind, splitOn_render.
  - rewrite <-fmap_cons. generalize (p :: ps). intros l. apply mapM_Some.
    rewrite Forall2_fmap_l. apply Forall_Forall2_diag, Forall_true. apply parseParam_render.
  - apply renderParam_no_amp.
  - apply Forall_fmap, Forall_true. apply renderParam_no_amp.
  - by rewrite length_fmap.
Qed.

Lemma renderTail_length ps : (length ps <= length (renderTail ps))%nat.
Proof.
  induction ps as [|p ps IH]; [done|]. rewrite renderTail_cons, !length_app. simpl. lia.
Qed.

(** ** Secrets made of ASCII characters *)
Definition secretKeep (c : byte) : bool := negb (b2z c =? 61) && negb (isWhitespace (b2z c)).

Lemma normalize_ascii s :
  isASCII s = true -> normalizeBase32Secret s = filter (fun c => secretKeep c = true) s.
Proof.
  intros Hs. unfold normalizeBase32Secret. rewrite runes_ascii by done.
  induction s as [|c s IH]; [done|]. simpl in Hs. apply andb_prop in Hs as [Hc Hs].
  rewrite fmap_cons, !filter_cons. unfold secretKeep at 1. destruct (decide _).
  - rewrite bind_cons, IH, encodeRune_ascii, z2b_b2z by (done || pose proof (b2z_range c); lia). done.
  - by apply IH.
Qed.

Lemma b32Char_plain_check :
  forallb (fun q => (b2z (b32Char q) <? 0x80) && secretKeep (b32Char q)) (seqZ 0 32) = true.
Proof. by vm_compute. Qed.

Lemma EncodeBase32_plain data :
  isASCII (EncodeBase32 data) = true /\ Forall (fun c => secretKeep c = true) (EncodeBase32 data).
Proof.
  assert (H : Forall (fun c => (b2z c <? 0x80) = true /\ secretKeep c = true) (EncodeBase32 data)).
  { unfold EncodeBase32. apply Forall_fmap. eapply Forall_impl; [apply quints_range|].
    intros q Hq. simpl in *. apply andb_prop.
    pose proof b32Char_plain_check as H. rewrite forallb_forall in H. apply (H q).
    apply list_elem_of_In, elem_of_seqZ. lia. }
  split; [|eapply Forall_impl; [exact H|]; by intros c []].
  unfold isASCII. apply forallb_forall. intros c Hc%list_elem_of_In.
  by apply (proj1 (Forall_forall _ _) H c).
Qed.

(** Encoded secrets are already normal. *)
Lemma normalize_EncodeBase32 data : normalizeBase32Secret (EncodeBase32 data) = EncodeBase32 data.
Proof.
  destruct (EncodeBase32_plain data) as [Ha Hk]. rewrite normalize_ascii by done. by apply filter_all_id.
Qed.

Lemma parse_Build u :
  sized u ->
  parseOtpAuth (Build u) =
    Some {| p_type := typeStr (typ u); p_label := label u; p_params := uriParams u |}.
Proof.
  intros Hu. rewrite Build_render by done. unfold parseOtpAuth. rewrite HasPrefix_app.
  rewrite drop_app_length. cbn [negb].
  change (lit "/" ++ ?x) with ("/"%byte :: x).
  rewrite cut_app by (unfold typeStr; case_match; by apply (bool_decide_unpack _)).
  change (lit "?" ++ ?x) with ("?"%byte :: x).
  rewrite cut_app by (apply safe_not_in; done || apply percentEncode_safe).
  rewrite percentDecode_Encode. cbn [mbind option_bind].
  destruct (uriParams u) as [|p ps] eqn:Ep; [by unfold uriParams in Ep|].
  rewrite parseParams_render; [done|]. rewrite length_app. pose proof (renderTail_length ps). lia.
Qed.

(** ** Properties *)

(** [percentEncode] loses nothing, on any byte string, UTF-8 or
    not: decoding gives the string back, and an encoded string holds only
    unreserved characters and percent signs, so none that delimits a URI. *)
Theorem percentEncode_roundtrip (s : bytes) :
  percentDecode (percentEncode s) = Some s /\
  Forall (fun c => shouldNotEncode c = true \/ c = "%"%byte) (percentEncode s) /\
  Forall (fun c => c ∉ percentEncode s) (lit ":/?#[]@!$&'()*+,;= ").
Proof.
  split; [apply percentDecode_Encode|]. split; [apply percentEncode_safe|].
  repeat constructor; apply safe_not_in; done || apply percentEncode_safe.
Qed.

(** C34: no field can inject another.  Whatever the label, secret and issuer,
    a parser of the [otpauth] format that splits at the delimiters and undoes
    percent-encoding reads off the built URI exactly the type, the label, the
    normalised secret, and the parameters that were set, in order; numbers
    read back as they were given. *)
Theorem Build_parses (u : OtpAuthUri)
    (Hu : forall v, digits u = Some v \/ period u = Some v \/ counter u = Some v -> 0 <= v < 2 ^ 64) :
  parseOtpAuth (Build u) =
    Some {| p_type := typeStr (typ u); p_label := label u; p_params := uriParams u |} /\
  (forall v, digits u = Some v \/ period u = Some v \/ counter u = Some v ->
     parseUint (FormatUint v) = Some v).
Proof.
  split; [by apply parse_Build|]. intros v Hv. by apply FormatUint_ok, Hu.
Qed.

Definition sampleUri : OtpAuthUri :=
  Counter 7 (Digits_ 8 (Issuer (lit "A&B=C") (NewOtpAuthUri HotpType (lit "A&B=C:al/ice?") (lit "JBSW Y3DP==")))).

Lemma Build_parses_witness :
  parseOtpAuth (Build sampleUri) = Some {| p_type := lit "hotp"; p_label := lit "A&B=C:al/ice?";
    p_params := [(lit "secret", lit "JBSWY3DP"); (lit "issuer", lit "A&B=C"); (lit "digits", lit "8");
                 (lit "counter", lit "7")] |}.
Proof.
  refine (eq_trans (proj1 (Build_parses sampleUri _)) _).
  - simpl. intros v [[= <-]|[?|[= <-]]]; done || lia.
  - vm_compute. reflexivity.
Defined.

(** A provisioned key reaches the authenticator: the URI of an
    encoded key parses, its only parameter is the secret, and decoding that
    gives the key bytes back. *)
Theorem Build_carries_key (key dst l : bytes) (t : OtpType) (Hdst : (length key <= length dst)%nat) :
  exists p v, parseOtpAuth (Build (NewOtpAuthUri t l (EncodeBase32 key))) = Some p /\
    p_params p = [(lit "secret", v)] /\
    DecodeBase32 dst v = (Ret (Z.of_nat (length key)), key ++ drop (length key) dst).
Proof.
  eexists _, (EncodeBase32 key). split; [|split; [|by apply decode_encode]].
  - apply parse_Build. intros v. by intros [?|[?|?]].
  - unfold uriParams. simpl. by rewrite normalize_EncodeBase32.
Qed.

Lemma Build_carries_key_witness :
  exists p v, parseOtpAuth (Build (NewOtpAuthUri TotpType (lit "bob") (EncodeBase32 (lit "Hello!")))) = Some p /\
    p_params p = [(lit "secret", v)] /\
    DecodeBase32 (replicate 6 Byte.x00) v = (Ret 6, lit "Hello!").
Proof.
  exact (Build_carries_key (lit "Hello!") (replicate 6 Byte.x00) (lit "bob") TotpType (le_n 6)).
Defined.
