(* ===== verification/Base64.v ===== *)
(** * Go's [encoding/base64] as the package uses it

    [RawURLEncoding.EncodeToString], and [DecodeString] of [RawURLEncoding]
    (URL alphabet, no padding) and [StdEncoding] (standard alphabet, padding),
    both of which skip carriage returns and newlines. *)
From S2P Require Import Prelude.

(** ** Alphabets *)
Definition alphabet (c62 c63 : byte) : bytes :=
  lit "ABCDEFGHIJKLMNOPQRSTUVWXYZabcdefghijklmnopqrstuvwxyz0123456789" ++ [c62; c63].

Definition urlAlphabet : bytes := alphabet "-"%byte "_"%byte.
Definition stdAlphabet : bytes := alphabet "+"%byte "/"%byte.

Definition char64 (alpha : bytes) (q : Z) : byte := nth (Z.to_nat q) alpha Byte.x00.

Fixpoint indexOf (c : byte) (l : bytes) (i : Z) : option Z :=
  match l with
  | [] => None
  | x :: l' => if decide (x = c) then Some i else indexOf c l' (i + 1)
  end.
Definition val64 (alpha : bytes) (c : byte) : option Z := indexOf c alpha 0.

(** ** Encoding: three bytes at a time *)
Fixpoint encodeRaw (alpha : bytes) (s : bytes) : bytes :=
  match s with
  | a :: b :: c :: s' =>
      let n := b2z a * 65536 + b2z b * 256 + b2z c in
      char64 alpha (n / 262144) :: char64 alpha (n / 4096 mod 64) :: char64 alpha (n / 64 mod 64)
      :: char64 alpha (n mod 64) :: encodeRaw alpha s'
  | [a; b] =>
      let n := b2z a * 65536 + b2z b * 256 in
      [char64 alpha (n / 262144); char64 alpha (n / 4096 mod 64); char64 alpha (n / 64 mod 64)]
  | [a] =>
      let n := b2z a * 65536 in [char64 alpha (n / 262144); char64 alpha (n / 4096 mod 64)]
  | [] => []
  end.

(** Without [WithPadding(NoPadding)] the last group is filled up with [=]. *)
Definition encodeStd (s : bytes) : bytes :=
  encodeRaw stdAlphabet s ++
  (match Nat.modulo (length s) 3 with 1%nat => lit "==" | 2%nat => lit "=" | _ => [] end).

Definition RawURLEncoding_EncodeToString (s : bytes) : bytes := encodeRaw urlAlphabet s.
Definition StdEncoding_EncodeToString (s : bytes) : bytes := encodeStd s.

(** ** Decoding: quanta of four characters *)
Definition oneByte (x y : Z) : bytes := [z2b ((x * 64 + y) / 16)].
Definition twoBytes (x y z : Z) : bytes :=
  let n := (x * 64 + y) * 64 + z in [z2b (n / 1024); z2b (n / 4)].
Definition threeBytes (x y z t : Z) : bytes :=
  let n := ((x * 64 + y) * 64 + z) * 64 + t in [z2b (n / 65536); z2b (n / 256); z2b n].

(** The last quantum, of fewer than four characters or padded. *)
Definition lastQuantum (alpha : bytes) (padded : bool) (s : bytes) : option bytes :=
  if padded then
    match s with
    | [a; b; p; q] =>
        x ← val64 alpha a; y ← val64 alpha b;
        if decide (q <> "="%byte) then None
        else if decide (p = "="%byte) then Some (oneByte x y)
        else z ← val64 alpha p; Some (twoBytes x y z)
    | _ => None
    end
  else
    match s with
    | [a; b] => x ← val64 alpha a; y ← val64 alpha b; Some (oneByte x y)
    | [a; b; c] => x ← val64 alpha a; y ← val64 alpha b; z ← val64 alpha c; Some (twoBytes x y z)
    | _ => None
    end.

Fixpoint decodeQuanta (alpha : bytes) (padded : bool) (s : bytes) : option bytes :=
  match s with
  | [] => Some []
  | a :: b :: c :: d :: s' =>
      match val64 alpha a, val64 alpha b, val64 alpha c, val64 alpha d with
      | Some x, Some y, Some z, Some t =>
          app (threeBytes x y z t) <$> decodeQuanta alpha padded s'
      | _, _, _, _ => lastQuantum alpha padded s
      end
  | _ => lastQuantum alpha padded s
  end.

Definition isNewline (c : byte) : bool := (b2z c =? 10) || (b2z c =? 13).

Definition decodeString (alpha : bytes) (padded : bool) (s : bytes) : option bytes :=
  decodeQuanta alpha padded (filter (fun c => isNewline c = false) s).

Definition RawURLEncoding_DecodeString : bytes -> option bytes := decodeString urlAlphabet false.
Definition StdEncoding_DecodeString : bytes -> option bytes := decodeString stdAlphabet true.

(** ** Round trip *)
Definition goodAlphabet (alpha : bytes) : bool :=
  forallb (fun q => bool_decide (val64 alpha (char64 alpha q) = Some q)
                    && negb (isNewline (char64 alpha q))) (seqZ 0 64).

Lemma urlAlphabet_good : goodAlphabet urlAlphabet = true.
Proof. vm_compute. reflexivity. Qed.
Lemma stdAlphabet_good : goodAlphabet stdAlphabet = true.
Proof. vm_compute. reflexivity. Qed.

Section roundtrip.
Context (alpha : bytes) (Halpha : goodAlphabet alpha = true).

Lemma char64_ok q :
  0 <= q < 64 -> val64 alpha (char64 alpha q) = Some q /\ isNewline (char64 alpha q) = false.
Proof.
  intros Hq. unfold goodAlphabet in Halpha. rewrite forallb_forall in Halpha.
  assert (Hin : List.In q (seqZ 0 64)) by (apply list_elem_of_In, elem_of_seqZ; lia).
  apply Halpha, andb_prop in Hin as [H1 H2].
  split; [by apply bool_decide_eq_true in H1|by apply negb_true_iff in H2].
Qed.

(** Induction three bytes at a time. *)
Lemma triples_ind (P : bytes -> Prop) :
  P [] -> (forall a, P [a]) -> (forall a b, P [a; b]) ->
  (forall a b c s, P s -> P (a :: b :: c :: s)) -> forall s, P s.
Proof.
  intros H0 H1 H2 H3.
  refine (fix F s := match s with
    | [] => H0 | [a] => H1 a | [a; b] => H2 a b | a :: b :: c :: s' => H3 a b c s' (F s') end).
Qed.

Lemma z2b_eq z b : z mod 256 = b2z b -> z2b z = b.
Proof. intros H. apply (inj b2z). by rewrite b2z_z2b. Qed.

Lemma encodeRaw_chars s : Forall (fun c => exists q, 0 <= q < 64 /\ c = char64 alpha q) (encodeRaw alpha s).
Proof.
  induction s as [|a|a b|a b c s IH] using triples_ind; cbn [encodeRaw]; repeat constructor;
    try (eexists; split; [|done]); try exact IH;
    pose proof (b2z_range a); try pose proof (b2z_range b); try pose proof (b2z_range c);
    try (apply Z.mod_pos_bound; lia); zdiv.
Qed.

Lemma encodeRaw_no_newline s : filter (fun c => isNewline c = false) (encodeRaw alpha s) = encodeRaw alpha s.
Proof.
  apply filter_all_id. eapply Forall_impl; [apply encodeRaw_chars|].
  intros c (q & Hq & ->). by apply char64_ok.
Qed.

Lemma decodeQuanta_encodeRaw s : decodeQuanta alpha false (encodeRaw alpha s) = Some s.
Proof.
  induction s as [|a|a b|a b c s IH] using triples_ind; cbn [encodeRaw].
  - done.
  - pose proof (b2z_range a). set (n := b2z a * 65536).
    cbn [decodeQuanta lastQuantum].
    rewrite !(fun q H => proj1 (char64_ok q H)) by (unfold n; zdiv). cbn [mbind option_bind].
    unfold oneByte. do 2 f_equal. apply z2b_eq. unfold n. zdiv.
  - pose proof (b2z_range a). pose proof (b2z_range b). set (n := b2z a * 65536 + b2z b * 256).
    cbn [decodeQuanta lastQuantum].
    rewrite !(fun q H => proj1 (char64_ok q H)) by (unfold n; zdiv). cbn [mbind option_bind].
    unfold twoBytes. cbv zeta. f_equal. repeat f_equal; apply z2b_eq; unfold n; zdiv.
  - pose proof (b2z_range a). pose proof (b2z_range b). pose proof (b2z_range c).
    set (n := b2z a * 65536 + b2z b * 256 + b2z c). cbn [decodeQuanta].
    rewrite !(fun q H => proj1 (char64_ok q H)) by (unfold n; zdiv). rewrite IH.
    unfold threeBytes. cbv zeta. cbn [fmap option_fmap option_map app]. f_equal.
    repeat f_equal; apply z2b_eq; unfold n; zdiv.
Qed.
End roundtrip.

Lemma RawURLEncoding_roundtrip s : RawURLEncoding_DecodeString (RawURLEncoding_EncodeToString s) = Some s.
Proof.
  unfold RawURLEncoding_DecodeString, RawURLEncoding_EncodeToString, decodeString.
  rewrite encodeRaw_no_newline by apply urlAlphabet_good.
  apply decodeQuanta_encodeRaw, urlAlphabet_good.
Qed.

(** RFC 4648, section 10. *)
Example StdEncoding_vectors :
  StdEncoding_EncodeToString <$> [lit ""; lit "f"; lit "fo"; lit "foo"; lit "foob"] =
    [lit ""; lit "Zg=="; lit "Zm8="; lit "Zm9v"; lit "Zm9vYg=="] /\
  StdEncoding_DecodeString <$> [lit "Zg=="; lit "Zm8="; lit "Zm9v"; lit "Zg="; lit "Zg==Zg=="] =
    [Some (lit "f"); Some (lit "fo"); Some (lit "foo"); None; None].
Proof. vm_compute. done. Qed.

(** ** The padded alphabet *)
Definition padding (n : nat) : bytes :=
  match Nat.modulo n 3 with 1%nat => lit "==" | 2%nat => lit "=" | _ => [] end.

Lemma equals_no_value : val64 stdAlphabet "="%byte = None.
Proof. by vm_compute. Qed.

Lemma padding_step n : padding (S (S (S n))) = padding n.
Proof.
  unfold padding. replace (S (S (S n))) with (n + 1 * 3)%nat by lia. by rewrite Nat.Div0.mod_add.
Qed.

Lemma decodeQuanta_encodeStd s : decodeQuanta stdAlphabet true (encodeRaw stdAlphabet s ++ padding (length s)) = Some s.
Proof.
  pose proof stdAlphabet_good as Hgood.
  induction s as [|a|a b|a b c s IH] using triples_ind; cbn [encodeRaw length].
  - done.
  - pose proof (b2z_range a). set (n := b2z a * 65536).
    change (padding 1) with ["="; "="]%byte. cbn [decodeQuanta lastQuantum app].
    rewrite !(fun q H => proj1 (char64_ok _ Hgood q H)) by (unfold n; zdiv). rewrite equals_no_value.
    cbn [mbind option_bind]. rewrite decide_False by (intros H'; by apply H'). rewrite decide_True by done.
    unfold oneByte. do 2 f_equal. apply z2b_eq. unfold n. zdiv.
  - pose proof (b2z_range a). pose proof (b2z_range b). set (n := b2z a * 65536 + b2z b * 256).
    change (padding 2) with ["="]%byte. cbn [decodeQuanta lastQuantum app].
    rewrite !(fun q H => proj1 (char64_ok _ Hgood q H)) by (unfold n; zdiv). rewrite equals_no_value.
    cbn [mbind option_bind]. rewrite decide_False by (intros H'; by apply H').
    rewrite decide_False.
    + unfold twoBytes. cbv zeta. f_equal. repeat f_equal; apply z2b_eq; unfold n; zdiv.
    + intros E. pose proof (proj1 (char64_ok _ Hgood (n / 64 mod 64) ltac:(unfold n; zdiv))) as Hv.
      rewrite E, equals_no_value in Hv. done.
  - pose proof (b2z_range a). pose proof (b2z_range b). pose proof (b2z_range c).
    set (n := b2z a * 65536 + b2z b * 256 + b2z c). rewrite padding_step. cbn [decodeQuanta app].
    rewrite !(fun q H => proj1 (char64_ok _ Hgood q H)) by (unfold n; zdiv). rewrite IH.
    unfold threeBytes. cbv zeta. cbn [fmap option_fmap option_map app]. f_equal.
    repeat f_equal; apply z2b_eq; unfold n; zdiv.
Qed.

Lemma StdEncoding_roundtrip s : StdEncoding_DecodeString (StdEncoding_EncodeToString s) = Some s.
Proof.
  unfold StdEncoding_DecodeString, StdEncoding_EncodeToString, decodeString, encodeStd.
  fold (padding (length s)). rewrite filter_app, encodeRaw_no_newline by apply stdAlphabet_good.
  replace (filter (fun c => isNewline c = false) (padding (length s))) with (padding (length s))
    by (unfold padding; by repeat case_match).
  apply decodeQuanta_encodeStd.
Qed.

Lemma std_chars_ascii s : forallb (fun c => b2z c <? 0x80) (StdEncoding_EncodeToString s) = true.
Proof.
  unfold StdEncoding_EncodeToString, encodeStd. rewrite forallb_app. apply andb_true_intro. split.
  - apply forallb_forall. intros c Hc%list_elem_of_In.
    pose proof (proj1 (Forall_forall _ _) (encodeRaw_chars stdAlphabet s) c Hc) as (q & Hq & ->).
    assert (H : forallb (fun q => b2z (char64 stdAlphabet q) <? 0x80) (seqZ 0 64) = true) by (by vm_compute).
    rewrite forallb_forall in H. apply H, list_elem_of_In, elem_of_seqZ. lia.
  - by repeat case_match.
Qed.
