(* ===== verification/Url.v ===== *)
(** * Go's [net/url] as the package uses it

    [url.Parse] as far as the scheme and the raw query are concerned, with the
    validity checks of authority, path and fragment as a parameter
    ([UrlChecks]); [Values.Get] on a parsed query; and [URL.String] for a URL of
    scheme, host and query. *)
From S2P Require Import Prelude Strings.

(** [strings.Cut] at a one-byte separator. *)
Definition Cut (s : bytes) (c : byte) : bytes * option bytes :=
  match IndexByte s c with
  | Some i => (take i s, Some (drop (S i) s))
  | None => (s, None)
  end.

(** The checks whose details do not matter here; they accept a plain
    lower-case host and an empty path. *)
Class UrlChecks : Type := {
  authority_ok : bytes -> bool;
  path_ok : bytes -> bool;
  fragment_ok : bytes -> bool;
  authority_plain : forall h, Forall (fun c => 97 <= b2z c <= 122) h -> authority_ok h = true;
  path_empty : path_ok [] = true
}.

Record URL : Type := { Scheme : bytes; RawQuery : bytes }.

(** [getScheme]: [None] is "missing protocol scheme". *)
Fixpoint getSchemeLoop (s : bytes) (i : nat) (raw : bytes) : option (bytes * bytes) :=
  match s with
  | [] => Some ([], raw)
  | c :: s' =>
      let z := b2z c in
      if in_range 97 122 z || in_range 65 90 z then getSchemeLoop s' (S i) raw
      else if in_range 48 57 z || (z =? 43) || (z =? 45) || (z =? 46) then
        if Nat.eqb i 0 then Some ([], raw) else getSchemeLoop s' (S i) raw
      else if z =? 58 then
        if Nat.eqb i 0 then None else Some (take i raw, drop (S i) raw)
      else Some ([], raw)
  end.
Definition getScheme (raw : bytes) : option (bytes * bytes) := getSchemeLoop raw 0 raw.

Definition containsCTL (s : bytes) : bool := existsb (fun c => (b2z c <? 32) || (b2z c =? 127)) s.

Section url.
Context `{UrlChecks}.

(** [parse(u, false)]. *)
Definition parse (u : bytes) : option URL :=
  if containsCTL u then None else
  if decide (u = lit "*") then Some {| Scheme := []; RawQuery := [] |} else
  '(scheme, rest) ← getScheme u;
  let scheme := asciiLower <$> scheme in
  let '(rest, query) :=
    if HasSuffix rest (lit "?") && Nat.eqb (length (filter (fun c => c = "?"%byte) rest)) 1
    then (take (length rest - 1) rest, [])
    else let '(r, q) := Cut rest "?"%byte in (r, default [] q) in
  let u := {| Scheme := scheme; RawQuery := query |} in
  if negb (HasPrefix rest (lit "/")) && negb (bool_decide (scheme = [])) then Some u else
  if negb (HasPrefix rest (lit "/")) && bool_decide (":"%byte ∈ (Cut rest "/"%byte).1) then None else
  if (negb (bool_decide (scheme = [])) || negb (HasPrefix rest (lit "///"))) && HasPrefix rest (lit "//")
  then
    let '(authority, path) := Cut (drop 2 rest) "/"%byte in
    let path := match path with Some p => "/"%byte :: p | None => [] end in
    if authority_ok authority && path_ok path then Some u else None
  else if path_ok rest then Some u else None.

Definition Parse (raw : bytes) : option URL :=
  let '(u, frag) := Cut raw "#"%byte in
  url ← parse u;
  match frag with
  | None | Some [] => Some url
  | Some f => if fragment_ok f then Some url else None
  end.
End url.

(** ** Queries *)
Definition unhex (b : byte) : option Z :=
  let c := b2z b in
  if in_range 48 57 c then Some (c - 48)
  else if in_range 97 102 c then Some (c - 97 + 10)
  else if in_range 65 70 c then Some (c - 65 + 10) else None.

(** [url.QueryUnescape]. *)
Fixpoint QueryUnescape (s : bytes) : option bytes :=
  match s with
  | [] => Some []
  | b :: s' =>
      if decide (b = "%"%byte) then
        match s' with
        | h :: l :: s'' =>
            x ← unhex h; y ← unhex l; cons (z2b (Z.lor (Z.shiftl x 4) y)) <$> QueryUnescape s''
        | _ => None
        end
      else cons (if decide (b = "+"%byte) then " "%byte else b) <$> QueryUnescape s'
  end.

(** [ParseQuery]: the well-formed settings, in order; each round consumes at
    least one byte. *)
Fixpoint parseQuery (fuel : nat) (query : bytes) : list (bytes * bytes) :=
  match fuel, query with
  | O, _ | _, [] => []
  | S f, _ =>
      let '(key, rest) := Cut query "&"%byte in
      let more := parseQuery f (default [] rest) in
      if bool_decide (";"%byte ∈ key) || bool_decide (key = []) then more else
      let '(k, v) := Cut key "="%byte in
      match QueryUnescape k, QueryUnescape (default [] v) with
      | Some k', Some v' => (k', v') :: more
      | _, _ => more
      end
  end.

(** [u.Query().Get(key)]: the first value, or the empty string. *)
Fixpoint firstValue (key : bytes) (l : list (bytes * bytes)) : bytes :=
  match l with
  | [] => []
  | (k, v) :: l' => if decide (k = key) then v else firstValue key l'
  end.
Definition Query_Get (rawQuery key : bytes) : bytes :=
  firstValue key (parseQuery (length rawQuery) rawQuery).

(** ** [URL.String] with scheme, plain host and query *)
Definition URL_String (scheme host rawQuery : bytes) : bytes :=
  scheme ++ lit "://" ++ host ++ (if bool_decide (rawQuery = []) then [] else lit "?" ++ rawQuery).

(** ** Lemmas *)
Lemma Cut_app s c r : c ∉ s -> Cut (s ++ c :: r) c = (s, Some r).
Proof.
  intros Hc. unfold Cut. rewrite IndexByte_app, take_app_length by done. f_equal. f_equal.
  replace (S (length s)) with (length s + 1)%nat by lia. by rewrite drop_app_add.
Qed.

Lemma Cut_absent s c : c ∉ s -> Cut s c = (s, None).
Proof. intros Hc. unfold Cut. by rewrite (proj2 (IndexByte_None s c) Hc). Qed.

Lemma QueryUnescape_plain s : "%"%byte ∉ s -> "+"%byte ∉ s -> QueryUnescape s = Some s.
Proof.
  induction s as [|c s IH]; [done|]. rewrite !not_elem_of_cons. intros [H1 H1'] [H2 H2'].
  cbn [QueryUnescape]. rewrite !decide_False by done. by rewrite IH.
Qed.

(** A query of one plain parameter. *)
Lemma Query_Get_single key v :
  key <> [] -> Forall (fun c => (c ∉ key) /\ (c ∉ v)) ["%"; "+"; "&"; ";"; "="]%byte ->
  Query_Get (key ++ lit "=" ++ v) key = v.
Proof.
  intros Hk. rewrite !Forall_cons. intros ([K1 V1] & [K2 V2] & [K3 V3] & [K4 V4] & [K5 V5] & _).
  assert (Hnot : forall c, c <> "="%byte -> c ∉ key -> c ∉ v -> c ∉ key ++ lit "=" ++ v).
  { intros c Hc H1 H2. change (lit "=" ++ v) with ("="%byte :: v).
    rewrite elem_of_app, elem_of_cons. tauto. }
  unfold Query_Get. destruct key as [|c key]; [done|].
  cbn [length app parseQuery]. change (c :: key ++ lit "=" ++ v) with ((c :: key) ++ lit "=" ++ v).
  rewrite Cut_absent by (apply Hnot; done).
  rewrite bool_decide_false by (apply Hnot; done). rewrite bool_decide_false by done. cbn [orb].
  change (lit "=" ++ v) with ("="%byte :: v). rewrite Cut_app by done. cbn [default].
  rewrite !QueryUnescape_plain by done. cbn [firstValue default]. by rewrite decide_True.
Qed.

(** ** Parsing what [URL.String] made *)
Lemma HasSuffix_snoc s x c : HasSuffix (s ++ [x]) [c] = bool_decide (x = c).
Proof.
  unfold HasSuffix. rewrite length_app. cbn [length]. rewrite (proj2 (Nat.leb_le _ _)) by lia.
  replace (length s + 1 - 1)%nat with (length s) by lia. rewrite drop_app_length. cbn [andb].
  apply bool_decide_ext. split; [by intros [= ->]|by intros ->].
Qed.

Definition lower (c : byte) : Prop := 97 <= b2z c <= 122.
Definition schemeChar (c : byte) : Prop := lower c \/ c = "-"%byte.

Lemma getSchemeLoop_ok s : forall i raw r,
  Forall schemeChar s -> (0 < i)%nat ->
  getSchemeLoop (s ++ ":"%byte :: r) i raw =
  Some (take (i + length s) raw, drop (S (i + length s)) raw).
Proof.
  induction s as [|c s IH]; intros i raw r Hs Hi.
  - simpl. destruct i; [lia|]. simpl. by rewrite Nat.add_0_r.
  - apply Forall_cons in Hs as [Hc Hs]. cbn [app getSchemeLoop]. cbv zeta.
    assert (Hnext : getSchemeLoop (s ++ ":"%byte :: r) (S i) raw =
      Some (take (i + length (c :: s)) raw, drop (S (i + length (c :: s))) raw)).
    { rewrite IH by (done || lia). cbn [length]. by rewrite Nat.add_succ_comm. }
    destruct Hc as [Hc| ->].
    + unfold lower in Hc. unfold in_range at 1.
      rewrite (proj2 (Z.leb_le 97 _)), (proj2 (Z.leb_le _ 122)) by lia. cbn [andb orb]. done.
    + simpl. destruct i; [lia|]. done.
Qed.

Lemma getScheme_ok c s r :
  lower c -> Forall schemeChar s -> getScheme ((c :: s) ++ ":"%byte :: r) = Some (c :: s, r).
Proof.
  intros Hc Hs. unfold getScheme. unfold lower in Hc. cbn [app getSchemeLoop]. cbv zeta.
  unfold in_range at 1. rewrite (proj2 (Z.leb_le 97 _)), (proj2 (Z.leb_le _ 122)) by lia. cbn [andb orb].
  rewrite getSchemeLoop_ok by (done || lia). change (1 + length s)%nat with (length (c :: s)).
  change (c :: s ++ ":"%byte :: r) with ((c :: s) ++ ":"%byte :: r).
  rewrite take_app_length. replace (S (length (c :: s))) with (length (c :: s) + 1)%nat by lia.
  by rewrite drop_app_add.
Qed.

Lemma asciiLower_scheme s : Forall schemeChar s -> asciiLower <$> s = s.
Proof.
  induction 1 as [|c s Hc Hs IH]; [done|]. rewrite fmap_cons, IH. f_equal.
  destruct Hc as [Hc| ->]; [|done]. unfold lower in Hc. unfold asciiLower, in_range.
  by rewrite (proj2 (Z.leb_gt _ 90)), andb_false_r by lia.
Qed.

Lemma lower_not c h : b2z c < 97 -> Forall lower h -> c ∉ h.
Proof.
  intros Hc Hh Hin. pose proof (proj1 (Forall_forall _ _) Hh c Hin) as H. unfold lower in H. simpl in H. lia.
Qed.

(** Characters that [Parse] neither rejects nor cuts at. *)
Definition plainChar (c : byte) : Prop := graphic c /\ c <> "#"%byte.

Lemma plain_no_CTL s : Forall plainChar s -> containsCTL s = false.
Proof.
  induction 1 as [|c s [Hc _] _ IH]; [done|]. cbn [containsCTL existsb].
  unfold containsCTL in IH. rewrite IH, orb_false_r. unfold graphic in Hc.
  by rewrite (proj2 (Z.ltb_ge _ _)), (proj2 (Z.eqb_neq _ _)) by lia.
Qed.

Lemma plain_no_hash s : Forall plainChar s -> "#"%byte ∉ s.
Proof. intros Hs Hin. by destruct (proj1 (Forall_forall _ _) Hs _ Hin). Qed.

Lemma scheme_plain c : schemeChar c -> plainChar c.
Proof.
  intros [Hc| ->]; [|split; [by unfold graphic|done]]. unfold lower in Hc.
  split; [unfold graphic; lia|]. intros ->. by destruct Hc as [[] _].
Qed.

Section parse_string.
Context `{UrlChecks}.

Lemma parse_pieces scheme h query x :
  containsCTL (scheme ++ ":"%byte :: (lit "//" ++ h ++ "?"%byte :: query) ++ [x]) = false ->
  getScheme (scheme ++ ":"%byte :: (lit "//" ++ h ++ "?"%byte :: query) ++ [x]) =
    Some (scheme, (lit "//" ++ h ++ "?"%byte :: query) ++ [x]) ->
  asciiLower <$> scheme = scheme -> scheme <> [] -> Forall lower h -> x <> "?"%byte ->
  parse (scheme ++ ":"%byte :: (lit "//" ++ h ++ "?"%byte :: query) ++ [x]) =
    Some {| Scheme := scheme; RawQuery := query ++ [x] |}.
Proof.
  intros Hctl Hget Hlow Hne Hh Hx. unfold parse. rewrite Hctl.
  rewrite decide_False by (intros E; apply (f_equal length) in E; rewrite !length_app in E; simpl in E; lia).
  rewrite Hget. cbn [mbind option_bind]. rewrite Hlow. change (lit "?") with ["?"%byte]. rewrite HasSuffix_snoc, bool_decide_false by done.
  cbn [andb].
  replace ((lit "//" ++ h ++ "?"%byte :: query) ++ [x]) with ((lit "//" ++ h) ++ "?"%byte :: query ++ [x])
    by (rewrite <-!app_assoc; done).
  assert (Hq : "?"%byte ∉ lit "//" ++ h).
  { rewrite not_elem_of_app. split; [by apply (bool_decide_unpack _)|by apply lower_not]. }
  rewrite Cut_app by done.
  rewrite (bool_decide_false (scheme = [])) by done. cbn [app lit HasPrefix default negb andb orb].
  change (HasPrefix (lit "//" ++ h) (lit "/")) with true. change (HasPrefix (lit "//" ++ h) (lit "//")) with true.
  change (drop 2 (lit "//" ++ h)) with h. cbn [negb andb].
  rewrite Cut_absent by (by apply lower_not). cbn iota beta.
  by rewrite authority_plain, path_empty.
Qed.

(** Parsing a URL of a lower-case scheme and host and a plain query gives its
    scheme and query back. *)
Lemma Parse_URL_String c s h q x :
  lower c -> Forall schemeChar s -> Forall lower h -> Forall plainChar q -> plainChar x -> x <> "?"%byte ->
  Parse (URL_String (c :: s) h (q ++ [x])) = Some {| Scheme := c :: s; RawQuery := q ++ [x] |} /\
  Forall plainChar (URL_String (c :: s) h (q ++ [x])).
Proof.
  intros Hc Hs Hh Hq Hxp Hx. set (scheme := c :: s).
  assert (Hscheme : Forall schemeChar scheme) by (constructor; [by left|done]).
  assert (Hu : URL_String scheme h (q ++ [x]) =
    scheme ++ ":"%byte :: (lit "//" ++ h ++ "?"%byte :: q) ++ [x]).
  { unfold URL_String. rewrite bool_decide_false by (by destruct q). rewrite <-!app_assoc. done. }
  assert (Hplain : Forall plainChar (URL_String scheme h (q ++ [x]))).
  { assert (Hsym : forall y, y ∈ [":"; "/"; "?"]%byte -> plainChar y).
    { intros y Hy. apply list_elem_of_In in Hy.
      destruct Hy as [<-|[<-|[<-|[]]]]; (split; [by unfold graphic|done]). }
    rewrite Hu. apply Forall_app. split; [eapply Forall_impl; [exact Hscheme|exact scheme_plain]|].
    constructor; [apply Hsym; set_solver|]. apply Forall_app. split; [|by constructor].
    apply Forall_app. split; [repeat constructor; apply Hsym; set_solver|].
    apply Forall_app. split; [eapply Forall_impl; [exact Hh|]; intros y Hy; apply scheme_plain; by left|].
    constructor; [apply Hsym; set_solver|done]. }
  split; [|done]. unfold Parse. rewrite Cut_absent by (by apply plain_no_hash). rewrite Hu in *.
  rewrite parse_pieces; [done|by apply plain_no_CTL|by apply getScheme_ok|by apply asciiLower_scheme|done..].
Qed.
End parse_string.
