(* ===== verification/Migration.v ===== *)
(** * Account migration: [migration.go]

    The protobuf varint, bytes and skip routines on offsets into a buffer, the
    encoder and decoder of one account, and [BuildOtpAuthMigrationURI] and
    [ParseOtpAuthMigrationURI].  Every loop is proved to end, and building and
    parsing are proved inverse on the accounts the format can carry. *)
From S2P Require Import Prelude Errors Bits Base32 Strings Base64 Url Provisioning.

(** ** Types *)
Record OtpAuthMigrationAccount : Type := {
  Type_ : OtpType;
  Label : bytes;
  Issuer : bytes;
  SecretB32 : bytes;
  Algorithm_ : Algorithm;
  Digits : Z;
  Period : Z;
  Counter : Z
}.

Record OtpAuthMigrationOptions : Type := {
  o_Version : Z; o_BatchSize : Z; o_BatchIndex : Z; o_BatchID : Z
}.

Record OtpAuthMigrationPayload : Type := {
  Accounts : list OtpAuthMigrationAccount;
  Version : Z;
  BatchSize : Z;
  BatchIndex : Z;
  BatchID : Z
}.

(** Sequencing of results; [orInvalid] turns every error into
    [ErrInvalidMigration]. *)
Definition bindR {A B} (r : result A) (k : A -> result B) : result B :=
  match r with Ret a => k a | Err e => Err e | Panic => Panic end.
Definition orInvalid {A} (r : result A) : result A :=
  match r with Err _ => Err ErrInvalidMigration | _ => r end.

(** The slice expression [data[lo:hi]], which panics out of range. *)
Definition slice (data : bytes) (lo hi : Z) : result bytes :=
  if (0 <=? lo) && (lo <=? hi) && (hi <=? Z.of_nat (length data))
  then Ret (drop (Z.to_nat lo) (take (Z.to_nat hi) data)) else Panic.

(** ** Writing *)

(** [for value >= 0x80]: a 64-bit value has at most ten groups of seven bits. *)
Fixpoint varintLoop (fuel : nat) (value : Z) : bytes :=
  match fuel with
  | O => []
  | S f =>
      if 0x80 <=? value
      then z2b (Z.lor (value mod 256) 0x80) :: varintLoop f (Z.shiftr value 7)
      else [z2b value]
  end.

Definition appendProtoVarint (dst : bytes) (value : Z) : bytes := dst ++ varintLoop 10 value.

Definition appendProtoVarintField (dst : bytes) (field value : Z) : bytes :=
  appendProtoVarint (appendProtoVarint dst (u64 (Z.shiftl field 3))) value.

Definition appendProtoBytesField (dst : bytes) (field : Z) (value : bytes) : bytes :=
  appendProtoVarint (appendProtoVarint dst (Z.lor (u64 (Z.shiftl field 3)) 2)) (Z.of_nat (length value))
  ++ value.

Definition appendProtoStringField (dst : bytes) (field : Z) (value : bytes) : bytes :=
  appendProtoBytesField dst field value.

(** ** Reading: value and next offset *)
Fixpoint readVarintLoop (fuel : nat) (data : bytes) (i : nat) (value shift : Z) : result (Z * nat) :=
  match fuel with
  | O => Err ErrInvalidMigration
  | S f =>
      match data !! i with
      | None => Err ErrInvalidMigration
      | Some b =>
          let value := Z.lor value (u64 (Z.shiftl (Z.land (b2z b) 0x7f) shift)) in
          if b2z b <? 0x80 then Ret (value, S i)
          else let shift := shift + 7 in
            if 63 <? shift then Err ErrInvalidMigration
            else readVarintLoop f data (S i) value shift
      end
  end.

(** [for i := offset; i < len(data); i++]. *)
Definition readProtoVarint (data : bytes) (offset : nat) : result (Z * nat) :=
  readVarintLoop (length data - offset) data offset 0 0.

Definition checkedUint64ToInt32 (value : Z) : result Z :=
  if 2 ^ 31 - 1 <? value then Err ErrInvalidMigration else Ret value.

Definition checkedUint64ToInt (value : Z) : result Z :=
  if 2 ^ 63 - 1 <? value then Err ErrInvalidMigration else Ret value.

Definition readProtoBytes (data : bytes) (offset : nat) : result (bytes * nat) :=
  match readProtoVarint data offset with
  | Ret (size, next) =>
      match checkedUint64ToInt size with
      | Ret intSize =>
          let end_ := i64 (Z.of_nat next + intSize) in
          if (end_ <? Z.of_nat next) || (Z.of_nat (length data) <? end_) then Err ErrInvalidMigration
          else bindR (slice data (Z.of_nat next) end_) (fun s => Ret (s, Z.to_nat end_))
      | Err _ => Err ErrInvalidMigration
      | Panic => Panic
      end
  | Err e => Err e
  | Panic => Panic
  end.

Definition readProtoString (data : bytes) (offset : nat) : result (bytes * nat) :=
  readProtoBytes data offset.

Definition readProtoScalar (data : bytes) (offset : nat) (wireType : Z) : result (Z * nat) :=
  if negb (wireType =? 0) then Err ErrInvalidMigration else readProtoVarint data offset.

Definition skipProtoField (data : bytes) (offset : nat) (wireType : Z) : result nat :=
  if wireType =? 0 then
    match readProtoVarint data offset with
    | Ret (_, next) => Ret next | Err e => Err e | Panic => Panic end
  else if wireType =? 2 then
    match readProtoBytes data offset with
    | Ret (_, next) => Ret next | Err e => Err e | Panic => Panic end
  else Err ErrInvalidMigration.

(** ** Enumerations *)
Definition migrationAlgorithmFromAlgorithm (algo : Algorithm) : result Z :=
  if algo =? SHA1 then Ret 1 else if algo =? SHA256 then Ret 2 else if algo =? SHA512 then Ret 3
  else Err ErrInvalidAlgorithm.

Definition algorithmFromMigrationEnum (value : Z) : result Algorithm :=
  if (value =? 0) || (value =? 1) then Ret SHA1 else if value =? 2 then Ret SHA256
  else if value =? 3 then Ret SHA512 else Err ErrInvalidAlgorithm.

Definition migrationDigitEnum (digits : Z) : result Z :=
  if digits =? 6 then Ret 1 else if digits =? 8 then Ret 2 else Err ErrInvalidDigits.

Definition digitsFromMigrationEnum (value : Z) : result Z :=
  if (value =? 0) || (value =? 1) then Ret 6 else if value =? 2 then Ret 8 else Err ErrInvalidDigits.

Definition otpTypeFromMigrationEnum (value : Z) : OtpType :=
  if value =? 1 then HotpType else TotpType.

Definition splitMigrationLabel (issuer name : bytes) : bytes * bytes :=
  let prefix := issuer ++ lit ":" in
  if negb (bool_decide (issuer = [])) && HasPrefix name prefix
  then (issuer, TrimSpace (drop (length prefix) name))
  else
    match IndexByte name ":"%byte with
    | Some (S i) => (TrimSpace (take (S i) name), TrimSpace (drop (S (S i)) name))
    | _ => (issuer, name)
    end.

(** ** One account *)
Definition encodeMigrationAccount (account : OtpAuthMigrationAccount) : result bytes :=
  let normalizedSecret := normalizeBase32Secret (SecretB32 account) in
  if bool_decide (normalizedSecret = []) then Err ErrInvalidSecret else
  let secretBuf := replicate ((length normalizedSecret * 5) `div` 8 + 1)%nat Byte.x00 in
  let '(r, secretBuf) := DecodeBase32 secretBuf normalizedSecret in
  bindR r (fun n =>
  let digits := if Digits account =? 0 then 6 else Digits account in
  bindR (migrationAlgorithmFromAlgorithm (Algorithm_ account)) (fun algorithmEnum =>
  bindR (migrationDigitEnum digits) (fun digitEnum =>
  let otpTypeEnum := if Type_ account =? HotpType then 1 else 2 in
  let name :=
    if negb (bool_decide (Issuer account = [])) && negb (HasPrefix (Label account) (Issuer account ++ lit ":"))
    then Issuer account ++ lit ":" ++ Label account else Label account in
  bindR (slice secretBuf 0 n) (fun key =>
  let msg := appendProtoBytesField [] 1 key in
  let msg := appendProtoStringField msg 2 name in
  let msg := if bool_decide (Issuer account = []) then msg
             else appendProtoStringField msg 3 (Issuer account) in
  let msg := appendProtoVarintField msg 4 algorithmEnum in
  let msg := appendProtoVarintField msg 5 digitEnum in
  let msg := appendProtoVarintField msg 6 otpTypeEnum in
  let msg := if (Type_ account =? HotpType) && negb (Counter account =? 0)
             then appendProtoVarintField msg 7 (Counter account) else msg in
  let msg := if (Type_ account =? HotpType) && (Counter account =? 0)
             then appendProtoVarintField msg 7 0 else msg in
  Ret msg)))).

Definition emptyAccount : OtpAuthMigrationAccount :=
  {| Type_ := TotpType; Label := []; Issuer := []; SecretB32 := []; Algorithm_ := SHA1;
     Digits := 6; Period := 30; Counter := 0 |}.

Definition set_secret (v : bytes) (a : OtpAuthMigrationAccount) : OtpAuthMigrationAccount :=
  {| Type_ := Type_ a; Label := Label a; Issuer := Issuer a; SecretB32 := v;
     Algorithm_ := Algorithm_ a; Digits := Digits a; Period := Period a; Counter := Counter a |}.
Definition set_names (i l : bytes) (a : OtpAuthMigrationAccount) : OtpAuthMigrationAccount :=
  {| Type_ := Type_ a; Label := l; Issuer := i; SecretB32 := SecretB32 a;
     Algorithm_ := Algorithm_ a; Digits := Digits a; Period := Period a; Counter := Counter a |}.
Definition set_algorithm (v : Algorithm) (a : OtpAuthMigrationAccount) : OtpAuthMigrationAccount :=
  {| Type_ := Type_ a; Label := Label a; Issuer := Issuer a; SecretB32 := SecretB32 a;
     Algorithm_ := v; Digits := Digits a; Period := Period a; Counter := Counter a |}.
Definition set_digits (v : Z) (a : OtpAuthMigrationAccount) : OtpAuthMigrationAccount :=
  {| Type_ := Type_ a; Label := Label a; Issuer := Issuer a; SecretB32 := SecretB32 a;
     Algorithm_ := Algorithm_ a; Digits := v; Period := Period a; Counter := Counter a |}.
Definition set_type (v : OtpType) (a : OtpAuthMigrationAccount) : OtpAuthMigrationAccount :=
  {| Type_ := v; Label := Label a; Issuer := Issuer a; SecretB32 := SecretB32 a;
     Algorithm_ := Algorithm_ a; Digits := Digits a; Period := Period a; Counter := Counter a |}.
Definition set_counter (v : Z) (a : OtpAuthMigrationAccount) : OtpAuthMigrationAccount :=
  {| Type_ := Type_ a; Label := Label a; Issuer := Issuer a; SecretB32 := SecretB32 a;
     Algorithm_ := Algorithm_ a; Digits := Digits a; Period := Period a; Counter := v |}.

(** The body of the decoding loop after the tag: the account and the offset
    after the field. *)
Definition accountField (data : bytes) (i : nat) (fieldNum wireType : Z) (account : OtpAuthMigrationAccount)
    : result (OtpAuthMigrationAccount * nat) :=
  if fieldNum =? 1 then
    bindR (orInvalid (readProtoBytes data i)) (fun '(value, next) =>
    Ret (set_secret (EncodeBase32 value) account, next))
  else if fieldNum =? 2 then
    bindR (orInvalid (readProtoString data i)) (fun '(value, next) =>
    Ret (set_names (Issuer account) value account, next))
  else if fieldNum =? 3 then
    bindR (orInvalid (readProtoString data i)) (fun '(value, next) =>
    Ret (set_names value (Label account) account, next))
  else if fieldNum =? 4 then
    bindR (orInvalid (readProtoScalar data i wireType)) (fun '(value, next) =>
    bindR (algorithmFromMigrationEnum value) (fun a => Ret (set_algorithm a account, next)))
  else if fieldNum =? 5 then
    bindR (orInvalid (readProtoScalar data i wireType)) (fun '(value, next) =>
    bindR (digitsFromMigrationEnum value) (fun d => Ret (set_digits d account, next)))
  else if fieldNum =? 6 then
    bindR (orInvalid (readProtoScalar data i wireType)) (fun '(value, next) =>
    Ret (set_type (otpTypeFromMigrationEnum value) account, next))
  else if fieldNum =? 7 then
    bindR (orInvalid (readProtoScalar data i wireType)) (fun '(value, next) =>
    Ret (set_counter value account, next))
  else
    bindR (orInvalid (skipProtoField data i wireType)) (fun next => Ret (account, next)).

(** A loop over tagged fields, [for i := 0; i < len(data); ]: [body] handles the
    field after its tag.  [Panic] marks exhausted fuel. *)
Fixpoint fieldLoop {A} (body : nat -> Z -> Z -> A -> result (A * nat)) (fuel : nat) (data : bytes)
    (i : nat) (acc : A) : result A :=
  if Nat.leb (length data) i then Ret acc else
  match fuel with
  | O => Panic
  | S f =>
      bindR (orInvalid (readProtoVarint data i)) (fun '(tag, next) =>
      bindR (body next (Z.shiftr tag 3) (Z.land tag 7) acc) (fun '(acc', i') =>
      fieldLoop body f data i' acc'))
  end.

Definition decodeMigrationAccount (data : bytes) : result OtpAuthMigrationAccount :=
  bindR (fieldLoop (accountField data) (length data) data 0 emptyAccount) (fun account =>
  if bool_decide (SecretB32 account = []) || bool_decide (Label account = [])
  then Err ErrInvalidMigration
  else let '(i, l) := splitMigrationLabel (Issuer account) (Label account) in
       Ret (set_names i l account)).

(** ** The payload *)
Fixpoint encodeAccounts (accounts : list OtpAuthMigrationAccount) (payload : bytes) : result bytes :=
  match accounts with
  | [] => Ret payload
  | a :: accounts' =>
      bindR (encodeMigrationAccount a) (fun accountBytes =>
      encodeAccounts accounts' (appendProtoBytesField payload 1 accountBytes))
  end.

(** [uint64(x)] of an [int32]. *)
Definition buildPayload (accounts : list OtpAuthMigrationAccount) (opts : option OtpAuthMigrationOptions)
    : result bytes :=
  bindR (encodeAccounts accounts []) (fun payload =>
  let '(version, batchSize, batchIndex, batchID) :=
    match opts with
    | Some o => (if 0 <? o_Version o then o_Version o else 1, o_BatchSize o, o_BatchIndex o, o_BatchID o)
    | None => (1, 0, 0, 0)
    end in
  let payload := appendProtoVarintField payload 2 (u64 version) in
  let payload := if batchSize =? 0 then payload else appendProtoVarintField payload 3 (u64 batchSize) in
  let payload := if batchIndex =? 0 then payload else appendProtoVarintField payload 4 (u64 batchIndex) in
  let payload := if batchID =? 0 then payload else appendProtoVarintField payload 5 (u64 batchID) in
  Ret payload).

Definition BuildOtpAuthMigrationURI (accounts : list OtpAuthMigrationAccount)
    (opts : option OtpAuthMigrationOptions) : result bytes :=
  bindR (buildPayload accounts opts) (fun payload =>
  let encoded := RawURLEncoding_EncodeToString payload in
  Ret (URL_String (lit "otpauth-migration") (lit "offline") (lit "data=" ++ encoded))).

Definition emptyPayload : OtpAuthMigrationPayload :=
  {| Accounts := []; Version := 0; BatchSize := 0; BatchIndex := 0; BatchID := 0 |}.

Definition payloadInt (data : bytes) (i : nat) (wireType : Z) (set : Z -> OtpAuthMigrationPayload)
    : result (OtpAuthMigrationPayload * nat) :=
  bindR (orInvalid (readProtoScalar data i wireType)) (fun '(value, next) =>
  bindR (orInvalid (checkedUint64ToInt32 value)) (fun v => Ret (set v, next))).

Definition payloadField (data : bytes) (i : nat) (fieldNum wireType : Z) (p : OtpAuthMigrationPayload)
    : result (OtpAuthMigrationPayload * nat) :=
  if fieldNum =? 1 then
    if negb (wireType =? 2) then Err ErrInvalidMigration else
    bindR (orInvalid (readProtoBytes data i)) (fun '(value, next) =>
    bindR (decodeMigrationAccount value) (fun account =>
    Ret ({| Accounts := Accounts p ++ [account]; Version := Version p; BatchSize := BatchSize p;
            BatchIndex := BatchIndex p; BatchID := BatchID p |}, next)))
  else if fieldNum =? 2 then
    payloadInt data i wireType (fun v => {| Accounts := Accounts p; Version := v;
      BatchSize := BatchSize p; BatchIndex := BatchIndex p; BatchID := BatchID p |})
  else if fieldNum =? 3 then
    payloadInt data i wireType (fun v => {| Accounts := Accounts p; Version := Version p;
      BatchSize := v; BatchIndex := BatchIndex p; BatchID := BatchID p |})
  else if fieldNum =? 4 then
    payloadInt data i wireType (fun v => {| Accounts := Accounts p; Version := Version p;
      BatchSize := BatchSize p; BatchIndex := v; BatchID := BatchID p |})
  else if fieldNum =? 5 then
    payloadInt data i wireType (fun v => {| Accounts := Accounts p; Version := Version p;
      BatchSize := BatchSize p; BatchIndex := BatchIndex p; BatchID := v |})
  else
    bindR (orInvalid (skipProtoField data i wireType)) (fun next => Ret (p, next)).

Definition parsePayload (decoded : bytes) : result OtpAuthMigrationPayload :=
  fieldLoop (payloadField decoded) (length decoded) decoded 0 emptyPayload.

Definition ParseOtpAuthMigrationURI `{UrlChecks} (raw : bytes) : result OtpAuthMigrationPayload :=
  match Parse (TrimSpace raw) with
  | None => Err ErrInvalidMigration
  | Some parsed =>
      if negb (bool_decide (Scheme parsed = lit "otpauth-migration")) then Err ErrInvalidURI else
      let data := Query_Get (RawQuery parsed) (lit "data") in
      if bool_decide (data = []) then Err ErrInvalidMigration else
      match RawURLEncoding_DecodeString data with
      | Some decoded => parsePayload decoded
      | None =>
          match StdEncoding_DecodeString data with
          | Some decoded => parsePayload decoded
          | None => Err ErrInvalidMigration
          end
      end
  end.

(** ** Varints *)
Definition varint (v : Z) : bytes := varintLoop 10 v.
#[local] Arguments varint : simpl never.

Lemma byte_low7 b : Z.land (b2z b) 0x7f = b2z b mod 128.
Proof.
  apply Z.eqb_eq. revert b.
  apply (byte_all (fun b => Z.land (b2z b) 0x7f =? b2z b mod 128)). by vm_compute.
Qed.

Lemma byte_set7 v : b2z (z2b (Z.lor (v mod 256) 0x80)) = v mod 128 + 128.
Proof.
  assert (H : forall b, b2z (z2b (Z.lor (b2z b) 0x80)) = b2z b mod 128 + 128).
  { intros b. apply Z.eqb_eq. revert b.
    apply (byte_all (fun b => b2z (z2b (Z.lor (b2z b) 0x80)) =? b2z b mod 128 + 128)). by vm_compute. }
  specialize (H (z2b v)). rewrite (b2z_z2b v) in H. rewrite H. f_equal.
  change 256 with (128 * 2). rewrite Z.rem_mul_r by lia. zdiv.
Qed.

(** Or-ing in seven bits above the ones read so far. *)
Lemma or_bits value x k :
  0 <= k -> 0 <= value < 2 ^ k -> 0 <= x -> x * 2 ^ k < 2 ^ 64 ->
  Z.lor value (u64 (Z.shiftl x k)) = value + x * 2 ^ k.
Proof.
  intros Hk Hv Hx Hb. rewrite Z.shiftl_mul_pow2 by done.
  rewrite u64_small by (split; [apply Z.mul_nonneg_nonneg|]; lia).
  rewrite Z.lor_comm, <-Z.shiftl_mul_pow2, lor_disjoint_add by done.
  rewrite Z.shiftl_mul_pow2 by done. lia.
Qed.

Lemma readVarintLoop_ok n : forall v data i value k f post,
  drop i data = varintLoop n v ++ post -> 0 <= k -> 7 * (k + Z.of_nat n) = 70 ->
  0 <= v < 2 ^ (64 - 7 * k) -> 0 <= value < 2 ^ (7 * k) -> (0 < n)%nat ->
  (length (varintLoop n v) <= f)%nat ->
  readVarintLoop f data i value (7 * k) =
    Ret (value + v * 2 ^ (7 * k), (i + length (varintLoop n v))%nat).
Proof.
  induction n as [|n IH]; intros v data i value k f post Hd Hk Hn Hv Hval Hpos Hf; [lia|].
  cbn [varintLoop] in *.
  destruct (Z.leb_spec 0x80 v) as [Hge|Hlt].
  - assert (Hk8 : 7 * k < 57).
    { destruct (Z_lt_ge_dec (7 * k) 57); [done|]. exfalso.
      assert (2 ^ (64 - 7 * k) <= 2 ^ 7) by (apply Z.pow_le_mono_r; lia). lia. }
    destruct f as [|f]; [simpl in Hf; lia|]. cbn [readVarintLoop length] in *.
    set (b := z2b (Z.lor (v mod 256) 128)) in *.
    assert (Hb : b2z b = v mod 128 + 128) by apply byte_set7.
    pose proof (Z.mod_pos_bound v 128 eq_refl) as Hm.
    rewrite (drop_head_lookup _ _ _ _ Hd), byte_low7, Hb.
    rewrite (proj2 (Z.ltb_ge _ _)) by lia.
    replace ((v mod 128 + 128) mod 128) with (v mod 128) by zdiv.
    assert (Hsplit : 2 ^ (7 * k) * 2 ^ (64 - 7 * k) = 2 ^ 64) by (rewrite <-Z.pow_add_r by lia; f_equal; lia).
    assert (Hpk : 0 < 2 ^ (7 * k)) by (apply Z.pow_pos_nonneg; lia).
    rewrite or_bits by (lia || nia). rewrite (proj2 (Z.ltb_ge _ _)) by lia.
    replace (7 * k + 7) with (7 * (k + 1)) by lia.
    rewrite Z.shiftr_div_pow2 in * by lia. change (2 ^ 7) with 128 in *.
    assert (Hp1 : 2 ^ (7 * (k + 1)) = 128 * 2 ^ (7 * k))
      by (replace (7 * (k + 1)) with (7 + 7 * k) by lia; rewrite Z.pow_add_r by lia; done).
    rewrite (IH (v / 128) data (S i) _ (k + 1) f post).
    + f_equal. f_equal; [rewrite Hp1; pose proof (Z.div_mod v 128); nia|lia].
    + by apply (drop_tail _ _ _ _ Hd).
    + lia.
    + lia.
    + split; [apply Z.div_pos; lia|]. apply Z.div_lt_upper_bound; [lia|].
      replace (64 - 7 * k) with (7 + (64 - 7 * (k + 1))) in Hv by lia.
      rewrite Z.pow_add_r in Hv by lia. lia.
    + rewrite Hp1. nia.
    + destruct n; [|lia]. simpl in Hn. lia.
    + lia.
  - destruct f as [|f]; [simpl in Hf; lia|]. cbn [readVarintLoop].
    assert (Hb : b2z (z2b v) = v) by (apply b2z_z2b_small; lia).
    rewrite (drop_head_lookup _ _ _ _ Hd), byte_low7, Hb, Z.mod_small by lia.
    assert (Hsplit : 2 ^ (7 * k) * 2 ^ (64 - 7 * k) = 2 ^ 64).
    { rewrite <-Z.pow_add_r; [f_equal; lia|lia|].
      destruct (Z_lt_ge_dec (64 - 7 * k) 0); [|lia]. rewrite Z.pow_neg_r in Hv by lia. lia. }
    assert (Hpk : 0 < 2 ^ (7 * k)) by (apply Z.pow_pos_nonneg; lia).
    rewrite or_bits by (lia || nia). rewrite (proj2 (Z.ltb_lt _ _)) by lia.
    f_equal. f_equal. simpl. lia.
Qed.

Lemma varint_read data i v post :
  drop i data = varint v ++ post -> 0 <= v < 2 ^ 64 ->
  readProtoVarint data i = Ret (v, (i + length (varint v))%nat).
Proof.
  intros Hd Hv. unfold readProtoVarint. change 0 with (7 * 0) at 2.
  rewrite (readVarintLoop_ok 10 v data i 0 0 (length data - i) post); try done; try lia.
  - by rewrite Z.mul_1_r.
  - apply (f_equal length) in Hd. rewrite length_drop, length_app in Hd. unfold varint in Hd. lia.
Qed.

Lemma varint_nonempty v : (0 < length (varint v))%nat.
Proof. unfold varint. cbn [varintLoop]. case_match; cbn [length]; lia. Qed.

(** Offsets stay below [2 ^ 63]: they are Go [int]s. *)
Definition addressable (data : bytes) : Prop := Z.of_nat (length data) < 2 ^ 63.

Lemma bytes_read data i s post :
  addressable data -> drop i data = varint (Z.of_nat (length s)) ++ s ++ post ->
  readProtoBytes data i = Ret (s, (i + length (varint (Z.of_nat (length s)) ++ s))%nat).
Proof.
  unfold addressable. intros Ha Hd. set (p := varint (Z.of_nat (length s))) in *.
  assert (Hlen : (length s + length post + length p + i = length data)%nat).
  { pose proof (f_equal length Hd) as H. rewrite length_drop, !length_app in H.
    pose proof (varint_nonempty (Z.of_nat (length s))). fold p in H0. lia. }
  unfold readProtoBytes. rewrite (varint_read _ _ _ _ Hd) by lia. fold p. cbn iota.
  unfold checkedUint64ToInt. rewrite (proj2 (Z.ltb_ge _ _)) by lia. cbv zeta.
  rewrite i64_small by lia. rewrite !(proj2 (Z.ltb_ge _ _)) by lia. cbn [orb].
  unfold slice. rewrite !(proj2 (Z.leb_le _ _)) by lia. cbn [andb bindR]. rewrite Nat2Z.id.
  replace (Z.to_nat _) with ((i + length p) + length s)%nat by lia.
  rewrite <-take_drop_commute, (drop_app_at _ _ _ _ Hd), take_app_length.
  rewrite length_app. do 2 f_equal. lia.
Qed.

(** ** Messages as lists of fields *)
Inductive pfield : Type :=
  | PVar (n v : Z)
  | PBytes (n : Z) (s : bytes).

Definition fieldNumber (f : pfield) : Z := match f with PVar n _ | PBytes n _ => n end.
Definition wire (f : pfield) : Z := match f with PVar _ _ => 0 | PBytes _ _ => 2 end.
Definition body_bytes (f : pfield) : bytes :=
  match f with PVar _ v => varint v | PBytes _ s => varint (Z.of_nat (length s)) ++ s end.
Definition enc_field (f : pfield) : bytes := varint (8 * fieldNumber f + wire f) ++ body_bytes f.
Definition enc_msg (fs : list pfield) : bytes := f ← fs; enc_field f.

Definition field_ok (f : pfield) : Prop :=
  1 <= fieldNumber f < 2 ^ 61 /\ match f with PVar _ v => 0 <= v < 2 ^ 64 | PBytes _ _ => True end.

Lemma tag_parts n w : 0 <= w < 8 -> Z.shiftr (8 * n + w) 3 = n /\ Z.land (8 * n + w) 7 = w.
Proof.
  intros Hw. rewrite Z.shiftr_div_pow2 by lia. change 7 with (2 ^ 3 - 1). rewrite land_ones' by lia.
  change (2 ^ 3) with 8. split; zdiv.
Qed.

(** A loop whose body handles one field as [step] does folds [step] over the
    message. *)
Fixpoint foldR {A} (step : A -> pfield -> result A) (acc : A) (fs : list pfield) : result A :=
  match fs with
  | [] => Ret acc
  | f :: fs' => bindR (step acc f) (fun acc' => foldR step acc' fs')
  end.

Lemma foldR_app {A} (step : A -> pfield -> result A) acc fs gs :
  foldR step acc (fs ++ gs) = bindR (foldR step acc fs) (fun acc' => foldR step acc' gs).
Proof.
  revert acc. induction fs as [|f fs IH]; intros acc; [done|]. simpl.
  destruct (step acc f); simpl; done.
Qed.

Lemma fieldLoop_msg {A} (body : nat -> Z -> Z -> A -> result (A * nat)) (step : A -> pfield -> result A)
    (ok : pfield -> Prop) data :
  (forall f i acc post, ok f -> drop i data = body_bytes f ++ post ->
     body i (fieldNumber f) (wire f) acc =
     bindR (step acc f) (fun acc' => Ret (acc', (i + length (body_bytes f))%nat))) ->
  forall fs fuel i acc, Forall field_ok fs -> Forall ok fs -> drop i data = enc_msg fs ->
  (length fs <= fuel)%nat -> fieldLoop body fuel data i acc = foldR step acc fs.
Proof.
  intros Hbody. induction fs as [|f fs IH]; intros fuel i acc Hok1 Hok2 Hd Hf.
  - destruct fuel; simpl; rewrite (proj2 (Nat.leb_le _ _));
      try done; apply (f_equal length) in Hd; rewrite length_drop in Hd; simpl in Hd; lia.
  - destruct fuel as [|fuel]; [simpl in Hf; lia|].
    apply Forall_cons in Hok1 as [[Hn Hv] Hok1]. apply Forall_cons in Hok2 as [Hf2 Hok2].
    change (enc_msg (f :: fs)) with (enc_field f ++ enc_msg fs) in Hd. unfold enc_field in Hd.
    rewrite <-app_assoc in Hd. set (tag := 8 * fieldNumber f + wire f) in *.
    assert (Hw : 0 <= wire f < 8) by (destruct f; simpl; lia).
    pose proof (varint_nonempty tag) as Hpos.
    assert (Hlt : (i < length data)%nat).
    { apply (f_equal length) in Hd. rewrite length_drop, length_app in Hd. lia. }
    cbn [fieldLoop]. rewrite (proj2 (Nat.leb_gt _ _)) by done.
    rewrite (varint_read _ _ _ _ Hd) by (unfold tag; lia). cbn [orInvalid bindR].
    destruct (tag_parts (fieldNumber f) (wire f) Hw) as [Ht1 Ht2]. fold tag in Ht1, Ht2.
    rewrite Ht1, Ht2.
    apply drop_app_at in Hd. rewrite (Hbody f _ acc _ Hf2 Hd). cbn [foldR].
    destruct (step acc f) as [acc'| |]; cbn [bindR]; try done.
    apply IH; [done|done| |simpl in Hf; lia]. by apply (drop_app_at _ _ _ _ Hd).
Qed.

Lemma enc_msg_length fs : (length fs <= length (enc_msg fs))%nat.
Proof.
  induction fs as [|f fs IH]; [done|]. change (enc_msg (f :: fs)) with (enc_field f ++ enc_msg fs).
  unfold enc_field. rewrite !length_app. pose proof (varint_nonempty (8 * fieldNumber f + wire f)).
  cbn [length]. lia.
Qed.

Lemma enc_msg_app fs gs : enc_msg (fs ++ gs) = enc_msg fs ++ enc_msg gs.
Proof. apply bind_app. Qed.

(** ** Accounts as messages *)
Definition accountStep (acc : OtpAuthMigrationAccount) (f : pfield) : result OtpAuthMigrationAccount :=
  match f with
  | PBytes n s =>
      if n =? 1 then Ret (set_secret (EncodeBase32 s) acc)
      else if n =? 2 then Ret (set_names (Issuer acc) s acc)
      else if n =? 3 then Ret (set_names s (Label acc) acc)
      else if n <=? 7 then Err ErrInvalidMigration
      else Ret acc
  | PVar n v =>
      if n =? 4 then bindR (algorithmFromMigrationEnum v) (fun a => Ret (set_algorithm a acc))
      else if n =? 5 then bindR (digitsFromMigrationEnum v) (fun d => Ret (set_digits d acc))
      else if n =? 6 then Ret (set_type (otpTypeFromMigrationEnum v) acc)
      else if n =? 7 then Ret (set_counter v acc)
      else Ret acc
  end.

(** The text fields are length-delimited. *)
Definition accountTyped (f : pfield) : Prop :=
  field_ok f /\ match f with PVar n _ => 4 <= n | PBytes _ _ => True end.

(** Running through the field numbers of a switch. *)
Ltac field_cases :=
  repeat match goal with |- context [?n =? ?k] => destruct (Z.eqb_spec n k); [subst|] end.

Lemma accountField_step data f i acc post :
  addressable data -> accountTyped f -> drop i data = body_bytes f ++ post ->
  accountField data i (fieldNumber f) (wire f) acc =
  bindR (accountStep acc f) (fun acc' => Ret (acc', (i + length (body_bytes f))%nat)).
Proof.
  intros Ha [[Hn Hv] Ht] Hd. unfold accountField.
  destruct f as [n v|n s]; cbn [fieldNumber wire body_bytes] in *.
  - assert (Hs : readProtoScalar data i 0 = Ret (v, (i + length (varint v))%nat))
      by (unfold readProtoScalar; cbn; by apply (varint_read data i v post)).
    assert (Hk : skipProtoField data i 0 = Ret (i + length (varint v))%nat)
      by (unfold skipProtoField; cbn [Z.eqb]; by rewrite (varint_read data i v post)).
    rewrite Hs, Hk. cbn [orInvalid bindR accountStep]. field_cases; try lia; try done.
    + by destruct (algorithmFromMigrationEnum v).
    + by destruct (digitsFromMigrationEnum v).
  - rewrite <-app_assoc in Hd. pose proof (bytes_read _ _ _ _ Ha Hd) as Hs.
    assert (Hk : skipProtoField data i 2 = Ret (i + length (varint (Z.of_nat (length s)) ++ s))%nat)
      by (unfold skipProtoField; cbn [Z.eqb]; by rewrite Hs).
    unfold readProtoString. rewrite Hs, Hk. cbn [orInvalid bindR accountStep].
    field_cases; try done. destruct (Z.leb_spec n 7); [lia|done].
Qed.

(** What decoding makes of a message: the last occurrence of a field wins,
    unknown fields are skipped. *)
Definition accountOf (fs : list pfield) : result OtpAuthMigrationAccount :=
  bindR (foldR accountStep emptyAccount fs) (fun account =>
  if bool_decide (SecretB32 account = []) || bool_decide (Label account = [])
  then Err ErrInvalidMigration
  else let '(i, l) := splitMigrationLabel (Issuer account) (Label account) in
       Ret (set_names i l account)).

Lemma decode_msg fs :
  Forall accountTyped fs -> addressable (enc_msg fs) -> decodeMigrationAccount (enc_msg fs) = accountOf fs.
Proof.
  intros Hok Ha. unfold decodeMigrationAccount, accountOf.
  rewrite (fieldLoop_msg (accountField (enc_msg fs)) accountStep accountTyped) with (fs := fs); try done.
  - intros f i acc post Hf. by apply accountField_step.
  - eapply Forall_impl; [exact Hok|]. by intros f [].
  - apply enc_msg_length.
Qed.

(** ** Writing a message *)
Lemma append_bytes_field dst n s :
  0 <= n < 2 ^ 60 -> appendProtoBytesField dst n s = dst ++ enc_field (PBytes n s).
Proof.
  intros Hn. unfold appendProtoBytesField, appendProtoVarint, enc_field, varint. cbn [fieldNumber wire body_bytes].
  rewrite Z.shiftl_mul_pow2 by lia. change (2 ^ 3) with 8. rewrite u64_small by lia.
  change 8 with (2 ^ 3) at 1. rewrite <-Z.shiftl_mul_pow2, lor_disjoint_add by lia.
  change (2 ^ 3) with 8. rewrite (Z.mul_comm n 8), <-!app_assoc. done.
Qed.

Lemma append_varint_field dst n v :
  0 <= n < 2 ^ 60 -> appendProtoVarintField dst n v = dst ++ enc_field (PVar n v).
Proof.
  intros Hn. unfold appendProtoVarintField, appendProtoVarint, enc_field, varint. cbn [fieldNumber wire body_bytes].
  rewrite Z.shiftl_mul_pow2, u64_small, <-app_assoc by lia. change (2 ^ 3) with 8.
  by rewrite (Z.mul_comm n 8), Z.add_0_r.
Qed.

Lemma enc_msg_snoc fs f : enc_msg fs ++ enc_field f = enc_msg (fs ++ [f]).
Proof. rewrite enc_msg_app. f_equal. unfold enc_msg. simpl. by rewrite app_nil_r. Qed.

Lemma append_if {A} (b : bool) (l m : list A) :
  (if b then l ++ m else l) = l ++ (if b then m else []).
Proof. destruct b; [done|by rewrite app_nil_r]. Qed.

(** ** The fields of an account *)

(** The key of a textual secret: the bytes its base32 symbols spell. *)
Definition secretKey (s : bytes) : result bytes :=
  let s := normalizeBase32Secret s in
  if bool_decide (s = []) then Err ErrInvalidSecret
  else if bool_decide (b32Valid (b32Stripped s)) then Ret (b32Bytes (b32Stripped s))
  else Err ErrInvalidSecret.

(** [issuer:label], unless the label has the issuer in it already. *)
Definition accountName (a : OtpAuthMigrationAccount) : bytes :=
  if negb (bool_decide (Issuer a = [])) && negb (HasPrefix (Label a) (Issuer a ++ lit ":"))
  then Issuer a ++ lit ":" ++ Label a else Label a.

Definition accountDigits (a : OtpAuthMigrationAccount) : Z := if Digits a =? 0 then 6 else Digits a.

Definition accountFields (a : OtpAuthMigrationAccount) (key : bytes) (algorithmEnum digitEnum : Z) : list pfield :=
  [PBytes 1 key; PBytes 2 (accountName a)]
  ++ (if bool_decide (Issuer a = []) then [] else [PBytes 3 (Issuer a)])
  ++ [PVar 4 algorithmEnum; PVar 5 digitEnum; PVar 6 (if Type_ a =? HotpType then 1 else 2)]
  ++ (if Type_ a =? HotpType then [PVar 7 (Counter a)] else []).

Definition accountMsg (a : OtpAuthMigrationAccount) : result (list pfield) :=
  bindR (secretKey (SecretB32 a)) (fun key =>
  bindR (migrationAlgorithmFromAlgorithm (Algorithm_ a)) (fun algorithmEnum =>
  bindR (migrationDigitEnum (accountDigits a)) (fun digitEnum =>
  Ret (accountFields a key algorithmEnum digitEnum)))).

(** The buffer of [encodeMigrationAccount] is always long enough. *)
Lemma secret_decode s :
  let dst := replicate ((length s * 5) `div` 8 + 1)%nat Byte.x00 in
  (b32Valid (b32Stripped s) -> exists n dst', DecodeBase32 dst s = (Ret n, dst') /\
     slice dst' 0 n = Ret (b32Bytes (b32Stripped s))) /\
  (~ b32Valid (b32Stripped s) -> exists dst', DecodeBase32 dst s = (Err ErrInvalidSecret, dst')).
Proof.
  intros dst.
  assert (Hroom : ((5 * length (b32Stripped s)) `div` 8 <= length dst)%nat).
  { unfold dst. rewrite length_replicate. pose proof (length_filter (fun c => b32Keep c) s) as H.
    fold (b32Stripped s) in H.
    assert ((5 * length (b32Stripped s)) `div` 8 <= (length s * 5) `div` 8)%nat
      by (apply Nat.Div0.div_le_mono; lia). lia. }
  rewrite DecodeBase32_loop. split; intros Hv.
  - rewrite (decodeLoop_ok _ []) by
      (apply pending_nil || done || (rewrite decodeOut_length; simpl length; rewrite Nat.add_0_l; exact Hroom)).
    eexists _, _. split; [done|]. rewrite !Nat.add_0_l, take_0, app_nil_l. unfold slice.
    rewrite length_app, !(proj2 (Z.leb_le _ _)) by lia. cbn [andb]. rewrite Nat2Z.id. change (Z.to_nat 0) with O.
    rewrite drop_0, take_app_length. unfold decodeOut. by rewrite app_nil_l.
  - destruct (decodeLoop _ _ _ _ _) as [r dst'] eqn:E. exists dst'.
    pose proof (decodeLoop_invalid (b32Stripped s) [] 0 dst 0 pending_nil Hv) as H. rewrite E in H.
    simpl in H. rewrite H; [done|]. rewrite decodeOut_length. exact Hroom.
Qed.

Lemma encode_msg a :
  encodeMigrationAccount a = bindR (accountMsg a) (fun fs => Ret (enc_msg fs)).
Proof.
  unfold encodeMigrationAccount, accountMsg, secretKey. cbv zeta.
  set (s := normalizeBase32Secret (SecretB32 a)). case_bool_decide as Hs; [done|].
  destruct (secret_decode s) as [Hok Hbad].
  destruct (bool_decide_reflect (b32Valid (b32Stripped s))) as [Hv|Hv].
  2:{ destruct (Hbad Hv) as [dst' ->]. done. }
  destruct (Hok Hv) as (n & dst' & -> & Hslice). cbn [bindR].
  fold (accountDigits a). destruct (migrationAlgorithmFromAlgorithm _) as [ae| |]; cbn [bindR]; try done.
  destruct (migrationDigitEnum _) as [de| |]; cbn [bindR]; try done. rewrite Hslice. cbn [bindR]. f_equal.
  fold (accountName a). unfold appendProtoStringField.
  rewrite !append_bytes_field, !append_varint_field by lia. rewrite app_nil_l.
  unfold accountFields. rewrite !enc_msg_app.
  destruct (bool_decide (Issuer a = [])), (Type_ a =? HotpType), (Counter a =? 0) eqn:Ec;
    cbn [andb negb]; rewrite ?append_varint_field by lia; unfold enc_msg; cbn [mbind list_bind];
    rewrite ?app_nil_r, ?app_nil_l, <-?app_assoc; try done.
  all: apply Z.eqb_eq in Ec; by rewrite Ec.
Qed.

(** ** Reading an account back *)

(** What the format keeps of an account: the normalised key, the name split
    again, the standard period, and a counter for HOTP only. *)
Definition recover (a : OtpAuthMigrationAccount) : result OtpAuthMigrationAccount :=
  bindR (secretKey (SecretB32 a)) (fun key =>
  if bool_decide (key = []) || bool_decide (accountName a = []) then Err ErrInvalidMigration else
  let '(i, l) := splitMigrationLabel (Issuer a) (accountName a) in
  Ret {| Type_ := if Type_ a =? HotpType then HotpType else TotpType; Label := l; Issuer := i;
         SecretB32 := EncodeBase32 key; Algorithm_ := Algorithm_ a; Digits := accountDigits a;
         Period := 30; Counter := if Type_ a =? HotpType then Counter a else 0 |}).

(** The accounts the format keeps whole. *)
Definition carried (a : OtpAuthMigrationAccount) : Prop :=
  (exists key, key <> [] /\ SecretB32 a = EncodeBase32 key) /\
  (Type_ a = HotpType \/ Type_ a = TotpType /\ Counter a = 0) /\
  Digits a <> 0 /\ Period a = 30 /\ TrimSpace (Label a) = Label a /\
  (if decide (Issuer a = []) then Label a <> [] /\ (":"%byte ∉ Label a)
   else HasPrefix (Label a) (Issuer a ++ lit ":") = false).

Lemma EncodeBase32_nil key : EncodeBase32 key = [] <-> key = [].
Proof.
  split; [|by intros ->]. intros H. pose proof (decode_encode key key (le_n _)) as E.
  rewrite H, DecodeBase32_loop in E. injection E as E _. destruct key; [done|simpl in E; lia].
Qed.

Lemma algorithm_enum a ae :
  migrationAlgorithmFromAlgorithm a = Ret ae -> 1 <= ae <= 3 /\ algorithmFromMigrationEnum ae = Ret a.
Proof.
  unfold migrationAlgorithmFromAlgorithm, SHA1, SHA256, SHA512.
  field_cases; intros [= <-]; done.
Qed.

Lemma digit_enum d de :
  migrationDigitEnum d = Ret de -> 1 <= de <= 2 /\ digitsFromMigrationEnum de = Ret d.
Proof. unfold migrationDigitEnum. field_cases; intros [= <-]; done. Qed.

Definition counter_ok (a : OtpAuthMigrationAccount) : Prop := 0 <= Counter a < 2 ^ 64.

Lemma accountFields_typed a key ae de :
  counter_ok a -> 0 <= ae <= 3 -> 0 <= de <= 2 -> Forall accountTyped (accountFields a key ae de).
Proof.
  intros Hc Hae Hde. unfold accountFields, counter_ok in *. rewrite !Forall_app.
  repeat split; repeat case_match; repeat constructor; simpl; lia.
Qed.

Lemma accountOf_fields a key ae de :
  migrationAlgorithmFromAlgorithm (Algorithm_ a) = Ret ae ->
  migrationDigitEnum (accountDigits a) = Ret de ->
  accountOf (accountFields a key ae de) =
  if bool_decide (key = []) || bool_decide (accountName a = []) then Err ErrInvalidMigration else
  let '(i, l) := splitMigrationLabel (Issuer a) (accountName a) in
  Ret {| Type_ := if Type_ a =? HotpType then HotpType else TotpType; Label := l; Issuer := i;
         SecretB32 := EncodeBase32 key; Algorithm_ := Algorithm_ a; Digits := accountDigits a;
         Period := 30; Counter := if Type_ a =? HotpType then Counter a else 0 |}.
Proof.
  intros Hae Hde. apply algorithm_enum in Hae as [_ Hae]. apply digit_enum in Hde as [_ Hde].
  assert (Hfold : foldR accountStep emptyAccount (accountFields a key ae de) =
    Ret {| Type_ := if Type_ a =? HotpType then HotpType else TotpType; Label := accountName a;
           Issuer := Issuer a; SecretB32 := EncodeBase32 key; Algorithm_ := Algorithm_ a;
           Digits := accountDigits a; Period := 30;
           Counter := if Type_ a =? HotpType then Counter a else 0 |}).
  { unfold accountFields. generalize (accountName a). intros name.
    destruct (bool_decide_reflect (Issuer a = [])) as [Hi|Hi], (Type_ a =? HotpType);
      simpl; rewrite Hae; simpl; rewrite Hde; cbn; rewrite ?Hi; done. }
  unfold accountOf. rewrite Hfold. cbn [bindR SecretB32 Label Issuer].
  rewrite (bool_decide_ext _ _ (EncodeBase32_nil key)).
  destruct (_ || _); [done|]. destruct (splitMigrationLabel _ _) as [i l]. done.
Qed.

Lemma split_names a :
  TrimSpace (Label a) = Label a ->
  (if decide (Issuer a = []) then Label a <> [] /\ (":"%byte ∉ Label a)
   else HasPrefix (Label a) (Issuer a ++ lit ":") = false) ->
  accountName a <> [] /\ splitMigrationLabel (Issuer a) (accountName a) = (Issuer a, Label a).
Proof.
  intros Ht Hn. unfold accountName, splitMigrationLabel. destruct (decide (Issuer a = [])) as [Hi|Hi].
  - destruct Hn as [Hl Hc]. rewrite bool_decide_true by done. cbn [andb negb].
    split; [done|]. by rewrite (proj2 (IndexByte_None _ _) Hc).
  - rewrite bool_decide_false by done. rewrite Hn. cbn [andb negb]. split; [by destruct (Issuer a)|].
    rewrite app_assoc, HasPrefix_app, drop_app_length. by rewrite Ht.
Qed.

Lemma secretKey_EncodeBase32 key : key <> [] -> secretKey (EncodeBase32 key) = Ret key.
Proof.
  intros Hk. unfold secretKey. rewrite normalize_EncodeBase32.
  rewrite bool_decide_false by (by rewrite EncodeBase32_nil).
  rewrite b32Stripped_EncodeBase32, bool_decide_true by apply EncodeBase32_valid.
  f_equal. apply decodeOut_EncodeBase32.
Qed.

Lemma recover_carried a : carried a -> recover a = Ret a.
Proof.
  intros ((key & Hk & Hs) & Ht & Hd & Hp & Htrim & Hn). unfold recover.
  destruct (split_names a Htrim Hn) as [Hname ->].
  rewrite Hs, secretKey_EncodeBase32 by done. cbn [bindR].
  rewrite !bool_decide_false by done. cbn [orb]. unfold accountDigits.
  rewrite (proj2 (Z.eqb_neq _ _) Hd), <-Hs, <-Hp. f_equal.
  destruct a as [t l i s al d p c]; cbn in *.
  destruct Ht as [->|[-> ->]]; done.
Qed.

Lemma encode_decode a msg :
  encodeMigrationAccount a = Ret msg -> counter_ok a -> addressable msg ->
  decodeMigrationAccount msg = recover a.
Proof.
  rewrite encode_msg. intros He Hc Ha. unfold accountMsg, recover in *.
  destruct (secretKey (SecretB32 a)) as [key| |]; cbn [bindR] in *; try done.
  destruct (migrationAlgorithmFromAlgorithm _) as [ae| |] eqn:Hae; cbn [bindR] in *; try done.
  destruct (migrationDigitEnum _) as [de| |] eqn:Hde; cbn [bindR] in *; try done.
  assert (Hm : msg = enc_msg (accountFields a key ae de)) by congruence.
  rewrite Hm in *. rewrite decode_msg; [by apply accountOf_fields| |done].
  apply algorithm_enum in Hae as [Hae _]. apply digit_enum in Hde as [Hde _].
  apply accountFields_typed; [done|lia|lia].
Qed.

(** ** The payload as a message *)
Fixpoint mapR {A B} (f : A -> result B) (l : list A) : result (list B) :=
  match l with
  | [] => Ret []
  | x :: l' => bindR (f x) (fun y => bindR (mapR f l') (fun ys => Ret (y :: ys)))
  end.

Lemma encodeAccounts_msg accounts payload :
  encodeAccounts accounts payload =
  bindR (mapR encodeMigrationAccount accounts) (fun ms => Ret (payload ++ enc_msg (PBytes 1 <$> ms))).
Proof.
  revert payload. induction accounts as [|a accounts IH]; intros payload.
  - simpl. by rewrite app_nil_r.
  - cbn [encodeAccounts mapR]. destruct (encodeMigrationAccount a) as [m| |]; cbn [bindR]; try done.
    rewrite append_bytes_field, IH by lia. destruct (mapR _ accounts) as [ms| |]; cbn [bindR]; try done.
    by rewrite <-app_assoc.
Qed.

(** Version and batch fields as [BuildOtpAuthMigrationURI] takes them. *)
Definition effectiveOptions (opts : option OtpAuthMigrationOptions) : OtpAuthMigrationOptions :=
  match opts with
  | Some o => {| o_Version := if 0 <? o_Version o then o_Version o else 1; o_BatchSize := o_BatchSize o;
                 o_BatchIndex := o_BatchIndex o; o_BatchID := o_BatchID o |}
  | None => {| o_Version := 1; o_BatchSize := 0; o_BatchIndex := 0; o_BatchID := 0 |}
  end.

Definition optional (n v : Z) : list pfield := if v =? 0 then [] else [PVar n (u64 v)].

Definition payloadFields (ms : list bytes) (o : OtpAuthMigrationOptions) : list pfield :=
  (PBytes 1 <$> ms) ++ [PVar 2 (u64 (o_Version o))] ++ optional 3 (o_BatchSize o)
  ++ optional 4 (o_BatchIndex o) ++ optional 5 (o_BatchID o).

Lemma append_optional dst n v :
  0 <= n < 2 ^ 60 ->
  (if v =? 0 then dst else appendProtoVarintField dst n (u64 v)) = dst ++ enc_msg (optional n v).
Proof.
  intros Hn. unfold optional. destruct (v =? 0); [by rewrite app_nil_r|].
  rewrite append_varint_field by done. unfold enc_msg. cbn [mbind list_bind]. by rewrite app_nil_r.
Qed.

Lemma buildPayload_msg accounts opts :
  buildPayload accounts opts =
  bindR (mapR encodeMigrationAccount accounts) (fun ms =>
  Ret (enc_msg (payloadFields ms (effectiveOptions opts)))).
Proof.
  unfold buildPayload. rewrite encodeAccounts_msg.
  destruct (mapR _ accounts) as [ms| |]; cbn [bindR]; try done. f_equal.
  unfold payloadFields. rewrite !enc_msg_app, app_nil_l.
  assert (Hv : forall v, enc_msg [PVar 2 v] = enc_field (PVar 2 v))
    by (intros; unfold enc_msg; cbn [mbind list_bind]; by rewrite app_nil_r).
  destruct opts as [o|]; cbn [effectiveOptions o_Version o_BatchSize o_BatchIndex o_BatchID];
    rewrite !append_optional, append_varint_field, Hv, <-!app_assoc by lia; done.
Qed.

Definition payloadStep (p : OtpAuthMigrationPayload) (f : pfield) : result OtpAuthMigrationPayload :=
  match f with
  | PBytes n s =>
      if n =? 1 then bindR (decodeMigrationAccount s) (fun account =>
        Ret {| Accounts := Accounts p ++ [account]; Version := Version p; BatchSize := BatchSize p;
               BatchIndex := BatchIndex p; BatchID := BatchID p |})
      else if n <=? 5 then Err ErrInvalidMigration else Ret p
  | PVar n v =>
      if n =? 1 then Err ErrInvalidMigration
      else if 5 <? n then Ret p
      else bindR (checkedUint64ToInt32 v) (fun v =>
        Ret {| Accounts := Accounts p;
               Version := if n =? 2 then v else Version p;
               BatchSize := if n =? 3 then v else BatchSize p;
               BatchIndex := if n =? 4 then v else BatchIndex p;
               BatchID := if n =? 5 then v else BatchID p |})
  end.

Lemma payloadField_step data f i p post :
  addressable data -> field_ok f -> drop i data = body_bytes f ++ post ->
  payloadField data i (fieldNumber f) (wire f) p =
  bindR (payloadStep p f) (fun p' => Ret (p', (i + length (body_bytes f))%nat)).
Proof.
  intros Ha [Hn Hv] Hd. unfold payloadField, payloadInt.
  destruct f as [n v|n s]; cbn [fieldNumber wire body_bytes] in *.
  - assert (Hs : readProtoScalar data i 0 = Ret (v, (i + length (varint v))%nat))
      by (unfold readProtoScalar; cbn; by apply (varint_read data i v post)).
    assert (Hk : skipProtoField data i 0 = Ret (i + length (varint v))%nat)
      by (unfold skipProtoField; cbn [Z.eqb]; by rewrite (varint_read data i v post)).
    rewrite Hs, Hk. cbn [orInvalid bindR payloadStep negb Z.eqb]. unfold checkedUint64ToInt32.
    field_cases; try lia; try done; cbn [Z.ltb Z.compare];
      try (destruct (_ <? v); cbn [orInvalid bindR]; done).
    by rewrite (proj2 (Z.ltb_lt 5 n)) by lia.
  - rewrite <-app_assoc in Hd. pose proof (bytes_read _ _ _ _ Ha Hd) as Hs.
    assert (Hk : skipProtoField data i 2 = Ret (i + length (varint (Z.of_nat (length s)) ++ s))%nat)
      by (unfold skipProtoField; cbn [Z.eqb]; by rewrite Hs).
    assert (Hbad : readProtoScalar data i 2 = Err ErrInvalidMigration) by done.
    rewrite Hs, Hk, Hbad. cbn [orInvalid bindR payloadStep negb Z.eqb Pos.eqb].
    field_cases; try done.
    + by destruct (decodeMigrationAccount s).
    + destruct (Z.leb_spec n 5); [lia|done].
Qed.

Lemma parse_msg fs :
  Forall field_ok fs -> addressable (enc_msg fs) ->
  parsePayload (enc_msg fs) = foldR payloadStep emptyPayload fs.
Proof.
  intros Hok Ha. unfold parsePayload.
  rewrite (fieldLoop_msg (payloadField (enc_msg fs)) payloadStep field_ok) with (fs := fs); try done.
  - intros f i p post Hf. by apply payloadField_step.
  - apply enc_msg_length.
Qed.

(** ** Reading a payload back *)
Definition int32 (x : Z) : Prop := - 2 ^ 31 <= x < 2 ^ 31.
Definition options_int32 (o : OtpAuthMigrationOptions) : Prop :=
  int32 (o_Version o) /\ int32 (o_BatchSize o) /\ int32 (o_BatchIndex o) /\ int32 (o_BatchID o).

(** The payload with these accounts and options; the decoder has no negative
    batch numbers. *)
Definition payloadOf (accounts : list OtpAuthMigrationAccount) (o : OtpAuthMigrationOptions)
    : result OtpAuthMigrationPayload :=
  if (o_BatchSize o <? 0) || (o_BatchIndex o <? 0) || (o_BatchID o <? 0) then Err ErrInvalidMigration
  else Ret {| Accounts := accounts; Version := o_Version o; BatchSize := o_BatchSize o;
              BatchIndex := o_BatchIndex o; BatchID := o_BatchID o |}.

Lemma checked_u64 v :
  int32 v -> checkedUint64ToInt32 (u64 v) = if v <? 0 then Err ErrInvalidMigration else Ret v.
Proof.
  unfold int32, checkedUint64ToInt32. intros Hv. destruct (Z.ltb_spec v 0).
  - unfold u64. replace v with (v + 2 ^ 64 + (-1) * 2 ^ 64) by lia.
    rewrite Z.mod_add, Z.mod_small by lia. by rewrite (proj2 (Z.ltb_lt _ _)) by lia.
  - rewrite u64_small by lia. by rewrite (proj2 (Z.ltb_ge _ _)) by lia.
Qed.

Lemma fold_accounts ms p :
  foldR payloadStep p (PBytes 1 <$> ms) =
  bindR (mapR decodeMigrationAccount ms) (fun accounts =>
  Ret {| Accounts := Accounts p ++ accounts; Version := Version p; BatchSize := BatchSize p;
         BatchIndex := BatchIndex p; BatchID := BatchID p |}).
Proof.
  revert p. induction ms as [|m ms IH]; intros p; simpl.
  - rewrite app_nil_r. by destruct p.
  - destruct (decodeMigrationAccount m) as [a| |]; simpl; [|done..]. rewrite IH.
    destruct (mapR _ ms) as [accounts| |]; simpl; [|done..]. by rewrite <-app_assoc.
Qed.

Lemma fold_options accounts o :
  options_int32 o -> 0 < o_Version o ->
  foldR payloadStep {| Accounts := accounts; Version := 0; BatchSize := 0; BatchIndex := 0; BatchID := 0 |}
    ([PVar 2 (u64 (o_Version o))] ++ optional 3 (o_BatchSize o)
     ++ optional 4 (o_BatchIndex o) ++ optional 5 (o_BatchID o)) = payloadOf accounts o.
Proof.
  intros (H1 & H2 & H3 & H4) Hv. unfold payloadOf, optional.
  cbn [app foldR payloadStep Z.eqb Pos.eqb Z.ltb Z.compare Pos.compare Pos.compare_cont].
  rewrite checked_u64, (proj2 (Z.ltb_ge _ _)) by (done || lia). cbn [bindR].
  destruct (Z.eqb_spec (o_BatchSize o) 0) as [E2|E2], (Z.eqb_spec (o_BatchIndex o) 0) as [E3|E3],
    (Z.eqb_spec (o_BatchID o) 0) as [E4|E4]; rewrite ?E2, ?E3, ?E4; simpl; rewrite ?checked_u64 by done;
    repeat (case_match; simpl; rewrite ?checked_u64 by done); done.
Qed.

Lemma mapR_recover accounts ms :
  mapR encodeMigrationAccount accounts = Ret ms -> Forall counter_ok accounts -> Forall addressable ms ->
  mapR decodeMigrationAccount ms = mapR recover accounts.
Proof.
  revert ms. induction accounts as [|a accounts IH]; intros ms Hm Hc Ha; simpl in Hm.
  - by injection Hm as <-.
  - destruct (encodeMigrationAccount a) as [m| |] eqn:E; simpl in Hm; try done.
    destruct (mapR _ accounts) as [ms'| |]; simpl in Hm; try done. injection Hm as <-.
    apply Forall_cons in Hc as [Hc Hcs]. apply Forall_cons in Ha as [Ha Has]. simpl.
    rewrite (encode_decode a m), (IH ms') by done. done.
Qed.

Lemma mapR_carried accounts : Forall carried accounts -> mapR recover accounts = Ret accounts.
Proof. induction 1 as [|a l Ha Hl IH]; [done|]. simpl. by rewrite recover_carried, IH. Qed.

Lemma enc_msg_member f fs : f ∈ fs -> (length (enc_field f) <= length (enc_msg fs))%nat.
Proof.
  intros (l1 & l2 & ->)%list_elem_of_split. rewrite enc_msg_app, length_app.
  change (enc_msg (f :: l2)) with (enc_field f ++ enc_msg l2). rewrite length_app. lia.
Qed.

Lemma payload_members ms o :
  addressable (enc_msg (payloadFields ms o)) -> Forall addressable ms.
Proof.
  unfold addressable. intros Ha. apply Forall_forall. intros m Hm.
  assert (Hin : PBytes 1 m ∈ payloadFields ms o).
  { unfold payloadFields. apply elem_of_app. left. apply list_elem_of_fmap. by exists m. }
  apply enc_msg_member in Hin. unfold enc_field in Hin. cbn [body_bytes] in Hin.
  rewrite !length_app in Hin. lia.
Qed.

Lemma payloadFields_ok ms o : Forall field_ok (payloadFields ms o).
Proof.
  unfold payloadFields, optional. rewrite !Forall_app. split; [apply Forall_fmap, Forall_true; done|].
  repeat split; repeat case_match; repeat constructor; cbn [fieldNumber]; try lia; apply u64_range.
Qed.

Lemma build_parse accounts opts payload :
  buildPayload accounts opts = Ret payload -> Forall counter_ok accounts ->
  options_int32 (effectiveOptions opts) -> addressable payload ->
  parsePayload payload = bindR (mapR recover accounts) (fun l => payloadOf l (effectiveOptions opts)).
Proof.
  rewrite buildPayload_msg. intros Hb Hc Ho Ha.
  destruct (mapR encodeMigrationAccount accounts) as [ms| |] eqn:Em; cbn [bindR] in Hb; try done.
  assert (Hp : payload = enc_msg (payloadFields ms (effectiveOptions opts))) by congruence.
  rewrite Hp in *. rewrite parse_msg by (apply payloadFields_ok || done).
  unfold payloadFields at 1. rewrite foldR_app, fold_accounts.
  rewrite (mapR_recover accounts ms) by (done || by eapply payload_members).
  destruct (mapR recover accounts) as [l| |]; cbn [bindR]; try done. apply fold_options; [done|].
  unfold effectiveOptions. destruct opts as [o|]; simpl; [|lia]. destruct (Z.ltb_spec 0 (o_Version o)); lia.
Qed.

(** ** The URI *)
Definition urlChar (c : byte) : bool :=
  bool_decide (33 <= b2z c <= 126) && forallb (fun x => negb (bool_decide (c = x)))
    ["%"; "+"; "&"; ";"; "="; "?"; "#"]%byte.

Lemma base64url_chars s : Forall (fun c => urlChar c = true) (RawURLEncoding_EncodeToString s).
Proof.
  assert (H : forallb (fun q => urlChar (char64 urlAlphabet q)) (seqZ 0 64) = true) by (by vm_compute).
  eapply Forall_impl; [apply encodeRaw_chars|]. intros c (q & Hq & ->).
  rewrite forallb_forall in H. apply H, list_elem_of_In, elem_of_seqZ. lia.
Qed.

Lemma urlChar_not c x :
  urlChar c = true -> x ∈ ["%"; "+"; "&"; ";"; "="; "?"; "#"]%byte -> c <> x.
Proof.
  intros [_ H]%andb_prop Hx%list_elem_of_In. rewrite forallb_forall in H. specialize (H x Hx).
  by apply negb_true_iff, bool_decide_eq_false in H.
Qed.

Lemma urlChar_plain c : urlChar c = true -> plainChar c.
Proof.
  intros H. split; [|apply (urlChar_not c _ H); set_solver].
  apply andb_prop in H as [H _]. by apply bool_decide_eq_true in H.
Qed.

Lemma base64url_length s : (length s <= length (RawURLEncoding_EncodeToString s))%nat.
Proof.
  unfold RawURLEncoding_EncodeToString.
  induction s as [|a|a b|a b c s IH] using triples_ind; cbn [encodeRaw length]; lia.
Qed.

Section uri.
Context `{UrlChecks}.

Definition migrationURI (payload : bytes) : bytes :=
  URL_String (lit "otpauth-migration") (lit "offline") (lit "data=" ++ RawURLEncoding_EncodeToString payload).

Lemma parse_uri payload :
  payload <> [] -> ParseOtpAuthMigrationURI (migrationURI payload) = parsePayload payload.
Proof.
  intros Hne. pose proof (base64url_chars payload) as Hchars. pose proof (base64url_length payload) as Hlen.
  pose proof (RawURLEncoding_roundtrip payload) as Hrt. unfold ParseOtpAuthMigrationURI, migrationURI.
  set (e := RawURLEncoding_EncodeToString payload) in *. clearbody e.
  destruct e as [|x e _] using rev_ind; [destruct payload; [done|simpl in Hlen; lia]|].
  rewrite Forall_app, Forall_cons in Hchars. destruct Hchars as (He & Hx & _).
  destruct (Parse_URL_String "o"%byte (lit "tpauth-migration") (lit "offline") (lit "data=" ++ e) x)
    as [Hparse Hplain].
  - by unfold lower.
  - repeat (constructor; [(by left; unfold lower) || by right|]). constructor.
  - repeat (constructor; [by unfold lower|]). constructor.
  - apply Forall_app. split; [repeat (constructor; [split; [by unfold graphic|done]|]); constructor|].
    eapply Forall_impl; [exact He|]. apply urlChar_plain.
  - by apply urlChar_plain.
  - apply (urlChar_not x _ Hx). set_solver.
  - change ("o"%byte :: lit "tpauth-migration") with (lit "otpauth-migration") in *.
    rewrite <-app_assoc in *. rewrite TrimSpace_graphic.
    2:{ eapply Forall_impl; [exact Hplain|]. by intros y []. }
    rewrite Hparse. cbn [Scheme RawQuery]. rewrite bool_decide_true by done. cbn [negb].
    change (lit "data=" ++ ?r) with (lit "data" ++ lit "=" ++ r).
    rewrite Query_Get_single; [|done|].
    + rewrite bool_decide_false by (by destruct e). by rewrite Hrt.
    + assert (Hall : forall c, c ∈ ["%"; "+"; "&"; ";"; "="]%byte -> c ∉ e ++ [x]).
      { intros c Hc Hin. rewrite elem_of_app, list_elem_of_singleton in Hin.
        assert (Hux : urlChar c = true).
        { destruct Hin as [Hin| ->]; [|done]. by apply (proj1 (Forall_forall _ _) He). }
        apply (urlChar_not c c Hux); [|done]. rewrite list_elem_of_In in *. cbn in *. tauto. }
      repeat (constructor; [split; [by apply (bool_decide_unpack _)|apply Hall; set_solver]|]). constructor.
Qed.
End uri.

(** ** Termination and errors *)
Definition migration_error (e : error) : Prop :=
  e ∈ [ErrInvalidMigration; ErrInvalidURI; ErrInvalidAlgorithm; ErrInvalidDigits].

(** A result that is a value of [P] or one of the documented errors. *)
Definition within {A} (P : A -> Prop) (r : result A) : Prop :=
  match r with Ret a => P a | Err e => migration_error e | Panic => False end.

Lemma within_bind {A B} (P : A -> Prop) (Q : B -> Prop) (r : result A) (k : A -> result B) :
  within P r -> (forall a, P a -> within Q (k a)) -> within Q (bindR r k).
Proof. destruct r; simpl; auto. Qed.

Lemma within_orInvalid {A} (P : A -> Prop) (r : result A) : within P r -> within P (orInvalid r).
Proof. destruct r; simpl; [done|intros _|done]. unfold migration_error. set_solver. Qed.

Lemma within_invalid {A} (P : A -> Prop) : within P (Err ErrInvalidMigration).
Proof. unfold within, migration_error. set_solver. Qed.

#[local] Hint Resolve within_invalid within_orInvalid : genotp.

(** A read moves forward and stays in the buffer. *)
Definition forward {A} (data : bytes) (i : nat) (x : A * nat) : Prop := (i < x.2 <= length data)%nat.

Lemma readVarintLoop_forward f : forall data i value shift,
  within (forward data i) (readVarintLoop f data i value shift).
Proof.
  induction f as [|f IH]; intros data i value shift; [apply within_invalid|]. cbn [readVarintLoop].
  destruct (data !! i) as [b|] eqn:Hb; [|apply within_invalid]. cbv zeta.
  pose proof (lookup_lt_Some _ _ _ Hb). case_match; [simpl; unfold forward; simpl; lia|].
  case_match; [apply within_invalid|]. specialize (IH data (S i) (Z.lor value (u64 (Z.land (b2z b) 0x7f ≪ shift))) (shift + 7)).
  destruct (readVarintLoop f _ _ _ _) as [[v n]| |]; [|done..]. unfold within, forward in *. simpl in *. lia.
Qed.

Lemma readProtoVarint_forward data i : within (forward data i) (readProtoVarint data i).
Proof. apply readVarintLoop_forward. Qed.

Lemma readProtoScalar_forward data i w : within (forward data i) (readProtoScalar data i w).
Proof. unfold readProtoScalar. case_match; [apply within_invalid|apply readProtoVarint_forward]. Qed.

Lemma readProtoBytes_forward data i : within (forward data i) (readProtoBytes data i).
Proof.
  unfold readProtoBytes. pose proof (readProtoVarint_forward data i) as H.
  destruct (readProtoVarint data i) as [[size next]| |]; [|done..].
  unfold checkedUint64ToInt. destruct (_ <? size); [apply within_invalid|]. cbv zeta.
  destruct ((_ <? _) || _) eqn:Hg; [apply within_invalid|]. apply orb_false_iff in Hg as [Hg1 Hg2].
  unfold slice. rewrite !(proj2 (Z.leb_le _ _)) by lia. cbn [andb bindR].
  unfold within, forward in *. simpl in *. lia.
Qed.

Lemma skipProtoField_forward data i w :
  within (fun n => (i < n <= length data)%nat) (skipProtoField data i w).
Proof.
  unfold skipProtoField. pose proof (readProtoVarint_forward data i) as H1.
  pose proof (readProtoBytes_forward data i) as H2. case_match; [|case_match; [|apply within_invalid]].
  - destruct (readProtoVarint data i) as [[]| |]; done.
  - destruct (readProtoBytes data i) as [[]| |]; done.
Qed.

Lemma algorithmFromMigrationEnum_within v : within (fun _ => True) (algorithmFromMigrationEnum v).
Proof. unfold algorithmFromMigrationEnum. repeat case_match; try done. unfold within, migration_error. set_solver. Qed.

Lemma digitsFromMigrationEnum_within v : within (fun _ => True) (digitsFromMigrationEnum v).
Proof. unfold digitsFromMigrationEnum. repeat case_match; try done. unfold within, migration_error. set_solver. Qed.

#[local] Hint Resolve readProtoScalar_forward readProtoBytes_forward skipProtoField_forward
  readProtoVarint_forward algorithmFromMigrationEnum_within digitsFromMigrationEnum_within : genotp.

Lemma accountField_forward data i n w acc :
  within (forward data i) (accountField data i n w acc).
Proof.
  unfold accountField, readProtoString.
  repeat (case_match; [eapply within_bind;
    [apply within_orInvalid; auto with genotp|intros [v k] Hk; try exact Hk]|]).
  - eapply within_bind; [apply algorithmFromMigrationEnum_within|]. intros; exact Hk.
  - eapply within_bind; [apply digitsFromMigrationEnum_within|]. intros; exact Hk.
  - eapply within_bind; [apply within_orInvalid, skipProtoField_forward|]. done.
Qed.

Lemma fieldLoop_within {A} (body : nat -> Z -> Z -> A -> result (A * nat)) data :
  (forall i n w acc, within (forward data i) (body i n w acc)) ->
  forall fuel i acc, (length data <= i + fuel)%nat -> within (fun _ => True) (fieldLoop body fuel data i acc).
Proof.
  intros Hbody. induction fuel as [|fuel IH]; intros i acc Hf; cbn [fieldLoop].
  - by rewrite (proj2 (Nat.leb_le _ _)) by lia.
  - case_match; [done|]. eapply within_bind; [apply within_orInvalid, readProtoVarint_forward|].
    intros [tag next] Hn. eapply within_bind; [apply Hbody|]. intros [acc' i'] Hi'.
    apply IH. unfold forward in *. simpl in *. lia.
Qed.

Lemma decodeMigrationAccount_within data : within (fun _ => True) (decodeMigrationAccount data).
Proof.
  unfold decodeMigrationAccount. eapply within_bind.
  - apply fieldLoop_within; [|lia]. intros. apply accountField_forward.
  - intros a _. case_match; [apply within_invalid|]. by destruct (splitMigrationLabel _ _).
Qed.
#[local] Hint Resolve decodeMigrationAccount_within : genotp.

Lemma payloadInt_forward data i w set : within (forward data i) (payloadInt data i w set).
Proof.
  unfold payloadInt. eapply within_bind; [apply within_orInvalid, readProtoScalar_forward|].
  intros [v n] Hn. unfold checkedUint64ToInt32. case_match; [apply within_invalid|exact Hn].
Qed.

Lemma payloadField_forward data i n w p : within (forward data i) (payloadField data i n w p).
Proof.
  unfold payloadField. repeat case_match; try apply within_invalid; try apply payloadInt_forward.
  - eapply within_bind; [apply within_orInvalid, readProtoBytes_forward|]. intros [s k] Hk.
    eapply within_bind; [apply decodeMigrationAccount_within|]. intros a _. exact Hk.
  - eapply within_bind; [apply within_orInvalid, skipProtoField_forward|]. done.
Qed.

Lemma parsePayload_within data : within (fun _ => True) (parsePayload data).
Proof. apply fieldLoop_within; [|lia]. intros. apply payloadField_forward. Qed.

(** A concrete choice of the URL checks. *)
Definition anyUrl : UrlChecks.
Proof.
  refine {| authority_ok := fun _ => true; path_ok := fun _ => true; fragment_ok := fun _ => true |}; done.
Defined.

(** ** Properties *)

(** Reading a varint anywhere in a buffer gives the 64-bit value
    that was written there and stops right after it, whatever follows; ten
    continuation bytes are rejected, so the loop never shifts past bit 63. *)
Theorem readProtoVarint_append (pre post dst : bytes) (v : Z) (Hv : 0 <= v < 2 ^ 64) :
  appendProtoVarint dst v = dst ++ varint v /\ (1 <= length (varint v) <= 10)%nat /\
  readProtoVarint (pre ++ varint v ++ post) (length pre) = Ret (v, (length pre + length (varint v))%nat) /\
  (forall cs, length cs = 10%nat -> Forall (fun c => 128 <= b2z c) cs ->
     readProtoVarint (pre ++ cs ++ post) (length pre) = Err ErrInvalidMigration).
Proof.
  split; [done|]. split; [split; [apply varint_nonempty|]|split].
  - assert (H : forall n x, (length (varintLoop n x) <= n)%nat); [|apply H].
    induction n as [|n IH]; intros x; cbn [varintLoop]; [done|]. case_match; cbn [length]; [|lia].
    specialize (IH (Z.shiftr x 7)). lia.
  - apply (varint_read _ _ _ post); [apply drop_app_length|done].
  - intros cs Hcs Hhigh. unfold readProtoVarint. rewrite !length_app, Hcs.
    replace (length pre + (10 + length post) - length pre)%nat with (10 + length post)%nat by lia.
    assert (Hlook : forall k c, cs !! k = Some c -> (pre ++ cs ++ post) !! (length pre + k)%nat = Some c).
    { intros k c Hk. rewrite lookup_app_r by lia. replace (_ - _)%nat with k by lia. by apply lookup_app_l_Some. }
    assert (Hloop : forall m k value shift, (k + m = 10)%nat -> (0 < m)%nat -> shift = 7 * Z.of_nat k ->
      readVarintLoop (m + length post) (pre ++ cs ++ post) (length pre + k) value shift = Err ErrInvalidMigration).
    { induction m as [|m IH]; intros k value shift Hk Hm Hs; [lia|]. cbn [Nat.add readVarintLoop].
      destruct (lookup_lt_is_Some_2 cs k) as [c Hc]; [lia|]. rewrite (Hlook k c Hc). cbv zeta.
      pose proof (Forall_lookup_1 _ _ _ _ Hhigh Hc) as Hb. simpl in Hb.
      rewrite (proj2 (Z.ltb_ge _ _)) by lia. destruct (Z.ltb_spec 63 (shift + 7)); [done|].
      replace (S (length pre + k)) with (length pre + S k)%nat by lia. apply IH; lia. }
    specialize (Hloop 10%nat 0%nat 0 0). rewrite Nat.add_0_r in Hloop. apply Hloop; lia.
Qed.


Definition sampleFields : list pfield :=
  [PVar 9 300; PBytes 3 (lit "Old"); PVar 6 1; PBytes 2 (lit "ACME: bob"); PBytes 3 (lit "ACME");
   PBytes 1 (lit "Hello!"); PVar 7 (2 ^ 40)].


(** C35: parsing an exported URI gives the accounts back as far as the
    format carries them ([recover]: normalised key, split name, period 30, a
    counter for HOTP only) and the batch numbers, unless one is negative, which
    is an error; accounts the format carries whole come back unchanged. *)
Theorem MigrationURI_roundtrip `{UrlChecks} (accounts : list OtpAuthMigrationAccount)
    (opts : option OtpAuthMigrationOptions) (uri : bytes)
    (Hb : BuildOtpAuthMigrationURI accounts opts = Ret uri)
    (Hc : Forall (fun a => 0 <= Counter a < 2 ^ 64) accounts)
    (Ho : options_int32 (effectiveOptions opts)) (Ha : Z.of_nat (length uri) < 2 ^ 63) :
  ParseOtpAuthMigrationURI uri =
    bindR (mapR recover accounts) (fun l => payloadOf l (effectiveOptions opts)) /\
  (Forall carried accounts ->
     ParseOtpAuthMigrationURI uri = payloadOf accounts (effectiveOptions opts)).
Proof.
  assert (Hmain : ParseOtpAuthMigrationURI uri =
    bindR (mapR recover accounts) (fun l => payloadOf l (effectiveOptions opts))).
  { unfold BuildOtpAuthMigrationURI in Hb. destruct (buildPayload accounts opts) as [payload| |] eqn:Ep;
      cbn [bindR] in Hb; try done.
    assert (Hu : uri = migrationURI payload) by (unfold migrationURI; congruence). rewrite Hu in *.
    assert (Hp : addressable payload).
    { unfold addressable, migrationURI, URL_String in *. pose proof (base64url_length payload).
      rewrite bool_decide_false in Ha by done. rewrite !length_app in Ha. lia. }
    rewrite parse_uri; [by apply build_parse|]. intros ->. rewrite buildPayload_msg in Ep.
    destruct (mapR encodeMigrationAccount accounts) as [ms| |]; cbn [bindR] in Ep; try done.
    injection Ep as Ep. apply (f_equal length) in Ep. pose proof (enc_msg_length (payloadFields ms (effectiveOptions opts))) as Hl.
    rewrite Ep in Hl. unfold payloadFields in Hl. rewrite !length_app in Hl. simpl in Hl. lia. }
  split; [done|]. intros Hcar. rewrite Hmain. by rewrite mapR_carried.
Qed.

Definition sampleAccounts : list OtpAuthMigrationAccount :=
  [{| Type_ := TotpType; Label := lit "bob"; Issuer := lit "ACME"; SecretB32 := lit "JBSWY3DPEE";
      Algorithm_ := SHA256; Digits := 8; Period := 30; Counter := 0 |};
   {| Type_ := HotpType; Label := lit "eve"; Issuer := []; SecretB32 := lit "mzxw 6===";
      Algorithm_ := SHA1; Digits := 0; Period := 60; Counter := 300 |}].
Definition sampleOptions : option OtpAuthMigrationOptions :=
  Some {| o_Version := 0; o_BatchSize := 2; o_BatchIndex := 1; o_BatchID := 123456 |}.

Lemma MigrationURI_roundtrip_witness :
  @ParseOtpAuthMigrationURI anyUrl (match BuildOtpAuthMigrationURI sampleAccounts sampleOptions with
                                    | Ret uri => uri | _ => [] end) =
  Ret {| Accounts := [{| Type_ := TotpType; Label := lit "bob"; Issuer := lit "ACME";
           SecretB32 := lit "JBSWY3DPEE"; Algorithm_ := SHA256; Digits := 8; Period := 30; Counter := 0 |};
           {| Type_ := HotpType; Label := lit "eve"; Issuer := []; SecretB32 := lit "MZXW6";
              Algorithm_ := SHA1; Digits := 6; Period := 30; Counter := 300 |}];
         Version := 1; BatchSize := 2; BatchIndex := 1; BatchID := 123456 |}.
Proof.
  refine (eq_trans (proj1 (@MigrationURI_roundtrip anyUrl sampleAccounts sampleOptions _ _ _ _ _)) _).
  - vm_compute. reflexivity.
  - repeat (constructor; [simpl; lia|]). constructor.
  - unfold options_int32, int32. simpl. lia.
  - vm_compute. reflexivity.
  - vm_compute. reflexivity.
Defined.

(** C36: [ParseOtpAuthMigrationURI] ends on every string, reads only
    inside the payload, and either returns a payload or fails with one of the
    migration errors. *)
Theorem ParseOtpAuthMigrationURI_total `{UrlChecks} (raw : bytes) :
  match ParseOtpAuthMigrationURI raw with
  | Ret _ => True
  | Err e => e ∈ [ErrInvalidMigration; ErrInvalidURI; ErrInvalidAlgorithm; ErrInvalidDigits]
  | Panic => False
  end.
Proof.
  change (within (fun _ => True) (ParseOtpAuthMigrationURI raw)). unfold ParseOtpAuthMigrationURI.
  repeat case_match; try apply within_invalid; try apply parsePayload_within.
  unfold within, migration_error. set_solver.
Qed.
