(* ===== verification/Key.v ===== *)
(** * Secrets from the system's random source: [key.go]

    [FillSecret], [GenerateSecret] and [CreateSecret] over a random source that
    may fail, with what they promise about lengths, errors and the buffers they
    touch. *)
From S2P Require Import Prelude Errors Hash Secret Digits Hotp.

Definition MinSecretBytes : Z := 16.
Definition DefaultSecretBytes : Z := 20.

(** [crypto/rand.Read] on a buffer of [n] bytes: what it leaves in the buffer,
    and its error. *)
Class RandSource (X : Type) : Type := rand_Read : nat -> world X -> bytes * option error * world X.

(** It fills the whole buffer and touches no other memory. *)
Class RandLaws (X : Type) `{RandSource X} : Prop := {
  rand_length : forall n w, length (rand_Read n w).1.1 = n;
  rand_heap : forall n w, w_heap (rand_Read n w).2 = w_heap w
}.

Section key.
Context {X : Type} `{RandSource X}.
Abbreviation W := (world X).

(** [rand.Read(buf)] on the buffer of a slice. *)
Definition readInto (buf : slice) : GoM W (option error) := fun w =>
  let '(content, err, w') := rand_Read (length (slice_get w buf)) w in
  (Ret err, match buf with Some l => set_heap <[l := content]> w' | None => w' end).

Definition FillSecret (buf : slice) : GoM W unit :=
  b ← gets (fun w => slice_get w buf);
  if Z.of_nat (length b) <? MinSecretBytes then fail ErrInvalidSecret else
  err ← readInto buf;
  match err with
  | Some e => fail (ErrJoin ErrInvalidSecret e)
  | None => mret tt
  end.

Definition GenerateSecret (bitLength : Z) : GoM W slice :=
  if bitLength <? 128 then fail ErrInvalidSecret else
  if negb (Z.rem bitLength 8 =? 0) then fail ErrInvalidSecret else
  let byteLength := Z.quot bitLength 8 in
  secret ← alloc (replicate (Z.to_nat byteLength) Byte.x00);
  err ← readInto secret;
  match err with
  | Some e => fail (ErrJoin ErrInvalidSecret e)
  | None => mret secret
  end.

Definition GenerateDefaultSecret : GoM W slice := GenerateSecret 160.

Definition CreateSecret : GoM W slice := GenerateDefaultSecret.
End key.

(** ** Lemmas *)
Section laws.
Context {X : Type} `{RandLaws X}.
Abbreviation W := (world X).

Lemma readInto_run (w : W) l b :
  w_heap w !! l = Some b ->
  let '(content, err, w') := rand_Read (length b) w in
  readInto (Some l) w = (Ret err, set_heap <[l := content]> w') /\ length content = length b.
Proof.
  intros Hl. unfold readInto, slice_get. simpl. rewrite Hl. simpl.
  pose proof (rand_length (length b) w). by destruct (rand_Read _ w) as [[c e] w'].
Qed.

Lemma alloc_run (b : bytes) (w : W) :
  exists l, alloc b w = (Ret (Some l), set_heap <[l := b]> w) /\ w_heap w !! l = None.
Proof. eexists. split; [done|]. apply not_elem_of_dom. apply is_fresh. Qed.

Lemma join_invalid e : errors_Is (ErrJoin ErrInvalidSecret e) ErrInvalidSecret = true.
Proof.
  cbn [errors_Is]. by rewrite (bool_decide_true (ErrInvalidSecret = ErrInvalidSecret)), orb_true_r by done.
Qed.

(** [GenerateSecret] ends in a fresh buffer of the asked length, or in an
    error; the buffers that were there are untouched. *)
Theorem GenerateSecret_spec (bits : Z) (w : W) :
  match GenerateSecret bits w with
  | (Ret s, w') => 128 <= bits /\ bits mod 8 = 0 /\ exists l key, s = Some l /\
      w_heap w !! l = None /\ w_heap w' = <[l := key]> (w_heap w) /\ 8 * Z.of_nat (length key) = bits
  | (Err e, w') => errors_Is e ErrInvalidSecret = true /\
      (w' = w /\ (bits < 128 \/ bits mod 8 <> 0) \/
       exists l key, w_heap w !! l = None /\ w_heap w' = <[l := key]> (w_heap w))
  | (Panic, _) => False
  end.
Proof.
  unfold GenerateSecret. destruct (Z.ltb_spec bits 128); [simpl; auto|].
  rewrite Z.rem_mod_nonneg, Z.quot_div_nonneg by lia.
  destruct (Z.eqb_spec (bits mod 8) 0) as [E|E]; cbn [negb]; [|simpl; auto].
  destruct (alloc_run (replicate (Z.to_nat (bits / 8)) Byte.x00) w) as (l & Ea & Hfresh).
  rewrite (run_bind _ _ _ _ _ Ea).
  pose proof (readInto_run (set_heap <[l := replicate (Z.to_nat (bits / 8)) Byte.x00]> w) l _
    (lookup_insert_eq _ _ _)) as Hr.
  pose proof (rand_heap (length (replicate (Z.to_nat (bits / 8)) Byte.x00))
    (set_heap <[l := replicate (Z.to_nat (bits / 8)) Byte.x00]> w)) as Hh.
  destruct (rand_Read _ _) as [[content err] w']. simpl in Hh. destruct Hr as [Hr Hlen].
  rewrite (run_bind _ _ _ _ _ Hr). rewrite length_replicate in Hlen.
  assert (Hheap : w_heap (set_heap <[l := content]> w') = <[l := content]> (w_heap w)).
  { unfold set_heap. simpl. rewrite Hh. apply insert_insert_eq. }
  destruct err as [e|]; unfold fail, mret, M_ret.
  - split; [apply join_invalid|]. right. by exists l, content.
  - split; [lia|]. split; [done|]. exists l, content. split; [done|]. split; [done|]. split; [done|].
    rewrite Hlen. pose proof (Z.div_mod bits 8). lia.
Qed.

(** [FillSecret] refuses a buffer of fewer than 16 bytes and otherwise replaces
    all of it, and nothing else. *)
Theorem FillSecret_spec (l : positive) (b : bytes) (w : W) (Hl : w_heap w !! l = Some b) :
  match FillSecret (Some l) w with
  | (Ret _, w') => 16 <= Z.of_nat (length b) /\ exists key,
      length key = length b /\ w_heap w' = <[l := key]> (w_heap w)
  | (Err e, w') => errors_Is e ErrInvalidSecret = true /\
      (w' = w /\ Z.of_nat (length b) < 16 \/ 16 <= Z.of_nat (length b) /\ exists key,
        length key = length b /\ w_heap w' = <[l := key]> (w_heap w))
  | (Panic, _) => False
  end.
Proof.
  unfold FillSecret. rewrite run_gets.
  assert (slice_get w (Some l) = b) as -> by (unfold slice_get; simpl; by rewrite Hl).
  unfold MinSecretBytes. destruct (Z.ltb_spec (Z.of_nat (length b)) 16); [simpl; auto|].
  pose proof (readInto_run w l b Hl) as Hr. pose proof (rand_heap (length b) w) as Hh.
  destruct (rand_Read _ w) as [[content err] w']. simpl in Hh. destruct Hr as [Hr Hlen].
  rewrite (run_bind _ _ _ _ _ Hr).
  assert (Hheap : w_heap (set_heap <[l := content]> w') = <[l := content]> (w_heap w))
    by (unfold set_heap; simpl; by rewrite Hh).
  destruct err as [e|]; unfold fail, mret, M_ret.
  - split; [apply join_invalid|]. right. split; [done|]. by exists content.
  - split; [done|]. by exists content.
Qed.

(** A created secret has the 20 bytes of [DefaultSecretBytes] and makes a
    working [HOTP]. *)
Theorem CreateSecret_usable (w w' : W) (s : slice) (alg : Algorithm) (fn : hashFn) (d : Z)
    (Hs : CreateSecret w = (Ret s, w')) (Hfn : hashFuncFor alg = Some fn) (Hd : 6 <= d <= 8) :
  exists l key h, s = Some l /\ Z.of_nat (length key) = DefaultSecretBytes /\
    NewHOTP s alg d w' = (Ret h, w') /\ static_inv fn d l key (w', h).
Proof.
  pose proof (GenerateSecret_spec 160 w) as H1. unfold CreateSecret, GenerateDefaultSecret in Hs.
  rewrite Hs in H1. destruct H1 as (_ & _ & l & key & -> & _ & Hheap & Hlen).
  destruct (NewHOTP_ok w' l key alg fn d) as (h & E & Hi); [|by intros ->|done|done|].
  - rewrite Hheap. apply lookup_insert_eq.
  - exists l, key, h. unfold DefaultSecretBytes. repeat split; try done; lia || apply Hi.
Qed.
End laws.
