(* ===== verification/Config.v ===== *)
(** * Configurations, builders and one-call helpers: [config.go], [builder.go],
      [helpers.go]

    The configuration values, the fluent builders and the functions that make
    an object with the default parameters for one call.  The setters of a
    builder change the object they return; they are state updates here. *)
From S2P Require Import Prelude Errors Hash Secret Digits Context Hotp Totp.

Module HotpConfig.
Record HotpConfig : Type := { Algorithm_ : Algorithm; Digits : Z }.
Definition NewHotpConfig : HotpConfig := {| Algorithm_ := SHA1; Digits := 6 |}.
Definition WithAlgorithm (algorithm : Algorithm) (c : HotpConfig) : HotpConfig :=
  {| Algorithm_ := algorithm; Digits := Digits c |}.
Definition WithDigits (digits : Z) (c : HotpConfig) : HotpConfig :=
  {| Algorithm_ := Algorithm_ c; Digits := digits |}.
Definition NewHotpFromConfig {X} (s : slice) (c : HotpConfig) : GoM (world X) (HOTP X) :=
  NewHOTP s (Algorithm_ c) (Digits c).
End HotpConfig.

Module TotpConfig.
Record TotpConfig : Type := { Algorithm_ : Algorithm; Digits : Z; Period : Z }.
Definition NewTotpConfig : TotpConfig := {| Algorithm_ := SHA1; Digits := 6; Period := 30 |}.
Definition WithAlgorithm (algorithm : Algorithm) (c : TotpConfig) : TotpConfig :=
  {| Algorithm_ := algorithm; Digits := Digits c; Period := Period c |}.
Definition WithDigits (digits : Z) (c : TotpConfig) : TotpConfig :=
  {| Algorithm_ := Algorithm_ c; Digits := digits; Period := Period c |}.
Definition WithPeriod (period : Z) (c : TotpConfig) : TotpConfig :=
  {| Algorithm_ := Algorithm_ c; Digits := Digits c; Period := period |}.
Definition NewTotpFromConfig {X} (s : slice) (c : TotpConfig) : GoM (world X) (TOTP X) :=
  NewTOTP s (Algorithm_ c) (Digits c) (Period c).
End TotpConfig.

Module HotpBuilder.
Record HotpBuilder : Type := { b_secret : slice; b_algorithm : Algorithm; b_digits : Z }.
Definition NewHotpBuilder : HotpBuilder := {| b_secret := None; b_algorithm := SHA1; b_digits := 6 |}.
Definition Secret (s : slice) (b : HotpBuilder) : HotpBuilder :=
  {| b_secret := s; b_algorithm := b_algorithm b; b_digits := b_digits b |}.
Definition Algorithm_ (a : Algorithm) (b : HotpBuilder) : HotpBuilder :=
  {| b_secret := b_secret b; b_algorithm := a; b_digits := b_digits b |}.
Definition Digits (d : Z) (b : HotpBuilder) : HotpBuilder :=
  {| b_secret := b_secret b; b_algorithm := b_algorithm b; b_digits := d |}.
Definition Build {X} (b : HotpBuilder) : GoM (world X) (HOTP X) :=
  key ← gets (fun w => slice_get w (b_secret b));
  if Nat.eqb (length key) 0 then fail ErrInvalidSecret else
  NewHOTP (b_secret b) (b_algorithm b) (b_digits b).
End HotpBuilder.

Module TotpBuilder.
Record TotpBuilder : Type := { b_secret : slice; b_algorithm : Algorithm; b_digits : Z; b_period : Z }.
Definition NewTotpBuilder : TotpBuilder :=
  {| b_secret := None; b_algorithm := SHA1; b_digits := 6; b_period := 30 |}.
Definition Secret (s : slice) (b : TotpBuilder) : TotpBuilder :=
  {| b_secret := s; b_algorithm := b_algorithm b; b_digits := b_digits b; b_period := b_period b |}.
Definition Algorithm_ (a : Algorithm) (b : TotpBuilder) : TotpBuilder :=
  {| b_secret := b_secret b; b_algorithm := a; b_digits := b_digits b; b_period := b_period b |}.
Definition Digits (d : Z) (b : TotpBuilder) : TotpBuilder :=
  {| b_secret := b_secret b; b_algorithm := b_algorithm b; b_digits := d; b_period := b_period b |}.
Definition Period (p : Z) (b : TotpBuilder) : TotpBuilder :=
  {| b_secret := b_secret b; b_algorithm := b_algorithm b; b_digits := b_digits b; b_period := p |}.
Definition Build {X} (b : TotpBuilder) : GoM (world X) (TOTP X) :=
  key ← gets (fun w => slice_get w (b_secret b));
  if Nat.eqb (length key) 0 then fail ErrInvalidSecret else
  NewTOTP (b_secret b) (b_algorithm b) (b_digits b) (b_period b).
End TotpBuilder.

(** ** [helpers.go] *)
Section helpers.
Context {X : Type} `{HashSuite} `{PoolPolicy}.
Abbreviation W := (world X).

(** A method call on an object that is dropped afterwards. *)
Definition callOn {O A} (m : GoM (W * O) A) (o : O) : GoM W A :=
  fun w => let '(r, (w', _)) := m (w, o) in (r, w').

Definition GenHotpDefault (s : slice) (counter : Z) : GoM W bytes :=
  hotp ← NewHOTP s SHA1 6; callOn (Hotp.Generate counter) hotp.

Definition GenTotpDefault (s : slice) : GoM W bytes :=
  totp ← NewTOTP s SHA1 6 30; callOn (Totp.Generate None) totp.

Definition VerifyHotpDefault (s : slice) (code : bytes) (counter : Z) : GoM W bool :=
  hotp ← NewHOTP s SHA1 6; callOn (Hotp.Verify code counter) hotp.

Definition VerifyTotpDefault (s : slice) (code : bytes) : GoM W bool :=
  totp ← NewTOTP s SHA1 6 30; callOn (Totp.Verify code None 1) totp.

(** ** Lemmas *)
Lemma hotp_default_code (w : W) l key counter :
  w_heap w !! l = Some key -> key <> [] ->
  exists w', GenHotpDefault (Some l) counter w = (Ret (otp_code sha1_New key 6 counter []), w') /\
    w_heap w' !! l = Some key.
Proof.
  intros Hl Hk. destruct (NewHOTP_ok w l key SHA1 sha1_New 6) as (h & E & Hs); [done..|lia|].
  pose proof (static_source (X := X) sha1_New 6 l key ltac:(lia)).
  destruct (Hotp.GenBound_run _ _ (static_inv_live sha1_New 6 l key) (w, h) counter None Hs)
    as ([w' h'] & Eg & Hs').
  exists w'. unfold GenHotpDefault. rewrite (run_bind _ _ _ _ _ E). unfold callOn.
  change (Hotp.Generate counter) with (Hotp.GenBound (X := X) counter None). rewrite Eg.
  split; [done|]. apply Hs'.
Qed.

Lemma hotp_default_verify (w : W) l key code counter :
  w_heap w !! l = Some key -> key <> [] -> Z.of_nat (length code) < 2 ^ 63 ->
  exists w', VerifyHotpDefault (Some l) code counter w =
    (Ret (bool_decide (code = otp_code sha1_New key 6 counter [])), w') /\ w_heap w' !! l = Some key.
Proof.
  intros Hl Hk Hc. destruct (NewHOTP_ok w l key SHA1 sha1_New 6) as (h & E & Hs); [done..|lia|].
  pose proof (static_source (X := X) sha1_New 6 l key ltac:(lia)).
  destruct (Hotp.VerifyBound_run _ _ (static_inv_live sha1_New 6 l key) (w, h) code counter None Hs Hc)
    as ([w' h'] & Eg & Hs').
  exists w'. unfold VerifyHotpDefault. rewrite (run_bind _ _ _ _ _ E). unfold callOn.
  change (Hotp.Verify code counter) with (Hotp.VerifyBound (X := X) code counter None). rewrite Eg.
  split; [done|]. apply Hs'.
Qed.

(** The current time step of the defaults. *)
Definition step30 (w : W) : Z := nowOr None w / 30.

Lemma totp_default_code (w : W) l key :
  w_heap w !! l = Some key -> key <> [] ->
  exists w', GenTotpDefault (Some l) w = (Ret (otp_code sha1_New key 6 (step30 w) []), w') /\
    w_heap w' !! l = Some key.
Proof.
  intros Hl Hk. destruct (NewTOTP_ok w l key SHA1 sha1_New 6 30) as (t & E & Hs); [done..|lia|lia|].
  pose proof (totp_source (X := X) sha1_New 6 30 l key ltac:(lia)).
  destruct (totp_GenBound_run (otp_code sha1_New key 6) (totp_inv sha1_New 6 30 l key) 30
    (totp_inv_live sha1_New 6 30 l key) (totp_inv_period sha1_New 6 30 l key) ltac:(lia) (w, t) None None Hs)
    as ([w' t'] & Eg & Hs').
  exists w'. unfold GenTotpDefault. rewrite (run_bind _ _ _ _ _ E). unfold callOn.
  change (Totp.Generate None) with (Totp.GenBound (X := X) None None). rewrite Eg.
  split; [done|]. apply Hs'.
Qed.

Lemma totp_default_verify (w : W) l key code :
  w_heap w !! l = Some key -> key <> [] -> Z.of_nat (length code) < 2 ^ 63 ->
  exists b w', VerifyTotpDefault (Some l) code w = (Ret b, w') /\ w_heap w' !! l = Some key /\
    (b = true <-> exists j, -1 <= j <= 1 /\
       code = otp_code sha1_New key 6 (addCounterSigned (step30 w) j) []).
Proof.
  intros Hl Hk Hc. destruct (NewTOTP_ok w l key SHA1 sha1_New 6 30) as (t & E & Hs); [done..|lia|lia|].
  pose proof (totp_source (X := X) sha1_New 6 30 l key ltac:(lia)).
  destruct (totp_VerifyBound_run (otp_code sha1_New key 6) (totp_inv sha1_New 6 30 l key) 30
    (totp_inv_live sha1_New 6 30 l key) (totp_inv_period sha1_New 6 30 l key) ltac:(lia) (w, t) code None None 1
    Hs Hc ltac:(lia)) as (b & [w' t'] & Eg & Hs' & Hb).
  exists b, w'. unfold VerifyTotpDefault. rewrite (run_bind _ _ _ _ _ E). unfold callOn.
  change (Totp.Verify code None 1) with (Totp.VerifyBound (X := X) code None None 1). rewrite Eg.
  split; [done|]. split; [apply Hs'|]. exact Hb.
Qed.
End helpers.

Lemma steps_close {X} (w1 w2 : world X) :
  0 <= w_now w1 < 2 ^ 63 -> 0 <= w_now w2 < 2 ^ 63 -> Z.abs (w_now w1 - w_now w2) <= 30 * 10 ^ 9 ->
  0 <= step30 w1 < 2 ^ 62 /\ 0 <= step30 w2 < 2 ^ 62 /\ Z.abs (step30 w1 - step30 w2) <= 1.
Proof.
  assert (Hn : forall w : world X, 0 <= w_now w < 2 ^ 63 -> nowOr None w = w_now w / 10 ^ 9).
  { intros w Hw. unfold nowOr, unixSeconds. case_match; [zdiv|]. apply u64_small. zdiv. }
  intros H1 H2 Hd. unfold step30. rewrite !Hn by done. zdiv.
Qed.

(** ** Properties *)

(** The configurations and builders make the object their setters describe,
    in whatever order these are called; a builder without a secret fails before
    anything else is looked at. *)
Theorem builders_make_the_object {X} (w : world X) (s : slice) (a : Algorithm) (d p : Z) :
  HotpConfig.NewHotpFromConfig s (HotpConfig.WithDigits d (HotpConfig.WithAlgorithm a HotpConfig.NewHotpConfig)) w
    = NewHOTP s a d w /\
  TotpConfig.NewTotpFromConfig s (TotpConfig.WithPeriod p (TotpConfig.WithDigits d
    (TotpConfig.WithAlgorithm a TotpConfig.NewTotpConfig))) w = NewTOTP s a d p w /\
  HotpBuilder.Build (HotpBuilder.Digits d (HotpBuilder.Algorithm_ a (HotpBuilder.Secret s HotpBuilder.NewHotpBuilder))) w
    = (if bool_decide (slice_get w s = []) then (Err ErrInvalidSecret, w) else NewHOTP s a d w) /\
  TotpBuilder.Build (TotpBuilder.Period p (TotpBuilder.Digits d (TotpBuilder.Algorithm_ a
    (TotpBuilder.Secret s TotpBuilder.NewTotpBuilder)))) w
    = (if bool_decide (slice_get w s = []) then (Err ErrInvalidSecret, w) else NewTOTP s a d p w).
Proof.
  do 2 (split; [done|]). split; [unfold HotpBuilder.Build|unfold TotpBuilder.Build];
    rewrite run_gets; cbn -[slice_get]; by destruct (slice_get w s).
Qed.

(** The one-call helpers fit together.  The code
    [GenHotpDefault] makes is accepted by [VerifyHotpDefault] for the same
    counter, and no other string is; the code [GenTotpDefault] makes is
    accepted by [VerifyTotpDefault] at any moment at most 30 seconds earlier or
    later, on any copy of the secret. *)
Theorem Defaults_roundtrip {X} `{HashSuite} `{PoolPolicy} (w1 w2 : world X) (l1 l2 : positive)
    (key : bytes) (counter : Z)
    (H1 : w_heap w1 !! l1 = Some key) (H2 : w_heap w2 !! l2 = Some key) (Hk : key <> [])
    (Ht1 : 0 <= w_now w1 < 2 ^ 63) (Ht2 : 0 <= w_now w2 < 2 ^ 63)
    (Hclose : Z.abs (w_now w1 - w_now w2) <= 30 * 10 ^ 9) :
  (exists code, fst (GenHotpDefault (Some l1) counter w1) = Ret code /\
     fst (VerifyHotpDefault (Some l2) code counter w2) = Ret true /\
     forall other, Z.of_nat (length other) < 2 ^ 63 -> other <> code ->
       fst (VerifyHotpDefault (Some l2) other counter w2) = Ret false) /\
  (exists code, fst (GenTotpDefault (Some l1) w1) = Ret code /\
     fst (VerifyTotpDefault (Some l2) code w2) = Ret true).
Proof.
  assert (Hshort : forall c, Z.of_nat (length (otp_code sha1_New key 6 c [])) < 2 ^ 63)
    by (intros; apply otp_code_short; lia).
  split.
  - exists (otp_code sha1_New key 6 counter []).
    destruct (hotp_default_code w1 l1 key counter H1 Hk) as (w1' & -> & _). split; [done|]. split.
    + destruct (hotp_default_verify w2 l2 key _ counter H2 Hk (Hshort counter)) as (w2' & -> & _).
      cbn [fst]. by rewrite bool_decide_true.
    + intros other Ho Hne. destruct (hotp_default_verify w2 l2 key other counter H2 Hk Ho) as (w2' & -> & _).
      cbn [fst]. by rewrite bool_decide_false.
  - exists (otp_code sha1_New key 6 (step30 w1) []).
    destruct (totp_default_code w1 l1 key H1 Hk) as (w1' & -> & _). split; [done|].
    destruct (totp_default_verify w2 l2 key _ H2 Hk (Hshort (step30 w1))) as (b & w2' & -> & _ & Hb).
    destruct (steps_close w1 w2 Ht1 Ht2 Hclose) as (Hs1 & Hs2 & Hd).
    cbn [fst]. f_equal. apply Hb. exists (step30 w1 - step30 w2). split; [lia|].
    unfold addCounterSigned. rewrite checkedAddSigned_spec, decide_True by lia.
    by replace (step30 w2 + (step30 w1 - step30 w2)) with (step30 w1) by lia.
Qed.

(** Two clocks 29 seconds apart. *)
Definition default_world (ns : Z) : world unit :=
  {| w_heap := {[1%positive := rfc4226_key]}; w_now := ns; w_ext := tt |}.

Lemma Defaults_roundtrip_witness :
  exists code, fst (@GenTotpDefault unit Sha.suite first_idle (Some 1%positive) (default_world (59 * 10 ^ 9))) = Ret code /\
    fst (@VerifyTotpDefault unit Sha.suite first_idle (Some 1%positive) code (default_world (88 * 10 ^ 9))) = Ret true.
Proof.
  refine (proj2 (@Defaults_roundtrip unit Sha.suite first_idle (default_world (59 * 10 ^ 9))
    (default_world (88 * 10 ^ 9)) 1 1 rfc4226_key 0 _ _ _ _ _ _)); try reflexivity; try (simpl; lia).
  discriminate.
Defined.
