(* ===== verification/Batch.v ===== *)
(** * Batch verification: [batch.go]

    The four batch methods fill a slice of results, one request after the
    other on the same object; they are proved to give each request the outcome
    of its own call, errors included. *)
From S2P Require Import Prelude Errors Hash Secret Digits Context Hotp Totp.

Record VerifyResult : Type := { OK : bool; Err_ : option error }.

Record HOTPVerifyRequest : Type := { h_Code : bytes; h_Counter : Z }.
Record HOTPVerifyBoundRequest : Type := {
  hb_Code : bytes; hb_Counter : Z; hb_Context : option OtpContext
}.
Record TOTPVerifyRequest : Type := { t_Code : bytes; t_Time : option Z; t_Window : Z }.
Record TOTPVerifyBoundRequest : Type := {
  tb_Code : bytes; tb_Context : option OtpContext; tb_Time : option Z; tb_Window : Z
}.

(** [ok, err := ...; results[i] = VerifyResult{OK: ok, Err: err}]: a method
    that fails returns false with its error. *)
Definition toResult {S} (m : GoM S bool) : GoM S VerifyResult := fun s =>
  match m s with
  | (Ret b, s') => (Ret {| OK := b; Err_ := None |}, s')
  | (Err e, s') => (Ret {| OK := false; Err_ := Some e |}, s')
  | (Panic, s') => (Panic, s')
  end.

(** [for i, req := range reqs], from index [i] on. *)
Fixpoint batchLoop {S Req} (call : Req -> GoM S bool) (reqs : list Req) (i : nat)
    (results : list VerifyResult) : GoM S (list VerifyResult) :=
  match reqs with
  | [] => mret results
  | req :: reqs' => r ← toResult (call req); batchLoop call reqs' (i + 1) (<[i := r]> results)
  end.

(** [make([]VerifyResult, len(reqs))]. *)
Definition batch {S Req} (call : Req -> GoM S bool) (reqs : list Req) : GoM S (list VerifyResult) :=
  batchLoop call reqs 0 (replicate (length reqs) {| OK := false; Err_ := None |}).

Section batch.
Context {X : Type} `{HashSuite} `{PoolPolicy}.

Definition HOTP_VerifyBatch (reqs : list HOTPVerifyRequest)
    : GoM (world X * HOTP X) (list VerifyResult) :=
  batch (fun req => Hotp.Verify (h_Code req) (h_Counter req)) reqs.

Definition HOTP_VerifyBoundBatch (reqs : list HOTPVerifyBoundRequest)
    : GoM (world X * HOTP X) (list VerifyResult) :=
  batch (fun req => Hotp.VerifyBound (hb_Code req) (hb_Counter req) (hb_Context req)) reqs.

Definition TOTP_VerifyBatch (reqs : list TOTPVerifyRequest)
    : GoM (world X * TOTP X) (list VerifyResult) :=
  batch (fun req => Totp.Verify (t_Code req) (t_Time req) (t_Window req)) reqs.

Definition TOTP_VerifyBoundBatch (reqs : list TOTPVerifyBoundRequest)
    : GoM (world X * TOTP X) (list VerifyResult) :=
  batch (fun req => Totp.VerifyBound (tb_Code req) (tb_Context req) (tb_Time req) (tb_Window req)) reqs.
End batch.

(** ** Lemmas *)
Section generic.
Context {S Req : Type} (call : Req -> GoM S bool) (Inv : S -> Prop) (P : Req -> Prop)
  (R : Req -> VerifyResult -> Prop).
Hypothesis Hcall : forall s req, Inv s -> P req ->
  exists r s', toResult (call req) s = (Ret r, s') /\ Inv s' /\ R req r.

Lemma batchLoop_ok reqs : forall done rest s,
  Inv s -> Forall P reqs -> length rest = length reqs ->
  exists rs s', batchLoop call reqs (length done) (done ++ rest) s = (Ret (done ++ rs), s') /\
    Inv s' /\ Forall2 R reqs rs.
Proof.
  induction reqs as [|req reqs IH]; intros dn rest s Hs Hreqs Hlen.
  - destruct rest; [|done]. by exists [], s.
  - destruct rest as [|r0 rest]; [done|]. apply Forall_cons in Hreqs as [Hreq Hreqs].
    destruct (Hcall s req Hs Hreq) as (r & s1 & E & Hs1 & Hr). cbn [batchLoop].
    rewrite (run_bind _ _ _ _ _ E), insert_app_r_alt, Nat.sub_diag by done. cbn [insert list_insert].
    replace (dn ++ r :: rest) with ((dn ++ [r]) ++ rest) by (by rewrite <-app_assoc).
    replace (length dn + 1)%nat with (length (dn ++ [r])) by (by rewrite length_app).
    destruct (IH (dn ++ [r]) rest s1 Hs1 Hreqs) as (rs & s' & E' & Hs' & HR); [simpl in Hlen; lia|].
    exists (r :: rs), s'. rewrite E', <-app_assoc. split; [done|]. split; [done|]. by constructor.
Qed.

Lemma batch_ok reqs s :
  Inv s -> Forall P reqs ->
  exists rs s', batch call reqs s = (Ret rs, s') /\ Inv s' /\ Forall2 R reqs rs.
Proof.
  intros Hs Hreqs.
  destruct (batchLoop_ok reqs [] (replicate (length reqs) {| OK := false; Err_ := None |}) s)
    as (rs & s' & E & Hs' & HR); [done|done|by rewrite length_replicate|].
  by exists rs, s'.
Qed.
End generic.

(** ** Properties *)

(** The batch is the sequence of the single calls, for any object: the
    same results in the same order, and the same final state. *)
Theorem batch_is_sequence {S Req} (call : Req -> GoM S bool) (reqs : list Req) (s : S) :
  batch call reqs s = mapM (fun req => toResult (call req)) reqs s.
Proof.
  unfold batch.
  assert (H : forall rs dn rest s, length rest = length rs ->
    batchLoop call rs (length dn) (dn ++ rest) s =
    (l ← mapM (fun req => toResult (call req)) rs; mret (dn ++ l)) s).
  { induction rs as [|req rs IH]; intros dn rest s0 Hlen; [by destruct rest|].
    destruct rest as [|r0 rest]; [done|]. cbn [batchLoop mapM]. unfold mbind at 1 2 3, M_bind.
    destruct (toResult (call req) s0) as [[r|e|] s1]; [|done..].
    rewrite insert_app_r_alt, Nat.sub_diag by done. cbn [insert list_insert].
    replace (dn ++ r :: rest) with ((dn ++ [r]) ++ rest) by (by rewrite <-app_assoc).
    replace (length dn + 1)%nat with (length (dn ++ [r])) by (by rewrite length_app).
    rewrite IH by (simpl in Hlen; lia). unfold mbind, M_bind.
    destruct (mapM (fun req => toResult (call req)) rs s1) as [[l|e|] s2]; [|done..]. unfold mret, M_ret. by rewrite <-app_assoc. }
  specialize (H reqs [] (replicate (length reqs) {| OK := false; Err_ := None |}) s).
  etransitivity; [apply H; by rewrite length_replicate|]. unfold mbind, M_bind.
  by destruct (mapM (fun req => toResult (call req)) reqs s) as [[l|e|] s2].
Qed.


Definition sampleHotpBatch : list HOTPVerifyBoundRequest :=
  [{| hb_Code := lit "94287082"; hb_Counter := 1; hb_Context := None |};
   {| hb_Code := lit "94287082"; hb_Counter := 2; hb_Context := None |}].
Definition sampleTotpBatch : list TOTPVerifyBoundRequest :=
  [{| tb_Code := lit "94287082"; tb_Context := None; tb_Time := Some 95; tb_Window := 1001 |};
   {| tb_Code := lit "94287082"; tb_Context := None; tb_Time := Some 95; tb_Window := 2 |}].

