(* ===== verification/Metrics.v ===== *)
(** * Metrics: [metrics.go]

    Five 64-bit atomic counters.  A method is a sequence of atomic steps;
    concurrent calls interleave these.  [Reset] is five steps, so it is not
    atomic as a whole. *)
From S2P Require Import Prelude.

Record Metrics : Type := {
  HotpGenerations : Z;
  HotpVerifications : Z;
  TotpGenerations : Z;
  TotpVerifications : Z;
  Errors : Z
}.

Definition NewMetrics : Metrics :=
  {| HotpGenerations := 0; HotpVerifications := 0; TotpGenerations := 0; TotpVerifications := 0;
     Errors := 0 |}.

(** ** Atomic steps *)
Inductive counter : Type := HotpGen | HotpVer | TotpGen | TotpVer | Errs.

#[global] Instance counter_eq_dec : EqDecision counter.
Proof. solve_decision. Defined.

Definition Load (c : counter) (m : Metrics) : Z :=
  match c with
  | HotpGen => HotpGenerations m | HotpVer => HotpVerifications m
  | TotpGen => TotpGenerations m | TotpVer => TotpVerifications m | Errs => Errors m
  end.

Definition Store (c : counter) (v : Z) (m : Metrics) : Metrics :=
  {| HotpGenerations := if decide (c = HotpGen) then v else HotpGenerations m;
     HotpVerifications := if decide (c = HotpVer) then v else HotpVerifications m;
     TotpGenerations := if decide (c = TotpGen) then v else TotpGenerations m;
     TotpVerifications := if decide (c = TotpVer) then v else TotpVerifications m;
     Errors := if decide (c = Errs) then v else Errors m |}.

Inductive atom : Type := Add1 (c : counter) | Store0 (c : counter).

#[global] Instance atom_eq_dec : EqDecision atom.
Proof. solve_decision. Defined.

Definition exec (a : atom) (m : Metrics) : Metrics :=
  match a with
  | Add1 c => Store c (u64 (Load c m + 1)) m
  | Store0 c => Store c 0 m
  end.

Definition run (l : list atom) (m : Metrics) : Metrics := fold_left (fun m a => exec a m) l m.

(** ** Methods *)
Definition IncrementHotpGeneration : list atom := [Add1 HotpGen].
Definition IncrementHotpVerification : list atom := [Add1 HotpVer].
Definition IncrementTotpGeneration : list atom := [Add1 TotpGen].
Definition IncrementTotpVerification : list atom := [Add1 TotpVer].
Definition IncrementError : list atom := [Add1 Errs].

Definition GetHotpGenerations : Metrics -> Z := Load HotpGen.
Definition GetHotpVerifications : Metrics -> Z := Load HotpVer.
Definition GetTotpGenerations : Metrics -> Z := Load TotpGen.
Definition GetTotpVerifications : Metrics -> Z := Load TotpVer.
Definition GetErrors : Metrics -> Z := Load Errs.

Definition Reset : list atom :=
  [Store0 HotpGen; Store0 HotpVer; Store0 TotpGen; Store0 TotpVer; Store0 Errs].

(** An interleaving of two runs of steps. *)
Inductive interleaved {A} : list A -> list A -> list A -> Prop :=
  | il_nil : interleaved [] [] []
  | il_left x l1 l2 l : interleaved l1 l2 l -> interleaved (x :: l1) l2 (x :: l)
  | il_right x l1 l2 l : interleaved l1 l2 l -> interleaved l1 (x :: l2) (x :: l).

(** ** Lemmas *)
Lemma Load_Store c c' v m : Load c' (Store c v m) = if decide (c = c') then v else Load c' m.
Proof. by destruct c, c'. Qed.

Lemma Load_range_Store c v m : 0 <= v < 2 ^ 64 ->
  (forall c', 0 <= Load c' m < 2 ^ 64) -> forall c', 0 <= Load c' (Store c v m) < 2 ^ 64.
Proof. intros Hv Hm c'. rewrite Load_Store. by case_decide. Qed.

Lemma interleaved_perm {A} (l1 l2 l : list A) : interleaved l1 l2 l -> Permutation (l1 ++ l2) l.
Proof.
  induction 1 as [|x l1 l2 l H IH|x l1 l2 l H IH]; [done|by simpl; rewrite IH|].
  rewrite <-IH. symmetry. apply Permutation_middle.
Qed.

(** How often a counter is incremented in a run. *)
Definition adds (c : counter) (l : list atom) : nat := length (filter (fun a => a = Add1 c) l).

Lemma adds_cons c a l : adds c (a :: l) = ((if decide (a = Add1 c) then 1 else 0) + adds c l)%nat.
Proof. unfold adds. rewrite filter_cons. by case_decide. Qed.

(** Without a reset of it, a counter moves by the number of its increments,
    modulo 2^64. *)
Lemma run_adds c l : forall m,
  0 <= Load c m < 2 ^ 64 -> Store0 c ∉ l -> Load c (run l m) = u64 (Load c m + Z.of_nat (adds c l)).
Proof.
  induction l as [|a l IH]; intros m Hm Hl.
  - simpl. rewrite Z.add_0_r. symmetry. by apply u64_small.
  - apply not_elem_of_cons in Hl as [Ha Hl]. cbn [run fold_left]. fold (run l (exec a m)).
    rewrite adds_cons.
    assert (E : Load c (exec a m) = if decide (a = Add1 c) then u64 (Load c m + 1) else Load c m).
    { destruct a as [c'|c']; simpl; rewrite Load_Store.
      - destruct (decide (c' = c)) as [->|Hne]; [by rewrite decide_True|].
        rewrite decide_False by congruence. done.
      - rewrite !decide_False by congruence. done. }
    rewrite IH, E; [| |done].
    + case_decide; [|by rewrite Nat.add_0_l]. unfold u64. rewrite Zplus_mod_idemp_l. f_equal. lia.
    + rewrite E. case_decide; [apply u64_range|done].
Qed.

(** ** Properties *)

(** No increment is lost: whatever the interleaving of two threads that
    do not reset, every counter ends at the sum of their increments, modulo
    2^64; it does not depend on the schedule. *)
Theorem Metrics_no_lost_update (m : Metrics) (l1 l2 l : list atom) (c : counter)
    (Hm : 0 <= Load c m < 2 ^ 64) (Hl : interleaved l1 l2 l)
    (H1 : Store0 c ∉ l1) (H2 : Store0 c ∉ l2) :
  Load c (run l m) = u64 (Load c m + Z.of_nat (adds c l1) + Z.of_nat (adds c l2)).
Proof.
  apply interleaved_perm in Hl. rewrite run_adds; [|done|].
  - f_equal. unfold adds. rewrite <-Hl, filter_app, length_app. lia.
  - rewrite <-Hl, elem_of_app. tauto.
Qed.

(** A reset alone zeroes everything and what follows counts from there;
    but it is not atomic: another thread can see one counter reset and the next
    one not yet. *)
Theorem Metrics_reset (m : Metrics) (l : list atom) (c : counter) (Hl : Store0 c ∉ l) :
  Load c (run (Reset ++ l) m) = u64 (Z.of_nat (adds c l)) /\
  (exists seen, interleaved Reset [] seen /\ forall m,
     let m' := run (take 1 seen) m in
     GetHotpGenerations m' = 0 /\ GetHotpVerifications m' = GetHotpVerifications m).
Proof.
  split.
  - unfold run. rewrite fold_left_app. fold (run Reset m). fold (run l (run Reset m)).
    assert (E : Load c (run Reset m) = 0) by (by destruct c). rewrite run_adds; rewrite ?E; done.
  - exists Reset. split; [|done]. unfold Reset. repeat constructor.
Qed.
