(* ===== verification/Json.v ===== *)
(** * Go's [encoding/json] as the WebAssembly entry points use it

    [json.Marshal] of flat structs of strings, numbers and booleans;
    [json.Unmarshal] into flat structs: the scanner with its nesting limit,
    unquoting of strings, and field lookup without regard to case.  The texts
    of decoding errors are not followed.  Printing and parsing are proved
    inverse on flat objects. *)
From S2P Require Import Prelude Strings Provisioning.

(** ** Values *)
#[local] Set Warnings "-register-all".
Inductive json : Type :=
  | JNull
  | JBool (b : bool)
  | JNum (text : bytes)
  | JStr (s : bytes)
  | JArr (l : list json)
  | JObj (l : list (bytes * json)).

Definition quote : byte := z2b 34.
Definition backslash : byte := z2b 92.

(** ** Marshal *)
Definition hexLower : bytes := lit "0123456789abcdef".
Definition hex (n : Z) : byte := nth (Z.to_nat n) hexLower Byte.x00.

(** One ASCII byte of a string; [<], [>] and [&] are escaped for HTML. *)
Definition jsonByte (b : byte) : bytes :=
  let c := b2z b in
  if (c =? 34) || (c =? 92) then [backslash; b]
  else if c =? 8 then lit "\b" else if c =? 12 then lit "\f" else if c =? 10 then lit "\n"
  else if c =? 13 then lit "\r" else if c =? 9 then lit "\t"
  else if (c <? 32) || (c =? 60) || (c =? 62) || (c =? 38)
  then lit "\u00" ++ [hex (c / 16); hex (c mod 16)]
  else [b].

Fixpoint jsonChars (fuel : nat) (s : bytes) : bytes :=
  match fuel, s with
  | O, _ | _, [] => []
  | S f, b :: s' =>
      if b2z b <? 0x80 then jsonByte b ++ jsonChars f s'
      else let '(r, w) := decodeRune s in
        (if (r =? RuneError) && Nat.eqb w 1 then lit "\ufffd"
         else if r =? 0x2028 then lit "\u2028" else if r =? 0x2029 then lit "\u2029"
         else take w s) ++ jsonChars f (drop w s)
  end.
Definition jsonString (s : bytes) : bytes := [quote] ++ jsonChars (length s) s ++ [quote].

Definition jsonField (name value : bytes) : bytes := jsonString name ++ lit ":" ++ value.
Definition jsonObject (fields : list bytes) : bytes :=
  lit "{" ++ (match fields with [] => [] | f :: fs => f ++ (g ← fs; lit "," ++ g) end) ++ lit "}".
Definition jsonBool (b : bool) : bytes := if b then lit "true" else lit "false".

(** ** Scanning *)
Definition isSpace (c : byte) : bool := bool_decide (b2z c ∈ [32; 9; 13; 10]).

Fixpoint skipSpace (s : bytes) : bytes :=
  match s with
  | c :: s' => if isSpace c then skipSpace s' else s
  | [] => []
  end.

Definition hexNibble (b : byte) : option Z :=
  let c := b2z b in
  if in_range 48 57 c then Some (c - 48)
  else if in_range 97 102 c then Some (c - 97 + 10)
  else if in_range 65 70 c then Some (c - 65 + 10) else None.

Definition hex4 (a b c d : byte) : option Z :=
  x ← hexNibble a; y ← hexNibble b; z ← hexNibble c; t ← hexNibble d;
  Some (((x * 16 + y) * 16 + z) * 16 + t).

(** [utf16.DecodeRune], [None] for an invalid pair. *)
Definition surrogatePair (r1 r2 : Z) : option Z :=
  if in_range 0xd800 0xdbff r1 && in_range 0xdc00 0xdfff r2
  then Some (Z.lor (Z.shiftl (r1 - 0xd800) 10) (r2 - 0xdc00) + 0x10000) else None.

(** The character of a one-letter escape. *)
Definition simpleEscape (e : byte) : option byte :=
  let c := b2z e in
  if (c =? 34) || (c =? 92) || (c =? 47) then Some e
  else if c =? 98 then Some (z2b 8) else if c =? 102 then Some (z2b 12)
  else if c =? 110 then Some (z2b 10) else if c =? 114 then Some (z2b 13)
  else if c =? 116 then Some (z2b 9) else None.

(** The rest of a string after its opening quote: its text and what follows
    the closing quote. *)
Fixpoint strChars (fuel : nat) (s : bytes) : option (bytes * bytes) :=
  match fuel, s with
  | O, _ | _, [] => None
  | S f, c :: s' =>
      let emit (t : bytes) (r : bytes) := '(u, r') ← strChars f r; Some (t ++ u, r') in
      if b2z c =? 34 then Some ([], s')
      else if b2z c =? 92 then
        match s' with
        | [] => None
        | e :: s1 =>
            match simpleEscape e with
            | Some b => emit [b] s1
            | None =>
                if b2z e =? 117 then
                  match s1 with
                  | h1 :: h2 :: h3 :: h4 :: s2 =>
                      r ← hex4 h1 h2 h3 h4;
                      if in_range 0xd800 0xdfff r then
                        match s2 with
                        | p :: u :: g1 :: g2 :: g3 :: g4 :: s3 =>
                            match (if (b2z p =? 92) && (b2z u =? 117) then hex4 g1 g2 g3 g4 else None)
                                    ≫= surrogatePair r with
                            | Some dec => emit (encodeRune dec) s3
                            | None => emit (encodeRune RuneError) s2
                            end
                        | _ => emit (encodeRune RuneError) s2
                        end
                      else emit (encodeRune r) s2
                  | _ => None
                  end
                else None
            end
        end
      else if b2z c <? 32 then None
      else if b2z c <? 0x80 then emit [c] s'
      else let '(r, w) := decodeRune s in emit (encodeRune r) (drop w s)
  end.

Definition isDigitb (c : byte) : bool := in_range 48 57 (b2z c).

Fixpoint spanDigits (s : bytes) : bytes * bytes :=
  match s with
  | c :: s' => if isDigitb c then let '(d, r) := spanDigits s' in (c :: d, r) else ([], s)
  | [] => ([], [])
  end.

(** Digits, at least one. *)
Definition digits1 (s : bytes) : option (bytes * bytes) :=
  match spanDigits s with ([], _) => None | dr => Some dr end.

Definition sign (signs : list Z) (s : bytes) : bytes * bytes :=
  match s with
  | c :: s' => if bool_decide (b2z c ∈ signs) then ([c], s') else ([], s)
  | [] => ([], [])
  end.

Definition intPart (s : bytes) : option (bytes * bytes) :=
  match s with
  | c :: s' => if b2z c =? 48 then Some ([c], s') else digits1 s
  | [] => None
  end.

Definition fracPart (s : bytes) : option (bytes * bytes) :=
  match s with
  | c :: s' => if b2z c =? 46 then '(d, r) ← digits1 s'; Some (c :: d, r) else Some ([], s)
  | [] => Some ([], [])
  end.

Definition expPart (s : bytes) : option (bytes * bytes) :=
  match s with
  | c :: s' =>
      if (b2z c =? 101) || (b2z c =? 69) then
        let '(g, s1) := sign [43; 45] s' in '(d, r) ← digits1 s1; Some (c :: g ++ d, r)
      else Some ([], s)
  | [] => Some ([], [])
  end.

Definition numberToken (s : bytes) : option (bytes * bytes) :=
  let '(m, s1) := sign [45] s in
  '(i, s2) ← intPart s1; '(f, s3) ← fracPart s2; '(e, s4) ← expPart s3;
  Some (m ++ i ++ f ++ e, s4).

(** Elements separated by commas up to [close], each read by [p]. *)
Fixpoint elements {A} (p : bytes -> option (A * bytes)) (close : byte) (fuel : nat) (s : bytes)
    : option (list A * bytes) :=
  match fuel with
  | O => None
  | S f =>
      '(x, r) ← p s;
      match skipSpace r with
      | c :: r' =>
          if b2z c =? 44 then '(xs, r'') ← elements p close f r'; Some (x :: xs, r'')
          else if decide (c = close) then Some ([x], r') else None
      | [] => None
      end
  end.

(** One [key: value], [value] read by [p]. *)
Definition member (p : bytes -> option (json * bytes)) (s : bytes) : option ((bytes * json) * bytes) :=
  match skipSpace s with
  | q :: s1 =>
      if b2z q =? 34 then
        '(k, s2) ← strChars (length s1) s1;
        match skipSpace s2 with
        | c :: s3 => if b2z c =? 58 then '(v, r) ← p s3; Some ((k, v), r) else None
        | [] => None
        end
      else None
  | [] => None
  end.

Definition keyword (w : string) (v : json) (s : bytes) : option (json * bytes) :=
  if HasPrefix s (lit w) then Some (v, drop (length (lit w)) s) else None.

(** A value, [depth] more levels of nesting allowed. *)
Fixpoint value (depth : nat) (s : bytes) : option (json * bytes) :=
  match skipSpace s with
  | [] => None
  | c :: r =>
      let z := b2z c in
      if z =? 34 then '(t, r') ← strChars (length r) r; Some (JStr t, r')
      else if z =? 123 then
        match depth with
        | O => None
        | S d =>
            match skipSpace r with
            | e :: r' =>
                if b2z e =? 125 then Some (JObj [], r')
                else '(l, r'') ← elements (member (value d)) "}"%byte (length r) r; Some (JObj l, r'')
            | [] => None
            end
        end
      else if z =? 91 then
        match depth with
        | O => None
        | S d =>
            match skipSpace r with
            | e :: r' =>
                if b2z e =? 93 then Some (JArr [], r')
                else '(l, r'') ← elements (value d) "]"%byte (length r) r; Some (JArr l, r'')
            | [] => None
            end
        end
      else if z =? 116 then keyword "true" (JBool true) (c :: r)
      else if z =? 102 then keyword "false" (JBool false) (c :: r)
      else if z =? 110 then keyword "null" JNull (c :: r)
      else '(t, r') ← numberToken (c :: r); Some (JNum t, r')
  end.

(** The scanner's [maxNestingDepth]. *)
Definition maxNestingDepth : nat := Z.to_nat 10000.

Definition parseJson (s : bytes) : option json :=
  '(v, r) ← value maxNestingDepth s;
  match skipSpace r with [] => Some v | _ => None end.

(** ** Unmarshal into a struct *)

(** Case folding of a rune, as far as it can meet an ASCII name: the long s
    and the Kelvin sign fold to ASCII letters. *)
Definition foldRune (r : Z) : Z :=
  if in_range 97 122 r then r - 32 else if r =? 0x17f then 83 else if r =? 0x212a then 75 else r.
Definition foldName (s : bytes) : list Z := foldRune <$> runes s.

(** A field: its name in the tag and how a value is stored; [None] is a type
    error. *)
Abbreviation fieldSetter T := (bytes * (json -> T -> option T))%type.

Fixpoint setField {T} (fields : list (fieldSetter T)) (k : bytes) (v : json) (t : T) : option T :=
  match fields with
  | [] => Some t
  | (n, set) :: fields' => if decide (foldName n = foldName k) then set v t else setField fields' k v t
  end.

Fixpoint setFields {T} (fields : list (fieldSetter T)) (l : list (bytes * json)) (t : T) : option T :=
  match l with
  | [] => Some t
  | (k, v) :: l' => t' ← setField fields k v t; setFields fields l' t'
  end.

(** [null] leaves the struct as it is. *)
Definition unmarshal {T} (fields : list (fieldSetter T)) (zero : T) (s : bytes) : option T :=
  j ← parseJson s;
  match j with
  | JNull => Some zero
  | JObj l => setFields fields l zero
  | _ => None
  end.

Definition asString {T} (set : bytes -> T -> T) (v : json) (t : T) : option T :=
  match v with JStr s => Some (set s t) | JNull => Some t | _ => None end.

(** [strconv.ParseUint(text, 10, bits)]. *)
Definition ParseUint (text : bytes) (bits : Z) : option Z :=
  v ← parseUint text; if v <? 2 ^ bits then Some v else None.

Definition asUint {T} (bits : Z) (set : Z -> T -> T) (v : json) (t : T) : option T :=
  match v with JNum n => u ← ParseUint n bits; Some (set u t) | JNull => Some t | _ => None end.

(** A pointer: [null] makes it nil. *)
Definition asUintPtr {T} (bits : Z) (set : option Z -> T -> T) (v : json) (t : T) : option T :=
  match v with JNum n => u ← ParseUint n bits; Some (set (Some u) t) | JNull => Some (set None t) | _ => None end.

(** ** Lemmas: strings *)
Lemma strChars_byte b rest f :
  b2z b < 0x80 -> strChars (S f) (jsonByte b ++ rest) = ('(u, r) ← strChars f rest; Some (b :: u, r)).
Proof. destruct b; first [reflexivity | intros H; discriminate H]. Qed.

Lemma jsonChars_ascii s : forall f, isASCII s = true -> (length s <= f)%nat -> jsonChars f s = (b ← s; jsonByte b).
Proof.
  induction s as [|b s IH]; intros f Hs Hf; [by destruct f|].
  destruct f as [|f]; [simpl in Hf; lia|]. simpl in Hs. apply andb_prop in Hs as [Hb Hs].
  cbn [jsonChars]. rewrite Hb, IH by (done || simpl in Hf; lia). done.
Qed.

Lemma strChars_ascii s rest : forall f,
  isASCII s = true -> (length s < f)%nat ->
  strChars f ((b ← s; jsonByte b) ++ quote :: rest) = Some (s, rest).
Proof.
  induction s as [|b s IH]; intros f Hs Hf; (destruct f as [|f]; [simpl in Hf; lia|]).
  - cbn. done.
  - simpl in Hs. apply andb_prop in Hs as [Hb Hs]. rewrite bind_cons, <-app_assoc, strChars_byte by lia.
    rewrite IH by (done || simpl in Hf; lia). done.
Qed.

Lemma jsonString_cons s : isASCII s = true -> jsonString s = quote :: (b ← s; jsonByte b) ++ [quote].
Proof. intros Hs. unfold jsonString. by rewrite jsonChars_ascii. Qed.

Lemma jsonByte_length b : (1 <= length (jsonByte b))%nat.
Proof. unfold jsonByte. repeat case_match; simpl; lia. Qed.

Lemma escaped_length s : (length s <= length (b ← s; jsonByte b))%nat.
Proof.
  induction s as [|b s IH]; [done|]. rewrite bind_cons, length_app. pose proof (jsonByte_length b). simpl. lia.
Qed.

(** ** The fuel is enough

    Every round of a loop consumes a byte, so more fuel than bytes changes
    nothing. *)
Lemma strChars_fuel f : forall f' s,
  (length s <= f)%nat -> (length s <= f')%nat -> strChars f s = strChars f' s.
Proof.
  induction f as [|f IH]; intros [|f'] s Hf Hf'; destruct s as [|c s]; try done; simpl in Hf, Hf'; try lia.
  assert (Hr : forall r, (length r <= length s)%nat -> strChars f r = strChars f' r)
    by (intros r Hlr; apply IH; lia).
  cbn [strChars]. cbv zeta. destruct (b2z c =? 34); [done|]. destruct (b2z c =? 92).
  - destruct s as [|e s1]; [done|]. destruct (simpleEscape e); [rewrite Hr by (simpl; lia); done|].
    destruct (b2z e =? 117); [|done].
    destruct s1 as [|h1 [|h2 [|h3 [|h4 s2]]]]; try done.
    destruct (hex4 h1 h2 h3 h4) as [r|]; [|done]. cbn [mbind option_bind].
    assert (H2 : strChars f s2 = strChars f' s2) by (apply Hr; simpl; lia).
    destruct (in_range 0xd800 0xdfff r); [|by rewrite H2].
    destruct s2 as [|p [|u [|g1 [|g2 [|g3 [|g4 s3]]]]]]; try (by rewrite H2).
    destruct ((if _ && _ then hex4 g1 g2 g3 g4 else None) ≫= surrogatePair r); [|by rewrite H2].
    by rewrite Hr by (simpl; lia).
  - destruct (b2z c <? 32); [done|]. destruct (b2z c <? 0x80); [by rewrite Hr by lia|].
    pose proof (decodeRune_width c s) as Hw. destruct (decodeRune (c :: s)) as [r w]. simpl in Hw.
    rewrite Hr; [done|]. rewrite length_drop. simpl. lia.
Qed.

(** A parser that leaves less than it was given. *)
Definition shrinks {A} (p : bytes -> option (A * bytes)) : Prop :=
  forall s x r, p s = Some (x, r) -> (length r < length s)%nat.

Lemma skipSpace_length s : (length (skipSpace s) <= length s)%nat.
Proof. induction s as [|c s IH]; [done|]. cbn [skipSpace]. case_match; simpl; lia. Qed.

Lemma elements_fuel {A} (p : bytes -> option (A * bytes)) close f : shrinks p -> forall f' s,
  (length s <= f)%nat -> (length s <= f')%nat -> (0 < f)%nat -> (0 < f')%nat ->
  elements p close f s = elements p close f' s.
Proof.
  intros Hp. induction f as [|f IH]; intros [|f'] s Hf Hf' H0 H0'; [lia|lia|lia|].
  cbn [elements]. destruct (p s) as [[x r]|] eqn:Ep; [|done]. cbn [mbind option_bind].
  pose proof (Hp s x r Ep). pose proof (skipSpace_length r) as Hs.
  destruct (skipSpace r) as [|c r']; [done|]. simpl in Hs. destruct (b2z c =? 44); [|done].
  rewrite (IH f' r') by lia. done.
Qed.

(** The parsers shrink their input. *)
Lemma strChars_shrinks f : shrinks (strChars f).
Proof.
  induction f as [|f IH]; intros s t r E; destruct s as [|c s]; try done.
  assert (Hemit : forall u x, (length x <= length s)%nat ->
    ('(v, r') ← strChars f x; Some (u ++ v, r')) = Some (t, r) -> (length r < length (c :: s))%nat).
  { intros u x Hx Hu. destruct (strChars f x) as [[v r']|] eqn:Ex; [|done]. injection Hu as _ <-.
    pose proof (IH x v r' Ex). simpl. lia. }
  cbn [strChars] in E. cbv zeta in E. destruct (b2z c =? 34); [injection E as _ <-; simpl; lia|].
  destruct (b2z c =? 92).
  - destruct s as [|e s1]; [done|].
    destruct (simpleEscape e); [eapply Hemit; [|exact E]; simpl; lia|].
    destruct (b2z e =? 117); [|done].
    destruct s1 as [|h1 [|h2 [|h3 [|h4 s2]]]]; try done.
    destruct (hex4 h1 h2 h3 h4) as [k|]; [|done]. cbn [mbind option_bind] in E.
    assert (H2 : (length s2 <= length (e :: h1 :: h2 :: h3 :: h4 :: s2))%nat) by (simpl; lia).
    destruct (in_range 0xd800 0xdfff k); [|apply (Hemit _ _ H2 E)].
    destruct s2 as [|p [|u [|g1 [|g2 [|g3 [|g4 s3]]]]]]; try apply (Hemit _ _ H2 E).
    destruct ((if _ && _ then hex4 g1 g2 g3 g4 else None) ≫= surrogatePair k); [|apply (Hemit _ _ H2 E)].
    eapply Hemit; [|exact E]; simpl; lia.
  - destruct (b2z c <? 32); [done|]. destruct (b2z c <? 0x80); [by apply (Hemit [c] s)|].
    pose proof (decodeRune_width c s) as Hw. destruct (decodeRune (c :: s)) as [k w]. simpl in Hw.
    apply (Hemit (encodeRune k) (drop w (c :: s))); [rewrite length_drop; simpl; lia|exact E].
Qed.

Lemma spanDigits_length s : (length (spanDigits s).1 + length (spanDigits s).2 = length s)%nat.
Proof.
  induction s as [|c s IH]; [done|]. cbn [spanDigits]. destruct (isDigitb c); [|done].
  destruct (spanDigits s). simpl in *. lia.
Qed.

Lemma digits1_shrinks : shrinks digits1.
Proof.
  intros s d r. unfold digits1. pose proof (spanDigits_length s). destruct (spanDigits s) as [[|x d'] r']; [done|].
  intros [= <- <-]. simpl in *. lia.
Qed.

Lemma numberToken_shrinks : shrinks numberToken.
Proof.
  intros s t r. unfold numberToken.
  assert (Hsign : forall l x, (length (sign l x).2 <= length x)%nat)
    by (intros l [|c x]; [done|]; simpl; case_match; simpl; lia).
  pose proof (Hsign [45] s) as H1. destruct (sign [45] s) as [m s1]. simpl in H1.
  destruct (intPart s1) as [[i s2]|] eqn:Ei; [|done].
  assert (H2 : (length s2 < length s1)%nat).
  { destruct s1 as [|c s1]; [done|]. unfold intPart in Ei. destruct (b2z c =? 48).
    - injection Ei as _ <-. simpl. lia.
    - by apply digits1_shrinks in Ei. }
  cbn [mbind option_bind]. destruct (fracPart s2) as [[fr s3]|] eqn:Ef; [|done].
  assert (H3 : (length s3 <= length s2)%nat).
  { destruct s2 as [|c s2]; [by injection Ef as _ <-|]. unfold fracPart in Ef. destruct (b2z c =? 46).
    - destruct (digits1 s2) as [[d x]|] eqn:Ed; [|done]. injection Ef as _ <-.
      apply digits1_shrinks in Ed. simpl. lia.
    - by injection Ef as _ <-. }
  cbn [mbind option_bind]. destruct (expPart s3) as [[e s4]|] eqn:Ee; [|done]. intros [= _ <-].
  assert (H4 : (length s4 <= length s3)%nat); [|lia].
  destruct s3 as [|c s3]; [by injection Ee as _ <-|]. unfold expPart in Ee. destruct (_ || _).
  - pose proof (Hsign [43; 45] s3). destruct (sign [43; 45] s3) as [g x].
    destruct (digits1 x) as [[d y]|] eqn:Ed; [|done]. injection Ee as _ <-.
    apply digits1_shrinks in Ed. simpl in *. lia.
  - by injection Ee as _ <-.
Qed.

Lemma member_shrinks p : shrinks p -> shrinks (member p).
Proof.
  intros Hp s x r. unfold member. pose proof (skipSpace_length s).
  destruct (skipSpace s) as [|c s1]; [done|]. destruct (b2z c =? 34); [|done].
  destruct (strChars (length s1) s1) as [[k s2]|] eqn:Ek; [|done]. apply strChars_shrinks in Ek.
  cbn [mbind option_bind]. pose proof (skipSpace_length s2). destruct (skipSpace s2) as [|e s3]; [done|].
  destruct (b2z e =? 58); [|done]. destruct (p s3) as [[v r']|] eqn:Ep; [|done]. apply Hp in Ep.
  intros [= _ <-]. simpl in *. lia.
Qed.

Lemma elements_shrinks {A} (p : bytes -> option (A * bytes)) close f : shrinks p -> shrinks (elements p close f).
Proof.
  intros Hp. induction f as [|f IH]; intros s x r; [done|]. cbn [elements].
  destruct (p s) as [[y r1]|] eqn:Ep; [|done]. apply Hp in Ep. cbn [mbind option_bind].
  pose proof (skipSpace_length r1). destruct (skipSpace r1) as [|c r2]; [done|]. simpl in *.
  destruct (b2z c =? 44).
  - destruct (elements p close f r2) as [[xs r3]|] eqn:Ee; [|done]. apply IH in Ee. intros [= _ <-]. lia.
  - case_decide; [|done]. intros [= _ <-]. lia.
Qed.

Lemma keyword_shrinks w v s x r : (0 < length s)%nat -> (0 < length (lit w))%nat ->
  keyword w v s = Some (x, r) -> (length r < length s)%nat.
Proof. intros Hs Hw. unfold keyword. case_match; [|done]. intros [= _ <-]. rewrite length_drop. lia. Qed.

(** So every parser is given enough fuel by the length of its input. *)
Lemma value_shrinks d : shrinks (value d).
Proof.
  assert (Hkey : forall w v c s1 x r, (0 < length (lit w))%nat -> keyword w v (c :: s1) = Some (x, r) ->
    (length r < S (length s1))%nat) by (intros w v c s1 x r Hw; apply (keyword_shrinks w v (c :: s1)); simpl; lia).
  assert (Hnum : forall c s1 x r, ('(t, r') ← numberToken (c :: s1); Some (JNum t, r')) = Some (x, r) ->
    (length r < S (length s1))%nat).
  { intros c s1 x r. destruct (numberToken (c :: s1)) as [[t r']|] eqn:E; [|done].
    apply numberToken_shrinks in E. intros [= _ <-]. simpl in E. lia. }
  assert (Hstr : forall s1 x r, ('(t, r') ← strChars (length s1) s1; Some (JStr t, r')) = Some (x, r) ->
    (length r < S (length s1))%nat).
  { intros s1 x r. destruct (strChars (length s1) s1) as [[t r']|] eqn:E; [|done].
    apply strChars_shrinks in E. intros [= _ <-]. lia. }
  assert (Hnest : forall A (p : bytes -> option (A * bytes)) (k : list A -> json) empty close e s1 x r, shrinks p ->
    match skipSpace s1 with
    | b :: r' => if b2z b =? e then Some (empty, r')
                 else '(l, r'') ← elements p close (length s1) s1; Some (k l, r'')
    | [] => None
    end = Some (x, r) -> (length r < S (length s1))%nat).
  { intros A p k empty close e s1 x r Hp. pose proof (skipSpace_length s1).
    destruct (skipSpace s1) as [|b r']; [done|]. simpl in *. destruct (b2z b =? e); [intros [= _ <-]; lia|].
    destruct (elements p close (length s1) s1) as [[l r'']|] eqn:E; [|done].
    apply (elements_shrinks p close _ Hp) in E. intros [= _ <-]. lia. }
  induction d as [|d IH]; intros s x r; cbn [value]; pose proof (skipSpace_length s) as Hs;
    (destruct (skipSpace s) as [|c s1]; [done|]); cbv zeta; simpl length in Hs; intros E;
    apply (Nat.lt_le_trans _ (S (length s1))); try exact Hs; clear Hs;
    repeat (match type of E with (if ?b then _ else _) = _ => destruct b end);
    eauto 2; try done;
    try (eapply Hkey; [|exact E]; simpl; lia);
    (eapply Hnest; [|exact E]); by try apply member_shrinks.
Qed.

Lemma members_fuel d f s : (0 < length s <= f)%nat ->
  elements (member (value d)) "}"%byte f s = elements (member (value d)) "}"%byte (length s) s /\
  elements (value d) "]"%byte f s = elements (value d) "]"%byte (length s) s.
Proof.
  intros Hf. split; apply elements_fuel; try lia; [apply member_shrinks|]; apply value_shrinks.
Qed.

(** ** Lemmas: numbers *)
Lemma formatUint_head f : forall v acc,
  0 < v < 10 ^ Z.of_nat f -> exists c r, formatUint f v acc = c :: r /\ 49 <= b2z c <= 57.
Proof.
  induction f as [|f IH]; intros v acc Hv; [simpl in Hv; lia|]. cbn [formatUint].
  pose proof (Z.mod_pos_bound v 10 eq_refl). destruct (Z.ltb_spec v 10) as [Hlt|Hge].
  - eexists _, _. split; [done|]. rewrite b2z_z2b_small by lia. rewrite Z.mod_small by lia. lia.
  - apply IH. rewrite Nat2Z.inj_succ, Z.pow_succ_r in Hv by lia. split; [apply Z.div_str_pos; lia|].
    apply Z.div_lt_upper_bound; lia.
Qed.

(** What may follow a value. *)
Definition ends (c : byte) : Prop := c = ","%byte \/ c = "}"%byte.

Lemma spanDigits_app ds c rest :
  Forall isDigit ds -> ends c -> spanDigits (ds ++ c :: rest) = (ds, c :: rest).
Proof.
  intros Hds Hc. induction Hds as [|d ds Hd Hds IH].
  - by destruct Hc as [-> | ->].
  - cbn [app spanDigits]. unfold isDigitb, in_range. unfold isDigit in Hd.
    rewrite (proj2 (Z.leb_le 48 _)), (proj2 (Z.leb_le _ 57)) by lia. cbn [andb]. by rewrite IH.
Qed.

Lemma numberToken_FormatUint v c rest :
  0 <= v < 2 ^ 64 -> ends c -> numberToken (FormatUint v ++ c :: rest) = Some (FormatUint v, c :: rest).
Proof.
  intros Hv Hc. destruct (FormatUint_ok v Hv) as [Hds _].
  assert (Htail : forall s, fracPart (c :: s) = Some ([], c :: s) /\ expPart (c :: s) = Some ([], c :: s))
    by (intros s; by destruct Hc as [-> | ->]).
  assert (Hint : exists d r, FormatUint v = d :: r /\ 48 <= b2z d <= 57 /\
    intPart (FormatUint v ++ c :: rest) = Some (FormatUint v, c :: rest)).
  { destruct (decide (v = 0)) as [->|Hne].
    - exists "0"%byte, []. split; [done|]. split; [change (b2z "0"%byte) with 48; lia|]. done.
    - destruct (formatUint_head 20 v [] ltac:(lia)) as (d & r & E & Hd).
      exists d, r. change (formatUint 20 v []) with (FormatUint v) in E. split; [done|]. split; [lia|].
      unfold intPart, digits1. rewrite spanDigits_app by done. rewrite E. cbn [app].
      by rewrite (proj2 (Z.eqb_neq _ _)) by lia. }
  destruct Hint as (d & r & E & Hd & Hi). unfold numberToken.
  assert (Hs : sign [45] (FormatUint v ++ c :: rest) = ([], FormatUint v ++ c :: rest)).
  { rewrite E. cbn [app sign]. rewrite bool_decide_false; [done|]. rewrite list_elem_of_singleton. lia. }
  rewrite Hs, Hi. cbn [mbind option_bind]. destruct (Htail rest) as [Hf He]. rewrite Hf. cbn [mbind option_bind].
  rewrite He. cbn [mbind option_bind].
  by rewrite !app_nil_r.
Qed.

(** ** Flat objects *)
Inductive scalar : Type := SStr (s : bytes) | SNum (n : Z) | SBool (b : bool) | SNull.

Definition scalar_ok (x : scalar) : Prop :=
  match x with SStr s => isASCII s = true | SNum n => 0 <= n < 2 ^ 64 | _ => True end.

Definition scalar_text (x : scalar) : bytes :=
  match x with
  | SStr s => jsonString s | SNum n => FormatUint n | SBool b => jsonBool b | SNull => lit "null"
  end.

Definition scalar_json (x : scalar) : json :=
  match x with SStr s => JStr s | SNum n => JNum (FormatUint n) | SBool b => JBool b | SNull => JNull end.

Definition objectText (l : list (bytes * scalar)) : bytes :=
  jsonObject ((fun '(k, x) => jsonField k (scalar_text x)) <$> l).

Definition object_ok (l : list (bytes * scalar)) : Prop :=
  Forall (fun kx => isASCII kx.1 = true /\ scalar_ok kx.2) l.

Lemma value_quote d s :
  value d (quote :: s) = '(t, r) ← strChars (length s) s; Some (JStr t, r).
Proof. by destruct d. Qed.

Lemma member_quote p s :
  member p (quote :: s) =
  '(k, s2) ← strChars (length s) s;
  match skipSpace s2 with
  | c :: s3 => if b2z c =? 58 then '(v, r) ← p s3; Some ((k, v), r) else None
  | [] => None
  end.
Proof. done. Qed.

Lemma value_scalar d x c rest :
  scalar_ok x -> ends c -> value d (scalar_text x ++ c :: rest) = Some (scalar_json x, c :: rest).
Proof.
  intros Hx Hc. destruct x as [s|n|b|]; cbn [scalar_text scalar_json scalar_ok] in *.
  - rewrite jsonString_cons, <-app_comm_cons, <-app_assoc by done.
    change ([quote] ++ c :: rest) with (quote :: c :: rest). rewrite value_quote, strChars_ascii; [done|done|].
    rewrite length_app. pose proof (escaped_length s). simpl. lia.
  - assert (Hn : exists e r, FormatUint n ++ c :: rest = e :: r /\ 48 <= b2z e <= 57).
    { destruct (FormatUint_ok n Hx) as [Hds Hp]. destruct (FormatUint n) as [|e r]; [done|].
      apply Forall_cons in Hds as [He _]. by exists e, (r ++ c :: rest). }
    destruct Hn as (e & r & E & He). pose proof (numberToken_FormatUint n c rest Hx Hc) as Ht. rewrite E in *.
    assert (Hsp : isSpace e = false).
    { unfold isSpace. apply bool_decide_eq_false. rewrite !elem_of_cons. intros H.
      destruct H as [H|[H|[H|[H|H]]]]; try lia. by apply not_elem_of_nil in H. }
    destruct d; cbn [value skipSpace]; rewrite Hsp; cbv zeta;
      rewrite !(proj2 (Z.eqb_neq (b2z e) _)) by lia; by rewrite Ht.
  - destruct b, d; done.
  - destruct d; done.
Qed.

Lemma member_field d k x c rest :
  isASCII k = true -> scalar_ok x -> ends c ->
  member (value d) (jsonField k (scalar_text x) ++ c :: rest) = Some ((k, scalar_json x), c :: rest).
Proof.
  intros Hk Hx Hc. unfold jsonField. rewrite jsonString_cons by done.
  rewrite <-!app_comm_cons, <-!app_assoc. change ([quote] ++ lit ":" ++ ?r) with (quote :: ":"%byte :: r).
  rewrite member_quote, strChars_ascii; [|done|].
  - cbn [mbind option_bind skipSpace]. change (isSpace ":") with false. cbv iota.
    change (b2z ":" =? 58) with true. cbv iota. by rewrite value_scalar.
  - rewrite length_app. pose proof (escaped_length k). simpl. lia.
Qed.

Lemma elements_fields d l : forall k x f rest,
  object_ok ((k, x) :: l) -> (length l < f)%nat ->
  elements (member (value d)) "}"%byte f
    (jsonField k (scalar_text x) ++ (g ← (fun '(k, x) => jsonField k (scalar_text x)) <$> l; lit "," ++ g)
     ++ "}"%byte :: rest) =
  Some ((fun kx => (kx.1, scalar_json kx.2)) <$> (k, x) :: l, rest).
Proof.
  induction l as [|[k' x'] l IH]; intros k x f rest Hok Hf; (destruct f as [|f]; [lia|]);
    apply Forall_cons in Hok as [[Hk Hx] Hok]; cbn [elements].
  - cbn [fmap list_fmap mbind list_bind app]. rewrite member_field by (done || by right). done.
  - rewrite fmap_cons, bind_cons. change (lit "," ++ ?g) with (","%byte :: g).
    rewrite <-app_comm_cons, <-app_comm_cons, member_field by (done || by left).
    cbn [mbind option_bind skipSpace]. change (isSpace ",") with false. cbv iota.
    change (b2z "," =? 44) with true. cbv iota. rewrite <-app_assoc, IH by (done || simpl in Hf; lia).
    done.
Qed.

Lemma field_length k x : (1 <= length (jsonField k x))%nat.
Proof. unfold jsonField, jsonString. rewrite !length_app. simpl. lia. Qed.

Lemma fields_length (l : list (bytes * scalar)) :
  (length l <= length (g ← (fun '(k, x) => jsonField k (scalar_text x)) <$> l; lit "," ++ g))%nat.
Proof.
  induction l as [|[k x] l IH]; [done|]. rewrite fmap_cons, bind_cons, !length_app. simpl length in *. lia.
Qed.

(** The text of a flat object parses to it, at every level of nesting. *)
Lemma parse_object l :
  object_ok l -> parseJson (objectText l) = Some (JObj ((fun kx => (kx.1, scalar_json kx.2)) <$> l)).
Proof.
  intros Hok. unfold parseJson. enough (H : forall d, value (S d) (objectText l) =
    Some (JObj ((fun kx => (kx.1, scalar_json kx.2)) <$> l), [])).
  { destruct maxNestingDepth as [|d] eqn:E; [by vm_compute in E|]. by rewrite H. }
  intros d. unfold objectText, jsonObject. destruct l as [|[k x] l]; [done|].
  rewrite fmap_cons, <-app_assoc. change (lit "}") with ["}"%byte].
  set (inner := jsonField k (scalar_text x) ++ (g ← (fun '(k, x) => jsonField k (scalar_text x)) <$> l; lit "," ++ g)
     ++ ["}"%byte]).
  assert (Hq : exists t, inner = quote :: t).
  { unfold inner, jsonField, jsonString. rewrite <-!app_assoc. by eexists. }
  assert (Helem : elements (member (value d)) "}"%byte (length inner) inner =
    Some ((fun kx => (kx.1, scalar_json kx.2)) <$> (k, x) :: l, [])).
  { apply elements_fields; [done|]. unfold inner. rewrite !length_app.
    pose proof (fields_length l). pose proof (field_length k (scalar_text x)). lia. }
  clearbody inner. destruct Hq as [t ->]. change (lit "{" ++ ?r) with ("{"%byte :: r).
  change (value (S d) ("{"%byte :: quote :: t)) with
    ('(l, r'') ← elements (member (value d)) "}"%byte (length (quote :: t)) (quote :: t); Some (JObj l, r'')).
  by rewrite Helem.
Qed.

(** Decoding such a text folds the setters over the fields. *)
Lemma unmarshal_object {T} (fields : list (fieldSetter T)) (zero : T) l :
  object_ok l ->
  unmarshal fields zero (objectText l) =
  setFields fields ((fun kx => (kx.1, scalar_json kx.2)) <$> l) zero.
Proof. intros Hok. unfold unmarshal. by rewrite parse_object. Qed.

Lemma ParseUint_FormatUint v bits :
  0 <= v < 2 ^ 64 -> v < 2 ^ bits -> ParseUint (FormatUint v) bits = Some v.
Proof.
  intros Hv Hb. unfold ParseUint. destruct (FormatUint_ok v Hv) as [_ ->]. cbn [mbind option_bind].
  by rewrite (proj2 (Z.ltb_lt _ _)).
Qed.

(** ** Properties *)

(** A flat object printed as [json.Marshal] does parses back to
    its fields, in order, whatever ASCII the strings hold: no value can break
    out of its quotes, controls and HTML characters included. *)
Theorem json_roundtrip (l : list (bytes * scalar)) (Hl : Forall (fun kx => isASCII kx.1 = true /\ scalar_ok kx.2) l) :
  parseJson (objectText l) = Some (JObj ((fun kx => (kx.1, scalar_json kx.2)) <$> l)).
Proof. by apply parse_object. Qed.

Definition sampleObject : list (bytes * scalar) :=
  [(lit "code", SStr (lit "a<b\" ++ [quote; z2b 10; z2b 1])); (lit "expires_at", SNum 18446744073709551615);
   (lit "valid", SBool true)].

Lemma json_roundtrip_witness :
  parseJson (objectText sampleObject) =
  Some (JObj [(lit "code", JStr (lit "a<b\" ++ [quote; z2b 10; z2b 1]));
              (lit "expires_at", JNum (lit "18446744073709551615")); (lit "valid", JBool true)]).
Proof.
  refine (eq_trans (json_roundtrip sampleObject _) _); [|vm_compute; reflexivity].
  repeat (constructor; [split; [reflexivity|]; vm_compute; repeat split; discriminate|]). constructor.
Defined.

(** What the scanner takes and what it refuses: escapes and surrogate pairs,
    numbers, nesting, trailing text, case of the field names. *)
Definition q (s : string) : bytes := [quote] ++ lit s ++ [quote].

Example parseJson_vectors :
  parseJson (q "\ud83d\ude00\u00e9\/") = Some (JStr (z2b <$> [240; 159; 152; 128; 195; 169; 47])) /\
  parseJson (q "\ud83dx") = Some (JStr (z2b <$> [239; 191; 189; 120])) /\
  parseJson (lit " [1, -0.5e+3 ,[] , {}]") = Some (JArr [JNum (lit "1"); JNum (lit "-0.5e+3"); JArr []; JObj []]) /\
  parseJson <$> [lit "01"; lit "1 2"; lit "[1,]"; lit "{,}"; lit "tru"; lit ""; q "\x"; lit "1."] =
    replicate 8 None /\
  unmarshal [(lit "digits", asUint 32 (fun v _ => v))] 7 (lit "{" ++ q "DIGIT\u017f" ++ lit ": 8}") = Some 8 /\
  unmarshal [(lit "digits", asUint 32 (fun v _ => v))] 7 (lit "{" ++ q "other" ++ lit ":[{}]}") = Some 7 /\
  (fun n => unmarshal [(lit "digits", asUint 32 (fun v _ => v))] 7 (lit "{" ++ q "digits" ++ lit ":" ++ lit n ++ lit "}"))
    <$> ["4294967295"; "4294967296"; "1e3"; "-1"; "null"]%string = [Some 4294967295; None; None; None; Some 7].
Proof. vm_compute. repeat split. Qed.
