(* ===== verification/Wasm.v ===== *)
(** * The WebAssembly entry points: [wasm/main.go]

    The exported functions over the module's two buffers, from the JSON text of
    a request to the JSON text of the response.  The texts of JSON decoding
    errors ([JsonErrors]) and the addresses the exports return ([Placement])
    are parameters. *)
From S2P Require Import Prelude Errors ConstantTime Base32 Base64 Strings Hash Secret Digits.
From S2P Require Import Context Hotp Totp Provisioning Key Json.

(** ** Requests *)
Record generateIn : Type := {
  g_Secret : bytes; g_Context : bytes; g_Algorithm : bytes; g_Digits : Z; g_Period : Z;
  g_TimeUnix : option Z
}.
Record verifyIn : Type := {
  v_Code : bytes; v_Secret : bytes; v_IssuedContext : bytes; v_RequestContext : bytes;
  v_Algorithm : bytes; v_Digits : Z; v_Period : Z; v_Window : Z; v_TimeUnix : option Z
}.
Record buildContextIn : Type := {
  c_IP : bytes; c_Device : bytes; c_Session : bytes; c_Origin : bytes; c_Region : bytes;
  c_GeoBucket : bytes; c_DistanceClass : bytes
}.

(** The zero values, and the fields with their tags. *)
Definition zeroGenerate : generateIn :=
  {| g_Secret := []; g_Context := []; g_Algorithm := []; g_Digits := 0; g_Period := 0; g_TimeUnix := None |}.
Definition zeroVerify : verifyIn :=
  {| v_Code := []; v_Secret := []; v_IssuedContext := []; v_RequestContext := []; v_Algorithm := [];
     v_Digits := 0; v_Period := 0; v_Window := 0; v_TimeUnix := None |}.
Definition zeroContext : buildContextIn :=
  {| c_IP := []; c_Device := []; c_Session := []; c_Origin := []; c_Region := []; c_GeoBucket := [];
     c_DistanceClass := [] |}.

Definition generateFields : list (fieldSetter generateIn) := [
  (lit "secret", asString (fun v r => {| g_Secret := v; g_Context := g_Context r; g_Algorithm := g_Algorithm r;
     g_Digits := g_Digits r; g_Period := g_Period r; g_TimeUnix := g_TimeUnix r |}));
  (lit "context", asString (fun v r => {| g_Secret := g_Secret r; g_Context := v; g_Algorithm := g_Algorithm r;
     g_Digits := g_Digits r; g_Period := g_Period r; g_TimeUnix := g_TimeUnix r |}));
  (lit "algorithm", asString (fun v r => {| g_Secret := g_Secret r; g_Context := g_Context r; g_Algorithm := v;
     g_Digits := g_Digits r; g_Period := g_Period r; g_TimeUnix := g_TimeUnix r |}));
  (lit "digits", asUint 32 (fun v r => {| g_Secret := g_Secret r; g_Context := g_Context r;
     g_Algorithm := g_Algorithm r; g_Digits := v; g_Period := g_Period r; g_TimeUnix := g_TimeUnix r |}));
  (lit "period", asUint 64 (fun v r => {| g_Secret := g_Secret r; g_Context := g_Context r;
     g_Algorithm := g_Algorithm r; g_Digits := g_Digits r; g_Period := v; g_TimeUnix := g_TimeUnix r |}));
  (lit "time_unix", asUintPtr 64 (fun v r => {| g_Secret := g_Secret r; g_Context := g_Context r;
     g_Algorithm := g_Algorithm r; g_Digits := g_Digits r; g_Period := g_Period r; g_TimeUnix := v |}))].

Definition verifyFields : list (fieldSetter verifyIn) := [
  (lit "code", asString (fun v r => {| v_Code := v; v_Secret := v_Secret r; v_IssuedContext := v_IssuedContext r;
     v_RequestContext := v_RequestContext r; v_Algorithm := v_Algorithm r; v_Digits := v_Digits r;
     v_Period := v_Period r; v_Window := v_Window r; v_TimeUnix := v_TimeUnix r |}));
  (lit "secret", asString (fun v r => {| v_Code := v_Code r; v_Secret := v; v_IssuedContext := v_IssuedContext r;
     v_RequestContext := v_RequestContext r; v_Algorithm := v_Algorithm r; v_Digits := v_Digits r;
     v_Period := v_Period r; v_Window := v_Window r; v_TimeUnix := v_TimeUnix r |}));
  (lit "issued_context", asString (fun v r => {| v_Code := v_Code r; v_Secret := v_Secret r; v_IssuedContext := v;
     v_RequestContext := v_RequestContext r; v_Algorithm := v_Algorithm r; v_Digits := v_Digits r;
     v_Period := v_Period r; v_Window := v_Window r; v_TimeUnix := v_TimeUnix r |}));
  (lit "request_context", asString (fun v r => {| v_Code := v_Code r; v_Secret := v_Secret r;
     v_IssuedContext := v_IssuedContext r; v_RequestContext := v; v_Algorithm := v_Algorithm r;
     v_Digits := v_Digits r; v_Period := v_Period r; v_Window := v_Window r; v_TimeUnix := v_TimeUnix r |}));
  (lit "algorithm", asString (fun v r => {| v_Code := v_Code r; v_Secret := v_Secret r;
     v_IssuedContext := v_IssuedContext r; v_RequestContext := v_RequestContext r; v_Algorithm := v;
     v_Digits := v_Digits r; v_Period := v_Period r; v_Window := v_Window r; v_TimeUnix := v_TimeUnix r |}));
  (lit "digits", asUint 32 (fun v r => {| v_Code := v_Code r; v_Secret := v_Secret r;
     v_IssuedContext := v_IssuedContext r; v_RequestContext := v_RequestContext r; v_Algorithm := v_Algorithm r;
     v_Digits := v; v_Period := v_Period r; v_Window := v_Window r; v_TimeUnix := v_TimeUnix r |}));
  (lit "period", asUint 64 (fun v r => {| v_Code := v_Code r; v_Secret := v_Secret r;
     v_IssuedContext := v_IssuedContext r; v_RequestContext := v_RequestContext r; v_Algorithm := v_Algorithm r;
     v_Digits := v_Digits r; v_Period := v; v_Window := v_Window r; v_TimeUnix := v_TimeUnix r |}));
  (lit "window", asUint 64 (fun v r => {| v_Code := v_Code r; v_Secret := v_Secret r;
     v_IssuedContext := v_IssuedContext r; v_RequestContext := v_RequestContext r; v_Algorithm := v_Algorithm r;
     v_Digits := v_Digits r; v_Period := v_Period r; v_Window := v; v_TimeUnix := v_TimeUnix r |}));
  (lit "time_unix", asUintPtr 64 (fun v r => {| v_Code := v_Code r; v_Secret := v_Secret r;
     v_IssuedContext := v_IssuedContext r; v_RequestContext := v_RequestContext r; v_Algorithm := v_Algorithm r;
     v_Digits := v_Digits r; v_Period := v_Period r; v_Window := v_Window r; v_TimeUnix := v |}))].

Definition contextFields : list (fieldSetter buildContextIn) := [
  (lit "ip", asString (fun v r => {| c_IP := v; c_Device := c_Device r; c_Session := c_Session r;
     c_Origin := c_Origin r; c_Region := c_Region r; c_GeoBucket := c_GeoBucket r;
     c_DistanceClass := c_DistanceClass r |}));
  (lit "device", asString (fun v r => {| c_IP := c_IP r; c_Device := v; c_Session := c_Session r;
     c_Origin := c_Origin r; c_Region := c_Region r; c_GeoBucket := c_GeoBucket r;
     c_DistanceClass := c_DistanceClass r |}));
  (lit "session", asString (fun v r => {| c_IP := c_IP r; c_Device := c_Device r; c_Session := v;
     c_Origin := c_Origin r; c_Region := c_Region r; c_GeoBucket := c_GeoBucket r;
     c_DistanceClass := c_DistanceClass r |}));
  (lit "origin", asString (fun v r => {| c_IP := c_IP r; c_Device := c_Device r; c_Session := c_Session r;
     c_Origin := v; c_Region := c_Region r; c_GeoBucket := c_GeoBucket r;
     c_DistanceClass := c_DistanceClass r |}));
  (lit "region", asString (fun v r => {| c_IP := c_IP r; c_Device := c_Device r; c_Session := c_Session r;
     c_Origin := c_Origin r; c_Region := v; c_GeoBucket := c_GeoBucket r;
     c_DistanceClass := c_DistanceClass r |}));
  (lit "geo_bucket", asString (fun v r => {| c_IP := c_IP r; c_Device := c_Device r; c_Session := c_Session r;
     c_Origin := c_Origin r; c_Region := c_Region r; c_GeoBucket := v;
     c_DistanceClass := c_DistanceClass r |}));
  (lit "distance_class", asString (fun v r => {| c_IP := c_IP r; c_Device := c_Device r; c_Session := c_Session r;
     c_Origin := c_Origin r; c_Region := c_Region r; c_GeoBucket := c_GeoBucket r; c_DistanceClass := v |}))].

(** The text of the error [json.Unmarshal] reports on an input it refuses. *)
Class JsonErrors : Type := json_error : bytes -> bytes.

(** ** Responses *)
Definition generateOut (code : bytes) (expiresAt : Z) : bytes :=
  objectText [(lit "code", SStr code); (lit "expires_at", SNum expiresAt)].
Definition verifyOut (valid : bool) : bytes := objectText [(lit "valid", SBool valid)].
Definition newSecretOut (b64 b32 : bytes) : bytes :=
  objectText [(lit "secret_b64", SStr b64); (lit "secret_b32", SStr b32)].
Definition buildContextOut (context : bytes) : bytes := objectText [(lit "context", SStr context)].
Definition errOut (msg : bytes) : bytes := objectText [(lit "error", SStr msg)].

Definition parseAlgo (s : bytes) : Algorithm :=
  if bool_decide (s = lit "SHA256") then SHA256
  else if bool_decide (s = lit "SHA512") then SHA512 else SHA1.

(** ** The module *)
Class Placement : Type := address : bytes -> Z.

Section wasm.
Context {X : Type} `{HashSuite} `{PoolPolicy} `{RandSource X} `{JsonErrors} `{Placement} `{UnicodeTables}.
Abbreviation W := (world X).

Record module : Type := { m_world : W; allocBuf : bytes; resultBuf : bytes }.
Abbreviation GoW := (GoM module).

Definition set_alloc (b : bytes) (m : module) : module :=
  {| m_world := m_world m; allocBuf := b; resultBuf := resultBuf m |}.
Definition set_result (b : bytes) (m : module) : module :=
  {| m_world := m_world m; allocBuf := allocBuf m; resultBuf := b |}.
Definition set_world (w : W) (m : module) : module :=
  {| m_world := w; allocBuf := allocBuf m; resultBuf := resultBuf m |}.

Definition wasmAlloc (size : Z) : GoW Z :=
  let b := replicate (Z.to_nat size) Byte.x00 in
  _ ← modify (set_alloc b);
  mret (if size =? 0 then 0 else u32 (address b)).

Definition wasmResultPtr : GoW Z :=
  gets (fun m => if Nat.eqb (length (resultBuf m)) 0 then 0 else u32 (address (resultBuf m))).

Definition wasmResultLen : GoW Z := gets (fun m => u32 (Z.of_nat (length (resultBuf m)))).

Definition setError (msg : bytes) : GoW unit := modify (set_result (errOut msg)).

(** [setError(...); return 1]. *)
Definition refuse (msg : bytes) : GoW Z := _ ← setError msg; mret 1.

(** [v, err := ...; if err != nil { setError(err.Error()); return 1 }]. *)
Definition orRefuse {A} (m : GoM W A) (k : A -> GoW Z) : GoW Z := fun s =>
  match m (m_world s) with
  | (Ret a, w) => k a (set_world w s)
  | (Err e, w) => refuse (error_text e) (set_world w s)
  | (Panic, w) => (Panic, set_world w s)
  end.

(** [allocBuf[:inputLen]], which panics past the end of the buffer. *)
Definition input (inputLen : Z) : GoW bytes := fun s =>
  if inputLen <=? Z.of_nat (length (allocBuf s)) then (Ret (take (Z.to_nat inputLen) (allocBuf s)), s)
  else (Panic, s).

Definition decoded (b64 msg : bytes) (k : bytes -> GoW Z) : GoW Z :=
  match StdEncoding_DecodeString b64 with Some b => k b | None => refuse msg end.

(** A method call on an object local to the entry point. *)
Definition onLocal {O A} (m : GoM (W * O) A) (o : O) : GoM W A :=
  fun w => let '(r, (w', _)) := m (w, o) in (r, w').

(** The local [TOTP] of a request, over the freshly decoded secret. *)
Definition localTOTP (secret : bytes) (alg : bytes) (d per : Z) : GoM W (TOTP X) :=
  s ← alloc secret; NewTOTP s (parseAlgo alg) d per.

Definition respond (json : bytes) : GoW Z := _ ← modify (set_result json); mret 0.

Definition wasmGenerate (inputPtr inputLen : Z) : GoW Z :=
  inp ← input inputLen;
  match unmarshal generateFields zeroGenerate inp with
  | None => refuse (json_error inp)
  | Some req =>
      decoded (g_Secret req) (lit "invalid secret encoding") (fun secret =>
      orRefuse (localTOTP secret (g_Algorithm req) (g_Digits req) (g_Period req)) (fun totp =>
      let finish code :=
        now ← gets (fun m => match g_TimeUnix req with
                             | Some t => t
                             | None => u64 (unixSeconds (w_now (m_world m))) end);
        let expiresAt := u64 (u64 (now / g_Period req + 1) * g_Period req) in
        respond (generateOut code expiresAt) in
      if negb (bool_decide (g_Context req = [])) then
        decoded (g_Context req) (lit "invalid context encoding") (fun ctxBytes =>
        orRefuse (onLocal (Totp.GenBound (Some (OtpContextFromBytes ctxBytes)) (g_TimeUnix req)) totp) finish)
      else orRefuse (onLocal (Totp.Generate (g_TimeUnix req)) totp) finish))
  end.

Definition wasmVerify (inputPtr inputLen : Z) : GoW Z :=
  inp ← input inputLen;
  match unmarshal verifyFields zeroVerify inp with
  | None => refuse (json_error inp)
  | Some req =>
      decoded (v_Secret req) (lit "invalid secret encoding") (fun secret =>
      orRefuse (localTOTP secret (v_Algorithm req) (v_Digits req) (v_Period req)) (fun totp =>
      if negb (bool_decide (v_IssuedContext req = [])) || negb (bool_decide (v_RequestContext req = [])) then
        decoded (v_IssuedContext req) (lit "invalid issued_context encoding") (fun issuedBytes =>
        decoded (v_RequestContext req) (lit "invalid request_context encoding") (fun requestBytes =>
        let issuedCtx := OtpContextFromBytes issuedBytes in
        let requestCtx := OtpContextFromBytes requestBytes in
        orRefuse (onLocal (Totp.VerifyBound (v_Code req) (Some issuedCtx) (v_TimeUnix req) (v_Window req)) totp)
          (fun valid =>
        let valid := if (valid : bool)
                     then Wasm.constTimeEqBytes (OtpContext_Bytes issuedCtx) (OtpContext_Bytes requestCtx)
                     else valid in
        respond (verifyOut valid))))
      else
        orRefuse (onLocal (Totp.Verify (v_Code req) (v_TimeUnix req) (v_Window req)) totp) (fun valid =>
        respond (verifyOut valid))))
  end.

Definition wasmNewSecret : GoW Z :=
  orRefuse CreateSecret (fun s =>
  secret ← gets (fun m => slice_get (m_world m) s);
  respond (newSecretOut (StdEncoding_EncodeToString secret) (EncodeBase32 secret))).

(** [if req.F != "" { b.F(req.F) }]. *)
Definition whenSet (v : bytes) (f : bytes -> OtpContextBuilder -> OtpContextBuilder) (b : OtpContextBuilder)
    : OtpContextBuilder := if bool_decide (v = []) then b else f v b.

Definition wasmBuildContext (inputPtr inputLen : Z) : GoW Z :=
  inp ← input inputLen;
  match unmarshal contextFields zeroContext inp with
  | None => refuse (json_error inp)
  | Some req =>
      let b := NewOtpContextBuilder in
      let b := whenSet (c_IP req) Builder_IP b in
      let b := whenSet (c_Device req) Builder_Device b in
      let b := whenSet (c_Session req) Builder_Session b in
      let b := whenSet (c_Origin req) Builder_Origin b in
      let b := whenSet (c_Region req) Builder_Region b in
      let b := whenSet (c_GeoBucket req) Builder_GeoBucket b in
      let b := whenSet (c_DistanceClass req) Builder_DistanceClass b in
      respond (buildContextOut (StdEncoding_EncodeToString (OtpContext_Bytes (Context.Build b))))
  end.
End wasm.

(** ** Lemmas *)
Section laws.
Context {X : Type} `{HashSuite} `{PoolPolicy} `{RandSource X} `{JsonErrors} `{Placement} `{UnicodeTables}.
Abbreviation W := (world X).
Abbreviation module := (@module X).

Lemma parseAlgo_hash s : exists fn, hashFuncFor (parseAlgo s) = Some fn.
Proof. unfold parseAlgo. repeat case_bool_decide; eauto. Qed.

Lemma localTOTP_run key alg d per (w : W) fn :
  key <> [] -> 6 <= d <= 8 -> 0 < per -> hashFuncFor (parseAlgo alg) = Some fn ->
  exists t l w', localTOTP key alg d per w = (Ret t, w') /\ totp_inv fn d per l key (w', t).
Proof.
  intros Hk Hd Hp Hfn. destruct (alloc_run key w) as (l & E & _). unfold localTOTP.
  rewrite (run_bind _ _ _ _ _ E).
  destruct (NewTOTP_ok (set_heap <[l := key]> w) l key (parseAlgo alg) fn d per) as (t & Et & Ht);
    [apply lookup_insert_eq|done..|].
  by exists t, l, (set_heap <[l := key]> w).
Qed.

Lemma orRefuse_ret {A} (m : GoM W A) (k : A -> GoM module Z) (s : module) a w :
  m (m_world s) = (Ret a, w) -> orRefuse m k s = k a (set_world w s).
Proof. intros E. unfold orRefuse. by rewrite E. Qed.

Lemma onLocal_ret {O A} (m : GoM (W * O) A) (o : O) (w : W) a w' o' :
  m (w, o) = (Ret a, (w', o')) -> onLocal m o w = (Ret a, w').
Proof. intros E. unfold onLocal. by rewrite E. Qed.

Lemma input_run {A} (k : bytes -> GoM module A) inputLen (s : module) :
  inputLen <= Z.of_nat (length (allocBuf s)) ->
  (input inputLen ≫= k) s = k (take (Z.to_nat inputLen) (allocBuf s)) s.
Proof. intros Hl. unfold mbind, M_bind, input. by rewrite (proj2 (Z.leb_le _ _) Hl). Qed.

Lemma decoded_ok b64 msg b (k : bytes -> GoM module Z) :
  StdEncoding_DecodeString b64 = Some b -> decoded b64 msg k = k b.
Proof. intros E. unfold decoded. by rewrite E. Qed.

(** The verification of one request on the local object, at an explicit
    time. *)
Lemma local_verify fn d per l key (w : W) (t : TOTP X) code context tm window :
  totp_inv fn d per l key (w, t) -> Z.of_nat (length code) < 2 ^ 63 -> 0 <= window <= 1000 ->
  0 <= tm -> tm / per + window < 2 ^ 64 ->
  exists b w', onLocal (Totp.VerifyBound code context (Some tm) window) t w = (Ret b, w') /\
    (b = true <-> exists c, Z.max 0 (tm / per - window) <= c <= tm / per + window /\
       code = otp_code fn key d c (contextBytes context)).
Proof.
  intros Hi Hc Hw Ht Hlt. pose proof (totp_source (X := X) fn d per l key (totp_inv_digits _ _ _ _ _ _ Hi)).
  pose proof (totp_inv_pos _ _ _ _ _ _ Hi) as Hp.
  pose proof (totp_VerifyBound_run (otp_code fn key d) (totp_inv fn d per l key) per
    (totp_inv_live fn d per l key) (totp_inv_period fn d per l key) ltac:(lia) (w, t) code context (Some tm)
    window Hi Hc ltac:(lia)) as Hv.
  rewrite (proj2 (Z.ltb_ge _ _)) in Hv by lia. destruct Hv as (b & [w' t'] & E & _ & Hb).
  exists b, w'. split; [by apply (onLocal_ret _ _ _ _ _ t')|]. rewrite Hb. cbn [nowOr].
  apply (window_codes (fun c => code = otp_code fn key d c (contextBytes context))); [|lia|lia].
  apply Z.div_pos; lia.
Qed.

(** What [verify] does with a decoded request. *)
Lemma wasmVerify_run (s : module) (inputPtr inputLen t : Z) (req : verifyIn) (key issued request : bytes)
    (fn : hashFn) :
  inputLen <= Z.of_nat (length (allocBuf s)) ->
  unmarshal verifyFields zeroVerify (take (Z.to_nat inputLen) (allocBuf s)) = Some req ->
  StdEncoding_DecodeString (v_Secret req) = Some key -> key <> [] ->
  StdEncoding_DecodeString (v_IssuedContext req) = Some issued ->
  StdEncoding_DecodeString (v_RequestContext req) = Some request ->
  hashFuncFor (parseAlgo (v_Algorithm req)) = Some fn ->
  6 <= v_Digits req <= 8 -> 0 < v_Period req -> 0 <= v_Window req <= 1000 ->
  Z.of_nat (length (v_Code req)) < 2 ^ 63 ->
  v_TimeUnix req = Some t -> 0 <= t -> t / v_Period req + v_Window req < 2 ^ 64 ->
  exists b m', wasmVerify inputPtr inputLen s = (Ret 0, m') /\
    resultBuf m' = verifyOut (b && bool_decide (issued = request)) /\
    (b = true <-> exists c, Z.max 0 (t / v_Period req - v_Window req) <= c <= t / v_Period req + v_Window req /\
       v_Code req = otp_code fn key (v_Digits req) c issued).
Proof.
  intros Hlen Hreq Hkey Hk Hissued Hrequest Hfn Hd Hp Hw Hcode Ht Ht0 Hlt.
  unfold wasmVerify. rewrite input_run, Hreq by done. rewrite (decoded_ok _ _ key) by done.
  destruct (localTOTP_run key (v_Algorithm req) (v_Digits req) (v_Period req) (m_world s) fn)
    as (totp & l & w & E & Hi); [done..|]. rewrite (orRefuse_ret _ _ _ _ _ E), Ht.
  pose proof (fun ctx => local_verify fn _ _ l key w totp (v_Code req) ctx t (v_Window req) Hi Hcode Hw Ht0 Hlt) as Hv.
  destruct (negb (bool_decide (v_IssuedContext req = [])) || negb (bool_decide (v_RequestContext req = []))) eqn:Hb.
  - rewrite (decoded_ok _ _ issued), (decoded_ok _ _ request) by done.
    destruct (Hv (Some (OtpContextFromBytes issued))) as (b & w' & Ev & Hbt).
    rewrite (orRefuse_ret _ _ (set_world w s) _ _ Ev). exists b. eexists. split; [done|]. split; [|done].
    destruct b; [rewrite wasm_constTimeEqBytes_decides|]; done.
  - apply orb_false_elim in Hb as [Hb1 Hb2]. apply negb_false_iff, bool_decide_eq_true in Hb1, Hb2.
    rewrite Hb1 in Hissued. rewrite Hb2 in Hrequest. injection Hissued as <-. injection Hrequest as <-.
    destruct (Hv None) as (b & w' & Ev & Hbt). rewrite (orRefuse_ret _ _ (set_world w s) _ _ Ev).
    exists b. eexists. split; [done|]. split; [|done]. by rewrite bool_decide_true, andb_true_r.
Qed.

(** ** Properties *)

(** [generate] at a given time answers with the code of the current step,
    plain or bound to the decoded context, and with the first second of the
    next step as expiry: the code stays the current one until then. *)
Theorem wasmGenerate_spec (s : module) (inputPtr inputLen t : Z) (req : generateIn) (key ctx : bytes) (fn : hashFn)
    (Hlen : inputLen <= Z.of_nat (length (allocBuf s)))
    (Hreq : unmarshal generateFields zeroGenerate (take (Z.to_nat inputLen) (allocBuf s)) = Some req)
    (Hkey : StdEncoding_DecodeString (g_Secret req) = Some key) (Hk : key <> [])
    (Hctx : StdEncoding_DecodeString (g_Context req) = Some ctx)
    (Hfn : hashFuncFor (parseAlgo (g_Algorithm req)) = Some fn)
    (Hd : 6 <= g_Digits req <= 8) (Hp : 0 < g_Period req)
    (Ht : g_TimeUnix req = Some t) (Ht0 : 0 <= t) (Hlt : (t / g_Period req + 1) * g_Period req < 2 ^ 64) :
  let e := (t / g_Period req + 1) * g_Period req in
  (exists m', wasmGenerate inputPtr inputLen s = (Ret 0, m') /\
     resultBuf m' = generateOut (otp_code fn key (g_Digits req) (t / g_Period req) ctx) e) /\
  t < e /\ forall t', t <= t' < e -> t' / g_Period req = t / g_Period req.
Proof.
  intros e. pose proof (Z.div_mod t (g_Period req) ltac:(lia)) as Hdm.
  pose proof (Z.mod_pos_bound t (g_Period req) Hp) as Hm. assert (Hq : 0 <= t / g_Period req) by (apply Z.div_pos; lia).
  split.
  - unfold wasmGenerate. rewrite input_run, Hreq by done. rewrite (decoded_ok _ _ key) by done.
    destruct (localTOTP_run key (g_Algorithm req) (g_Digits req) (g_Period req) (m_world s) fn)
      as (totp & l & w & E & Hi); [done..|]. rewrite (orRefuse_ret _ _ _ _ _ E).
    pose proof (totp_source (X := X) fn (g_Digits req) (g_Period req) l key Hd).
    assert (Hgen : forall context, exists w', onLocal (Totp.GenBound context (Some t)) totp w =
      (Ret (otp_code fn key (g_Digits req) (t / g_Period req) (contextBytes context)), w')).
    { intros context. destruct (totp_GenBound_run (otp_code fn key (g_Digits req))
        (totp_inv fn (g_Digits req) (g_Period req) l key) (g_Period req)
        (totp_inv_live fn _ _ l key) (totp_inv_period fn _ _ l key) ltac:(lia) (w, totp) context (Some t) Hi)
        as ([w' t'] & Eg & _).
      exists w'. by apply (onLocal_ret _ _ _ _ _ t'). }
    assert (He : u64 (u64 (t / g_Period req + 1) * g_Period req) = e).
    { unfold e. rewrite (u64_small (_ + 1)) by nia. apply u64_small. nia. }
    rewrite Ht. destruct (bool_decide_reflect (g_Context req = [])) as [Hc|Hc]; cbn [negb].
    + assert (ctx = []) as -> by (rewrite Hc in Hctx; by injection Hctx).
      destruct (Hgen None) as [w' Eg]. rewrite (orRefuse_ret _ _ (set_world w s) _ _ Eg), run_gets, He.
      eexists. split; [done|]. done.
    + rewrite (decoded_ok _ _ ctx) by done. destruct (Hgen (Some (OtpContextFromBytes ctx))) as [w' Eg].
      rewrite (orRefuse_ret _ _ (set_world w s) _ _ Eg), run_gets, He. eexists. split; [done|]. done.
  - unfold e. split; [lia|]. intros t' Ht'. symmetry. apply Z.div_unique with (t' - t / g_Period req * g_Period req);
      [left|]; lia.
Qed.

(** [verify] answers [true] exactly when the request context is the
    issued one and the code belongs to the issued context at a step of the
    window around the given time: the check the verifier makes, without replay
    protection. *)
Theorem wasmVerify_spec (s : module) (inputPtr inputLen t : Z) (req : verifyIn) (key issued request : bytes)
    (fn : hashFn) (Hlen : inputLen <= Z.of_nat (length (allocBuf s)))
    (Hreq : unmarshal verifyFields zeroVerify (take (Z.to_nat inputLen) (allocBuf s)) = Some req)
    (Hkey : StdEncoding_DecodeString (v_Secret req) = Some key) (Hk : key <> [])
    (Hissued : StdEncoding_DecodeString (v_IssuedContext req) = Some issued)
    (Hrequest : StdEncoding_DecodeString (v_RequestContext req) = Some request)
    (Hfn : hashFuncFor (parseAlgo (v_Algorithm req)) = Some fn)
    (Hd : 6 <= v_Digits req <= 8) (Hp : 0 < v_Period req) (Hw : 0 <= v_Window req <= 1000)
    (Hcode : Z.of_nat (length (v_Code req)) < 2 ^ 63)
    (Ht : v_TimeUnix req = Some t) (Ht0 : 0 <= t) (Hlt : t / v_Period req + v_Window req < 2 ^ 64) :
  exists valid m', wasmVerify inputPtr inputLen s = (Ret 0, m') /\ resultBuf m' = verifyOut valid /\
    (valid = true <-> issued = request /\ exists c,
       Z.max 0 (t / v_Period req - v_Window req) <= c <= t / v_Period req + v_Window req /\
       v_Code req = otp_code fn key (v_Digits req) c issued).
Proof.
  destruct (wasmVerify_run s inputPtr inputLen t req key issued request fn) as (b & m' & E & Hr & Hb); [done..|].
  eexists _, m'. split; [done|]. split; [done|].
  rewrite andb_true_iff, bool_decide_eq_true, Hb. tauto.
Qed.
End laws.

(** ** Requests as texts *)
Definition time_scalar (t : option Z) : scalar := match t with Some n => SNum n | None => SNull end.

(** The JSON object of a request. *)
Definition verifyRequest (r : verifyIn) : list (bytes * scalar) :=
  [(lit "code", SStr (v_Code r)); (lit "secret", SStr (v_Secret r));
   (lit "issued_context", SStr (v_IssuedContext r)); (lit "request_context", SStr (v_RequestContext r));
   (lit "algorithm", SStr (v_Algorithm r)); (lit "digits", SNum (v_Digits r)); (lit "period", SNum (v_Period r));
   (lit "window", SNum (v_Window r)); (lit "time_unix", time_scalar (v_TimeUnix r))].

Definition verify_sized (r : verifyIn) : Prop :=
  0 <= v_Digits r < 2 ^ 32 /\ 0 <= v_Period r < 2 ^ 64 /\ 0 <= v_Window r < 2 ^ 64 /\
  match v_TimeUnix r with Some t => 0 <= t < 2 ^ 64 | None => True end.

Lemma unmarshal_verifyRequest r :
  object_ok (verifyRequest r) -> verify_sized r ->
  unmarshal verifyFields zeroVerify (objectText (verifyRequest r)) = Some r.
Proof.
  intros Hok (Hd & Hp & Hw & Ht). rewrite unmarshal_object by done. unfold verifyRequest.
  pose proof (ParseUint_FormatUint (v_Digits r) 32 ltac:(lia) ltac:(lia)) as Ed.
  pose proof (ParseUint_FormatUint (v_Period r) 64 Hp ltac:(lia)) as Ep.
  pose proof (ParseUint_FormatUint (v_Window r) 64 Hw ltac:(lia)) as Ew.
  destruct r as [code sec ic rc alg d p w t]; cbn [v_Code v_Secret v_IssuedContext v_RequestContext v_Algorithm
    v_Digits v_Period v_Window v_TimeUnix] in *.
  destruct t as [t|]; cbn [time_scalar].
  - pose proof (ParseUint_FormatUint t 64 Ht ltac:(lia)) as Et.
    cbv -[ParseUint FormatUint]. rewrite Ed. cbv -[ParseUint FormatUint]. rewrite Ep.
    cbv -[ParseUint FormatUint]. rewrite Ew. cbv -[ParseUint FormatUint]. by rewrite Et.
  - cbv -[ParseUint FormatUint]. rewrite Ed. cbv -[ParseUint FormatUint]. rewrite Ep.
    cbv -[ParseUint FormatUint]. by rewrite Ew.
Qed.

(** ** Concrete requests *)
Definition sampleErrors : JsonErrors := fun _ => lit "invalid character".
Definition samplePlacement : Placement := fun _ => 65536.

Definition sampleVerify : verifyIn :=
  {| v_Code := lit "94287082"; v_Secret := StdEncoding_EncodeToString (rfc6238_key 20); v_IssuedContext := [];
     v_RequestContext := []; v_Algorithm := lit "SHA1"; v_Digits := 8; v_Period := 30; v_Window := 1;
     v_TimeUnix := Some 65 |}.

Definition sampleModule : module (X := unit) :=
  {| m_world := rfc_world; allocBuf := objectText (verifyRequest sampleVerify); resultBuf := [] |}.

Lemma wasmVerify_spec_witness :
  exists m', @wasmVerify unit Sha.suite first_idle sampleErrors 0
      (Z.of_nat (length (objectText (verifyRequest sampleVerify)))) sampleModule = (Ret 0, m') /\
    resultBuf m' = verifyOut true.
Proof.
  destruct (@wasmVerify_spec unit Sha.suite first_idle sampleErrors sampleModule 0
    (Z.of_nat (length (objectText (verifyRequest sampleVerify)))) 65 sampleVerify (rfc6238_key 20) [] [] sha1_New)
    as (valid & m' & E & Hr & Hv); try reflexivity; try (simpl; lia).
  - discriminate.
  - exists m'. split; [exact E|]. rewrite Hr. f_equal. apply Hv. split; [reflexivity|]. exists 1.
    split; [vm_compute; split; discriminate|]. vm_compute. reflexivity.
Defined.
