(* ===== verification/WasmFlow.v ===== *)
(** * The WebAssembly module as its host uses it

    Over the entry points of [Wasm]: every call on a buffer the host has
    allocated returns, with a response or an error text; and the texts fit
    together, from a generated code to its verification. *)
From S2P Require Import Prelude Errors ConstantTime Base32 Base64 Strings Hash Secret Digits.
From S2P Require Import Context Hotp Totp Lifecycle Provisioning Key Json Wasm.

Section flow.
Context {X : Type} `{HashSuite} `{PoolPolicy} `{JsonErrors} `{UnicodeTables}.
Abbreviation W := (world X).
Abbreviation module := (@module X).

(** ** Every call returns *)

(** The call returns 0 with a response of [ok], or 1 with an error text, and
    leaves the input buffer alone. *)
Definition answers (ok : bytes -> Prop) (m : GoM module Z) : Prop := forall s,
  exists rc s', m s = (Ret rc, s') /\ allocBuf s' = allocBuf s /\
    (rc = 0 /\ ok (resultBuf s') \/ rc = 1 /\ exists msg, resultBuf s' = errOut msg).

Lemma answers_refuse ok msg : answers ok (refuse msg).
Proof. intros s. eexists 1, _. split; [done|]. split; [done|]. right. split; [done|by eexists]. Qed.

Lemma answers_respond (ok : bytes -> Prop) json : ok json -> answers ok (respond json).
Proof. intros Hok s. eexists 0, _. split; [done|]. split; [done|]. by left. Qed.

Lemma answers_decoded ok b64 msg k : (forall b, answers ok (k b)) -> answers ok (decoded b64 msg k).
Proof. intros Hk. unfold decoded. case_match; [done|apply answers_refuse]. Qed.

Lemma answers_gets {A} ok (g : module -> A) k : (forall a, answers ok (k a)) -> answers ok (gets g ≫= k).
Proof. intros Hk s. rewrite run_gets. apply Hk. Qed.

Lemma answers_orRefuse {A} ok (Q : A -> Prop) (m : GoM W A) k :
  (forall w, match (m w).1 with Ret a => Q a | Err _ => True | Panic => False end) ->
  (forall a, Q a -> answers ok (k a)) -> answers ok (orRefuse m k).
Proof.
  intros Hm Hk s. specialize (Hm (m_world s)). unfold orRefuse.
  destruct (m (m_world s)) as [[a|e|] w]; [|exact (answers_refuse ok _ (set_world w s))|done].
  destruct (Hk a Hm (set_world w s)) as (rc & s' & E & Ha & Hr). by exists rc, s'.
Qed.

(** The local object of a request is well typed, so its methods are safe. *)
Lemma localTOTP_typed key alg d per (w : W) :
  match (localTOTP key alg d per w).1 with
  | Ret t => forall w', totp_typed d (w', t) | Err _ => True | Panic => False end.
Proof.
  unfold localTOTP. destruct (alloc_run key w) as (l & E & _). rewrite (run_bind _ _ _ _ _ E).
  set (w1 := set_heap _ w). unfold NewTOTP.
  destruct (newTOTPWithRuntime (newStaticSecretRuntime (Some l)) (parseAlgo alg) d per w1) as [[t|e|] w2] eqn:En;
    simpl; [|done|].
  - intros w'. destruct (newTOTP_typed _ _ _ _ _ _ _ En) as [Ht Hp]; [by right|by split|by split].
  - revert En. unfold newTOTPWithRuntime. destruct (_ || _); [done|]. destruct (per =? 0); [done|].
    rewrite run_gets. destruct (_ && _); [done|]. by destruct (hashFuncFor _).
Qed.

Lemma onLocal_safe {A} d (Q : A -> Prop) (m : GoM (W * TOTP X) A) t w :
  safe (totp_typed d) Q m -> totp_typed d (w, t) ->
  match (onLocal m t w).1 with Ret a => Q a | Err _ => True | Panic => False end.
Proof.
  intros Hm Ht. destruct (Hm (w, t) Ht) as [_ Ho]. unfold onLocal.
  by destruct (m (w, t)) as [o [w' t']].
Qed.

(** *** The entry points, past the slice of the input *)
Definition generated (out : bytes) : Prop :=
  exists c e d, out = generateOut c e /\ 6 <= d <= 8 /\ isCode d c.
Definition verified (out : bytes) : Prop := exists b, out = verifyOut b.
Definition contextBuilt (out : bytes) : Prop :=
  exists b64 ctx, out = buildContextOut b64 /\ StdEncoding_DecodeString b64 = Some ctx.

(** In range the input is read; past the end of the buffer Go panics. *)
Lemma answers_input ok (k : bytes -> GoM module Z) inputLen s :
  (forall inp, answers ok (k inp)) ->
  if decide (inputLen <= Z.of_nat (length (allocBuf s))) then
    exists rc s', (input inputLen ≫= k) s = (Ret rc, s') /\ allocBuf s' = allocBuf s /\
      (rc = 0 /\ ok (resultBuf s') \/ rc = 1 /\ exists msg, resultBuf s' = errOut msg)
  else (input inputLen ≫= k) s = (Panic, s).
Proof.
  intros Hk. case_decide as Hl; [rewrite input_run by done; apply Hk|].
  unfold mbind, M_bind, input. by rewrite (proj2 (Z.leb_gt _ _)) by lia.
Qed.

(** *** The entry points *)
Definition returns (ok : bytes -> Prop) (inputLen : Z) (m : GoM module Z) (s : module) : Prop :=
  if decide (inputLen <= Z.of_nat (length (allocBuf s))) then
    exists rc s', m s = (Ret rc, s') /\ allocBuf s' = allocBuf s /\
      (rc = 0 /\ ok (resultBuf s') \/ rc = 1 /\ exists msg, resultBuf s' = errOut msg)
  else m s = (Panic, s).

Lemma generate_returns inputPtr inputLen s : returns generated inputLen (wasmGenerate inputPtr inputLen) s.
Proof.
  apply answers_input. intros inp.
  destruct (unmarshal generateFields zeroGenerate inp) as [req|]; [|apply answers_refuse].
  apply answers_decoded. intros secret. eapply answers_orRefuse; [apply localTOTP_typed|]. intros t Ht.
  assert (Hk : forall ctx k, (forall c, isCode (g_Digits req) c -> answers generated (k c)) ->
    answers generated (orRefuse (onLocal (Totp.GenBound ctx (g_TimeUnix req)) t) k)).
  { intros ctx k Hk. eapply answers_orRefuse; [|exact Hk].
    intros w. exact (onLocal_safe _ _ _ _ _ (totp_generate_safe _ _ _) (Ht w)). }
  assert (Hfin : forall c, isCode (g_Digits req) c -> answers generated
    (now ← gets (fun m => match g_TimeUnix req with
                          | Some t => t
                          | None => u64 (unixSeconds (w_now (m_world m))) end);
     respond (generateOut c (u64 (u64 (now / g_Period req + 1) * g_Period req))))).
  { intros c Hc. apply answers_gets. intros now. apply answers_respond.
    destruct (Ht (m_world s)) as [[] _]. by eexists _, _, _. }
  destruct (negb (bool_decide (g_Context req = []))); [|exact (Hk None _ Hfin)].
  apply answers_decoded. intros ctx. exact (Hk _ _ Hfin).
Qed.

Lemma verify_returns inputPtr inputLen s : returns verified inputLen (wasmVerify inputPtr inputLen) s.
Proof.
  apply answers_input. intros inp.
  destruct (unmarshal verifyFields zeroVerify inp) as [req|]; [|apply answers_refuse].
  apply answers_decoded. intros secret. eapply answers_orRefuse; [apply localTOTP_typed|]. intros t Ht.
  assert (Hk : forall ctx f, answers verified
    (orRefuse (onLocal (Totp.VerifyBound (v_Code req) ctx (v_TimeUnix req) (v_Window req)) t)
       (fun valid => respond (verifyOut (f valid))))).
  { intros ctx f. eapply answers_orRefuse.
    - intros w. exact (onLocal_safe _ _ _ _ _ (totp_verify_safe _ _ _ _ _) (Ht w)).
    - intros b _. apply answers_respond. by eexists. }
  destruct (negb _ || negb _); [|exact (Hk None (fun b => b))].
  apply answers_decoded. intros issued. apply answers_decoded. intros request. exact (Hk _ _).
Qed.

Lemma buildContext_returns inputPtr inputLen s :
  returns contextBuilt inputLen (wasmBuildContext inputPtr inputLen) s.
Proof.
  apply answers_input. intros inp.
  destruct (unmarshal contextFields zeroContext inp) as [req|]; [|apply answers_refuse].
  apply answers_respond. eexists _, _. split; [done|]. apply StdEncoding_roundtrip.
Qed.

End flow.

(** ** A host's calls *)
Section host.
Context {X : Type} `{HashSuite} `{PoolPolicy} `{JsonErrors} `{Placement} `{UnicodeTables}.
Abbreviation W := (world X).
Abbreviation module := (@module X).

(** [alloc], writing the request into the buffer, the call, and reading the
    result. *)
Definition hostCall (f : Z -> Z -> GoM module Z) (text : bytes) : GoM module (Z * bytes) :=
  ptr ← wasmAlloc (Z.of_nat (length text));
  _ ← modify (set_alloc text);
  rc ← f ptr (Z.of_nat (length text));
  out ← gets resultBuf;
  mret (rc, out).

Lemma hostCall_run f text (s : module) out :
  (forall ptr s0, allocBuf s0 = text -> exists s1,
     f ptr (Z.of_nat (length text)) s0 = (Ret 0, s1) /\ resultBuf s1 = out) ->
  exists s2, hostCall f text s = (Ret (0, out), s2).
Proof.
  intros Hf. unfold hostCall. unfold wasmAlloc, mbind, M_bind, modify. cbn [mret M_ret].
  match goal with |- context [f ?ptr _ ?s0] => destruct (Hf ptr s0 eq_refl) as (s2 & E & Hr) end.
  exists s2. rewrite E. unfold gets. by rewrite Hr.
Qed.

(** The JSON object of a generate request. *)
Definition generateRequest (r : generateIn) : list (bytes * scalar) :=
  [(lit "secret", SStr (g_Secret r)); (lit "context", SStr (g_Context r)); (lit "algorithm", SStr (g_Algorithm r));
   (lit "digits", SNum (g_Digits r)); (lit "period", SNum (g_Period r)); (lit "time_unix", time_scalar (g_TimeUnix r))].

Lemma unmarshal_generateRequest r :
  object_ok (generateRequest r) -> 0 <= g_Digits r < 2 ^ 32 -> 0 <= g_Period r < 2 ^ 64 ->
  match g_TimeUnix r with Some t => 0 <= t < 2 ^ 64 | None => True end ->
  unmarshal generateFields zeroGenerate (objectText (generateRequest r)) = Some r.
Proof.
  intros Hok Hd Hp Ht. rewrite unmarshal_object by done. unfold generateRequest.
  pose proof (ParseUint_FormatUint (g_Digits r) 32 ltac:(lia) ltac:(lia)) as Ed.
  pose proof (ParseUint_FormatUint (g_Period r) 64 Hp ltac:(lia)) as Ep.
  destruct r as [sec ctx alg d p t]; cbn [g_Secret g_Context g_Algorithm g_Digits g_Period g_TimeUnix] in *.
  destruct t as [t|]; cbn [time_scalar].
  - pose proof (ParseUint_FormatUint t 64 Ht ltac:(lia)) as Et.
    cbv -[ParseUint FormatUint]. rewrite Ed. cbv -[ParseUint FormatUint]. rewrite Ep.
    cbv -[ParseUint FormatUint]. by rewrite Et.
  - cbv -[ParseUint FormatUint]. rewrite Ed. cbv -[ParseUint FormatUint]. by rewrite Ep.
Qed.

Lemma code_ascii d c : isCode d c -> isASCII c = true.
Proof.
  intros [_ Hc]. apply forallb_forall. intros b Hb%list_elem_of_In.
  pose proof (proj1 (Forall_forall _ _) Hc b Hb) as Hr. simpl in Hr. lia.
Qed.

Lemma otp_code_isCode fn key d counter ctx : 0 <= d -> isCode d (otp_code fn key d counter ctx).
Proof. apply dec_digits_isCode. Qed.

Lemma std_ascii b : isASCII (StdEncoding_EncodeToString b) = true.
Proof. apply std_chars_ascii. Qed.

(** ** Properties *)


(** Requests of a host for a key, contexts and parameters. *)
Definition generateFor (key ctx alg : bytes) (d per t : Z) : generateIn :=
  {| g_Secret := StdEncoding_EncodeToString key; g_Context := StdEncoding_EncodeToString ctx;
     g_Algorithm := alg; g_Digits := d; g_Period := per; g_TimeUnix := Some t |}.
Definition verifyFor (code key issued request alg : bytes) (d per window t : Z) : verifyIn :=
  {| v_Code := code; v_Secret := StdEncoding_EncodeToString key;
     v_IssuedContext := StdEncoding_EncodeToString issued; v_RequestContext := StdEncoding_EncodeToString request;
     v_Algorithm := alg; v_Digits := d; v_Period := per; v_Window := window; v_TimeUnix := Some t |}.

Lemma generateFor_ok key ctx alg d per t :
  isASCII alg = true -> 0 <= d < 2 ^ 64 -> 0 <= per < 2 ^ 64 -> 0 <= t < 2 ^ 64 ->
  object_ok (generateRequest (generateFor key ctx alg d per t)).
Proof. intros. repeat (constructor; [split; [reflexivity|]|]); simpl; try apply std_ascii; done. Qed.

Lemma verifyFor_ok code key issued request alg d per window t :
  isASCII code = true -> isASCII alg = true -> 0 <= d < 2 ^ 64 -> 0 <= per < 2 ^ 64 -> 0 <= window < 2 ^ 64 ->
  0 <= t < 2 ^ 64 -> object_ok (verifyRequest (verifyFor code key issued request alg d per window t)).
Proof. intros. repeat (constructor; [split; [reflexivity|]|]); simpl; try apply std_ascii; done. Qed.

Section session.
Context (key alg : bytes) (d per : Z) (fn : hashFn).
Context (Hk : key <> []) (Halg : isASCII alg = true) (Hfn : hashFuncFor (parseAlgo alg) = Some fn).
Context (Hd : 6 <= d <= 8) (Hp : 0 < per).

Lemma take_text (text : bytes) : take (Z.to_nat (Z.of_nat (length text))) text = text.
Proof. by rewrite Nat2Z.id, firstn_all. Qed.

Lemma host_generates (s : module) ctx t :
  0 <= t -> (t / per + 1) * per < 2 ^ 64 ->
  exists s', hostCall wasmGenerate (objectText (generateRequest (generateFor key ctx alg d per t))) s =
    (Ret (0, generateOut (otp_code fn key d (t / per) ctx) ((t / per + 1) * per)), s').
Proof.
  intros Ht Htop. assert (Hq : 0 <= t / per) by (apply Z.div_pos; lia).
  pose proof (Z.div_mod t per ltac:(lia)). pose proof (Z.mod_pos_bound t per Hp).
  apply hostCall_run. intros ptr s0 Ha.
  destruct (wasmGenerate_spec s0 ptr (Z.of_nat (length (allocBuf s0))) t (generateFor key ctx alg d per t) key ctx fn)
    as ((m' & E & Hr) & _); try done; try apply StdEncoding_roundtrip.
  - rewrite take_text, Ha. apply unmarshal_generateRequest; [apply generateFor_ok|..]; simpl; nia || done.
  - rewrite Ha in E. by exists m'.
Qed.

Lemma host_verifies (s : module) code issued request window t c :
  isCode d code -> 0 <= window <= 1000 -> 0 <= t < 2 ^ 64 -> t / per + window < 2 ^ 64 -> per < 2 ^ 64 ->
  0 <= c -> Z.abs (c - t / per) <= window -> code = otp_code fn key d c issued ->
  exists s', hostCall wasmVerify
      (objectText (verifyRequest (verifyFor code key issued request alg d per window t))) s =
    (Ret (0, verifyOut (bool_decide (issued = request))), s').
Proof.
  intros Hcode Hw Ht Htop Hp' Hc Hfar Heq. pose proof (code_ascii d code Hcode) as Hascii.
  apply hostCall_run. intros ptr s0 Ha.
  destruct (wasmVerify_run s0 ptr (Z.of_nat (length (allocBuf s0))) t
    (verifyFor code key issued request alg d per window t) key issued request fn)
    as (b & m' & E & Hr & Hb); try done; try apply StdEncoding_roundtrip; try apply Ht.
  - rewrite take_text, Ha. apply unmarshal_verifyRequest; [apply verifyFor_ok|]; unfold verify_sized; simpl; lia || done.
  - destruct Hcode as [Hl _]. simpl. lia.
  - rewrite Ha in E. exists m'. split; [done|]. rewrite Hr.
    assert (b = true) as -> by (apply Hb; exists c; split; [simpl; lia|done]). done.
Qed.
End session.

(** C39: the module's two ends meet.  A code generated for a secret and
    a context in base64, read out of the response, verifies with the same
    parameters at any time whose step is at most [window] away; with another
    request context the same code is refused.  All of it from JSON text to
    JSON text. *)
Theorem wasm_session_roundtrip (s : module) (key issued request alg : bytes) (d per t t' window : Z)
    (Hk : key <> []) (Halg : isASCII alg = true) (Hd : 6 <= d <= 8) (Hp : 0 < per) (Hw : 0 <= window <= 1000)
    (Ht : 0 <= t) (Ht' : 0 <= t' < 2 ^ 64) (Hfar : Z.abs (t / per - t' / per) <= window)
    (Htop : (t / per + 1) * per < 2 ^ 64) (Htop' : t' / per + window < 2 ^ 64) :
  exists code e s1 s2,
    hostCall wasmGenerate (objectText (generateRequest (generateFor key issued alg d per t))) s
    = (Ret (0, generateOut code e), s1) /\
    parseJson (generateOut code e) = Some (JObj [(lit "code", JStr code); (lit "expires_at", JNum (FormatUint e))]) /\
    hostCall wasmVerify (objectText (verifyRequest (verifyFor code key issued request alg d per window t'))) s1
    = (Ret (0, verifyOut (bool_decide (issued = request))), s2).
Proof.
  destruct (parseAlgo_hash alg) as [fn Hfn]. assert (Hq : 0 <= t / per) by (apply Z.div_pos; lia).
  pose proof (otp_code_isCode fn key d (t / per) issued ltac:(lia)) as Hcode.
  destruct (host_generates key alg d per fn Hk Halg Hfn Hd Hp s issued t Ht Htop) as [s1 E1].
  destruct (host_verifies key alg d per fn Hk Halg Hfn Hd Hp s1 _ issued request window t' (t / per) Hcode)
    as [s2 E2]; [done|done|done|nia|done|done|done|].
  eexists _, _, s1, s2. split; [done|]. split; [|done].
  apply parse_object. repeat (constructor; [split; [reflexivity|]|]); simpl; [|nia|constructor].
  exact (code_ascii d _ Hcode).
Qed.
End host.

Lemma wasm_session_roundtrip_witness :
  exists code e s1 s2,
    @hostCall unit samplePlacement (@wasmGenerate unit Sha.suite first_idle sampleErrors)
      (objectText (generateRequest (generateFor (rfc6238_key 20) (lit "ip") (lit "SHA256") 6 30 59)))
      sampleModule = (Ret (0, generateOut code e), s1) /\
    @hostCall unit samplePlacement (@wasmVerify unit Sha.suite first_idle sampleErrors)
      (objectText (verifyRequest (verifyFor code (rfc6238_key 20) (lit "ip") (lit "device") (lit "SHA256") 6 30 1 89))) s1
    = (Ret (0, verifyOut false), s2).
Proof.
  destruct (@wasm_session_roundtrip unit Sha.suite first_idle sampleErrors samplePlacement sampleModule (rfc6238_key 20)
    (lit "ip") (lit "device") (lit "SHA256") 6 30 59 89 1) as (code & e & s1 & s2 & E1 & _ & E2);
    [discriminate|reflexivity|lia|lia|lia|lia|lia|vm_compute; congruence|reflexivity|reflexivity|].
  exists code, e, s1, s2. split; [exact E1|]. rewrite E2. reflexivity.
Defined.
